(* ===== verification/_CoqProject ===== *)
-Q . S2P
Prelude.v
Bytes.v
Text.v
Error.v
Types.v
Encoding.v
Backend.v
Storage.v
Float.v
Rounding.v
Protocol.v
Context.v
Keyspace.v
Paging.v
StringCmd.v
Locks.v
HashCmd.v
ListCmd.v
SetCmd.v
BitmapCmd.v
Score.v
ZSetCmd.v
ZSetIndex.v
ZSetProps.v
ZSetWrites.v
StreamCmd.v
StreamProps.v
PubSub.v
Cluster.v
Config.v
Admin.v
ThreadPool.v
Lua.v
Readers.v
Dispatch.v
WrongType.v
Atomic.v
Frame.v
StoreSpec.v
Store.v
Benchmark.v
Startup.v
Server.v
Linear.v
