(* ===== verification/Prelude.v ===== *)
(** * kvdb.rs: a verification of the server

    kvdb.rs is a key-value server that speaks the Redis protocol and keeps its
    data in RocksDB. This library models the program file by file as executable
    functions and proves what makes each part correct. Paths are those of the
    repository (src/...).

    ** The program and where it is modelled

    A connection reads bytes (src/server.rs), parses commands
    (src/protocol.rs), and hands each command to a pool of threads
    (src/thread_pool.rs), where the command table (src/cmd/mod.rs) finds its
    handler (src/cmd/*.rs). A handler encodes keys and values
    (src/encoding.rs, src/types.rs), reads and writes column families through
    the storage engine (src/storage.rs), and returns a reply or an error
    (src/error.rs). Other shared state: the publish/subscribe hub
    (src/pubsub.rs), the script engine (src/lua.rs), the cluster and
    replication states (src/cluster.rs, src/replication.rs), and the
    configuration (src/config.rs), which the management interface
    (src/http_server.rs) can change. A load generator (src/benchmark.rs)
    drives the same command table, or a server over TCP, and reports latencies.

    - [Prelude], [Bytes], [Text], [Float], [Rounding]: machine integers, byte
      strings and their order, UTF-8 and numbers as text, binary64 floats, as
      Rust's standard library defines them, and the error of their rounding.
    - [Error]: [KvdbError], outcomes (value, error, panic) and the state monad
      [M] of the handlers; [readonly] computations.
    - [Types], [Encoding]: src/types.rs and src/encoding.rs.
    - [Backend]: the class [RocksDB] of what the library promises, and [MemDB],
      an executable instance. [Storage]: src/storage.rs over that class.
    - [Protocol]: src/protocol.rs. [Context]: the context of src/cmd/mod.rs.
    - [Keyspace], [Paging]: facts the handlers share (which database keys belong
      to a user key; loops over pages).
    - [StringCmd], [HashCmd], [ListCmd], [SetCmd], [BitmapCmd]: the modules of
      src/cmd of these names, definitions first, then their properties.
    - [Locks]: INCR, DECR and APPEND as programs of single database operations
      on threads that share the key locks of src/storage.rs.
    - [Score], [ZSetCmd], [ZSetIndex], [ZSetProps], [ZSetWrites]: src/cmd/zset.rs;
      [StreamCmd], [StreamProps]: src/cmd/stream.rs.
    - [PubSub]: src/pubsub.rs and src/cmd/pubsub.rs; [Cluster]: src/cluster.rs and
      src/cmd/cluster.rs; [Config]: src/config.rs, the handlers of
      src/http_server.rs and the options src/storage.rs gives to RocksDB; [Admin]: src/replication.rs and src/cmd/admin.rs.
    - [ThreadPool]: src/thread_pool.rs as a step relation.
    - [Lua]: the values of src/lua.rs; [Dispatch]: the shared state, the command
      table, EVAL and EVALSHA (src/cmd/lua.rs, src/lua.rs); [Readers]: the
      commands that only read. [WrongType]: what the typed commands of the
      table do on a key of another type. [Atomic]: how often a command writes;
      [Frame]: which keys it writes.
    - [StoreSpec], [Store]: an abstract store of strings, hashes, lists, sets,
      sorted sets and bitmaps with the requests of the clients, and the command
      table as its implementation.
    - [Server]: src/server.rs, against the class [CommandService], which
      [Dispatch] implements. [Linear]: the server as an implementation of the
      abstract store.
    - [Benchmark]: src/benchmark.rs, its worker threads as a step relation.
    - [Startup]: src/cli.rs and src/bin/benchmark.rs, from the parsed command line
      to the first request.

    ** How the code is modelled

    A handler is a function [CommandContext -> list bytes -> M DB RespValue]:
    it takes the database and returns the outcome and the database it leaves,
    also after an error. Integers are [Z] in the range of their Rust type;
    arithmetic that the code does not check goes through [arith_i64] and
    [arith_u64], which panic when the build checks overflow ([checks]) and wrap
    around otherwise. Indexing and slicing out of range is [Panic]. Loops that
    are not structural carry fuel: the parser the length of its input, the page
    loops the number of entries under the prefix, the connection loop the length
    of its buffer, each with a theorem that the fuel is enough; only scripts can
    run for ever, and there more fuel never changes a result.

    Assumptions: a command reads the clock and the random numbers once, and
    its accesses to shared state are one step, which the thread pool justifies
    for the server (its workers hold a mutex while they run a job); [Locks]
    drops this assumption for the commands that take a key lock, and lets other
    threads run between any two of their database operations. Each
    operation of the publish/subscribe hub is one step. The iteration order of
    hash maps and hash sets is a parameter. Third-party code (RocksDB, the Lua
    interpreter, SHA-1, CRC-16, the TOML and YAML parsers, the size of memory)
    is a parameter or a class with the laws the code relies on, and a concrete
    instance on which the theorems are applied. Failing allocations and the
    depth of the stack are not modelled.

    ** What the theorems show

    - Encodings: keys, metadata, strings, scores, stream entries and RESP
      messages are read back from their images; a prefix scan of a key meets
      its own subkeys only; the order of score and index images is the
      numeric order.
    - Storage: reading page by page equals one scan; delete_prefix removes
      exactly the prefix.
    - Handlers: on a key that represents an abstract value (a string, a finite
      map, a list, a set, a number, a map of scores, a list of entries) and has
      not expired, each command replies and leaves what the operation on the
      abstract value says, with the errors it means to give, and touches no
      other key. The options of SET, ZADD and the ranges by score are specified
      by the lists of options they spell, not by the functions that read them.
    - Store: sessions of any number of clients through the command table reply
      and leave what the abstract store does, whatever the keys hold. The
      clients have no namespace and set no expiry, every value has fewer than
      2^61 elements (an index of a list then stays within [i64]), and the
      versions the requests draw are different, which [generate_version] makes
      likely and does not guarantee.
    - Linearizability: under every interleaving of connections, the replies of
      the server are those of one history of the abstract store.
    - Atomicity: a command other than DEL, FLUSHDB and the scripts writes one
      batch at most, and none when it fails.
    - Hub, cluster, configuration, administration: the hub refines a relation
      between channels and clients and keeps its invariant; the slot ranges are
      exact; every configuration that is ever current respects the limits for
      the memory of the machine, and requests are accepted exactly when they do;
      DBSIZE counts the unexpired keys and FLUSHDB empties one namespace.
    - Table and scripts: reading commands change nothing, writing commands only
      the entries of the keys they name, unknown names are refused, and the
      script cache is consistent through nested scripts.
    - Errors: on a key that holds another type, each typed command replies
      WRONGTYPE and changes nothing, unless it refuses its arguments on every
      database; only LPOP and RPOP with the count 0 are excepted.
    - Key locks: every interleaving of INCR, DECR and APPEND is equivalent to
      running them one after the other, and never deadlocks.
    - Pool: jobs run one at a time in the order of submission, the workers
      terminate, and every waiting task is woken.
    - Server: the replies do not depend on how the input is cut into chunks; a
      transaction does what its commands do in sequence; EXEC runs when nothing
      of the watched keys has changed and is refused when their metadata, which
      for strings is the value, has;
      under every interleaving each command gets its one reply in order.
    - Load generator: whatever the interleaving of its threads, the report
      counts the calls and failures and its percentiles are latencies at the
      ranks nearest to the fractions asked for. The bound of 2^41 samples keeps
      the error of the floating-point rank below the distance to the next rank.
    - Start: a server that starts has a configuration within its limits and a
      database with all column families, which the theorems on the commands
      assume; the load generator reads back every list of commands.
    - Some examples and theorems record behaviour that the code or its comments
      do not intend (a panicking job stops the pool, EXEC is not isolated, EXPIRE
      forgets the last ID of a stream, and others).

    ** Not modelled

    The parsing of arguments by clap, and src/main.rs and src/lib.rs, which only
    call and declare; sockets (what is read and written, and failures, are
    steps of [Server]), HTTP routing and JSON; checkpoint, repair and flush of src/storage.rs, which only call
    RocksDB, and its I/O errors; the text of the load generator's report; cyclic
    Lua tables. *)

From stdpp Require Export base tactics list gmap numbers.
From Stdlib Require Export ZArith Lia.


Declare Scope kv_scope.
Delimit Scope kv_scope with kv.
Local Open Scope Z_scope.

Create HintDb kv.
Create Rewrite HintDb kv.
#[export] Hint Constants Transparent : kv.

(** ** Automation *)

(** Case analysis on the scrutinee of a [match] or [if] of the goal, and the
    same for a hypothesis. *)
Ltac case_goal :=
  match goal with
  | |- context [match ?x with _ => _ end] =>
      lazymatch x with
      | context [match _ with _ => _ end] => fail
      | _ => destruct x eqn:?
      end
  end.

Ltac case_hyp H :=
  match type of H with
  | context [match ?x with _ => _ end] =>
      lazymatch x with
      | context [match _ with _ => _ end] => fail
      | _ => destruct x eqn:?
      end
  end.

(** Boolean tests on integers turned into the propositions they decide. *)
Ltac zbool :=
  repeat match goal with
  | H : (_ <? _)%Z = true |- _ => apply Z.ltb_lt in H
  | H : (_ <? _)%Z = false |- _ => apply Z.ltb_ge in H
  | H : (_ <=? _)%Z = true |- _ => apply Z.leb_le in H
  | H : (_ <=? _)%Z = false |- _ => apply Z.leb_gt in H
  | H : (_ =? _)%Z = true |- _ => apply Z.eqb_eq in H
  | H : (_ =? _)%Z = false |- _ => apply Z.eqb_neq in H
  | H : (_ >? _)%Z = true |- _ => apply Z.gtb_lt in H
  | H : (_ >? _)%Z = false |- _ => apply Z.gtb_ltb in H
  | H : (_ && _)%bool = true |- _ => apply andb_true_iff in H as [? ?]
  | H : (_ || _)%bool = false |- _ => apply orb_false_iff in H as [? ?]
  | H : negb _ = true |- _ => apply negb_true_iff in H
  | H : negb _ = false |- _ => apply negb_false_iff in H
  end.

(** ** Machine integers

    A Rust integer of width [w] is a [Z]; the wrap-around of an overflowing
    operation is written out with these functions. *)

Definition u8_max : Z := 2 ^ 8 - 1.
Definition u64_max : Z := 2 ^ 64 - 1.
Definition i64_min : Z := - 2 ^ 63.
Definition i64_max : Z := 2 ^ 63 - 1.

Definition is_u8 (z : Z) : bool := (0 <=? z) && (z <=? u8_max).
Definition is_u16 (z : Z) : bool := (0 <=? z) && (z <=? 2 ^ 16 - 1).
Definition is_u32 (z : Z) : bool := (0 <=? z) && (z <=? 2 ^ 32 - 1).
Definition is_u64 (z : Z) : bool := (0 <=? z) && (z <=? u64_max).
Definition is_i64 (z : Z) : bool := (i64_min <=? z) && (z <=? i64_max).

Definition wrap_u8 (z : Z) : Z := z mod 2 ^ 8.
Definition wrap_u32 (z : Z) : Z := z mod 2 ^ 32.
Definition wrap_u64 (z : Z) : Z := z mod 2 ^ 64.

(** [as i64]: two's complement reading of the low 64 bits. *)
Definition wrap_i64 (z : Z) : Z :=
  let u := z mod 2 ^ 64 in if u <? 2 ^ 63 then u else u - 2 ^ 64.

(** [Vec::with_capacity(n)] panics when [n] elements of [elem_size] bytes
    exceed [isize::MAX] bytes. *)
Definition capacity_overflow (elem_size n : Z) : bool := i64_max <? n * elem_size.

Lemma is_u64_spec z : is_u64 z = true <-> 0 <= z < 2 ^ 64.
Proof. unfold is_u64, u64_max. lia. Qed.

Lemma is_u32_spec z : is_u32 z = true <-> 0 <= z < 2 ^ 32.
Proof. unfold is_u32. lia. Qed.

Lemma is_i64_spec z : is_i64 z = true <-> - 2 ^ 63 <= z < 2 ^ 63.
Proof. unfold is_i64, i64_min, i64_max. lia. Qed.

Lemma wrap_i64_id z : is_i64 z = true -> wrap_i64 z = z.
Proof.
  rewrite is_i64_spec. intros H. unfold wrap_i64. cbv zeta.
  destruct (decide (0 <= z)).
  - rewrite Z.mod_small by lia. destruct (z <? 2 ^ 63) eqn:?; zbool; lia.
  - replace (z mod 2 ^ 64) with (z + 2 ^ 64)
      by (apply Z.mod_unique with (-1); lia).
    destruct (z + 2 ^ 64 <? 2 ^ 63) eqn:?; zbool; lia.
Qed.

Lemma wrap_u64_id z : is_u64 z = true -> wrap_u64 z = z.
Proof. rewrite is_u64_spec. intros. apply Z.mod_small. lia. Qed.

Lemma wrap_u64_range z : is_u64 (wrap_u64 z) = true.
Proof. apply is_u64_spec, Z.mod_pos_bound. lia. Qed.

Lemma wrap_i64_range z : is_i64 (wrap_i64 z) = true.
Proof.
  apply is_i64_spec. unfold wrap_i64. cbv zeta.
  pose proof (Z.mod_pos_bound z (2 ^ 64)). destruct (_ <? _) eqn:?; zbool; lia.
Qed.

Lemma wrap_i64_mod z : wrap_i64 (z mod 2 ^ 64) = wrap_i64 z.
Proof. unfold wrap_i64. cbv zeta. rewrite Z.mod_mod by lia. done. Qed.

Lemma wrap_u64_wrap_i64 z : wrap_u64 (wrap_i64 z) = wrap_u64 z.
Proof.
  unfold wrap_i64, wrap_u64. cbv zeta. destruct (_ <? _).
  - by rewrite Z.mod_mod by lia.
  - replace (z mod 2 ^ 64 - 2 ^ 64) with (z mod 2 ^ 64 + (-1) * 2 ^ 64) by lia.
    rewrite Z.mod_add by lia. by rewrite Z.mod_mod by lia.
Qed.

#[export] Hint Rewrite wrap_i64_mod wrap_u64_wrap_i64 : kv.
#[export] Hint Resolve wrap_u64_range wrap_i64_range : kv.

(** ** Lists *)

Lemma list_filter_ext {A} (P Q : A -> Prop) `{!forall x, Decision (P x), !forall x, Decision (Q x)}
    (l : list A) :
  (forall x, x ∈ l -> (P x <-> Q x)) -> filter P l = filter Q l.
Proof.
  induction l as [|x l IH]; intros Hiff; [done|]. rewrite !filter_cons, IH
    by (intros y Hy; apply Hiff; by right).
  pose proof (Hiff x ltac:(by left)). by repeat case_decide; try tauto.
Qed.

Lemma filter_all {A} (P : A -> Prop) `{!forall x, Decision (P x)} (l : list A) :
  (forall x, x ∈ l -> P x) -> filter P l = l.
Proof.
  induction l as [|x l IH]; intros HP; [done|]. rewrite filter_cons, decide_True by (apply HP; by left).
  f_equal. apply IH. intros y Hy. apply HP. by right.
Qed.

Lemma filter_none {A} (P : A -> Prop) `{!forall x, Decision (P x)} (l : list A) :
  (forall x, x ∈ l -> ~ P x) -> filter P l = [].
Proof.
  induction l as [|x l IH]; intros HP; [done|]. rewrite filter_cons, decide_False by (apply HP; by left).
  apply IH. intros y Hy. apply HP. by right.
Qed.

Lemma NoDup_fst_filter {A B} (P : A * B -> Prop) `{!forall p, Decision (P p)} (l : list (A * B)) :
  NoDup l.*1 -> NoDup (filter P l).*1.
Proof.
  induction l as [|[a b] l IH]; [done|]. rewrite filter_cons. cbn [fmap list_fmap fst]. inversion 1 as [|? ? Ha Hn]; subst.
  case_decide; [|by apply IH]. cbn. constructor; [|by apply IH].
  intros (p & -> & [_ Hp]%list_elem_of_filter)%list_elem_of_fmap. apply Ha, list_elem_of_fmap. by exists p.
Qed.
