(* ===== verification/Bytes.v ===== *)
(** * Byte strings

    [Vec<u8>] and [&[u8]] as lists of [Byte.byte]: the big-endian images of
    integers ([to_be_bytes] / [from_be_bytes]), prefixes, and the bytewise
    lexicographic order RocksDB keeps its keys in. *)

From S2P Require Import Prelude.
From stdpp Require Export strings.
From Stdlib Require Strings.Byte.

Local Open Scope Z_scope.

Abbreviation byte := Byte.byte.
Abbreviation bytes := (list Byte.byte).

#[export] Instance byte_eq_decision : EqDecision byte := Byte.byte_eq_dec.
#[export] Instance byte_countable : Countable byte :=
  inj_countable Byte.to_N Byte.of_N Byte.of_to_N.

Definition byte_to_Z (b : byte) : Z := Z.of_N (Byte.to_N b).

(** [z as u8]. *)
Definition byte_of_Z (z : Z) : byte :=
  match Byte.of_N (Z.to_N (z mod 2 ^ 8)) with Some b => b | None => Byte.x00 end.

(** A Rust byte-string literal. *)
Definition bs (s : string) : bytes := String.list_byte_of_string s.

Definition blen (l : bytes) : Z := Z.of_nat (length l).

Lemma byte_to_Z_range b : 0 <= byte_to_Z b < 2 ^ 8.
Proof. destruct b; vm_compute; split; congruence. Qed.

Lemma byte_to_Z_inj a b : byte_to_Z a = byte_to_Z b -> a = b.
Proof.
  unfold byte_to_Z. intros H%N2Z.inj.
  pose proof (Byte.of_to_N a) as Ha. rewrite H, Byte.of_to_N in Ha. congruence.
Qed.

Lemma byte_of_to_Z b : byte_of_Z (byte_to_Z b) = b.
Proof. destruct b; reflexivity. Qed.

Lemma byte_to_of_Z z : byte_to_Z (byte_of_Z z) = z mod 2 ^ 8.
Proof.
  unfold byte_to_Z, byte_of_Z.
  pose proof (Z.mod_pos_bound z (2 ^ 8) ltac:(lia)) as Hr.
  destruct (Byte.of_N (Z.to_N (z mod 2 ^ 8))) as [b|] eqn:E.
  - apply Byte.to_of_N in E. rewrite E. rewrite Z2N.id; lia.
  - apply Byte.of_N_None_iff in E. lia.
Qed.

Lemma byte_to_of_Z_small z : 0 <= z < 2 ^ 8 -> byte_to_Z (byte_of_Z z) = z.
Proof. intros. rewrite byte_to_of_Z. apply Z.mod_small. lia. Qed.

#[export] Hint Resolve byte_to_Z_range : kv.
#[export] Hint Rewrite byte_of_to_Z byte_to_of_Z : kv.

(** ** Big-endian images *)

Fixpoint be_bytes (n : nat) (z : Z) : bytes :=
  match n with
  | O => []
  | S n' => byte_of_Z (Z.shiftr z (8 * Z.of_nat n')) :: be_bytes n' z
  end.

Definition be_acc (acc : Z) (l : bytes) : Z :=
  fold_left (fun a b => a * 2 ^ 8 + byte_to_Z b) l acc.

Definition from_be (l : bytes) : Z := be_acc 0 l.

(** [i64::from_be_bytes]. *)
Definition i64_from_be (l : bytes) : Z := wrap_i64 (from_be l).

Lemma length_be_bytes n z : length (be_bytes n z) = n.
Proof. induction n; simpl; congruence. Qed.

#[export] Hint Rewrite length_be_bytes : kv.

Lemma pow8_S n : 2 ^ (8 * Z.of_nat (S n)) = 2 ^ 8 * 2 ^ (8 * Z.of_nat n).
Proof. rewrite <- Z.pow_add_r by lia. f_equal. lia. Qed.

Lemma pow8_pos n : 0 < 2 ^ (8 * Z.of_nat n).
Proof. apply Z.pow_pos_nonneg; lia. Qed.

Lemma be_acc_split acc l :
  be_acc acc l = acc * 2 ^ (8 * Z.of_nat (length l)) + from_be l.
Proof.
  unfold from_be. revert acc. induction l as [|b l IH]; intros acc.
  - simpl. lia.
  - change (be_acc acc (b :: l)) with (be_acc (acc * 2 ^ 8 + byte_to_Z b) l).
    change (be_acc 0 (b :: l)) with (be_acc (0 * 2 ^ 8 + byte_to_Z b) l).
    rewrite (IH (acc * 2 ^ 8 + _)), (IH (0 * 2 ^ 8 + _)).
    simpl length. rewrite pow8_S. lia.
Qed.

Lemma from_be_cons b l :
  from_be (b :: l) = byte_to_Z b * 2 ^ (8 * Z.of_nat (length l)) + from_be l.
Proof.
  change (from_be (b :: l)) with (be_acc (0 * 2 ^ 8 + byte_to_Z b) l).
  rewrite be_acc_split. lia.
Qed.

Lemma from_be_bound l : 0 <= from_be l < 2 ^ (8 * Z.of_nat (length l)).
Proof.
  induction l as [|b l IH]; [cbn; lia|].
  rewrite from_be_cons. simpl length. rewrite pow8_S.
  pose proof (byte_to_Z_range b). nia.
Qed.

Lemma from_be_bytes n z : from_be (be_bytes n z) = z mod 2 ^ (8 * Z.of_nat n).
Proof.
  induction n as [|n IH]; [cbn; by rewrite Z.mod_1_r|].
  cbn [be_bytes]. rewrite from_be_cons, IH, length_be_bytes, byte_to_of_Z, pow8_S.
  rewrite Z.shiftr_div_pow2 by lia.
  rewrite (Z.mul_comm (2 ^ 8)).
  rewrite Z.rem_mul_r by (pose proof (pow8_pos n); lia). lia.
Qed.

Lemma be_bytes_mod n z y :
  be_bytes n (y * 2 ^ (8 * Z.of_nat n) + z) = be_bytes n z.
Proof.
  enough (forall m, (m <= n)%nat ->
    be_bytes m (y * 2 ^ (8 * Z.of_nat n) + z) = be_bytes m z) by eauto.
  induction m as [|m IH]; [done|]. intros Hm. cbn [be_bytes].
  f_equal; [|apply IH; lia]. apply byte_to_Z_inj.
  rewrite !byte_to_of_Z, !Z.shiftr_div_pow2 by lia.
  replace (8 * Z.of_nat n)
    with (8 * (Z.of_nat n - Z.of_nat m - 1) + 8 + 8 * Z.of_nat m) by lia.
  rewrite !Z.pow_add_r, !Z.mul_assoc by lia.
  rewrite Z.div_add_l by (pose proof (pow8_pos m); lia).
  rewrite Z.add_comm. apply Z.mod_add. lia.
Qed.

Lemma be_bytes_from n l : length l = n -> be_bytes n (from_be l) = l.
Proof.
  intros <-. induction l as [|b l IH]; [done|].
  cbn [length be_bytes]. rewrite from_be_cons. f_equal.
  - apply byte_to_Z_inj. rewrite byte_to_of_Z, Z.shiftr_div_pow2 by lia.
    rewrite Z.div_add_l by (pose proof (pow8_pos (length l)); lia).
    rewrite Z.div_small by apply from_be_bound.
    pose proof (byte_to_Z_range b). rewrite Z.add_0_r. apply Z.mod_small. lia.
  - by rewrite be_bytes_mod.
Qed.

Lemma be_bytes_inj n a b :
  0 <= a < 2 ^ (8 * Z.of_nat n) -> 0 <= b < 2 ^ (8 * Z.of_nat n) ->
  be_bytes n a = be_bytes n b -> a = b.
Proof.
  intros Ha Hb E%(f_equal from_be). rewrite !from_be_bytes in E.
  by rewrite !Z.mod_small in E by lia.
Qed.

Lemma be_bytes_wrap64 z : be_bytes 8 (wrap_u64 z) = be_bytes 8 z.
Proof.
  unfold wrap_u64. rewrite (Z.div_mod z (2 ^ 64)) at 2 by lia.
  rewrite Z.mul_comm. symmetry. apply (be_bytes_mod 8).
Qed.

Lemma u64_be_roundtrip z : is_u64 z = true -> from_be (be_bytes 8 z) = z.
Proof. rewrite is_u64_spec, from_be_bytes. intros. apply Z.mod_small. lia. Qed.

Lemma u32_be_roundtrip z : is_u32 z = true -> from_be (be_bytes 4 z) = z.
Proof. rewrite is_u32_spec, from_be_bytes. intros. apply Z.mod_small. lia. Qed.

Lemma i64_be_roundtrip z : is_i64 z = true -> i64_from_be (be_bytes 8 z) = z.
Proof.
  intros H. unfold i64_from_be. rewrite from_be_bytes.
  change (8 * Z.of_nat 8) with 64. rewrite wrap_i64_mod. by apply wrap_i64_id.
Qed.

(** ** Prefixes *)

(** [slice::starts_with]. *)
Fixpoint starts_with (p k : bytes) : bool :=
  match p, k with
  | [], _ => true
  | _ :: _, [] => false
  | x :: p', y :: k' => bool_decide (x = y) && starts_with p' k'
  end.

Lemma starts_with_spec p k : starts_with p k = true <-> exists s, k = p ++ s.
Proof.
  revert k. induction p as [|x p IH]; intros k; simpl.
  - naive_solver.
  - destruct k as [|y k]; simpl.
    + split; [done|]. intros [s Hs]. discriminate.
    + rewrite andb_true_iff, IH, bool_decide_eq_true. naive_solver.
Qed.

Lemma starts_with_app p s : starts_with p (p ++ s) = true.
Proof. apply starts_with_spec. eauto. Qed.

Lemma starts_with_trans p q k :
  starts_with p q = true -> starts_with q k = true -> starts_with p k = true.
Proof.
  rewrite !starts_with_spec. intros [s ->] [t ->]. exists (s ++ t).
  by rewrite app_assoc.
Qed.

#[export] Hint Rewrite starts_with_app : kv.
#[export] Hint Resolve starts_with_app : kv.

(** Two prefixes of the same length of one string coincide. *)
Lemma app_prefix_inj {A} (a b s t : list A) :
  length a = length b -> a ++ s = b ++ t -> a = b /\ s = t.
Proof. intros. by apply app_inj_1. Qed.

(** ** The bytewise order *)

Fixpoint bytes_cmp (a b : bytes) : comparison :=
  match a, b with
  | [], [] => Eq
  | [], _ :: _ => Lt
  | _ :: _, [] => Gt
  | x :: a', y :: b' =>
      match Z.compare (byte_to_Z x) (byte_to_Z y) with
      | Eq => bytes_cmp a' b'
      | c => c
      end
  end.

Definition bytes_ltb (a b : bytes) : bool :=
  match bytes_cmp a b with Lt => true | _ => false end.
Definition bytes_leb (a b : bytes) : bool :=
  match bytes_cmp a b with Gt => false | _ => true end.

Definition bytes_lt (a b : bytes) : Prop := bytes_cmp a b = Lt.
Definition bytes_le (a b : bytes) : Prop := bytes_cmp a b <> Gt.

Lemma bytes_cmp_refl a : bytes_cmp a a = Eq.
Proof. induction a as [|x a IH]; simpl; [done|]. by rewrite Z.compare_refl. Qed.

Lemma bytes_cmp_eq a b : bytes_cmp a b = Eq <-> a = b.
Proof.
  split; [|intros ->; apply bytes_cmp_refl].
  revert b. induction a as [|x a IH]; intros [|y b]; simpl; try done.
  destruct (Z.compare_spec (byte_to_Z x) (byte_to_Z y)) as [E| |]; try done.
  intros H. apply byte_to_Z_inj in E. by rewrite E, (IH b H).
Qed.

Lemma bytes_cmp_antisym a b : bytes_cmp b a = CompOpp (bytes_cmp a b).
Proof.
  revert b. induction a as [|x a IH]; intros [|y b]; simpl; try done.
  rewrite Z.compare_antisym.
  destruct (Z.compare (byte_to_Z x) (byte_to_Z y)); simpl; auto.
Qed.

Lemma bytes_lt_trans a b c : bytes_lt a b -> bytes_lt b c -> bytes_lt a c.
Proof.
  unfold bytes_lt. revert b c.
  induction a as [|x a IH]; intros [|y b] [|z c]; simpl; try done.
  destruct (Z.compare_spec (byte_to_Z x) (byte_to_Z y)) as [E1|L1|];
    destruct (Z.compare_spec (byte_to_Z y) (byte_to_Z z)) as [E2|L2|]; try done.
  - rewrite E1, E2, Z.compare_refl. apply IH.
  - intros _ _. rewrite E1. by apply Z.compare_lt_iff in L2 as ->.
  - intros _ _. rewrite <- E2. by apply Z.compare_lt_iff in L1 as ->.
  - intros _ _. assert (byte_to_Z x < byte_to_Z z) as L by lia.
    by apply Z.compare_lt_iff in L as ->.
Qed.

Lemma bytes_lt_irrefl a : ~ bytes_lt a a.
Proof. unfold bytes_lt. by rewrite bytes_cmp_refl. Qed.

#[export] Instance bytes_lt_strict : StrictOrder bytes_lt.
Proof. split; [exact bytes_lt_irrefl|exact bytes_lt_trans]. Qed.

Lemma bytes_le_lteq a b : bytes_le a b <-> bytes_lt a b \/ a = b.
Proof.
  unfold bytes_le, bytes_lt. rewrite <- bytes_cmp_eq.
  destruct (bytes_cmp a b); naive_solver.
Qed.

Lemma bytes_nle_lt a b : ~ bytes_le a b <-> bytes_lt b a.
Proof.
  unfold bytes_le, bytes_lt. rewrite (bytes_cmp_antisym a b).
  destruct (bytes_cmp a b); simpl; naive_solver.
Qed.

Lemma bytes_ltb_spec a b : bytes_ltb a b = true <-> bytes_lt a b.
Proof. unfold bytes_ltb, bytes_lt. destruct (bytes_cmp a b); naive_solver. Qed.

Lemma bytes_leb_spec a b : bytes_leb a b = true <-> bytes_le a b.
Proof. unfold bytes_leb, bytes_le. destruct (bytes_cmp a b); naive_solver. Qed.

Lemma bytes_leb_false a b : bytes_leb a b = false <-> bytes_lt b a.
Proof.
  rewrite <- not_true_iff_false, bytes_leb_spec. apply bytes_nle_lt.
Qed.

Lemma bytes_total a b : bytes_lt a b \/ a = b \/ bytes_lt b a.
Proof.
  destruct (bytes_cmp a b) eqn:E; [apply bytes_cmp_eq in E|..]; auto.
  right; right. unfold bytes_lt. by rewrite bytes_cmp_antisym, E.
Qed.

Lemma bytes_not_lt_le a b : ~ bytes_lt b a -> bytes_le a b.
Proof. intros H. apply bytes_le_lteq. destruct (bytes_total a b) as [?|[?|?]]; tauto. Qed.

#[export] Instance bytes_le_preorder : PreOrder bytes_le.
Proof.
  split.
  - intros a. apply bytes_le_lteq. auto.
  - intros a b c. rewrite !bytes_le_lteq.
    intros [|<-] [|<-]; eauto using bytes_lt_trans.
Qed.

Lemma bytes_le_lt_trans a b c : bytes_le a b -> bytes_lt b c -> bytes_lt a c.
Proof. rewrite bytes_le_lteq. intros [|<-]; eauto using bytes_lt_trans. Qed.

Lemma bytes_lt_le_trans a b c : bytes_lt a b -> bytes_le b c -> bytes_lt a c.
Proof. rewrite bytes_le_lteq. intros ? [|<-]; eauto using bytes_lt_trans. Qed.

Lemma bytes_le_antisym a b : bytes_le a b -> bytes_le b a -> a = b.
Proof.
  rewrite !bytes_le_lteq. intros [H|] [H'|]; auto.
  by destruct (bytes_lt_irrefl a); transitivity b.
Qed.

Lemma bytes_le_nil a : bytes_le [] a.
Proof. unfold bytes_le. by destruct a. Qed.

(** A common prefix does not change the comparison. *)
Lemma bytes_cmp_app p a b : bytes_cmp (p ++ a) (p ++ b) = bytes_cmp a b.
Proof. induction p as [|x p IH]; simpl; [done|]. by rewrite Z.compare_refl. Qed.

Lemma bytes_le_app p a : bytes_le p (p ++ a).
Proof.
  rewrite <- (app_nil_r p) at 1. unfold bytes_le. rewrite bytes_cmp_app.
  by destruct a.
Qed.

(** The keys with a given prefix form an interval of the order. *)
Lemma starts_with_convex p a b :
  starts_with p b = true -> bytes_le p a -> bytes_le a b -> starts_with p a = true.
Proof.
  unfold bytes_le. revert a b.
  induction p as [|x p IH]; intros [|y a] [|z b]; simpl; try done.
  rewrite !andb_true_iff, !bool_decide_eq_true.
  intros [-> Hb] Hpa Hab.
  destruct (Z.compare_spec (byte_to_Z z) (byte_to_Z y)) as [E|L|]; try done.
  - apply byte_to_Z_inj in E as ->. rewrite Z.compare_refl in Hab. eauto.
  - exfalso. apply Hab. by apply Z.compare_gt_iff in L as ->.
Qed.

(** On strings of one length the bytewise order is the order of the
    big-endian numbers they spell. *)
Lemma bytes_cmp_from_be a b :
  length a = length b -> bytes_cmp a b = Z.compare (from_be a) (from_be b).
Proof.
  revert b. induction a as [|x a IH]; intros [|y b]; simpl; try done.
  intros [= E]. rewrite (IH b E), !from_be_cons, <- E.
  pose proof (from_be_bound a) as Ha. pose proof (from_be_bound b) as Hb.
  rewrite <- E in Hb. revert Ha Hb.
  generalize (from_be a) as u, (from_be b) as v, (2 ^ (8 * Z.of_nat (length a))) as m.
  intros u v m Hu Hv.
  destruct (Z.compare_spec (byte_to_Z x) (byte_to_Z y)) as [->|L|L].
  - destruct (Z.compare_spec u v); symmetry.
    + apply Z.compare_eq_iff. lia.
    + apply Z.compare_lt_iff. lia.
    + apply Z.compare_gt_iff. lia.
  - symmetry. apply Z.compare_lt_iff. nia.
  - symmetry. apply Z.compare_gt_iff. nia.
Qed.

Lemma bytes_cmp_app_eqlen (a b x y : bytes) :
  length a = length b ->
  bytes_cmp (a ++ x) (b ++ y) = match bytes_cmp a b with Eq => bytes_cmp x y | c => c end.
Proof.
  revert b. induction a as [|u a IH]; intros [|v b] Hl; simpl in *; [done..|].
  destruct (byte_to_Z u ?= byte_to_Z v); [|done..]. apply IH. lia.
Qed.

Lemma be_bytes_lt n a b :
  0 <= a < 2 ^ (8 * Z.of_nat n) -> 0 <= b < 2 ^ (8 * Z.of_nat n) ->
  bytes_lt (be_bytes n a) (be_bytes n b) <-> a < b.
Proof.
  intros Ha Hb. unfold bytes_lt.
  rewrite bytes_cmp_from_be by by rewrite !length_be_bytes.
  rewrite !from_be_bytes, !Z.mod_small by lia. apply Z.compare_lt_iff.
Qed.
