(* ===== verification/Text.v ===== *)
(** * Text

    The parts of Rust's string library the commands use, on byte strings:
    ASCII case mapping, UTF-8 validation and lossy decoding
    ([str::from_utf8], [String::from_utf8_lossy]), and integers as text
    ([to_string], [str::parse], [from_str_radix]). *)

From S2P Require Import Prelude Bytes.

Local Open Scope Z_scope.

(** ** ASCII *)

Definition ascii_upper (b : byte) : byte :=
  let c := byte_to_Z b in
  if (97 <=? c) && (c <=? 122) then byte_of_Z (c - 32) else b.

Definition ascii_lower (b : byte) : byte :=
  let c := byte_to_Z b in
  if (65 <=? c) && (c <=? 90) then byte_of_Z (c + 32) else b.

Definition to_ascii_uppercase (l : bytes) : bytes := map ascii_upper l.
Definition to_ascii_lowercase (l : bytes) : bytes := map ascii_lower l.

Definition eq_ignore_ascii_case (a b : bytes) : bool :=
  bool_decide (to_ascii_lowercase a = to_ascii_lowercase b).

(** ** Splitting *)

(** [str::split] at one byte, [cur] being what was read since the last one. *)
Fixpoint split_on (sep : byte) (cur : bytes) (l : bytes) : list bytes :=
  match l with
  | [] => [cur]
  | b :: rest => if decide (b = sep) then cur :: split_on sep [] rest
                 else split_on sep (cur ++ [b]) rest
  end.

(** ** UTF-8 *)

Definition safe_get (l : bytes) (i : nat) : Z :=
  match l !! i with Some b => byte_to_Z b | None => 0 end.

Definition is_cont (c : Z) : bool := Z.land c 192 =? 128.

Definition between (lo c hi : Z) : bool := (lo <=? c) && (c <=? hi).

(** One step of the decoder: whether a well-formed character starts here, and
    how many bytes it, or the ill-formed sequence found instead, takes. *)
Definition utf8_step (l : bytes) : bool * nat :=
  let c := safe_get l 0 in
  let d := safe_get l 1 in
  if c <? 128 then (true, 1%nat)
  else if between 194 c 223 then
    if is_cont d then (true, 2%nat) else (false, 1%nat)
  else if between 224 c 239 then
    if ((c =? 224) && between 160 d 191) || (between 225 c 236 && between 128 d 191)
       || ((c =? 237) && between 128 d 159) || (between 238 c 239 && between 128 d 191)
    then if is_cont (safe_get l 2) then (true, 3%nat) else (false, 2%nat)
    else (false, 1%nat)
  else if between 240 c 244 then
    if ((c =? 240) && between 144 d 191) || (between 241 c 243 && between 128 d 191)
       || ((c =? 244) && between 128 d 143)
    then if is_cont (safe_get l 2)
         then if is_cont (safe_get l 3) then (true, 4%nat) else (false, 3%nat)
         else (false, 2%nat)
    else (false, 1%nat)
  else (false, 1%nat).

(** U+FFFD. *)
Definition replacement : bytes := [Byte.xef; Byte.xbf; Byte.xbd].

Fixpoint utf8_valid_fuel (fuel : nat) (l : bytes) : bool :=
  match fuel, l with
  | _, [] => true
  | O, _ => false
  | S f, _ => let '(ok, n) := utf8_step l in ok && utf8_valid_fuel f (drop n l)
  end.

Fixpoint lossy_fuel (fuel : nat) (l : bytes) : bytes :=
  match fuel, l with
  | _, [] => []
  | O, _ => []
  | S f, _ => let '(ok, n) := utf8_step l in
              (if ok then take n l else replacement) ++ lossy_fuel f (drop n l)
  end.

(** Every step consumes a byte, so the length is enough fuel. *)
Definition utf8_valid (l : bytes) : bool := utf8_valid_fuel (length l) l.
Definition from_utf8_lossy (l : bytes) : bytes := lossy_fuel (length l) l.

(** [str::is_char_boundary]. *)
Definition is_char_boundary (l : bytes) (i : nat) : bool :=
  match l !! i with
  | Some b => negb (is_cont (byte_to_Z b))
  | None => Nat.eqb i (length l)
  end.

Lemma lossy_fuel_valid fuel l :
  utf8_valid_fuel fuel l = true -> lossy_fuel fuel l = l.
Proof.
  revert l. induction fuel as [|f IH]; intros [|b l]; simpl; try done.
  destruct (utf8_step (b :: l)) as [[] n] eqn:E; [|done]. simpl.
  intros H. rewrite (IH _ H). apply take_drop.
Qed.

Lemma from_utf8_lossy_valid l : utf8_valid l = true -> from_utf8_lossy l = l.
Proof. apply lossy_fuel_valid. Qed.

Definition is_ascii (l : bytes) : bool := forallb (fun b => byte_to_Z b <? 128) l.

Lemma is_ascii_app a b : is_ascii (a ++ b) = is_ascii a && is_ascii b.
Proof. unfold is_ascii. apply forallb_app. Qed.

Lemma is_ascii_valid l : is_ascii l = true -> utf8_valid l = true.
Proof.
  unfold utf8_valid. induction l as [|b l IH]; [done|].
  cbn [is_ascii forallb length utf8_valid_fuel]. intros [Hb Hl]%andb_true_iff.
  unfold utf8_step, safe_get. cbn [lookup list_lookup]. rewrite Hb. simpl. by apply IH.
Qed.

#[export] Hint Resolve is_ascii_valid : kv.

(** ** Integers as text *)

Definition digit_of (d : Z) : byte :=
  byte_of_Z (if d <? 10 then 48 + d else 87 + d).

(** [char::to_digit]. *)
Definition digit_val (radix : Z) (b : byte) : option Z :=
  let c := byte_to_Z b in
  let v := if between 48 c 57 then c - 48
           else if between 97 c 122 then c - 87
           else if between 65 c 90 then c - 55
           else radix in
  if v <? radix then Some v else None.

Fixpoint digits_val (radix acc : Z) (l : bytes) : option Z :=
  match l with
  | [] => Some acc
  | b :: l' => match digit_val radix b with
               | Some d => digits_val radix (acc * radix + d) l'
               | None => None
               end
  end.

(** [from_str_radix] of an integer type with range [lo..=hi]; a leading minus
    is only read by a signed type ([lo < 0]). *)
Definition parse_radix (radix lo hi : Z) (l : bytes) : option Z :=
  let ranged (o : option Z) :=
    match o with
    | Some z => if (lo <=? z) && (z <=? hi) then Some z else None
    | None => None
    end in
  match l with
  | [] => None
  | c :: rest =>
      if bool_decide (c = Byte.x2b) then
        match rest with [] => None | _ => ranged (digits_val radix 0 rest) end
      else if bool_decide (c = Byte.x2d) then
        match rest with
        | [] => None
        | _ => if lo <? 0
               then ranged (match digits_val radix 0 rest with
                            | Some z => Some (- z) | None => None end)
               else None
        end
      else ranged (digits_val radix 0 l)
  end.

Definition parse_i64 (l : bytes) : option Z := parse_radix 10 i64_min i64_max l.
Definition parse_u64 (l : bytes) : option Z := parse_radix 10 0 u64_max l.
Definition parse_u16 (l : bytes) : option Z := parse_radix 10 0 (2 ^ 16 - 1) l.

Fixpoint dec_digits (fuel : nat) (z : Z) (acc : bytes) : bytes :=
  match fuel with
  | O => acc
  | S f => if z <? 10 then digit_of z :: acc
           else dec_digits f (z / 10) (digit_of (z mod 10) :: acc)
  end.

(** Each digit at least halves the number, so its bit length is enough fuel. *)
Definition show_nonneg (z : Z) : bytes := dec_digits (S (Z.to_nat (Z.log2 z))) z [].

(** [to_string] of an integer. *)
Definition show_Z (z : Z) : bytes :=
  if z <? 0 then Byte.x2d :: show_nonneg (- z) else show_nonneg z.

Lemma digit_val_of d : 0 <= d < 10 -> digit_val 10 (digit_of d) = Some d.
Proof.
  intros H. assert (d = 0 \/ d = 1 \/ d = 2 \/ d = 3 \/ d = 4 \/ d = 5 \/ d = 6
    \/ d = 7 \/ d = 8 \/ d = 9) as Hd by lia.
  destruct_or! Hd; subst; reflexivity.
Qed.

Lemma digits_val_show fuel z acc :
  0 <= z < 2 ^ Z.of_nat fuel -> (0 < fuel)%nat ->
  digits_val 10 0 (dec_digits fuel z acc) = digits_val 10 z acc.
Proof.
  revert z acc. induction fuel as [|f IH]; intros z acc Hz Hf; [lia|].
  cbn [dec_digits]. destruct (z <? 10) eqn:E; zbool.
  - simpl. by rewrite digit_val_of by lia.
  - replace (2 ^ Z.of_nat (S f)) with (2 * 2 ^ Z.of_nat f) in Hz
      by (rewrite Nat2Z.inj_succ, Z.pow_succ_r; lia).
    pose proof (Z.div_mod z 10 ltac:(lia)).
    pose proof (Z.mod_pos_bound z 10 ltac:(lia)).
    rewrite IH; [|lia|destruct f; simpl in *; lia].
    cbn [digits_val]. rewrite digit_val_of by lia. f_equal. lia.
Qed.

Lemma digits_val_show_nonneg z :
  0 <= z -> digits_val 10 0 (show_nonneg z) = Some z.
Proof.
  intros Hz. unfold show_nonneg. rewrite digits_val_show; [done| |lia].
  split; [lia|]. destruct (decide (z = 0)) as [->|]; [done|].
  rewrite Nat2Z.inj_succ, Z2Nat.id by apply Z.log2_nonneg.
  apply Z.log2_spec. lia.
Qed.

Lemma dec_digits_app fuel z acc : exists l, dec_digits fuel z acc = l ++ acc.
Proof.
  revert z acc. induction fuel as [|f IH]; intros z acc; cbn [dec_digits].
  - by exists [].
  - destruct (z <? 10); [by exists [digit_of z]|].
    destruct (IH (z / 10) (digit_of (z mod 10) :: acc)) as [l ->].
    exists (l ++ [digit_of (z mod 10)]). by rewrite <- app_assoc.
Qed.

Lemma show_nonneg_nonempty z : show_nonneg z <> [].
Proof.
  unfold show_nonneg. cbn [dec_digits]. destruct (z <? 10); [done|].
  destruct (dec_digits_app (Z.to_nat (Z.log2 z)) (z / 10) [digit_of (z mod 10)])
    as [[|] ->]; done.
Qed.

(** Decimal text consists of digits only. *)
Definition is_digit (b : byte) : bool := between 48 (byte_to_Z b) 57.

Lemma digit_of_is_digit d : 0 <= d < 10 -> is_digit (digit_of d) = true.
Proof.
  intros H. assert (d = 0 \/ d = 1 \/ d = 2 \/ d = 3 \/ d = 4 \/ d = 5 \/ d = 6
    \/ d = 7 \/ d = 8 \/ d = 9) as Hd by lia.
  destruct_or! Hd; subst; reflexivity.
Qed.

Lemma dec_digits_digits fuel z acc :
  0 <= z -> forallb is_digit acc = true ->
  forallb is_digit (dec_digits fuel z acc) = true.
Proof.
  revert z acc. induction fuel as [|f IH]; intros z acc Hz Ha; [done|].
  cbn [dec_digits]. destruct (z <? 10) eqn:E; zbool.
  - simpl. by rewrite digit_of_is_digit, Ha by lia.
  - apply IH; [apply Z.div_pos; lia|]. simpl.
    rewrite digit_of_is_digit, Ha; [done|]. apply Z.mod_pos_bound. lia.
Qed.

Lemma show_nonneg_digits z : 0 <= z -> forallb is_digit (show_nonneg z) = true.
Proof. intros. by apply dec_digits_digits. Qed.

Lemma is_digit_not_sign b :
  is_digit b = true -> b <> Byte.x2b /\ b <> Byte.x2d.
Proof. intros H. split; intros ->; discriminate H. Qed.

(** [parse] inverts [to_string] on the range of the type. *)
Lemma parse_radix_show lo hi z :
  lo <= z <= hi -> (z < 0 -> lo < 0) ->
  parse_radix 10 lo hi (show_Z z) = Some z.
Proof.
  intros Hr Hs. unfold show_Z. destruct (z <? 0) eqn:E; zbool.
  - pose proof (show_nonneg_nonempty (- z)) as Hne.
    pose proof (digits_val_show_nonneg (- z) ltac:(lia)) as Hv.
    unfold parse_radix. simpl. destruct (show_nonneg (- z)) as [|b l]; [done|].
    replace (lo <? 0) with true by lia. rewrite Hv, Z.opp_involutive.
    by replace ((lo <=? z) && (z <=? hi))%bool with true by lia.
  - pose proof (show_nonneg_nonempty z) as Hne.
    pose proof (show_nonneg_digits z ltac:(lia)) as Hd.
    pose proof (digits_val_show_nonneg z ltac:(lia)) as Hv.
    unfold parse_radix. destruct (show_nonneg z) as [|b l]; [done|].
    simpl in Hd. apply andb_true_iff in Hd as [Hb _].
    destruct (is_digit_not_sign b Hb).
    rewrite !bool_decide_false by done. rewrite Hv.
    by replace ((lo <=? z) && (z <=? hi))%bool with true by lia.
Qed.

Lemma parse_i64_show z : is_i64 z = true -> parse_i64 (show_Z z) = Some z.
Proof.
  intros H. apply parse_radix_show; [unfold is_i64 in H; lia|].
  intros _. unfold i64_min. lia.
Qed.

Lemma parse_u64_show z : is_u64 z = true -> parse_u64 (show_Z z) = Some z.
Proof. intros H. unfold is_u64 in H. apply parse_radix_show; lia. Qed.

Lemma parse_radix_range radix lo hi l z :
  parse_radix radix lo hi l = Some z -> lo <= z <= hi.
Proof.
  unfold parse_radix. destruct l as [|c rest]; [done|].
  intros H. repeat case_hyp H; simplify_eq; zbool; lia.
Qed.

Lemma parse_i64_range l z : parse_i64 l = Some z -> is_i64 z = true.
Proof. intros H%parse_radix_range. unfold is_i64. lia. Qed.

Lemma parse_u64_range l z : parse_u64 l = Some z -> is_u64 z = true.
Proof. intros H%parse_radix_range. unfold is_u64. lia. Qed.

#[export] Hint Resolve parse_i64_show parse_u64_show : kv.
