(* ===== verification/Error.v ===== *)
(** * Errors and effects

    [KvdbError] of src/error.rs with its [Display] text, the outcome of a
    Rust computation (a value, an error, a panic; [OutOfFuel] marks a loop of
    the model cut short, which the theorems rule out) and the state monad the
    commands are written in: the state reached so far survives an error. *)

From S2P Require Import Prelude Bytes Text.

Local Open Scope Z_scope.

Create HintDb ro.

Inductive KvdbError :=
  | Storage (msg : bytes)
  | Io (msg : bytes)
  | Lua (msg : bytes)
  | Config (msg : bytes)
  | Protocol (msg : bytes)
  | Command (msg : bytes)
  | WrongArgCount (name : bytes)
  | NotInteger
  | OutOfRange
  | Oom
  | UnknownCommand (name : bytes).

#[export] Instance KvdbError_eq_decision : EqDecision KvdbError.
Proof. solve_decision. Defined.

(** The [#[error(...)]] texts. *)
Definition error_to_string (e : KvdbError) : bytes :=
  match e with
  | Storage m => bs "storage error: " ++ m
  | Io m => bs "io error: " ++ m
  | Lua m => bs "lua error: " ++ m
  | Config m => bs "config error: " ++ m
  | Protocol m => bs "protocol error: " ++ m
  | Command m => m
  | WrongArgCount n => bs "wrong number of arguments for '" ++ n ++ bs "' command"
  | NotInteger => bs "value is not an integer"
  | OutOfRange => bs "value is out of range"
  | Oom => bs "OOM command not allowed when used memory > maxmemory"
  | UnknownCommand n => bs "unknown command '" ++ n ++ bs "'"
  end.

(** ** Outcomes *)

Inductive outcome (A : Type) :=
  | Ok (a : A)
  | Err (e : KvdbError)
  | Panic
  | OutOfFuel.
Arguments Ok {A} a.
Arguments Err {A} e.
Arguments Panic {A}.
Arguments OutOfFuel {A}.

#[export] Instance outcome_ret : MRet outcome := fun A a => Ok a.
#[export] Instance outcome_bind : MBind outcome := fun A B f m =>
  match m with
  | Ok a => f a | Err e => Err e | Panic => Panic | OutOfFuel => OutOfFuel
  end.

#[export] Instance outcome_fmap : FMap outcome := fun A B f m =>
  match m with
  | Ok a => Ok (f a) | Err e => Err e | Panic => Panic | OutOfFuel => OutOfFuel
  end.

(** [Option::ok_or]. *)
Definition ok_or {A} (o : option A) (e : KvdbError) : outcome A :=
  match o with Some a => Ok a | None => Err e end.

(** ** Stateful computations *)

Definition M (S A : Type) : Type := S -> outcome A * S.

Section Effects.
Context {S : Type}.

#[export] Instance M_ret : MRet (M S) := fun A a s => (Ok a, s).
#[export] Instance M_bind : MBind (M S) := fun A B f m s =>
  match m s with
  | (Ok a, s') => f a s'
  | (Err e, s') => (Err e, s')
  | (Panic, s') => (Panic, s')
  | (OutOfFuel, s') => (OutOfFuel, s')
  end.

Definition lift {A} (o : outcome A) : M S A := fun s => (o, s).
Definition throw {A} (e : KvdbError) : M S A := fun s => (Err e, s).
Definition panic {A} : M S A := fun s => (Panic, s).
Definition out_of_fuel {A} : M S A := fun s => (OutOfFuel, s).
Definition gets {A} (f : S -> A) : M S A := fun s => (Ok (f s), s).
Definition with_state {A} (f : S -> M S A) : M S A := fun s => f s s.
Definition modify (f : S -> S) : M S unit := fun s => (Ok tt, f s).

(** [i64] and [u64] arithmetic: [ov] says whether the build checks overflow
    (debug profile: panic) or not (release profile: wrap around). *)
Definition arith_i64 (ov : bool) (z : Z) : M S Z :=
  if is_i64 z then mret z else if ov then panic else mret (wrap_i64 z).
Definition arith_u64 (ov : bool) (z : Z) : M S Z :=
  if is_u64 z then mret z else if ov then panic else mret (wrap_u64 z).

(** [for x in l { a = f(a, x)?; }]. *)
Fixpoint mfold {A B} (f : A -> B -> M S A) (a : A) (l : list B) : M S A :=
  match l with
  | [] => mret a
  | x :: rest => a' ← f a x; mfold f a' rest
  end.

(** [args[i]]. *)
Definition index {A} (l : list A) (i : nat) : M S A :=
  match l !! i with Some a => mret a | None => panic end.

Lemma bind_Ok {A B} (m : M S A) (f : A -> M S B) s a s' :
  m s = (Ok a, s') -> (m ≫= f) s = f a s'.
Proof. intros H. unfold mbind, M_bind. by rewrite H. Qed.

Lemma bind_Err {A B} (m : M S A) (f : A -> M S B) s e s' :
  m s = (Err e, s') -> (m ≫= f) s = (Err e, s').
Proof. intros H. unfold mbind, M_bind. by rewrite H. Qed.

Lemma bind_Panic {A B} (m : M S A) (f : A -> M S B) s s' :
  m s = (Panic, s') -> (m ≫= f) s = (Panic, s').
Proof. intros H. unfold mbind, M_bind. by rewrite H. Qed.

Lemma arith_i64_ok ov z s : is_i64 z = true -> arith_i64 ov z s = (Ok z, s).
Proof. intros H. unfold arith_i64. by rewrite H. Qed.

Lemma arith_u64_ok ov z s : is_u64 z = true -> arith_u64 ov z s = (Ok z, s).
Proof. intros H. unfold arith_u64. by rewrite H. Qed.

Lemma bind_inv {A B} (m : M S A) (f : A -> M S B) b s s' :
  (m ≫= f) s = (Ok b, s') -> exists a s1, m s = (Ok a, s1) /\ f a s1 = (Ok b, s').
Proof. unfold mbind, M_bind. destruct (m s) as [[]]; naive_solver. Qed.

Lemma arith_i64_range ov z e (s s' : S) : arith_i64 ov z s = (Ok e, s') -> is_i64 e = true.
Proof.
  unfold arith_i64. destruct (is_i64 z) eqn:Hz; [intros [= <- _]; done|].
  destruct ov; [done|]. intros [= <- _]. apply wrap_i64_range.
Qed.

Lemma mfold_app {A B} (f : A -> B -> M S A) a l1 l2 :
  forall s, mfold f a (l1 ++ l2) s = (a' ← mfold f a l1; mfold f a' l2) s.
Proof.
  revert a. induction l1 as [|x l1 IH]; intros a s; [done|]. cbn [mfold app].
  unfold mbind, M_bind. destruct (f a x s) as [[a'|e| |] s']; [|done..]. by rewrite IH.
Qed.

(** ** Computations that only read *)

Definition readonly {A} (m : M S A) : Prop := forall s, (m s).2 = s.

Lemma readonly_ret {A} (a : A) : readonly (mret a).
Proof. done. Qed.
Lemma readonly_lift {A} (o : outcome A) : readonly (lift o).
Proof. done. Qed.
Lemma readonly_throw {A} e : readonly (A:=A) (throw e).
Proof. done. Qed.
Lemma readonly_panic {A} : readonly (A:=A) panic.
Proof. done. Qed.
Lemma readonly_out_of_fuel {A} : readonly (A:=A) out_of_fuel.
Proof. done. Qed.
Lemma readonly_gets {A} (f : S -> A) : readonly (gets f).
Proof. done. Qed.
Lemma readonly_arith_i64 ov z : readonly (arith_i64 ov z).
Proof. intros s. unfold arith_i64. by destruct (is_i64 z), ov. Qed.
Lemma readonly_arith_u64 ov z : readonly (arith_u64 ov z).
Proof. intros s. unfold arith_u64. by destruct (is_u64 z), ov. Qed.
Lemma readonly_index {A} (l : list A) i : readonly (index l i).
Proof. intros s. unfold index. by destruct (l !! i). Qed.

Lemma readonly_bind {A B} (m : M S A) (f : A -> M S B) :
  readonly m -> (forall a, readonly (f a)) -> readonly (m ≫= f).
Proof.
  intros Hm Hf s. specialize (Hm s). unfold mbind, M_bind.
  destruct (m s) as [[a|e| |] s']; simpl in *; subst; try done. apply Hf.
Qed.

Lemma readonly_with_state {A} (f : S -> M S A) :
  (forall s, readonly (f s)) -> readonly (with_state f).
Proof. intros Hf s. apply Hf. Qed.

Lemma readonly_mfold {A B} (f : A -> B -> M S A) a l :
  (forall a b, readonly (f a b)) -> readonly (mfold f a l).
Proof.
  intros Hf. revert a. induction l as [|x l IH]; intros a; simpl; [done|].
  by apply readonly_bind.
Qed.

Lemma readonly_state {A} (m : M S A) s r s' : readonly m -> m s = (r, s') -> s' = s.
Proof. intros Hm H. specialize (Hm s). by rewrite H in Hm. Qed.

End Effects.

#[export] Hint Resolve readonly_ret readonly_lift readonly_throw readonly_panic
  readonly_out_of_fuel readonly_gets readonly_arith_i64 readonly_arith_u64 readonly_index
  : ro.

(** Shows a computation built from readers to be one. *)
Ltac ro :=
  repeat first
    [ progress intros
    | solve [eauto with ro]
    | progress cbv zeta
    | match goal with
      | |- readonly (mbind _ _) => apply readonly_bind
      | |- readonly (with_state _) => apply readonly_with_state
      | |- readonly (mfold _ _ _) => apply readonly_mfold
      | |- readonly (match ?x with _ => _ end) => destruct x
      | |- readonly (let '(_, _) := ?x in _) => destruct x
      end ].

(** Runs the first step of a computation whose result is known. *)
Ltac mrun :=
  first [ erewrite bind_Ok by (first [eassumption | reflexivity | solve [eauto with kv]])
        | erewrite bind_Err by (first [eassumption | reflexivity | solve [eauto with kv]])
        | erewrite bind_Panic by (first [eassumption | reflexivity | solve [eauto with kv]]) ];
  cbv beta.
