(* ===== verification/Types.v ===== *)
(** * Data types and metadata (src/types.rs)

    The type codes, the flags byte that packs encoding version and type, and
    the [Metadata] record of the composite types. *)

From S2P Require Import Prelude Bytes.

Local Open Scope Z_scope.

Definition ENCODING_VERSION : Z := 1.
Definition FLAGS_VERSION_MASK : Z := 240.
Definition FLAGS_TYPE_MASK : Z := 15.

Inductive DataType := DString | DHash | DList | DSet | DZSet | DStream | DBitmap.

#[export] Instance DataType_eq_decision : EqDecision DataType.
Proof. solve_decision. Defined.

Definition code (t : DataType) : Z :=
  match t with
  | DString => 1
  | DHash => 2
  | DList => 3
  | DSet => 4
  | DZSet => 5
  | DStream => 8
  | DBitmap => 6
  end.

Definition from_code (c : Z) : option DataType :=
  match c with
  | 1 => Some DString
  | 2 => Some DHash
  | 3 => Some DList
  | 4 => Some DSet
  | 5 => Some DZSet
  | 8 => Some DStream
  | 6 => Some DBitmap
  | _ => None
  end.

Definition build_flags (t : DataType) : byte :=
  byte_of_Z (Z.lor (Z.shiftl ENCODING_VERSION 4) (Z.land (code t) FLAGS_TYPE_MASK)).

(** [flags & FLAGS_TYPE_MASK], the type code the commands test. *)
Definition type_code (flags : byte) : Z := Z.land (byte_to_Z flags) FLAGS_TYPE_MASK.

Definition data_type_from_flags (flags : byte) : option DataType :=
  from_code (type_code flags).

Definition version_from_flags (flags : byte) : Z :=
  Z.shiftr (Z.land (byte_to_Z flags) FLAGS_VERSION_MASK) 4.

Record Metadata := mkMetadata {
  md_flags : byte;
  md_expire : Z;
  md_version : Z;
  md_size : Z;
  md_head : Z;
  md_tail : Z;
}.

#[export] Instance Metadata_eq_decision : EqDecision Metadata.
Proof. solve_decision. Defined.

Definition metadata_new (t : DataType) (v : Z) : Metadata :=
  {| md_flags := build_flags t; md_expire := 0; md_version := v; md_size := 0;
     md_head := 0; md_tail := -1 |}.

Definition data_type (m : Metadata) : option DataType := data_type_from_flags (md_flags m).
Definition encoding_version (m : Metadata) : Z := version_from_flags (md_flags m).
Definition is_expired (m : Metadata) (now_ms : Z) : bool :=
  (0 <? md_expire m) && (md_expire m <=? now_ms).

(** Field updates. *)
Definition set_expire (e : Z) (m : Metadata) : Metadata :=
  mkMetadata (md_flags m) e (md_version m) (md_size m) (md_head m) (md_tail m).
Definition set_size (n : Z) (m : Metadata) : Metadata :=
  mkMetadata (md_flags m) (md_expire m) (md_version m) n (md_head m) (md_tail m).
Definition set_ends (h t n : Z) (m : Metadata) : Metadata :=
  mkMetadata (md_flags m) (md_expire m) (md_version m) n h t.

(** The ranges of the fields' machine types. *)
Definition metadata_ranges (m : Metadata) : bool :=
  is_i64 (md_expire m) && is_u64 (md_version m) && is_u64 (md_size m)
  && is_i64 (md_head m) && is_i64 (md_tail m).

Lemma from_code_code t : from_code (code t) = Some t.
Proof. by destruct t. Qed.

Lemma from_code_inv c t : from_code c = Some t -> c = code t.
Proof.
  unfold from_code. intros H.
  repeat (case_hyp H; try discriminate); by simplify_eq.
Qed.

Lemma type_code_build_flags t : type_code (build_flags t) = code t.
Proof. by destruct t. Qed.

Lemma data_type_build_flags t : data_type_from_flags (build_flags t) = Some t.
Proof. by destruct t. Qed.

Lemma version_build_flags t : version_from_flags (build_flags t) = ENCODING_VERSION.
Proof. by destruct t. Qed.

Lemma data_type_new t v : data_type (metadata_new t v) = Some t.
Proof. apply data_type_build_flags. Qed.

#[export] Hint Rewrite from_code_code type_code_build_flags data_type_build_flags
  version_build_flags data_type_new : kv.
