(* ===== verification/Encoding.v ===== *)
(** * Key and value encodings (src/encoding.rs)

    Metadata keys and subkeys, the metadata and string values, and the
    version numbers that separate the incarnations of one key. *)

From S2P Require Import Prelude Bytes Types.

Local Open Scope Z_scope.

(** [generate_version]: [millis] is the clock reading, [rnd] the random
    [u16]. *)
Definition generate_version (millis rnd : Z) : Z :=
  let now := wrap_u64 millis in
  Z.lor (wrap_u64 (Z.shiftl now 16)) (Z.land rnd 65535).

(** [data[i] as usize], for an index the guards keep in range. *)
Definition byte_at (data : bytes) (i : nat) : Z :=
  match data !! i with Some b => byte_to_Z b | None => 0 end.

Definition metadata_key (user_key namespace : bytes) : bytes :=
  if bool_decide (namespace = []) then
    be_bytes 4 (wrap_u32 (blen user_key)) ++ user_key
  else
    byte_of_Z (blen namespace) ::
      namespace ++ be_bytes 4 (wrap_u32 (blen user_key)) ++ user_key.

Definition parse_metadata_key (data namespace : bytes) : option bytes :=
  if bool_decide (namespace = []) then
    if blen data <? 4 then None
    else
      let len := from_be (take 4 data) in
      if blen data <? 4 + len then None
      else Some (take (Z.to_nat len) (drop 4 data))
  else
    let ns_len := length namespace in
    if blen data <? 1 + Z.of_nat ns_len + 4 then None
    else if negb (byte_at data 0 =? Z.of_nat ns_len)
            || negb (bool_decide (take ns_len (drop 1 data) = namespace)) then None
    else
      let key_start := (1 + ns_len)%nat in
      let key_len := from_be (take 4 (drop key_start data)) in
      if blen data <? Z.of_nat key_start + 4 + key_len then None
      else Some (take (Z.to_nat key_len) (drop (key_start + 4) data)).

Definition subkey (user_key : bytes) (v : Z) (sub namespace : bytes) : bytes :=
  metadata_key user_key namespace ++ be_bytes 8 v ++ sub.

Definition parse_subkey (data namespace : bytes) : option (bytes * Z * bytes) :=
  let ns_len := length namespace in
  let after (key_offset : nat) :=
    if blen data <? Z.of_nat key_offset + 4 then None
    else
      let key_len := from_be (take 4 (drop key_offset data)) in
      if blen data <? Z.of_nat key_offset + 4 + key_len + 8 then None
      else
        let user_key := take (Z.to_nat key_len) (drop (key_offset + 4) data) in
        let version_pos := (key_offset + 4 + Z.to_nat key_len)%nat in
        Some (user_key, from_be (take 8 (drop version_pos data)),
              drop (version_pos + 8) data) in
  if bool_decide (namespace = []) then after 0%nat
  else if blen data <? 1 + Z.of_nat ns_len + 4 then None
  else if negb (byte_at data 0 =? Z.of_nat ns_len)
          || negb (bool_decide (take ns_len (drop 1 data) = namespace)) then None
  else after (1 + ns_len)%nat.

Definition encode_metadata (m : Metadata) : bytes :=
  let is_list := bool_decide (data_type m = Some DList) in
  md_flags m :: be_bytes 8 (md_expire m) ++ be_bytes 8 (md_version m)
    ++ be_bytes 8 (md_size m)
    ++ (if is_list then be_bytes 8 (md_head m) ++ be_bytes 8 (md_tail m) else []).

(** [data[a..b]] inside the length the guards establish. *)
Definition slice (a b : nat) (data : bytes) : bytes := take (b - a) (drop a data).

Definition decode_metadata (data : bytes) : option Metadata :=
  if blen data <? 1 + 8 + 8 + 8 then None
  else
    match data with
    | [] => None
    | flags :: _ =>
        match from_code (type_code flags) with
        | None => None
        | Some data_type =>
            let expire := i64_from_be (slice 1 9 data) in
            let version := from_be (slice 9 17 data) in
            let size := from_be (slice 17 25 data) in
            if bool_decide (data_type = DList) then
              if blen data <? 1 + 8 + 8 + 8 + 8 + 8 then None
              else Some (mkMetadata flags expire version size
                           (i64_from_be (slice 25 33 data))
                           (i64_from_be (slice 33 41 data)))
            else Some (mkMetadata flags expire version size 0 (-1))
        end
    end.

Definition encode_string (flags : byte) (expire : Z) (payload : bytes) : bytes :=
  flags :: be_bytes 8 expire ++ payload.

Definition decode_string (data : bytes) : option (byte * Z * bytes) :=
  if blen data <? 1 + 8 then None
  else
    match data with
    | [] => None
    | flags :: _ => Some (flags, i64_from_be (slice 1 9 data), drop 9 data)
    end.

(** ** Lengths and slices *)

Lemma blen_nonneg l : 0 <= blen l.
Proof. unfold blen. lia. Qed.

Lemma blen_app a b : blen (a ++ b) = blen a + blen b.
Proof. unfold blen. rewrite length_app. lia. Qed.

Lemma blen_cons x a : blen (x :: a) = 1 + blen a.
Proof. unfold blen. simpl. lia. Qed.

Lemma blen_nil : blen [] = 0.
Proof. done. Qed.

Lemma blen_be4 z : blen (be_bytes 4 z) = 4.
Proof. unfold blen. by rewrite length_be_bytes. Qed.

Lemma blen_be8 z : blen (be_bytes 8 z) = 8.
Proof. unfold blen. by rewrite length_be_bytes. Qed.

#[export] Hint Rewrite blen_app blen_cons blen_nil blen_be4 blen_be8 : kv.

Lemma take_be n z s : take n (be_bytes n z ++ s) = be_bytes n z.
Proof. rewrite take_app_length'; [done|]. by rewrite length_be_bytes. Qed.

Lemma drop_be n z s : drop n (be_bytes n z ++ s) = s.
Proof. rewrite drop_app_length'; [done|]. by rewrite length_be_bytes. Qed.

Lemma take_blen l s : take (Z.to_nat (blen l)) (l ++ s) = l.
Proof. unfold blen. rewrite Nat2Z.id. apply take_app_length. Qed.

Lemma drop_blen l s : drop (Z.to_nat (blen l)) (l ++ s) = s.
Proof. unfold blen. rewrite Nat2Z.id. apply drop_app_length. Qed.

Lemma drop_S_cons {A} n (x : A) l : drop (S n) (x :: l) = drop n l.
Proof. done. Qed.

Lemma drop_add {A} n k (l : list A) : drop (n + k) l = drop k (drop n l).
Proof. by rewrite drop_drop. Qed.

#[export] Hint Rewrite @take_be @drop_be take_blen drop_blen @drop_S_cons : kv.

(** A length-prefixed field determines itself and the rest. *)
Lemma len_prefix_roundtrip k :
  blen k < 2 ^ 32 -> from_be (be_bytes 4 (wrap_u32 (blen k))) = blen k.
Proof.
  intros H. pose proof (blen_nonneg k). unfold wrap_u32.
  rewrite Z.mod_small by lia. apply u32_be_roundtrip, is_u32_spec. lia.
Qed.

Lemma len_prefix_inj a b s t :
  blen a < 2 ^ 32 -> blen b < 2 ^ 32 ->
  be_bytes 4 (wrap_u32 (blen a)) ++ a ++ s = be_bytes 4 (wrap_u32 (blen b)) ++ b ++ t ->
  a = b /\ s = t.
Proof.
  intros Ha Hb E. apply app_prefix_inj in E as [E1 E2];
    [|by rewrite !length_be_bytes].
  apply (f_equal from_be) in E1. rewrite !len_prefix_roundtrip in E1 by done.
  apply app_prefix_inj in E2; [done|]. unfold blen in E1. lia.
Qed.

(** ** Keys *)

Lemma metadata_key_app_inj ns a b s t :
  blen a < 2 ^ 32 -> blen b < 2 ^ 32 ->
  metadata_key a ns ++ s = metadata_key b ns ++ t -> a = b /\ s = t.
Proof.
  intros Ha Hb. unfold metadata_key. case_bool_decide.
  - rewrite <- !app_assoc. by apply len_prefix_inj.
  - rewrite <- !app_comm_cons, <- !app_assoc. intros [= E%app_inv_head].
    by apply len_prefix_inj in E.
Qed.

Lemma metadata_key_inj ns a b :
  blen a < 2 ^ 32 -> blen b < 2 ^ 32 ->
  metadata_key a ns = metadata_key b ns -> a = b.
Proof.
  intros Ha Hb E. apply (metadata_key_app_inj ns a b [] []); [done..|].
  by rewrite E.
Qed.

Lemma subkey_app k v s ns : subkey k v s ns = subkey k v [] ns ++ s.
Proof. unfold subkey. by rewrite app_nil_r, <- !app_assoc. Qed.

Lemma subkey_app_inj ns a b v w s t :
  blen a < 2 ^ 32 -> blen b < 2 ^ 32 -> is_u64 v = true -> is_u64 w = true ->
  subkey a v [] ns ++ s = subkey b w [] ns ++ t -> a = b /\ v = w /\ s = t.
Proof.
  intros Ha Hb Hv Hw E. rewrite <- !subkey_app in E. unfold subkey in E.
  apply metadata_key_app_inj in E as [-> E]; [|done..].
  apply app_prefix_inj in E as [E ->]; [|by rewrite !length_be_bytes].
  split; [done|]. split; [|done].
  apply is_u64_spec in Hv, Hw. by apply be_bytes_inj in E.
Qed.

Lemma subkey_inj ns k v s t : subkey k v s ns = subkey k v t ns -> s = t.
Proof. rewrite (subkey_app k v s), (subkey_app k v t). apply app_inv_head. Qed.

(** The subkeys a prefix scan of one incarnation of a key meets are exactly
    that incarnation's. *)
Lemma subkey_prefix_exact ns a b v w s :
  blen a < 2 ^ 32 -> blen b < 2 ^ 32 -> is_u64 v = true -> is_u64 w = true ->
  starts_with (subkey a v [] ns) (subkey b w s ns) = true <-> a = b /\ v = w.
Proof.
  intros Ha Hb Hv Hw. rewrite starts_with_spec. split.
  - intros [t E]. rewrite subkey_app in E. symmetry in E.
    by apply subkey_app_inj in E as (<- & <- & _).
  - intros [-> ->]. exists s. apply subkey_app.
Qed.

(** Reading a length-prefixed field at the end of a known prefix. *)
Lemma field_len p k s :
  blen k < 2 ^ 32 ->
  from_be (take 4 (drop (length p) (p ++ be_bytes 4 (wrap_u32 (blen k)) ++ k ++ s)))
  = blen k.
Proof. intros. rewrite drop_app_length, take_be. by apply len_prefix_roundtrip. Qed.

Lemma field_body p k s :
  take (Z.to_nat (blen k))
    (drop (length p + 4) (p ++ be_bytes 4 (wrap_u32 (blen k)) ++ k ++ s)) = k.
Proof. rewrite drop_add, drop_app_length, drop_be. apply take_blen. Qed.

Lemma field_rest p k s :
  drop (length p + 4 + Z.to_nat (blen k))
    (p ++ be_bytes 4 (wrap_u32 (blen k)) ++ k ++ s) = s.
Proof. rewrite !drop_add, drop_app_length, drop_be. apply drop_blen. Qed.

(** The namespace header of a key: nothing, or the length byte and the name. *)
Definition ns_header (ns : bytes) : bytes :=
  if bool_decide (ns = []) then [] else byte_of_Z (blen ns) :: ns.

Lemma metadata_key_header k ns :
  metadata_key k ns = ns_header ns ++ be_bytes 4 (wrap_u32 (blen k)) ++ k.
Proof. unfold metadata_key, ns_header. by case_bool_decide. Qed.

Lemma blen_metadata_key k ns :
  blen (metadata_key k ns) = blen (ns_header ns) + 4 + blen k.
Proof. rewrite metadata_key_header. autorewrite with kv. lia. Qed.

Lemma ns_guard data ns s :
  data = ns_header ns ++ s -> ns <> [] -> blen ns < 2 ^ 8 ->
  negb (byte_at data 0 =? blen ns)
  || negb (bool_decide (take (length ns) (drop 1 data) = ns)) = false.
Proof.
  intros -> Hne Hn. unfold ns_header. rewrite bool_decide_false by done.
  cbn [app byte_at lookup list_lookup]. fold (blen ns).
  rewrite byte_to_of_Z_small, Z.eqb_refl by (pose proof (blen_nonneg ns); lia).
  rewrite drop_S_cons, drop_0, take_app_length. by rewrite bool_decide_true.
Qed.

Lemma ns_header_length ns : ns <> [] -> length (ns_header ns) = (1 + length ns)%nat.
Proof. intros. unfold ns_header. by rewrite bool_decide_false. Qed.

Lemma parse_metadata_key_correct k ns :
  blen k < 2 ^ 32 -> blen ns < 2 ^ 8 ->
  parse_metadata_key (metadata_key k ns) ns = Some k.
Proof.
  intros Hk Hn. pose proof (blen_nonneg k). pose proof (blen_metadata_key k ns) as Hl.
  pose proof (field_len (ns_header ns) k [] Hk) as Hf.
  pose proof (field_body (ns_header ns) k []) as Hb.
  rewrite app_nil_r, <- metadata_key_header in Hf, Hb.
  unfold parse_metadata_key. case_bool_decide as E.
  - subst ns. change (length (ns_header [])) with 0%nat in *.
    change (blen (ns_header [])) with 0 in *. rewrite drop_0 in Hf.
    cbv zeta. rewrite Hl, Hf.
    replace (0 + 4 + blen k <? 4) with false by lia.
    replace (0 + 4 + blen k <? 4 + blen k) with false by lia.
    exact (f_equal Some Hb).
  - pose proof (ns_header_length ns E) as Hh. rewrite Hh in Hf, Hb. cbv zeta.
    assert (blen (ns_header ns) = 1 + blen ns) as Hh'
      by (unfold blen; rewrite Hh; lia).
    rewrite Hl, Hh', Hf. fold (blen ns). pose proof (blen_nonneg ns).
    replace (1 + blen ns + 4 + blen k <? 1 + blen ns + 4) with false by lia.
    rewrite (ns_guard _ ns _ (metadata_key_header k ns)) by done.
    replace (Z.of_nat (1 + length ns)) with (1 + blen ns) by (unfold blen; lia).
    replace (_ <? _) with false by lia. by rewrite Hb.
Qed.

Lemma parse_subkey_correct k v s ns :
  blen k < 2 ^ 32 -> blen ns < 2 ^ 8 -> is_u64 v = true ->
  parse_subkey (subkey k v s ns) ns = Some (k, v, s).
Proof.
  intros Hk Hn Hv. pose proof (blen_nonneg k). pose proof (blen_nonneg s).
  pose proof (blen_nonneg ns).
  assert (subkey k v s ns = ns_header ns ++ be_bytes 4 (wrap_u32 (blen k)) ++ k
            ++ be_bytes 8 v ++ s) as E
    by (unfold subkey; by rewrite metadata_key_header, <- !app_assoc).
  assert (blen (subkey k v s ns) = blen (ns_header ns) + 4 + blen k + 8 + blen s) as Hl
    by (rewrite E; autorewrite with kv; lia).
  pose proof (field_len (ns_header ns) k (be_bytes 8 v ++ s) Hk) as Hf.
  pose proof (field_body (ns_header ns) k (be_bytes 8 v ++ s)) as Hb.
  pose proof (field_rest (ns_header ns) k (be_bytes 8 v ++ s)) as Hr.
  rewrite <- E in Hf, Hb, Hr.
  unfold parse_subkey. rewrite Hl. case_bool_decide as Ens.
  - subst ns. change (length (ns_header [])) with 0%nat in *.
    change (blen (ns_header [])) with 0 in *. cbv zeta. rewrite Hf, Hb.
    rewrite (drop_add (0 + 4 + Z.to_nat (blen k)) 8), Hr, take_be, drop_be.
    rewrite u64_be_roundtrip by done. change (Z.of_nat 0) with 0.
    replace (_ <? 0 + 4) with false by lia.
    by replace (_ <? 0 + 4 + blen k + 8) with false by lia.
  - pose proof (ns_header_length ns Ens) as Hh. rewrite Hh in Hf, Hb, Hr. cbv zeta.
    assert (blen (ns_header ns) = 1 + blen ns) as Hh'
      by (unfold blen; rewrite Hh; lia).
    rewrite Hh', Hf, Hb, (drop_add (_ + Z.to_nat (blen k)) 8), Hr, take_be, drop_be.
    rewrite u64_be_roundtrip by done. fold (blen ns).
    replace (_ <? 1 + blen ns + 4) with false by lia.
    rewrite (ns_guard _ ns _ E) by done.
    replace (Z.of_nat (1 + length ns)) with (1 + blen ns) by (unfold blen; lia).
    replace (_ <? 1 + blen ns + 4) with false by lia.
    by replace (_ <? _) with false by lia.
Qed.

(** ** Values *)

(** What survives an encode/decode: only lists keep their end indices. *)
Definition canonical_ends (m : Metadata) : Metadata :=
  if bool_decide (data_type m = Some DList) then m
  else set_ends 0 (-1) (md_size m) m.

Lemma encode_metadata_unfold m :
  exists r, encode_metadata m = md_flags m :: be_bytes 8 (md_expire m)
      ++ be_bytes 8 (md_version m) ++ be_bytes 8 (md_size m) ++ r
    /\ r = (if bool_decide (data_type m = Some DList)
            then be_bytes 8 (md_head m) ++ be_bytes 8 (md_tail m) else []).
Proof. eauto. Qed.

Lemma blen_encode_metadata m :
  blen (encode_metadata m) = if bool_decide (data_type m = Some DList) then 41 else 25.
Proof.
  unfold encode_metadata. cbv zeta. autorewrite with kv.
  case_bool_decide; autorewrite with kv; lia.
Qed.

Lemma decode_encode_metadata m t :
  data_type m = Some t -> metadata_ranges m = true ->
  decode_metadata (encode_metadata m) = Some (canonical_ends m).
Proof.
  intros Ht Hr. unfold metadata_ranges in Hr. zbool.
  unfold decode_metadata. rewrite blen_encode_metadata.
  unfold canonical_ends, encode_metadata. cbv zeta.
  unfold data_type, data_type_from_flags in *. rewrite Ht.
  destruct (decide (t = DList)) as [->|Hne].
  - rewrite !bool_decide_true by done. cbn [Z.ltb Z.compare].
    change (slice 1 9 _) with (be_bytes 8 (md_expire m)).
    change (slice 9 17 _) with (be_bytes 8 (md_version m)).
    change (slice 17 25 _) with (be_bytes 8 (md_size m)).
    change (slice 25 33 _) with (be_bytes 8 (md_head m)).
    change (slice 33 41 _) with (be_bytes 8 (md_tail m)).
    rewrite !i64_be_roundtrip, !u64_be_roundtrip by done. by destruct m.
  - rewrite !bool_decide_false by congruence. cbn [Z.ltb Z.compare].
    change (slice 1 9 _) with (be_bytes 8 (md_expire m)).
    change (slice 9 17 _) with (be_bytes 8 (md_version m)).
    change (slice 17 25 _) with (be_bytes 8 (md_size m)).
    by rewrite i64_be_roundtrip, !u64_be_roundtrip.
Qed.

Lemma decode_metadata_ranges d m :
  decode_metadata d = Some m -> metadata_ranges m = true.
Proof.
  assert (forall l, is_u64 (from_be (take 8 l)) = true) as Hu.
  { intros l. apply is_u64_spec. pose proof (from_be_bound (take 8 l)).
    assert (2 ^ (8 * Z.of_nat (length (take 8 l))) <= 2 ^ 64)
      by (apply Z.pow_le_mono_r; [lia|rewrite length_take; lia]). lia. }
  assert (forall l, is_i64 (i64_from_be l) = true) by (intros; apply wrap_i64_range).
  unfold decode_metadata. intros E. repeat case_hyp E; simplify_eq;
    unfold metadata_ranges; simpl; unfold slice; rewrite ?Hu, ?H; done.
Qed.

Lemma decode_metadata_type d m :
  decode_metadata d = Some m ->
  exists f r t, d = f :: r /\ md_flags m = f /\ data_type m = Some t
    /\ type_code f = code t.
Proof.
  unfold decode_metadata. intros E. repeat case_hyp E; simplify_eq;
    do 3 eexists; (split; [done|]); (split; [done|]); unfold data_type;
    (split; [unfold data_type_from_flags; simpl; eassumption|]);
    by apply from_code_inv.
Qed.

Lemma decode_metadata_canonical d m :
  decode_metadata d = Some m -> canonical_ends m = m.
Proof.
  unfold decode_metadata, canonical_ends. intros E.
  repeat case_hyp E; simplify_eq; unfold data_type, data_type_from_flags, set_ends;
    simpl; case_bool_decide as Hd; try done; repeat case_bool_decide; simplify_eq;
    congruence.
Qed.

Lemma decode_encode_string f e p :
  is_i64 e = true -> decode_string (encode_string f e p) = Some (f, e, p).
Proof.
  intros He. unfold decode_string, encode_string. autorewrite with kv.
  pose proof (blen_nonneg p). replace (_ <? _) with false by lia.
  change (slice 1 9 _) with (be_bytes 8 e). change (drop 9 _) with p.
  by rewrite i64_be_roundtrip.
Qed.

(** The flags byte leads every value, so the type test reads it first. *)
Lemma encode_metadata_flags m : exists r, encode_metadata m = md_flags m :: r.
Proof. eauto. Qed.

(** ** Namespaces *)

Lemma key_len_first_byte k s :
  blen k < 2 ^ 24 ->
  exists r, be_bytes 4 (wrap_u32 (blen k)) ++ s = Byte.x00 :: r.
Proof.
  intros Hk. pose proof (blen_nonneg k). unfold wrap_u32.
  rewrite Z.mod_small by lia. eexists. cbn [be_bytes app]. f_equal.
  apply byte_to_Z_inj. rewrite byte_to_of_Z, Z.shiftr_div_pow2 by lia.
  by rewrite Z.div_small by lia.
Qed.

Lemma ns_header_first_byte ns :
  ns <> [] -> blen ns < 2 ^ 8 ->
  exists b, ns_header ns = b :: ns /\ byte_to_Z b = blen ns /\ b <> Byte.x00.
Proof.
  intros Hne Hn. unfold ns_header. rewrite bool_decide_false by done.
  eexists. split; [done|]. pose proof (blen_nonneg ns).
  rewrite byte_to_of_Z_small by lia. split; [done|]. intros E.
  apply (f_equal byte_to_Z) in E. rewrite byte_to_of_Z_small in E by lia.
  destruct ns; [done|]. rewrite blen_cons in E. pose proof (blen_nonneg ns).
  change (byte_to_Z Byte.x00) with 0 in E. lia.
Qed.

(** Two namespaces whose encoded keys collide are equal. *)
Lemma namespace_app_inj ns1 ns2 k1 k2 s1 s2 :
  blen ns1 < 2 ^ 8 -> blen ns2 < 2 ^ 8 -> blen k1 < 2 ^ 24 -> blen k2 < 2 ^ 24 ->
  metadata_key k1 ns1 ++ s1 = metadata_key k2 ns2 ++ s2 -> ns1 = ns2.
Proof.
  intros H1 H2 Hk1 Hk2. rewrite !metadata_key_header, <- !app_assoc. intros E.
  destruct (key_len_first_byte k1 (k1 ++ s1) Hk1) as [r1 E1].
  destruct (key_len_first_byte k2 (k2 ++ s2) Hk2) as [r2 E2].
  rewrite E1, E2 in E.
  destruct (decide (ns1 = [])) as [->|N1], (decide (ns2 = [])) as [->|N2]; [done|..].
  - destruct (ns_header_first_byte ns2 N2 H2) as (b & Eh & _ & Hb).
    rewrite Eh in E. simpl in E.
    congruence.
  - destruct (ns_header_first_byte ns1 N1 H1) as (b & Eh & _ & Hb).
    rewrite Eh in E. simpl in E.
    congruence.
  - destruct (ns_header_first_byte ns1 N1 H1) as (b1 & Eh1 & Hb1 & _).
    destruct (ns_header_first_byte ns2 N2 H2) as (b2 & Eh2 & Hb2 & _).
    rewrite Eh1, Eh2 in E. injection E as -> E. apply app_prefix_inj in E as [? _]; [done|].
    unfold blen in *. lia.
Qed.

(** ** Versions *)

Lemma generate_version_split millis rnd :
  0 <= millis < 2 ^ 48 -> 0 <= rnd < 2 ^ 16 ->
  generate_version millis rnd = millis * 2 ^ 16 + rnd.
Proof.
  intros Hm Hr. unfold generate_version, wrap_u64. cbv zeta.
  rewrite (Z.mod_small millis) by lia. rewrite Z.shiftl_mul_pow2 by lia.
  rewrite Z.mod_small by lia. change 65535 with (Z.ones 16).
  rewrite Z.land_ones, (Z.mod_small rnd) by lia.
  rewrite <- Z.lxor_lor, <- Z.add_nocarry_lxor; [done|..];
    apply Z.bits_inj'; intros i Hi; rewrite Z.bits_0, Z.land_spec;
    (destruct (decide (i < 16));
     [rewrite Z.mul_pow2_bits_low by lia; done
     |rewrite (Z.bits_above_log2 rnd), ?andb_false_r; try done; try lia;
      destruct (decide (rnd = 0)) as [->|]; [simpl; lia|];
      apply Z.log2_lt_pow2; [lia|];
      assert (2 ^ 16 <= 2 ^ i) by (apply Z.pow_le_mono_r; lia); lia]).
Qed.

Lemma generate_version_range millis rnd : is_u64 (generate_version millis rnd) = true.
Proof.
  unfold generate_version. cbv zeta. set (a := wrap_u64 (Z.shiftl _ 16)).
  assert (Z.land a (Z.ones 64) = a) as Ha.
  { rewrite Z.land_ones by lia. unfold a, wrap_u64. by rewrite Z.mod_mod by lia. }
  assert (Z.lor a (Z.land rnd 65535) = wrap_u64 (Z.lor a (Z.land rnd 65535))) as ->;
    [|apply wrap_u64_range].
  unfold wrap_u64. rewrite <- (Z.land_ones _ 64) by lia.
  rewrite Z.land_lor_distr_l, Ha, <- Z.land_assoc. done.
Qed.

(** ** Properties *)

(** C32: a user key, and the parts of a subkey, are read back from the encoded
    key in the namespace they were encoded in. *)
Theorem encoded_keys_roundtrip k v s ns :
  blen k < 2 ^ 32 -> blen ns < 2 ^ 8 -> is_u64 v = true ->
  parse_metadata_key (metadata_key k ns) ns = Some k
  /\ parse_subkey (subkey k v s ns) ns = Some (k, v, s).
Proof.
  intros. split; [by apply parse_metadata_key_correct|by apply parse_subkey_correct].
Qed.

Lemma encoded_keys_roundtrip_witness :
  parse_metadata_key (metadata_key (bs "user:1") (bs "prod")) (bs "prod")
    = Some (bs "user:1")
  /\ parse_subkey (subkey (bs "user:1") 77 (bs "name") (bs "prod")) (bs "prod")
    = Some (bs "user:1", 77, bs "name").
Proof. apply encoded_keys_roundtrip; reflexivity. Defined.

(** An encoded subkey lies under the scan prefix of a key's incarnation
    exactly when it belongs to that key and version; the subkeys of one
    incarnation are told apart by their sub part. *)
Theorem subkey_scan_exact ns a b v w s t :
  blen a < 2 ^ 32 -> blen b < 2 ^ 32 -> is_u64 v = true -> is_u64 w = true ->
  (starts_with (subkey a v [] ns) (subkey b w s ns) = true <-> a = b /\ v = w)
  /\ (subkey a v s ns = subkey b w t ns -> a = b /\ v = w /\ s = t).
Proof.
  intros. split; [by apply subkey_prefix_exact|].
  rewrite (subkey_app a v s), (subkey_app b w t). by apply subkey_app_inj.
Qed.

Lemma subkey_scan_exact_witness :
  (starts_with (subkey (bs "k") 1 [] []) (subkey (bs "kk") 1 (bs "f") []) = true
     <-> bs "k" = bs "kk" /\ 1 = 1)
  /\ (subkey (bs "k") 1 (bs "f") [] = subkey (bs "kk") 1 (bs "g") []
     -> bs "k" = bs "kk" /\ 1 = 1 /\ bs "f" = bs "g").
Proof. apply subkey_scan_exact; reflexivity. Defined.

(** Keys of different namespaces (the empty, legacy one included) never
    coincide and never extend one another, so no key or subkey of one
    namespace is met while scanning another's; namespaces have at most 255
    bytes and user keys less than 2^24. *)
Theorem namespaces_disjoint ns1 ns2 k1 k2 s1 s2 :
  blen ns1 < 2 ^ 8 -> blen ns2 < 2 ^ 8 -> blen k1 < 2 ^ 24 -> blen k2 < 2 ^ 24 ->
  ns1 <> ns2 ->
  metadata_key k1 ns1 ++ s1 <> metadata_key k2 ns2 ++ s2.
Proof. intros ? ? ? ? Hne E. by apply namespace_app_inj in E. Qed.

Lemma namespaces_disjoint_witness :
  metadata_key (bs "k") [] ++ bs "x" <> metadata_key (bs "k") (bs "t") ++ bs "y".
Proof. apply namespaces_disjoint; [reflexivity..|discriminate]. Defined.

(** The metadata of a composite value survives encoding; a list keeps its
    end indices, every other type gets the fixed pair (0, -1). *)
Theorem metadata_roundtrip m t :
  data_type m = Some t -> metadata_ranges m = true ->
  decode_metadata (encode_metadata m)
  = Some (if decide (t = DList) then m else set_ends 0 (-1) (md_size m) m).
Proof.
  intros Ht Hr. rewrite (decode_encode_metadata m t Ht Hr). unfold canonical_ends.
  rewrite Ht. destruct (decide (t = DList)) as [->|]; by case_bool_decide; simplify_eq.
Qed.

Lemma metadata_roundtrip_witness :
  decode_metadata (encode_metadata (set_ends (-3) 2 6 (metadata_new DList 9)))
  = Some (set_ends (-3) 2 6 (metadata_new DList 9)).
Proof. apply (metadata_roundtrip _ DList); reflexivity. Defined.

(** A string value is read back from its encoding, whatever its payload,
    and everything the decoder accepts is the encoding of what it returns. *)
Theorem string_value_roundtrip f e p d :
  is_i64 e = true ->
  decode_string (encode_string f e p) = Some (f, e, p)
  /\ (decode_string d = Some (f, e, p) -> encode_string f e p = d).
Proof.
  intros He. split; [by apply decode_encode_string|].
  unfold decode_string, encode_string. destruct (_ <? _) eqn:El; [done|]. zbool.
  destruct d as [|x d]; [done|]. intros [= -> Hexp <-]. f_equal.
  rewrite blen_cons in El. unfold blen in El.
  change (slice 1 9 (f :: d)) with (take 8 d) in Hexp. subst e.
  unfold i64_from_be. rewrite <- be_bytes_wrap64, wrap_u64_wrap_i64, be_bytes_wrap64.
  rewrite be_bytes_from by (rewrite length_take; lia). apply take_drop.
Qed.

Lemma string_value_roundtrip_witness :
  decode_string (encode_string (build_flags DString) (-5) (bs "v"))
    = Some (build_flags DString, -5, bs "v")
  /\ (decode_string (encode_string (build_flags DString) (-5) (bs "v"))
        = Some (build_flags DString, -5, bs "v") ->
      encode_string (build_flags DString) (-5) (bs "v")
      = encode_string (build_flags DString) (-5) (bs "v")).
Proof. apply string_value_roundtrip; reflexivity. Defined.

(** Versions generated at a later millisecond are larger, so a re-created
    key never scans the subkeys of an incarnation from an earlier
    millisecond. *)
Theorem generate_version_increases m1 m2 r1 r2 :
  0 <= m1 < m2 -> m2 < 2 ^ 48 -> 0 <= r1 < 2 ^ 16 -> 0 <= r2 < 2 ^ 16 ->
  generate_version m1 r1 < generate_version m2 r2 < 2 ^ 64.
Proof. intros. rewrite !generate_version_split by lia. lia. Qed.

Lemma generate_version_increases_witness :
  generate_version 1700000000000 65535 < generate_version 1700000000001 0 < 2 ^ 64.
Proof. apply generate_version_increases; lia. Defined.

(** Within one millisecond the doc comment's promise of monotone, unique
    versions fails: the order is that of the random parts, and equal random
    parts give equal versions. *)
Theorem generate_version_same_ms m r1 r2 :
  0 <= m < 2 ^ 48 -> 0 <= r1 < 2 ^ 16 -> 0 <= r2 < 2 ^ 16 ->
  (generate_version m r2 <= generate_version m r1 <-> r2 <= r1).
Proof. intros. rewrite !generate_version_split by lia. lia. Qed.

Lemma generate_version_same_ms_witness :
  generate_version 1700000000000 3 <= generate_version 1700000000000 9 <-> 3 <= 9.
Proof. apply generate_version_same_ms; lia. Defined.
