(* ===== verification/Backend.v ===== *)
(** * The embedded database

    RocksDB is a third-party library: the engine of src/storage.rs is written
    against this interface, which states the documented behaviour it relies
    on (point reads, atomic write batches, ordered iterators under the default
    bytewise comparator). [MemDB] is an executable instance, used to evaluate
    the commands on concrete data and to show the interface inhabited.
    I/O failures of the library are not part of the interface. *)

From S2P Require Import Prelude Bytes.
From stdpp Require Export sorting.

Local Open Scope Z_scope.

Abbreviation cf_name := string.
Abbreviation kv := (bytes * bytes)%type.

Inductive write_op :=
  | PutCf (cf : cf_name) (k v : bytes)
  | DeleteCf (cf : cf_name) (k : bytes).

(** A [WriteBatch]: its operations in order. *)
Abbreviation WriteBatch := (list write_op).

Definition op_effect (cf : cf_name) (k : bytes) (o : write_op) (cur : option bytes)
  : option bytes :=
  match o with
  | PutCf cf' k' v => if decide ((cf', k') = (cf, k)) then Some v else cur
  | DeleteCf cf' k' => if decide ((cf', k') = (cf, k)) then None else cur
  end.

Definition batch_effect (cf : cf_name) (k : bytes) (b : WriteBatch) (cur : option bytes)
  : option bytes :=
  fold_left (fun c o => op_effect cf k o c) b cur.

Definition key_lt (x y : kv) : Prop := bytes_lt x.1 y.1.
Definition key_gt (x y : kv) : Prop := bytes_lt y.1 x.1.

Class RocksDB (DB : Type) := {
  (** [cf_handle(name).is_some()] *)
  db_has_cf : DB -> cf_name -> bool;
  (** [get_cf] *)
  db_get : DB -> cf_name -> bytes -> option bytes;
  (** [write]: the whole batch, atomically *)
  db_write : DB -> WriteBatch -> DB;
  (** the items of an iterator in mode [From(key, Forward)] *)
  db_seek : DB -> cf_name -> bytes -> list kv;
  (** the items of an iterator in mode [From(key, Reverse)] *)
  db_seek_for_prev : DB -> cf_name -> bytes -> list kv;

  db_write_has_cf d b cf : db_has_cf (db_write d b) cf = db_has_cf d cf;
  db_get_write d b cf k :
    db_get (db_write d b) cf k = batch_effect cf k b (db_get d cf k);
  db_seek_sorted d cf from : StronglySorted key_lt (db_seek d cf from);
  db_seek_elem d cf from k v :
    (k, v) ∈ db_seek d cf from <-> db_get d cf k = Some v /\ bytes_le from k;
  db_seek_for_prev_sorted d cf from :
    StronglySorted key_gt (db_seek_for_prev d cf from);
  db_seek_for_prev_elem d cf from k v :
    (k, v) ∈ db_seek_for_prev d cf from <->
    db_get d cf k = Some v /\ bytes_le k from;
}.

(** Two database states a client cannot tell apart. *)
Definition db_equiv {DB} `{RocksDB DB} (d1 d2 : DB) : Prop :=
  (forall cf, db_has_cf d1 cf = db_has_cf d2 cf)
  /\ (forall cf k, db_get d1 cf k = db_get d2 cf k).

(** ** Batches *)

Lemma batch_effect_app cf k b1 b2 c :
  batch_effect cf k (b1 ++ b2) c = batch_effect cf k b2 (batch_effect cf k b1 c).
Proof. apply fold_left_app. Qed.

Definition op_key (o : write_op) : cf_name * bytes :=
  match o with PutCf cf k _ => (cf, k) | DeleteCf cf k => (cf, k) end.

(** A batch leaves every key it does not name unchanged. *)
Lemma batch_effect_frame cf k b c :
  Forall (fun o => op_key o <> (cf, k)) b -> batch_effect cf k b c = c.
Proof.
  unfold batch_effect. revert c. induction b as [|o b IH]; intros c; [done|].
  intros [Ho Hb]%Forall_cons. simpl. rewrite IH by done.
  destruct o; simpl in *; by case_decide.
Qed.

Lemma batch_effect_put cf k v c : batch_effect cf k [PutCf cf k v] c = Some v.
Proof. unfold batch_effect. simpl. by rewrite decide_True. Qed.

Lemma batch_effect_delete cf k c : batch_effect cf k [DeleteCf cf k] c = None.
Proof. unfold batch_effect. simpl. by rewrite decide_True. Qed.

(** ** Sorted item lists *)

Lemma key_lt_trans x y z : key_lt x y -> key_lt y z -> key_lt x z.
Proof. apply bytes_lt_trans. Qed.

Lemma sorted_ext (l1 l2 : list kv) :
  StronglySorted key_lt l1 -> StronglySorted key_lt l2 ->
  (forall x, x ∈ l1 <-> x ∈ l2) -> l1 = l2.
Proof.
  revert l2. induction l1 as [|x l1 IH]; intros [|y l2] H1 H2 He; [done|..].
  - exfalso. apply (not_elem_of_nil y), He. by left.
  - exfalso. apply (not_elem_of_nil x), He. by left.
  - apply StronglySorted_inv in H1 as [H1 F1]. apply StronglySorted_inv in H2 as [H2 F2].
    rewrite Forall_forall in F1, F2.
    assert (x = y) as ->.
    { assert (x ∈ y :: l2) as [|Hx]%elem_of_cons by (apply He; by left); [done|].
      assert (y ∈ x :: l1) as [|Hy]%elem_of_cons by (apply He; by left); [done|].
      exfalso. apply (bytes_lt_irrefl x.1), bytes_lt_trans with y.1;
        [by apply F1|by apply F2]. }
    f_equal. apply IH; [done..|]. intros z.
    assert (z ∈ l1 -> z <> y) as N1
      by (intros Hz ->; by apply (bytes_lt_irrefl y.1), F1).
    assert (z ∈ l2 -> z <> y) as N2
      by (intros Hz ->; by apply (bytes_lt_irrefl y.1), F2).
    specialize (He z). rewrite !elem_of_cons in He. clear -He N1 N2. tauto.
Qed.

(** ** An in-memory instance *)

Record MemDB := mkMemDB {
  mem_cfs : list cf_name;
  mem_data : gmap (cf_name * bytes) bytes;
}.

Definition mem_apply (m : gmap (cf_name * bytes) bytes) (o : write_op) :=
  match o with
  | PutCf cf k v => <[(cf, k) := v]> m
  | DeleteCf cf k => delete (cf, k) m
  end.

Definition mem_write (d : MemDB) (b : WriteBatch) : MemDB :=
  mkMemDB (mem_cfs d) (fold_left mem_apply b (mem_data d)).

Definition mem_get (d : MemDB) (cf : cf_name) (k : bytes) : option bytes :=
  mem_data d !! (cf, k).

Definition key_le (x y : kv) : Prop := bytes_leb x.1 y.1 = true.

#[export] Instance key_le_dec x y : Decision (key_le x y).
Proof. unfold key_le. apply _. Defined.

(** The items of a column family that pass [P], in key order. *)
Definition mem_items (d : MemDB) (cf : cf_name) (P : bytes -> bool) : list kv :=
  merge_sort key_le
    (omap (fun e => if bool_decide (e.1.1 = cf) && P e.1.2
                    then Some (e.1.2, e.2) else None)
       (map_to_list (mem_data d))).

Definition mem_seek (d : MemDB) (cf : cf_name) (from : bytes) : list kv :=
  mem_items d cf (bytes_leb from).

Definition mem_seek_for_prev (d : MemDB) (cf : cf_name) (from : bytes) : list kv :=
  reverse (mem_items d cf (fun k => bytes_leb k from)).

Lemma mem_get_write d b cf k :
  mem_get (mem_write d b) cf k = batch_effect cf k b (mem_get d cf k).
Proof.
  unfold mem_get, mem_write, batch_effect. simpl. generalize (mem_data d).
  induction b as [|o b IH]; intros m; [done|]. simpl. rewrite IH. f_equal.
  destruct o; simpl; [rewrite lookup_insert|rewrite lookup_delete]; done.
Qed.

Lemma mem_items_elem d cf P k v :
  (k, v) ∈ mem_items d cf P <-> mem_get d cf k = Some v /\ P k = true.
Proof.
  unfold mem_items. rewrite merge_sort_Permutation, list_elem_of_omap.
  unfold mem_get. split.
  - intros ([[cf' k'] v'] & He & H). simpl in H. apply elem_of_map_to_list in He.
    case_match eqn:E; simplify_eq. apply andb_true_iff in E as [E1 E2].
    by apply bool_decide_eq_true in E1 as ->.
  - intros [He HP]. exists (cf, k, v). rewrite elem_of_map_to_list. split; [done|].
    simpl. by rewrite bool_decide_true, HP.
Qed.

Lemma NoDup_omap_inj {A B} (f : A -> option B) (l : list A) :
  (forall x y z, f x = Some z -> f y = Some z -> x = y) -> NoDup l -> NoDup (omap f l).
Proof.
  intros Hf. induction 1 as [|x l Hx _ IH]; simpl; [constructor|].
  destruct (f x) as [z|] eqn:E; [|done]. constructor; [|done].
  rewrite list_elem_of_omap. intros (y & Hy & Ey). apply Hx. by rewrite (Hf x y z E Ey).
Qed.

Lemma mem_items_sorted d cf P : StronglySorted key_lt (mem_items d cf P).
Proof.
  assert (StronglySorted key_le (mem_items d cf P)) as HS.
  { apply StronglySorted_merge_sort.
    - intros x y z. unfold key_le. rewrite !bytes_leb_spec. apply transitivity.
    - intros x y. unfold key_le. rewrite !bytes_leb_spec, !bytes_le_lteq.
      destruct (bytes_total x.1 y.1) as [|[|]]; auto. }
  assert (NoDup (mem_items d cf P)) as HN.
  { unfold mem_items. rewrite merge_sort_Permutation.
    apply NoDup_omap_inj; [|apply NoDup_map_to_list].
    intros [[cf1 k1] v1] [[cf2 k2] v2] [k v]; simpl. intros H1 H2.
    repeat case_match; simplify_eq. zbool.
    repeat match goal with H : bool_decide _ = true |- _ =>
      apply bool_decide_eq_true in H end. by subst. }
  assert (forall k v v', (k, v) ∈ mem_items d cf P -> (k, v') ∈ mem_items d cf P -> v = v')
    as HF by (intros *; rewrite !mem_items_elem; intros [] []; congruence).
  revert HS HN HF. generalize (mem_items d cf P) as l.
  induction l as [|[k v] l IH]; intros HS HN HF; [constructor|].
  apply StronglySorted_inv in HS as [HS Fl]. apply NoDup_cons in HN as [Hni HN].
  constructor.
  - apply IH; [done..|]. intros *. intros ? ?. eapply HF; right; eassumption.
  - rewrite Forall_forall in Fl |- *. intros [k' v'] He. specialize (Fl _ He).
    unfold key_le, key_lt in *. simpl in *. apply bytes_leb_spec, bytes_le_lteq in Fl.
    destruct Fl as [|<-]; [done|]. exfalso. apply Hni.
    rewrite (HF k v v'); [done|by left|by right].
Qed.

Lemma StronglySorted_reverse (l : list kv) :
  StronglySorted key_lt l -> StronglySorted key_gt (reverse l).
Proof.
  induction 1 as [|x l HS IH Hx]; [constructor|]. rewrite reverse_cons.
  revert IH. assert (Forall (key_lt x) (reverse l)) as Hr.
  { rewrite Forall_forall in Hx |- *. intros y. rewrite elem_of_reverse. apply Hx. }
  induction Hr as [|y r Hy Hr IHr]; intros IH; simpl.
  - repeat constructor.
  - apply StronglySorted_inv in IH as [IH Fy]. constructor; [auto|].
    apply Forall_app. split; [done|]. repeat constructor. exact Hy.
Qed.

#[export, refine] Instance MemDB_RocksDB : RocksDB MemDB := {|
  db_has_cf d cf := bool_decide (cf ∈ mem_cfs d);
  db_get := mem_get;
  db_write := mem_write;
  db_seek := mem_seek;
  db_seek_for_prev := mem_seek_for_prev;
|}.
Proof.
  - done.
  - apply mem_get_write.
  - intros. apply mem_items_sorted.
  - intros. unfold mem_seek. by rewrite mem_items_elem, bytes_leb_spec.
  - intros. apply StronglySorted_reverse, mem_items_sorted.
  - intros. unfold mem_seek_for_prev.
    by rewrite elem_of_reverse, mem_items_elem, bytes_leb_spec.
Defined.

(** ** Extensional equality of states *)

Section Equiv.
Context {DB : Type} {RDB : RocksDB DB}.

#[export] Instance db_equiv_equivalence : Equivalence (@db_equiv DB RDB).
Proof.
  split.
  - by split.
  - intros ? ? [? ?]. by split.
  - intros ? ? ? [H1 H2] [H3 H4]. split; intros; by rewrite ?H1, ?H2.
Qed.

#[export] Instance db_write_proper : Proper (db_equiv ==> eq ==> db_equiv) db_write.
Proof.
  intros d1 d2 [H1 H2] ? b ->. split; intros.
  - by rewrite !db_write_has_cf.
  - by rewrite !db_get_write, H2.
Qed.

#[export] Instance db_get_proper : Proper (db_equiv ==> eq ==> eq ==> eq) db_get.
Proof. intros d1 d2 [_ H] ? cf -> ? k ->. apply H. Qed.

(** Indistinguishable states iterate over the same items. *)
#[export] Instance db_seek_proper : Proper (db_equiv ==> eq ==> eq ==> eq) db_seek.
Proof.
  intros d1 d2 [_ H] ? cf -> ? k ->. apply sorted_ext; [apply db_seek_sorted..|].
  intros [k' v']. by rewrite !db_seek_elem, H.
Qed.

End Equiv.
