(* ===== verification/Storage.v ===== *)
(** * The storage engine (src/storage.rs)

    [StorageEngine] over the database interface: point operations, write
    batches, and the paged prefix scans every composite command is built on.
    The second half relates the scans to one list, the entries under a
    prefix in key order. *)

From S2P Require Import Prelude Bytes Error Types Backend.

Local Open Scope Z_scope.

Definition CF_DEFAULT : cf_name := "default".
Definition CF_METADATA : cf_name := "metadata".
Definition CF_SUBKEY : cf_name := "subkey".
Definition CF_ZSET_SCORE : cf_name := "zset_score".
Definition CF_PUBSUB : cf_name := "pubsub".

Definition ALL_CFS : list cf_name :=
  [CF_DEFAULT; CF_METADATA; CF_SUBKEY; CF_ZSET_SCORE; CF_PUBSUB].

Definition KEY_LOCK_SHARDS : Z := 1024.

Definition dt_cf_name (t : DataType) : cf_name :=
  match t with
  | DString => CF_METADATA
  | DHash | DList | DSet | DZSet | DStream | DBitmap => CF_SUBKEY
  end.

(** The column families [open] asks RocksDB for: the ones found on disk, or
    the predefined ones when listing them fails (no database yet). *)
Definition open_cfs (listed : option (list cf_name)) : list cf_name :=
  match listed with Some existing => existing | None => ALL_CFS end.

(** [shard_index], over the digest of the standard library's default hasher. *)
Definition shard_index (default_hash : bytes -> Z) (key : bytes) : Z :=
  default_hash key mod KEY_LOCK_SHARDS.

(** Size of a [(Vec<u8>, Vec<u8>)]: two headers of three words. *)
Definition KV_SIZE : Z := 48.

Abbreviation Page := (list kv * option bytes)%type.

(** The scan loop of both [prefix_scan_page] and its reverse, on the items
    the iterator still has: the collected items, the last key, whether the
    prefix boundary was hit, and the items left in the iterator. *)
Fixpoint page_loop (prefix start_key : bytes) (limit : Z) (first : bool)
    (result : list kv) (last_key : option bytes) (items : list kv)
  : list kv * option bytes * bool * list kv :=
  match items with
  | [] => (result, last_key, false, [])
  | (k, v) :: rest =>
      if first && bool_decide (k = start_key) then
        page_loop prefix start_key limit false result last_key rest
      else if negb (starts_with prefix k) then (result, last_key, true, rest)
      else
        let result' := result ++ [(k, v)] in
        if limit <=? Z.of_nat (length result') then (result', Some k, false, rest)
        else page_loop prefix start_key limit false result' (Some k) rest
  end.

(** The page and the next page's start key. *)
Definition page_of (prefix start_key : bytes) (limit : Z) (first : bool)
    (items : list kv) : Page :=
  let '(result, last_key, hit_boundary, rest) :=
    page_loop prefix start_key limit first [] None items in
  let next_key :=
    if hit_boundary || (Z.of_nat (length result) <? limit) then None
    else match rest with
         | [] => None
         | (k, _) :: _ => if starts_with prefix k then last_key else None
         end in
  (result, next_key).

(** The item loop of [prefix_scan]: stop at the first key off the prefix. *)
Fixpoint take_prefix (prefix : bytes) (items : list kv) : list kv :=
  match items with
  | [] => []
  | (k, v) :: rest =>
      if negb (starts_with prefix k) then [] else (k, v) :: take_prefix prefix rest
  end.

(** Control flow of a loop body: go on, or leave the loop with a value. *)
Inductive ctrl (A : Type) := Continue (a : A) | Break (a : A).
Arguments Continue {A} a.
Arguments Break {A} a.

Definition ctrl_value {A} (c : ctrl A) : A :=
  match c with Continue a => a | Break a => a end.

(** [for item in items { body }] with early exits. *)
Fixpoint for_items {A} (body : A -> kv -> outcome (ctrl A)) (a : A) (items : list kv)
  : outcome (ctrl A) :=
  match items with
  | [] => Ok (Continue a)
  | x :: rest =>
      match body a x with
      | Ok (Continue a') => for_items body a' rest
      | other => other
      end
  end.

Section Engine.
Context {DB : Type} {RDB : RocksDB DB}.

Definition cf_handle (name : cf_name) : M DB unit := fun d =>
  if db_has_cf d name then (Ok tt, d)
  else (Err (Command (bs "missing column family: " ++ bs name)), d).

Definition get (cf : cf_name) (key : bytes) : M DB (option bytes) :=
  _ ← cf_handle cf; gets (fun d => db_get d cf key).

Definition put (cf : cf_name) (key value : bytes) : M DB unit :=
  _ ← cf_handle cf; modify (fun d => db_write d [PutCf cf key value]).

Definition delete (cf : cf_name) (key : bytes) : M DB unit :=
  _ ← cf_handle cf; modify (fun d => db_write d [DeleteCf cf key]).

Definition write (batch : WriteBatch) : M DB unit :=
  modify (fun d => db_write d batch).

Definition batch_put (batch : WriteBatch) (cf : cf_name) (key value : bytes)
  : M DB WriteBatch :=
  _ ← cf_handle cf; mret (batch ++ [PutCf cf key value]).

Definition batch_delete (batch : WriteBatch) (cf : cf_name) (key : bytes)
  : M DB WriteBatch :=
  _ ← cf_handle cf; mret (batch ++ [DeleteCf cf key]).

Definition prefix_scan (cf : cf_name) (prefix : bytes) : M DB (list kv) :=
  _ ← cf_handle cf; gets (fun d => take_prefix prefix (db_seek d cf prefix)).

Definition prefix_scan_page (cf : cf_name) (prefix start_key : bytes) (limit : Z)
  : M DB Page :=
  _ ← cf_handle cf;
  if capacity_overflow KV_SIZE limit then panic
  else gets (fun d =>
    let from := if bool_decide (start_key = []) then prefix else start_key in
    page_of prefix start_key limit (negb (bool_decide (start_key = [])))
      (db_seek d cf from)).

Definition prefix_scan_page_reverse (cf : cf_name) (prefix start_key : bytes) (limit : Z)
  : M DB Page :=
  _ ← cf_handle cf;
  if capacity_overflow KV_SIZE limit then panic
  else gets (fun d =>
    let from := if bool_decide (start_key = [])
                then prefix ++ replicate 8 Byte.xff else start_key in
    page_of prefix start_key limit true (db_seek_for_prev d cf from)).

Definition full_scan (cf : cf_name) : M DB (list kv) :=
  _ ← cf_handle cf; gets (fun d => db_seek d cf []).

Fixpoint delete_prefix_loop (fuel : nat) (cf : cf_name) (prefix start_key : bytes)
    (batch_size : Z) : M DB unit :=
  match fuel with
  | O => out_of_fuel
  | S fuel' =>
      '(items, next_key) ← prefix_scan_page cf prefix start_key batch_size;
      match items with
      | [] => mret tt
      | _ =>
          _ ← write (map (fun x => DeleteCf cf x.1) items);
          match next_key with
          | Some k => delete_prefix_loop fuel' cf prefix k batch_size
          | None => mret tt
          end
      end
  end.

(** Every round deletes an item, so their number is enough fuel. *)
Definition delete_prefix (cf : cf_name) (prefix : bytes) (batch_size : Z) : M DB unit :=
  _ ← cf_handle cf;
  with_state (fun d =>
    delete_prefix_loop (S (length (db_seek d cf prefix))) cf prefix [] batch_size).

Definition count_prefix (cf : cf_name) (prefix : bytes) : M DB Z :=
  _ ← cf_handle cf;
  gets (fun d => fold_left (fun count _ => count + 1)
                   (take_prefix prefix (db_seek d cf prefix)) 0).

(** The read loop of the composite commands: fetch a page, leave on an empty
    one, run the body on its items, go on from the next key. *)
Fixpoint page_walk_loop {A} (fuel : nat) (cf : cf_name) (prefix : bytes) (limit : Z)
    (body : A -> kv -> outcome (ctrl A)) (start_key : bytes) (a : A) : M DB A :=
  match fuel with
  | O => out_of_fuel
  | S fuel' =>
      '(items, next_key) ← prefix_scan_page cf prefix start_key limit;
      match items with
      | [] => mret a
      | _ =>
          c ← lift (for_items body a items);
          match c with
          | Break a' => mret a'
          | Continue a' =>
              match next_key with
              | Some k => page_walk_loop fuel' cf prefix limit body k a'
              | None => mret a'
              end
          end
      end
  end.

Definition page_walk {A} (cf : cf_name) (prefix : bytes) (limit : Z)
    (body : A -> kv -> outcome (ctrl A)) (a : A) : M DB A :=
  with_state (fun d =>
    page_walk_loop (S (length (db_seek d cf prefix))) cf prefix limit body [] a).

End Engine.

(** ** Pages as segments of a list *)

(** Page size a limit stands for: a limit of 0 still yields one item. *)
Definition page_size (limit : Z) : nat := Nat.max 1 (Z.to_nat limit).

Lemma take_prefix_app_room prefix k v rest n :
  starts_with prefix k = true ->
  take (S n) (take_prefix prefix ((k, v) :: rest)) = (k, v) :: take n (take_prefix prefix rest).
Proof. intros H. simpl. by rewrite H. Qed.

(** [page_of] after the start key has been dealt with. *)
Definition finish_page (prefix : bytes) (limit : Z)
    (r : list kv * option bytes * bool * list kv) : Page :=
  let '(result, last_key, hit, rest) := r in
  (result,
   if hit || (Z.of_nat (length result) <? limit) then None
   else match rest with
        | [] => None
        | (k, _) :: _ => if starts_with prefix k then last_key else None
        end).

Lemma page_of_finish prefix s limit first items :
  page_of prefix s limit first items
  = finish_page prefix limit (page_loop prefix s limit first [] None items).
Proof. unfold page_of, finish_page. by destruct page_loop as [[[? ?] ?] ?]. Qed.

Lemma page_loop_spec prefix s limit acc items :
  (length acc < page_size limit)%nat ->
  finish_page prefix limit
    (page_loop prefix s limit false acc (fst <$> last acc) items)
  = (let P := take_prefix prefix items in
     let n := (page_size limit - length acc)%nat in
     let r := acc ++ take n P in
     (r, if (n <? length P)%nat then fst <$> last r else None)).
Proof.
  revert acc. induction items as [|[k v] rest IH]; intros acc Hacc; simpl.
  - rewrite take_nil, app_nil_r. f_equal. by destruct (_ <? _)%Z.
  - destruct (starts_with prefix k) eqn:Hk; simpl.
    + rewrite length_app. simpl.
      destruct (limit <=? Z.of_nat (length acc + 1)) eqn:El; zbool.
      * unfold page_size in *. simpl.
        replace (Nat.max 1 (Z.to_nat limit) - length acc)%nat with 1%nat by lia.
        cbn [take]. f_equal. rewrite length_app. simpl.
        rewrite (proj2 (Z.ltb_ge _ limit)) by lia.
        destruct rest as [|[k' v'] rest]; [done|]. simpl.
        destruct (starts_with prefix k'); simpl; [|done].
        by rewrite ?take_0, last_snoc.
      * specialize (IH (acc ++ [(k, v)])). rewrite last_snoc in IH. simpl in IH.
        rewrite IH by (rewrite length_app; unfold page_size in *; simpl; lia).
        rewrite length_app. simpl.
        replace (page_size limit - length acc)%nat
          with (S (page_size limit - (length acc + 1)))
          by (unfold page_size in *; lia).
        cbn [take]. rewrite <- app_assoc. simpl.
        assert (forall a b, (S a <? S b)%nat = (a <? b)%nat) as -> by done. done.
    + by rewrite take_nil, app_nil_r.
Qed.

Lemma page_of_spec prefix s limit items :
  page_of prefix s limit false items
  = (let P := take_prefix prefix items in
     let n := page_size limit in
     (take n P, if (n <? length P)%nat then fst <$> last (take n P) else None)).
Proof.
  rewrite page_of_finish.
  pose proof (page_loop_spec prefix s limit [] items) as H. simpl in H.
  rewrite H by (unfold page_size; lia). by rewrite Nat.sub_0_r.
Qed.

Lemma page_of_skip prefix s limit items :
  page_of prefix s limit true items
  = page_of prefix s limit false
      (match items with
       | (k, v) :: rest => if bool_decide (k = s) then rest else (k, v) :: rest
       | [] => []
       end).
Proof.
  rewrite !page_of_finish. destruct items as [|[k v] rest]; [done|]. simpl.
  case_bool_decide; [done|]. simpl. done.
Qed.

(** ** Item loops *)

Lemma for_items_app {A} (body : A -> kv -> outcome (ctrl A)) a l1 l2 :
  for_items body a (l1 ++ l2)
  = match for_items body a l1 with
    | Ok (Continue a') => for_items body a' l2
    | other => other
    end.
Proof.
  revert a. induction l1 as [|x l1 IH]; intros a; simpl; [done|].
  destruct (body a x) as [[a'|a']|e| |]; auto.
Qed.

(** ** Sorted segments *)

Lemma sorted_take_prefix prefix l :
  StronglySorted key_lt l -> StronglySorted key_lt (take_prefix prefix l).
Proof.
  assert (forall P x, Forall P x -> Forall P (take_prefix prefix x)) as HF.
  { intros P. induction 1 as [|[k v] x Hx _ IH]; simpl; [constructor|].
    destruct (starts_with prefix k); simpl; by constructor. }
  induction 1 as [|[k v] l _ IH Hl]; simpl; [constructor|].
  destruct (starts_with prefix k); simpl; constructor; auto.
Qed.

Lemma take_prefix_sound prefix l k v :
  (k, v) ∈ take_prefix prefix l -> (k, v) ∈ l /\ starts_with prefix k = true.
Proof.
  induction l as [|[k' v'] l IH]; simpl; [by intros ?%elem_of_nil|].
  destruct (starts_with prefix k') eqn:E; simpl; [|by intros ?%elem_of_nil].
  rewrite !elem_of_cons. intros [[= -> ->]|H]; [by auto|]. destruct (IH H). auto.
Qed.

(** On an ascending list that starts at or above the prefix, stopping at the
    first key off the prefix loses nothing. *)
Lemma take_prefix_complete prefix l k v :
  StronglySorted key_lt l -> Forall (fun x => bytes_le prefix x.1) l ->
  (k, v) ∈ l -> starts_with prefix k = true -> (k, v) ∈ take_prefix prefix l.
Proof.
  induction 1 as [|[k' v'] l HS IH Hl]; intros HF He Hk; [by apply elem_of_nil in He|].
  apply Forall_cons in HF as [Hk' HF]. simpl in Hk'. simpl.
  apply elem_of_cons in He as [[= -> ->]|He].
  - rewrite Hk. simpl. by left.
  - rewrite Forall_forall in Hl.
    assert (starts_with prefix k' = true) as ->.
    { apply (starts_with_convex prefix k' k Hk Hk').
      apply bytes_le_lteq. left. exact (Hl _ He). }
    simpl. right. auto.
Qed.

Lemma sorted_filter (P : kv -> Prop) `{!forall x, Decision (P x)} l :
  StronglySorted key_lt l -> StronglySorted key_lt (filter P l).
Proof.
  induction 1 as [|x l _ IH Hl]; [constructor|]. rewrite filter_cons.
  case_decide; [|done]. constructor; [done|].
  rewrite Forall_forall in Hl |- *. intros y Hy. apply Hl.
  by apply list_elem_of_filter in Hy as [_ ?].
Qed.

(** What is left above the last key of an initial segment. *)
Lemma sorted_after_take l n x :
  StronglySorted key_lt l -> last (take n l) = Some x ->
  filter (fun y => bytes_ltb x.1 y.1 = true) l = drop n l.
Proof.
  intros HS. revert n. induction HS as [|y l HS IH Hl]; intros n Hx.
  - by rewrite take_nil in Hx.
  - destruct n as [|n]; [done|]. cbn [take drop] in *.
    rewrite Forall_forall in Hl. rewrite filter_cons.
    destruct (take n l) as [|z t] eqn:Et.
    + simpl in Hx. injection Hx as ->. rewrite decide_False.
      * apply sorted_ext.
        -- by apply sorted_filter.
        -- rewrite <- (take_drop n l) in HS. rewrite Et in HS. exact HS.
        -- intros w. rewrite list_elem_of_filter.
           rewrite <- (take_drop n l) at 1. rewrite Et. simpl.
           split; [by intros []|]. intros Hw. split; [|done].
           apply bytes_ltb_spec, Hl. rewrite <- (take_drop n l), Et. done.
      * rewrite bytes_ltb_spec. apply bytes_lt_irrefl.
    + rewrite last_cons_cons in Hx. rewrite <- Et in Hx.
      rewrite decide_False; [by apply IH|].
      rewrite bytes_ltb_spec. intros Hlt.
      apply last_Some_elem_of in Hx. apply elem_of_take in Hx as (i & Hi & _).
      apply (bytes_lt_irrefl y.1), bytes_lt_trans with x.1; [|done].
      apply Hl, list_elem_of_lookup. eauto.
Qed.

(** ** The entries under a prefix *)

Section EngineFacts.
Context {DB : Type} {RDB : RocksDB DB}.
Implicit Types (d : DB) (cf : cf_name) (prefix : bytes).

(** The reference: every stored item whose key has the prefix, in key order. *)
Definition entries d cf prefix : list kv := take_prefix prefix (db_seek d cf prefix).

Definition entries_after d cf prefix (s : bytes) : list kv :=
  filter (fun x => bytes_ltb s x.1 = true) (entries d cf prefix).

(** The items a scan that starts at [s] has ahead of it. *)
Definition remaining d cf prefix (s : bytes) : list kv :=
  if bool_decide (s = []) then entries d cf prefix else entries_after d cf prefix s.

Lemma entries_sorted d cf prefix : StronglySorted key_lt (entries d cf prefix).
Proof. apply sorted_take_prefix, db_seek_sorted. Qed.

Lemma entries_elem d cf prefix k v :
  (k, v) ∈ entries d cf prefix <->
  db_get d cf k = Some v /\ starts_with prefix k = true.
Proof.
  unfold entries. split.
  - intros [H ?]%take_prefix_sound. by apply db_seek_elem in H as [? _].
  - intros [Hg Hp]. apply take_prefix_complete; [apply db_seek_sorted| | |done].
    + apply Forall_forall. intros [k' v'] H. by apply db_seek_elem in H as [_ ?].
    + apply db_seek_elem. split; [done|].
      apply starts_with_spec in Hp as [s ->]. apply bytes_le_app.
Qed.

(** Two states with the same data under a prefix have the same entries. *)
Lemma entries_ext d1 d2 cf prefix :
  (forall k, starts_with prefix k = true -> db_get d1 cf k = db_get d2 cf k) ->
  entries d1 cf prefix = entries d2 cf prefix.
Proof.
  intros H. apply sorted_ext; [apply entries_sorted..|]. intros [k v].
  rewrite !entries_elem. split; intros [? Hp]; rewrite ?(H k Hp) in *; by try rewrite H.
Qed.

Lemma entries_length d cf prefix :
  (length (entries d cf prefix) <= length (db_seek d cf prefix))%nat.
Proof.
  unfold entries. induction (db_seek d cf prefix) as [|[k v] l IH]; simpl; [lia|].
  destruct (starts_with prefix k); simpl; lia.
Qed.

Lemma remaining_sorted d cf prefix s : StronglySorted key_lt (remaining d cf prefix s).
Proof.
  unfold remaining. case_bool_decide; [apply entries_sorted|].
  apply sorted_filter, entries_sorted.
Qed.

Lemma remaining_elem d cf prefix s x :
  x ∈ remaining d cf prefix s -> x ∈ entries d cf prefix.
Proof.
  unfold remaining. case_bool_decide; [done|].
  by intros [_ ?]%list_elem_of_filter.
Qed.

(** The items of an iterator placed at a key of the prefix, that key skipped. *)
Lemma seek_after d cf prefix s :
  starts_with prefix s = true ->
  take_prefix prefix (match db_seek d cf s with
                      | (k, v) :: rest => if bool_decide (k = s) then rest
                                          else (k, v) :: rest
                      | [] => []
                      end)
  = entries_after d cf prefix s.
Proof.
  intros Hs. pose proof (db_seek_sorted d cf s) as HS.
  pose proof (db_seek_elem d cf s) as HE.
  set (l := match db_seek d cf s with (k, v) :: rest => _ | [] => [] end).
  assert (StronglySorted key_lt l /\ forall k v, (k, v) ∈ l <->
            db_get d cf k = Some v /\ bytes_lt s k) as [Hl He].
  { subst l. revert HS HE. destruct (db_seek d cf s) as [|[k v] rest]; intros HS HE.
    - split; [constructor|]. intros k' v'. split; [by intros ?%elem_of_nil|].
      intros [Hg Hlt]. apply HE. split; [done|]. apply bytes_le_lteq. by left.
    - apply StronglySorted_inv in HS as [HS HF]. rewrite Forall_forall in HF.
      case_bool_decide as Ek.
      + subst k. split; [done|]. intros k' v'. split.
        * intros Hin. split; [|by apply (HF (k', v'))].
          apply (HE k' v'). by right.
        * intros [Hg Hlt]. assert ((k', v') ∈ (s, v) :: rest) as Hin.
          { apply HE. split; [done|]. apply bytes_le_lteq. by left. }
          apply elem_of_cons in Hin as [[= -> ->]|]; [|done].
          by apply bytes_lt_irrefl in Hlt.
      + split; [by constructor; [|apply Forall_forall]|]. intros k' v'.
        rewrite HE, bytes_le_lteq. split; [|by intros []; auto].
        intros [Hg [|<-]]; [done|]. exfalso.
        assert ((s, v') ∈ (k, v) :: rest) as Hin.
        { apply HE. by split; [|apply bytes_le_lteq; right]. }
        apply elem_of_cons in Hin as [[= -> ->]|Hin]; [done|].
        assert (bytes_le s k) as Hle by (apply (HE k v); by left).
        apply (bytes_lt_irrefl s), bytes_le_lt_trans with k; [done|].
        exact (HF _ Hin). }
  assert (forall k, bytes_lt s k -> bytes_le prefix k) as Hpk.
  { intros k Hlt. apply starts_with_spec in Hs as [t ->].
    etransitivity; [apply bytes_le_app|]. apply bytes_le_lteq. by left. }
  apply sorted_ext.
  - by apply sorted_take_prefix.
  - apply sorted_filter, entries_sorted.
  - intros [k v]. unfold entries_after. rewrite list_elem_of_filter, entries_elem.
    simpl. rewrite bytes_ltb_spec. split.
    + intros [Hin Hp]%take_prefix_sound. by apply He in Hin as [? ?].
    + intros (Hlt & Hg & Hp). apply take_prefix_complete; [done| |by apply He|done].
      apply Forall_forall. intros [k' v'] Hin. apply Hpk. by apply He in Hin as [_ ?].
Qed.

(** A page is the next segment of the remaining items. *)
Lemma prefix_scan_page_ok d cf prefix s limit :
  db_has_cf d cf = true -> capacity_overflow KV_SIZE limit = false ->
  s = [] \/ starts_with prefix s = true ->
  prefix_scan_page cf prefix s limit d
  = (let R := remaining d cf prefix s in
     let r := take (page_size limit) R in
     (Ok (r, if (page_size limit <? length R)%nat then fst <$> last r else None), d)).
Proof.
  intros Hcf Hcap Hs. unfold prefix_scan_page, mbind, M_bind, cf_handle.
  rewrite Hcf, Hcap. unfold gets, remaining.
  destruct (decide (s = [])) as [->|Hne].
  - rewrite !bool_decide_true by done. simpl. by rewrite page_of_spec.
  - destruct Hs as [->|Hs]; [done|]. rewrite !bool_decide_false by done. simpl.
    rewrite page_of_skip, page_of_spec. by rewrite seek_after.
Qed.

Lemma remaining_next d cf prefix s n x :
  last (take n (remaining d cf prefix s)) = Some x -> x.1 <> [] ->
  remaining d cf prefix x.1 = drop n (remaining d cf prefix s).
Proof.
  intros Hx Hne. pose proof (remaining_sorted d cf prefix s) as HS.
  rewrite <- (sorted_after_take _ n x HS Hx).
  unfold remaining at 1. rewrite bool_decide_false by done. unfold entries_after.
  unfold remaining in *. case_bool_decide; [done|]. unfold entries_after in *.
  rewrite list_filter_filter. apply list_filter_iff. intros y.
  assert (x ∈ filter (fun z => bytes_ltb s z.1 = true) (entries d cf prefix)) as Hin.
  { apply last_Some_elem_of, elem_of_take in Hx as (i & Hi & _).
    apply list_elem_of_lookup. eauto. }
  apply list_elem_of_filter in Hin as [Hlt _].
  rewrite !bytes_ltb_spec in *. split; [|by intros []].
  intros ?. split; [done|]. by apply bytes_lt_trans with x.1.
Qed.

(** The empty string is not a stored key under the prefix, so a page's last
    key is never mistaken for "from the start". *)
Definition no_empty_key d cf prefix : Prop :=
  prefix <> [] \/ db_get d cf [] = None.

Lemma no_empty_key_entries d cf prefix k v :
  no_empty_key d cf prefix -> (k, v) ∈ entries d cf prefix -> k <> [].
Proof.
  intros H [Hg Hp]%entries_elem ->. destruct H as [H|H]; [|congruence].
  by destruct prefix.
Qed.

Lemma take_last_elem {A} n (l : list A) :
  (1 <= n)%nat -> l <> [] -> exists x, last (take n l) = Some x /\ x ∈ l.
Proof.
  intros Hn Hl. destruct (last (take n l)) as [x|] eqn:E.
  - exists x. split; [done|]. apply last_Some_elem_of, elem_of_take in E as (i & Hi & _).
    apply list_elem_of_lookup. eauto.
  - apply last_None in E. destruct n, l; try done. lia.
Qed.

(** Walking the pages is one pass over the entries. *)
Lemma page_walk_loop_ok {A} fuel d cf prefix limit
    (body : A -> kv -> outcome (ctrl A)) s a :
  db_has_cf d cf = true -> capacity_overflow KV_SIZE limit = false ->
  no_empty_key d cf prefix -> s = [] \/ starts_with prefix s = true ->
  (length (remaining d cf prefix s) < fuel)%nat ->
  page_walk_loop fuel cf prefix limit body s a d
  = (ctrl_value <$> for_items body a (remaining d cf prefix s), d).
Proof.
  intros Hcf Hcap Hnk. revert s a.
  induction fuel as [|fuel IH]; intros s a Hs Hf; [lia|]. cbn [page_walk_loop].
  erewrite bind_Ok by (by apply prefix_scan_page_ok).
  set (R := remaining d cf prefix s) in *. set (n := page_size limit) in *.
  assert (1 <= n)%nat as Hn by (subst n; unfold page_size; lia).
  destruct (take n R) as [|x r] eqn:Et.
  { destruct R as [|y R]; [done|]. destruct n; [lia|done]. }
  rewrite <- Et. replace (for_items body a R)
    with (for_items body a (take n R ++ drop n R)) by by rewrite take_drop.
  rewrite for_items_app.
  destruct (for_items body a (take n R)) as [[a'|a']|e| |]; try done.
  unfold mbind at 1, M_bind, lift.
  destruct (n <? length R)%nat eqn:En; [apply Nat.ltb_lt in En|apply Nat.ltb_ge in En].
  - destruct (take_last_elem n R Hn) as ([ky vy] & El & Hy);
      [by intros E0; rewrite E0 in En; simpl in En; lia|].
    apply remaining_elem in Hy. rewrite El.
    pose proof (no_empty_key_entries _ _ _ _ _ Hnk Hy) as Hne.
    pose proof (remaining_next d cf prefix s n (ky, vy) El Hne) as HR. simpl in HR.
    simpl. rewrite IH; [by rewrite HR| |].
    + right. by apply entries_elem in Hy as [_ ?].
    + rewrite HR, length_drop. fold R. lia.
  - by rewrite drop_ge by lia.
Qed.

Lemma page_walk_ok {A} d cf prefix limit (body : A -> kv -> outcome (ctrl A)) a :
  db_has_cf d cf = true -> capacity_overflow KV_SIZE limit = false ->
  no_empty_key d cf prefix ->
  page_walk cf prefix limit body a d
  = (ctrl_value <$> for_items body a (entries d cf prefix), d).
Proof.
  intros Hcf Hcap Hnk. unfold page_walk, with_state.
  rewrite page_walk_loop_ok; [done..|by left|].
  pose proof (entries_length d cf prefix). change (remaining d cf prefix []) with
    (entries d cf prefix). lia.
Qed.

(** ** Deleting a prefix *)

Definition delete_items cf (l : list kv) : WriteBatch := map (fun x => DeleteCf cf x.1) l.

Lemma delete_items_effect cf l cf' k c :
  batch_effect cf' k (delete_items cf l) c
  = if bool_decide (cf' = cf /\ k ∈ l.*1) then None else c.
Proof.
  unfold batch_effect, delete_items. revert c.
  induction l as [|x l IH]; intros c; simpl.
  - rewrite bool_decide_false; [done|]. by intros [_ ?%elem_of_nil].
  - rewrite IH. case_bool_decide as H1.
    + rewrite bool_decide_true; [done|]. destruct H1. split; [done|by right].
    + case_decide as H2; simplify_eq.
      * rewrite bool_decide_true; [done|]. split; [done|by left].
      * rewrite bool_decide_false; [done|]. intros [-> [->|]%elem_of_cons]; auto.
Qed.

(** [d'] is [d] without the keys of one family under a prefix. *)
Definition cleared d d' cf prefix : Prop :=
  (forall c, db_has_cf d' c = db_has_cf d c)
  /\ (forall c k, db_get d' c k
       = if bool_decide (c = cf) && starts_with prefix k then None else db_get d c k).

(** Deleting an initial segment of the entries leaves the rest. *)
Lemma entries_delete_take d cf prefix n :
  entries (db_write d (delete_items cf (take n (entries d cf prefix)))) cf prefix
  = drop n (entries d cf prefix).
Proof.
  pose proof (entries_sorted d cf prefix) as HS.
  apply sorted_ext; [apply entries_sorted| |].
  - rewrite <- (take_drop n (entries d cf prefix)) in HS.
    by apply StronglySorted_app_1_r in HS.
  - intros [k v]. rewrite entries_elem, db_get_write, delete_items_effect.
    rewrite <- (take_drop n (entries d cf prefix)) in HS.
    assert (forall x y, x ∈ take n (entries d cf prefix) ->
              y ∈ drop n (entries d cf prefix) -> key_lt x y) as Hlt
      by (intros; by eapply StronglySorted_app_1_elem_of).
    split.
    + case_bool_decide as Hin; [by intros []|]. intros [Hg Hp].
      assert ((k, v) ∈ entries d cf prefix) as He by by apply entries_elem.
      rewrite <- (take_drop n (entries d cf prefix)) in He.
      apply elem_of_app in He as [He|He]; [|done]. exfalso. apply Hin.
      split; [done|]. apply list_elem_of_fmap. by exists (k, v).
    + intros He. assert ((k, v) ∈ entries d cf prefix) as He'
        by (rewrite <- (take_drop n (entries d cf prefix)), elem_of_app; by right).
      rewrite bool_decide_false; [by apply entries_elem|].
      intros [_ ([k' v'] & -> & Hk)%list_elem_of_fmap].
      by apply (bytes_lt_irrefl k'), (Hlt (k', v') (k', v)).
Qed.

Lemma cleared_no_entries d cf prefix :
  entries d cf prefix = [] -> cleared d d cf prefix.
Proof.
  intros HE. split; [done|]. intros c k.
  destruct (bool_decide (c = cf) && starts_with prefix k) eqn:Ec; [|done].
  apply andb_true_iff in Ec as [->%bool_decide_eq_true Hp].
  destruct (db_get d cf k) as [v|] eqn:Eg; [|done].
  assert ((k, v) ∈ entries d cf prefix) as He by by apply entries_elem.
  rewrite HE in He. by apply elem_of_nil in He.
Qed.

(** Clearing what is left after some entries are deleted clears them all. *)
Lemma cleared_after_delete d d' cf prefix n :
  cleared (db_write d (delete_items cf (take n (entries d cf prefix)))) d' cf prefix ->
  cleared d d' cf prefix.
Proof.
  intros [H1 H2]. split; [intros c; by rewrite H1, db_write_has_cf|].
  intros c k. rewrite H2. destruct (bool_decide (c = cf) && _) eqn:Ec; [done|].
  rewrite db_get_write, delete_items_effect.
  destruct (decide (c = cf /\ k ∈ (take n (entries d cf prefix)).*1)) as [[-> Hin]|Hin];
    [|by rewrite bool_decide_false]. exfalso.
  rewrite (bool_decide_true (cf = cf)) in Ec by done. simpl in Ec.
  apply list_elem_of_fmap in Hin as ([k' v'] & -> & Hin).
  apply elem_of_take in Hin as (i & Hi & _).
  assert ((k', v') ∈ entries d cf prefix) as He by (apply list_elem_of_lookup; eauto).
  apply entries_elem in He as [_ He]. simpl in Ec. congruence.
Qed.

Lemma no_empty_key_delete d cf prefix l :
  no_empty_key d cf prefix -> no_empty_key (db_write d (delete_items cf l)) cf prefix.
Proof.
  intros [|H]; [by left|]. right. rewrite db_get_write, delete_items_effect, H.
  by destruct (bool_decide _).
Qed.

Lemma delete_prefix_loop_ok fuel d cf prefix batch_size s :
  db_has_cf d cf = true -> capacity_overflow KV_SIZE batch_size = false ->
  no_empty_key d cf prefix -> s = [] \/ starts_with prefix s = true ->
  remaining d cf prefix s = entries d cf prefix ->
  (length (entries d cf prefix) < fuel)%nat ->
  exists d', delete_prefix_loop fuel cf prefix s batch_size d = (Ok tt, d')
    /\ cleared d d' cf prefix.
Proof.
  revert d s. induction fuel as [|fuel IH]; intros d s Hcf Hcap Hnk Hs HR Hf; [lia|].
  cbn [delete_prefix_loop]. erewrite bind_Ok by (by apply prefix_scan_page_ok).
  rewrite HR. set (E := entries d cf prefix) in *. set (n := page_size batch_size).
  assert (1 <= n)%nat as Hn by (subst n; unfold page_size; lia).
  destruct (take n E) as [|x r] eqn:Et.
  { exists d. split; [done|]. apply cleared_no_entries. fold E.
    by destruct E, n; try done; lia. }
  rewrite <- Et. fold (delete_items cf (take n E)).
  set (d1 := db_write d (delete_items cf (take n E))).
  erewrite bind_Ok by reflexivity. fold d1.
  assert (entries d1 cf prefix = drop n E) as HE1 by apply entries_delete_take.
  assert (db_has_cf d1 cf = true) as Hcf1 by (unfold d1; by rewrite db_write_has_cf).
  destruct (n <? length E)%nat eqn:En; [apply Nat.ltb_lt in En|apply Nat.ltb_ge in En].
  - destruct (take_last_elem n E Hn) as ([ky vy] & El & Hy); [by intros ->; simpl in *; lia|].
    pose proof (no_empty_key_entries _ _ _ _ _ Hnk Hy) as Hne.
    apply entries_elem in Hy as [_ Hpy]. rewrite El. simpl.
    destruct (IH d1 ky) as (d' & Hd' & Hc);
      [done|done|by apply no_empty_key_delete|by right| | |].
    + unfold remaining. rewrite bool_decide_false by done. unfold entries_after.
      pose proof (sorted_after_take E n (ky, vy) (entries_sorted d cf prefix) El) as Hd.
      simpl in Hd. rewrite HE1, <- Hd, list_filter_filter.
      apply list_filter_iff. intros y. tauto.
    + rewrite HE1, length_drop. lia.
    + exists d'. split; [done|]. by apply cleared_after_delete in Hc.
  - exists d1. split; [done|]. apply (cleared_after_delete d d1 cf prefix n).
    apply cleared_no_entries. fold E d1. rewrite HE1. by rewrite drop_ge by lia.
Qed.

Lemma delete_prefix_ok d cf prefix batch_size :
  db_has_cf d cf = true -> capacity_overflow KV_SIZE batch_size = false ->
  no_empty_key d cf prefix ->
  exists d', delete_prefix cf prefix batch_size d = (Ok tt, d')
    /\ cleared d d' cf prefix.
Proof.
  intros Hcf Hcap Hnk. unfold delete_prefix.
  erewrite bind_Ok by (unfold cf_handle; by rewrite Hcf). unfold with_state.
  apply delete_prefix_loop_ok; [done..|by left|done|].
  pose proof (entries_length d cf prefix). lia.
Qed.

End EngineFacts.

(** ** Properties *)

Section EngineProperties.
Context {DB : Type} {RDB : RocksDB DB}.
Implicit Types (d : DB) (cf : cf_name) (prefix : bytes).

Lemma for_items_collect acc l :
  for_items (fun acc x => Ok (Continue (acc ++ [x]))) acc l = Ok (Continue (acc ++ l)).
Proof.
  revert acc. induction l as [|x l IH]; intros acc; simpl; [by rewrite app_nil_r|].
  rewrite IH. by rewrite <- app_assoc.
Qed.

Lemma prefix_scan_ok d cf prefix :
  db_has_cf d cf = true -> prefix_scan cf prefix d = (Ok (entries d cf prefix), d).
Proof.
  intros H. unfold prefix_scan. by erewrite bind_Ok by (unfold cf_handle; by rewrite H).
Qed.

(** C12: reading a prefix page by page, whatever the page size, terminates and
    yields exactly what the unpaged scan yields: every stored key with the
    prefix once, in ascending key order. *)
Theorem paged_scan_equals_scan d cf prefix limit :
  db_has_cf d cf = true -> capacity_overflow KV_SIZE limit = false ->
  no_empty_key d cf prefix ->
  exists l,
    page_walk cf prefix limit (fun acc x => Ok (Continue (acc ++ [x]))) [] d = (Ok l, d)
    /\ prefix_scan cf prefix d = (Ok l, d)
    /\ StronglySorted key_lt l
    /\ forall k v, (k, v) ∈ l <-> db_get d cf k = Some v /\ starts_with prefix k = true.
Proof.
  intros Hcf Hcap Hnk. exists (entries d cf prefix).
  rewrite page_walk_ok, for_items_collect, prefix_scan_ok by done.
  split; [done|]. split; [done|]. split; [apply entries_sorted|].
  intros k v. apply entries_elem.
Qed.

(** [delete_prefix] terminates and removes exactly the keys of the column
    family that have the prefix; every other key of every family keeps its
    value. *)
Theorem delete_prefix_exact d cf prefix batch_size :
  db_has_cf d cf = true -> capacity_overflow KV_SIZE batch_size = false ->
  no_empty_key d cf prefix ->
  exists d', delete_prefix cf prefix batch_size d = (Ok tt, d')
    /\ forall c k, db_get d' c k
       = if bool_decide (c = cf) && starts_with prefix k then None else db_get d c k.
Proof.
  intros Hcf Hcap Hnk. destruct (delete_prefix_ok d cf prefix batch_size) as (d' & H & _ & Hg);
    eauto.
Qed.

(** A page fetched from any start key whatsoever (the HSCAN cursor is
    chosen by the client) only holds stored items under the prefix, and at
    most [max 1 limit] of them. *)
Theorem page_confined d cf prefix s limit items next :
  prefix_scan_page cf prefix s limit d = (Ok (items, next), d) ->
  (length items <= page_size limit)%nat
  /\ forall k v, (k, v) ∈ items -> db_get d cf k = Some v /\ starts_with prefix k = true.
Proof.
  unfold prefix_scan_page, mbind, M_bind, cf_handle. intros H.
  destruct (db_has_cf d cf); [|done]. destruct (capacity_overflow _ _); [done|].
  unfold gets in H. injection H as H.
  assert (forall l, (forall k v, (k, v) ∈ l -> db_get d cf k = Some v) ->
    page_of prefix s limit false l = (items, next) ->
    (length items <= page_size limit)%nat /\ forall k v, (k, v) ∈ items ->
      db_get d cf k = Some v /\ starts_with prefix k = true) as Hpage.
  { intros l Hl Hp. rewrite page_of_spec in Hp. injection Hp as <- _.
    split; [rewrite length_take; lia|]. intros k v (i & Hi & _)%elem_of_take.
    assert ((k, v) ∈ take_prefix prefix l) as [Hin Hk]%take_prefix_sound
      by (apply list_elem_of_lookup; eauto). eauto. }
  destruct (bool_decide (s = [])); simpl in H; rewrite ?page_of_skip in H.
  - apply Hpage with (db_seek d cf prefix); [|done]. by intros k v []%db_seek_elem.
  - refine (Hpage _ _ H). intros k v. pose proof (db_seek_elem d cf s k v) as He.
    destruct (db_seek d cf s) as [|[k' v'] rest]; [by intros ?%elem_of_nil|].
    case_bool_decide; intros Hin; apply He; [by right|done].
Qed.

(** [count_prefix] is the number of distinct stored keys with the prefix,
    and [full_scan] is the whole column family in key order. *)
Theorem count_and_full_scan d cf prefix :
  db_has_cf d cf = true ->
  (exists l : list kv, count_prefix cf prefix d = (Ok (Z.of_nat (length l)), d)
     /\ NoDup l.*1
     /\ forall k, k ∈ l.*1 <-> is_Some (db_get d cf k) /\ starts_with prefix k = true)
  /\ exists l : list kv, full_scan cf d = (Ok l, d) /\ StronglySorted key_lt l
     /\ forall k v, (k, v) ∈ l <-> db_get d cf k = Some v.
Proof.
  intros Hcf. split.
  - exists (entries d cf prefix). split; [|split].
    + unfold count_prefix. erewrite bind_Ok by (unfold cf_handle; by rewrite Hcf).
      unfold gets. fold (entries d cf prefix). do 2 f_equal.
      assert (forall l c, fold_left (fun count (_ : kv) => count + 1) l c
                = c + Z.of_nat (length l)) as ->; [|lia].
      induction l as [|x l IH]; intros c; simpl; [lia|]. rewrite IH. lia.
    + pose proof (entries_sorted d cf prefix) as HS.
      induction HS as [|x l _ IH Hl]; simpl; constructor; [|done].
      rewrite Forall_forall in Hl. intros (y & Ey & Hy)%list_elem_of_fmap.
      apply (bytes_lt_irrefl x.1). rewrite Ey at 2. by apply Hl.
    + intros k. rewrite list_elem_of_fmap. split.
      * intros ([k' v] & -> & [Hg Hp]%entries_elem). eauto.
      * intros [[v Hg] Hp]. exists (k, v). by rewrite entries_elem.
  - exists (db_seek d cf []). unfold full_scan.
    erewrite bind_Ok by (unfold cf_handle; by rewrite Hcf). split; [done|].
    split; [apply db_seek_sorted|]. intros k v. rewrite db_seek_elem.
    split; [by intros []|]. intros ?. split; [done|apply bytes_le_nil].
Qed.

End EngineProperties.

(** A small database for the witnesses. *)
Definition demo_db : MemDB :=
  mkMemDB ALL_CFS (list_to_map
    [((CF_SUBKEY, bs "pa"), bs "1"); ((CF_SUBKEY, bs "pb"), bs "2");
     ((CF_SUBKEY, bs "pc"), bs "3"); ((CF_SUBKEY, bs "q"), bs "4");
     ((CF_METADATA, bs "pa"), bs "5")]).

Lemma paged_scan_equals_scan_witness :
  exists l,
    page_walk CF_SUBKEY (bs "p") 2 (fun acc x => Ok (Continue (acc ++ [x]))) [] demo_db
      = (Ok l, demo_db)
    /\ prefix_scan CF_SUBKEY (bs "p") demo_db = (Ok l, demo_db)
    /\ StronglySorted key_lt l
    /\ forall k v, (k, v) ∈ l <->
       db_get demo_db CF_SUBKEY k = Some v /\ starts_with (bs "p") k = true.
Proof. apply paged_scan_equals_scan; [done..|by left]. Defined.

Lemma delete_prefix_exact_witness :
  exists d', delete_prefix CF_SUBKEY (bs "p") 2 demo_db = (Ok tt, d')
    /\ forall c k, db_get d' c k
       = if bool_decide (c = CF_SUBKEY) && starts_with (bs "p") k then None
         else db_get demo_db c k.
Proof. apply delete_prefix_exact; [done..|by left]. Defined.

Lemma page_confined_witness :
  (length [(bs "pb", bs "2"); (bs "pc", bs "3")] <= page_size 2)%nat
  /\ forall k v, (k, v) ∈ [(bs "pb", bs "2"); (bs "pc", bs "3")] ->
     db_get demo_db CF_SUBKEY k = Some v /\ starts_with (bs "p") k = true.
Proof.
  apply (page_confined demo_db CF_SUBKEY (bs "p") (bs "pa") 2 _ None).
  vm_compute. reflexivity.
Defined.

Lemma count_and_full_scan_witness :
  (exists l : list kv, count_prefix CF_SUBKEY (bs "p") demo_db = (Ok (Z.of_nat (length l)), demo_db)
     /\ NoDup l.*1
     /\ forall k, k ∈ l.*1 <->
        is_Some (db_get demo_db CF_SUBKEY k) /\ starts_with (bs "p") k = true)
  /\ exists l : list kv, full_scan CF_SUBKEY demo_db = (Ok l, demo_db)
     /\ StronglySorted key_lt l
     /\ forall k v, (k, v) ∈ l <-> db_get demo_db CF_SUBKEY k = Some v.
Proof. apply count_and_full_scan. done. Defined.

(** [open] does not complete the column families of an existing database,
    as its doc comment says: one missing on disk stays missing, and every
    access to it is an error that leaves the database unchanged. *)
Theorem open_leaves_missing_families existing cf key data :
  cf ∉ existing ->
  get cf key (mkMemDB (open_cfs (Some existing)) data)
  = (Err (Command (bs "missing column family: " ++ bs cf)),
     mkMemDB (open_cfs (Some existing)) data).
Proof.
  intros H. unfold get. apply bind_Err. unfold cf_handle. simpl.
  by rewrite bool_decide_false.
Qed.

Lemma open_leaves_missing_families_witness :
  get CF_METADATA (bs "k") (mkMemDB (open_cfs (Some [CF_DEFAULT])) ∅)
  = (Err (Command (bs "missing column family: " ++ bs CF_METADATA)),
     mkMemDB (open_cfs (Some [CF_DEFAULT])) ∅).
Proof.
  apply open_leaves_missing_families.
  rewrite list_elem_of_singleton. discriminate.
Defined.
