(* ===== verification/Float.v ===== *)
(** * Binary64 floats

    Rust's [f64] as its 64-bit pattern ([to_bits]), with the operations the
    code uses: comparison and addition through the IEEE 754 specification of
    the Standard Library (SpecFloat), [str::parse::<f64>] correctly rounded
    from exact integer arithmetic, and the [Display] text (the shortest
    decimal that reads back as the same number, in positional notation). *)

From Stdlib Require Import SpecFloat.
From S2P Require Import Prelude Bytes Text.

Local Open Scope Z_scope.

Definition f64 : Type := Z.

Definition F_PREC : Z := 53.
Definition F_EMAX : Z := 1024.

Definition f64_infinity : f64 := 0x7FF0000000000000.
Definition f64_neg_infinity : f64 := 0xFFF0000000000000.
Definition f64_nan : f64 := 0x7FF8000000000000.
Definition sign_bit : Z := 2 ^ 63.

Definition f64_neg (x : f64) : bool := sign_bit <=? x.
Definition f64_abs (x : f64) : Z := x mod sign_bit.

Definition is_nan (x : f64) : bool := f64_infinity <? f64_abs x.
Definition is_finite (x : f64) : bool := f64_abs x <? f64_infinity.

(** The number a bit pattern stands for. *)
Definition f64_decode (x : f64) : spec_float :=
  let s := f64_neg x in
  let ex := f64_abs x / 2 ^ 52 in
  let mx := f64_abs x mod 2 ^ 52 in
  if is_nan x then S754_nan
  else if ex =? 2047 then S754_infinity s
  else if ex =? 0 then
    match mx with Zpos m => S754_finite s m (-1074) | _ => S754_zero s end
  else match mx + 2 ^ 52 with
       | Zpos m => S754_finite s m (ex - 1075)
       | _ => S754_nan
       end.

Definition f64_encode (f : spec_float) : f64 :=
  let signed (s : bool) (z : Z) := if s then sign_bit + z else z in
  match f with
  | S754_zero s => signed s 0
  | S754_infinity s => signed s f64_infinity
  | S754_nan => f64_nan
  | S754_finite s m e =>
      if Zpos m <? 2 ^ 52 then signed s (Zpos m)
      else signed s ((e + 1075) * 2 ^ 52 + (Zpos m - 2 ^ 52))
  end.

(** [PartialOrd]. *)
Definition f64_partial_cmp (x y : f64) : option comparison :=
  SFcompare (f64_decode x) (f64_decode y).
Definition f64_eqb (x y : f64) : bool := SFeqb (f64_decode x) (f64_decode y).
Definition f64_ltb (x y : f64) : bool := SFltb (f64_decode x) (f64_decode y).
Definition f64_leb (x y : f64) : bool := SFleb (f64_decode x) (f64_decode y).

Definition f64_add (x y : f64) : f64 :=
  f64_encode (SFadd F_PREC F_EMAX (f64_decode x) (f64_decode y)).

(** ** Reading *)

(** The float nearest to [(-1)^s * m * 10^k]; beyond [10^310] and below
    [10^-400] the result no longer depends on the digits. *)
Definition f64_of_decimal (s : bool) (m k : Z) : f64 :=
  match m with
  | Zpos p =>
      if 310 <? k then f64_encode (S754_infinity s)
      else if k + Z.log2 m <? -400 then f64_encode (S754_zero s)
      else if 0 <=? k then
        f64_encode (binary_round F_PREC F_EMAX s (Z.to_pos (m * 10 ^ k)) 0)
      else
        let '(q, e, loc) := SFdiv_core_binary F_PREC F_EMAX m 0 (10 ^ (- k)) 0 in
        f64_encode (binary_round_aux F_PREC F_EMAX s q e loc)
  | _ => f64_encode (S754_zero s)
  end.

(** The longest run of digits at the front, and the rest. *)
Fixpoint span_digits (l : bytes) : bytes * bytes :=
  match l with
  | b :: l' => if is_digit b then let '(d, r) := span_digits l' in (b :: d, r) else ([], l)
  | [] => ([], [])
  end.

Definition nat_of_digits (l : bytes) : Z :=
  match digits_val 10 0 l with Some z => z | None => 0 end.

(** An exponent part, which must extend to the end of the text. *)
Definition read_exponent (l : bytes) : option Z :=
  match l with
  | [] => Some 0
  | b :: l' =>
      if bool_decide (b = Byte.x65) || bool_decide (b = Byte.x45) then
        let '(neg, ds) := match l' with
                          | Byte.x2b :: r => (false, r)
                          | Byte.x2d :: r => (true, r)
                          | _ => (false, l')
                          end in
        let '(d, r) := span_digits ds in
        match d, r with
        | _ :: _, [] => Some (if neg then - nat_of_digits d else nat_of_digits d)
        | _, _ => None
        end
      else None
  end.

Definition read_number (s : bool) (l : bytes) : option f64 :=
  let '(ip, r) := span_digits l in
  let '(fp, r') := match r with
                   | Byte.x2e :: r1 => span_digits r1
                   | _ => ([], r)
                   end in
  match ip ++ fp with
  | [] => None
  | ds => match read_exponent r' with
          | Some k => Some (f64_of_decimal s (nat_of_digits ds) (k - blen fp))
          | None => None
          end
  end.

(** [str::parse::<f64>]. *)
Definition parse_f64 (l : bytes) : option f64 :=
  let '(s, r) := match l with
                 | Byte.x2b :: r => (false, r)
                 | Byte.x2d :: r => (true, r)
                 | _ => (false, l)
                 end in
  let signed (z : Z) := if (s : bool) then sign_bit + z else z in
  if eq_ignore_ascii_case r (bs "inf") || eq_ignore_ascii_case r (bs "infinity")
  then Some (signed f64_infinity)
  else if eq_ignore_ascii_case r (bs "nan") then Some (signed f64_nan)
  else read_number s r.

(** ** Writing *)

(** [m * 10^k] in positional notation. *)
Definition show_decimal (m k : Z) : bytes :=
  let ds := show_nonneg m in
  if 0 <=? k then ds ++ repeat Byte.x30 (Z.to_nat k)
  else let n := Z.to_nat (- k) in
       if (n <? length ds)%nat
       then take (length ds - n) ds ++ Byte.x2e :: drop (length ds - n) ds
       else Byte.x30 :: Byte.x2e :: repeat Byte.x30 (n - length ds) ++ ds.

(** The number of decimal digits of the integer part of [n / d], or minus the
    number of zeros after the point: the [p] with [10^(p-1) <= n/d < 10^p]. *)
Fixpoint decimal_point (fuel : nat) (n d p : Z) : Z :=
  match fuel with
  | O => p
  | S f => if d <=? n then decimal_point f n (d * 10) (p + 1)
           else if n * 10 <? d then decimal_point f (n * 10) d (p - 1)
           else p
  end.

(** The decimals of [digits] significant digits around [n / d] are [q * 10^k]
    and [(q + 1) * 10^k]; the nearer one that reads back as [x], if any. *)
Definition shortest_at (x : f64) (n d p digits : Z) : option (Z * Z) :=
  let k := p - digits in
  let '(n', d') := if 0 <=? k then (n, d * 10 ^ k) else (n * 10 ^ (- k), d) in
  let q := n' / d' in
  let up := d' <=? 2 * (n' - q * d') in
  let good m := f64_of_decimal false m k =? x in
  let first := if up then q + 1 else q in
  let second := if up then q else q + 1 in
  if good first then Some (first, k) else if good second then Some (second, k) else None.

Fixpoint shortest (fuel : nat) (x : f64) (n d p digits : Z) : Z * Z :=
  match fuel with
  | O => (0, 0)
  | S f => match shortest_at x n d p digits with
           | Some r => r
           | None => shortest f x n d p (digits + 1)
           end
  end.

(** A positive finite float as a fraction. *)
Definition f64_fraction (m : positive) (e : Z) : Z * Z :=
  if 0 <=? e then (Zpos m * 2 ^ e, 1) else (Zpos m, 2 ^ (- e)).

(** Seventeen digits tell any two floats apart; the point of a float lies
    within 330 places. *)
Definition show_shortest (x : f64) (m : positive) (e : Z) : bytes :=
  let '(n, d) := f64_fraction m e in
  let '(q, k) := shortest 17 x n d (decimal_point 400 n d 0) 1 in
  show_decimal q k.

(** [f64::to_string]. *)
Definition show_f64 (x : f64) : bytes :=
  let signed (l : bytes) := if f64_neg x then Byte.x2d :: l else l in
  match f64_decode x with
  | S754_nan => bs "NaN"
  | S754_infinity _ => signed (bs "inf")
  | S754_zero _ => signed (bs "0")
  | S754_finite _ m e => signed (show_shortest (f64_abs x) m e)
  end.

(** [score.fract() == 0.0] of a finite float, and its text under [{:.0}]. *)
Definition f64_is_integral (x : f64) : bool :=
  match f64_decode x with
  | S754_zero _ => true
  | S754_finite _ m e => let '(n, d) := f64_fraction m e in n mod d =? 0
  | _ => false
  end.

Definition show_integral (x : f64) : bytes :=
  let signed (l : bytes) := if f64_neg x then Byte.x2d :: l else l in
  match f64_decode x with
  | S754_finite _ m e => let '(n, d) := f64_fraction m e in signed (show_nonneg (n / d))
  | _ => signed (bs "0")
  end.

Example show_f64_examples :
  (fun t => option_map show_f64 (parse_f64 (bs t)))
    <$> ["3.25"; "0.1"; "1e21"; "-5e-324"; "1.7976931348623157e308"; "123456.789";
         "-0"; "inf"; ".5"; "5."; "9007199254740993"]%string
  = [Some (bs "3.25"); Some (bs "0.1"); Some (bs "1000000000000000000000");
     Some (Byte.x2d :: show_decimal 5 (-324)); Some (show_decimal 17976931348623157 292);
     Some (bs "123456.789"); Some (bs "-0"); Some (bs "inf"); Some (bs "0.5");
     Some (bs "5"); Some (bs "9007199254740992")].
Proof. vm_compute. reflexivity. Qed.

Example parse_f64_rejects :
  (fun t => parse_f64 (bs t)) <$> [""; "+"; "."; "e5"; "1e"; "1.2.3"; "0x10"; "infin"]%string
  = [None; None; None; None; None; None; None; None].
Proof. vm_compute. reflexivity. Qed.
