(* ===== verification/Rounding.v ===== *)
(** * Rounding of floats

    How far a rounded product of floats is from the exact one. The definitions
    are the IEEE 754 specification of the Standard Library (SpecFloat); these
    lemmas bound its rounding to 53 digits, as far as the program depends on
    it: integers below 2^53 are exact, and a product of positive numbers has a
    relative error of at most 2^-53. *)

From Stdlib Require Import SpecFloat.
From S2P Require Import Prelude Bytes Text Float.

Local Open Scope Z_scope.

(** ** Numbers of binary digits *)

Lemma digits_bounds (p : positive) : 2 ^ (Zpos (digits2_pos p) - 1) <= Zpos p < 2 ^ Zpos (digits2_pos p).
Proof.
  induction p as [p IH|p IH|]; [| |by cbn]; cbn [digits2_pos];
    rewrite Pos2Z.inj_succ; replace (Z.succ (Zpos (digits2_pos p)) - 1) with (Z.succ (Zpos (digits2_pos p) - 1)) by lia;
    rewrite !Z.pow_succ_r by lia; lia.
Qed.

Lemma digits_unique z d : 0 < d -> 2 ^ (d - 1) <= z < 2 ^ d -> Zdigits2 z = d.
Proof.
  intros Hd Hz. destruct z as [|p|p]; [|cbn [Zdigits2]|lia].
  - assert (0 < 2 ^ (d - 1)) by (apply Z.pow_pos_nonneg; lia). lia.
  - pose proof (digits_bounds p) as Hp. set (n := Zpos (digits2_pos p)) in *.
    destruct (Z.lt_trichotomy n d) as [Hlt|[->|Hgt]]; [|done|]; exfalso.
    + assert (2 ^ n <= 2 ^ (d - 1)) by (apply Z.pow_le_mono_r; lia). lia.
    + assert (2 ^ d <= 2 ^ (n - 1)) by (apply Z.pow_le_mono_r; lia). lia.
Qed.

Lemma digits_of z : 0 < z -> 0 < Zdigits2 z /\ 2 ^ (Zdigits2 z - 1) <= z < 2 ^ Zdigits2 z.
Proof. destruct z as [|p|p]; [lia| |lia]. intros _. split; [done|apply digits_bounds]. Qed.

(** ** Shifting right with the bits that fall out *)

Lemma iter_pos_nat {A} (f : A -> A) p x : @SpecFloat.iter_pos A f p x = Nat.iter (Pos.to_nat p) f x.
Proof.
  revert x. induction p as [p IH|p IH|]; intros x; cbn [SpecFloat.iter_pos]; [| |done].
  - rewrite !IH, Pos2Nat.inj_xI. rewrite <- Nat.iter_add. rewrite <- Nat.iter_succ_r. f_equal. lia.
  - rewrite !IH, Pos2Nat.inj_xO, <- Nat.iter_add. f_equal. lia.
Qed.

Lemma shr_1_spec m r s :
  0 <= m -> shr_1 (Build_shr_record m r s) = Build_shr_record (m / 2) (Z.odd m) (r || s).
Proof.
  intros Hm. destruct m as [|[p|p|]|p]; [done| | |done|lia]; cbn.
  - by rewrite Pos2Z.inj_xI, Z.mul_comm, Z.div_add_l.
  - by rewrite Pos2Z.inj_xO, Z.mul_comm, Z.div_mul.
Qed.

Definition nonzero (z : Z) : bool := negb (z =? 0).

(** After [n + 1] steps: the quotient, the last bit that fell out, and whether
    any bit before it was set. *)
Lemma shr_iter m n :
  0 <= m ->
  Nat.iter (S n) shr_1 (Build_shr_record m false false)
  = Build_shr_record (m / 2 ^ Z.of_nat (S n)) (Z.odd (m / 2 ^ Z.of_nat n)) (nonzero (m mod 2 ^ Z.of_nat n)).
Proof.
  intros Hm. induction n as [|n IH].
  - cbn [Nat.iter]. rewrite shr_1_spec by done. by rewrite Z.div_1_r, Z.mod_1_r.
  - rewrite Nat.iter_succ, IH, shr_1_spec by (apply Z.div_pos; lia). f_equal.
    + rewrite Z.div_div by lia. f_equal. rewrite !Nat2Z.inj_succ, !Z.pow_succ_r by lia. lia.
    + unfold nonzero. rewrite Nat2Z.inj_succ, Z.pow_succ_r, (Z.mul_comm 2), Z.rem_mul_r by lia.
      rewrite Zmod_odd.
      assert (0 <= m mod 2 ^ Z.of_nat n) by (apply Z.mod_pos_bound; lia).
      destruct (Z.odd (m / 2 ^ Z.of_nat n)); cbn [orb]; [|f_equal; f_equal; lia].
      symmetry. apply negb_true_iff, Z.eqb_neq. assert (0 < 2 ^ Z.of_nat n) by lia. lia.
Qed.

(** ** Rounding to nearest *)

Definition shifted (m n : Z) : shr_record :=
  Build_shr_record (m / 2 ^ n) (Z.odd (m / 2 ^ (n - 1))) (nonzero (m mod 2 ^ (n - 1))).

Lemma shr_shifted m e n :
  0 <= m -> 0 < n -> shr (Build_shr_record m false false) e n = (shifted m n, e + n).
Proof.
  intros Hm Hn. destruct n as [|p|p]; [lia| |lia]. unfold shr. f_equal. rewrite iter_pos_nat.
  destruct (Pos2Nat.is_succ p) as [k Hk]. rewrite Hk, shr_iter by done. unfold shifted.
  rewrite <- Hk, positive_nat_Z. by replace (Z.of_nat k) with (Zpos p - 1) by lia.
Qed.

Definition nearest (m n : Z) : Z := round_nearest_even (m / 2 ^ n) (loc_of_shr_record (shifted m n)).

(** The rounded quotient is within half a unit, and exact when nothing falls
    out. *)
Lemma nearest_bounds m n :
  0 <= m -> 0 < n ->
  2 * Z.abs (nearest m n * 2 ^ n - m) <= 2 ^ n
  /\ m / 2 ^ n <= nearest m n <= m / 2 ^ n + 1
  /\ (m mod 2 ^ n = 0 -> nearest m n = m / 2 ^ n).
Proof.
  intros Hm Hn. unfold nearest, shifted, loc_of_shr_record, nonzero.
  set (q := m / 2 ^ n). set (b := Z.odd (m / 2 ^ (n - 1))). set (low := m mod 2 ^ (n - 1)).
  assert (2 ^ n = 2 * 2 ^ (n - 1)) as Hp by (rewrite <- Z.pow_succ_r by lia; f_equal; lia).
  assert (0 < 2 ^ (n - 1)) as H0 by (apply Z.pow_pos_nonneg; lia).
  assert (0 <= low < 2 ^ (n - 1)) as Hl by (apply Z.mod_pos_bound; lia).
  assert (m mod 2 ^ n = low + 2 ^ (n - 1) * Z.b2z b) as Hr.
  { rewrite Hp, (Z.mul_comm 2), Z.rem_mul_r by lia. rewrite Zmod_odd. unfold low, b.
    by destruct (Z.odd (m / 2 ^ (n - 1))). }
  assert (m = 2 ^ n * q + m mod 2 ^ n) as Hdiv by (apply Z.div_mod; lia).
  rewrite Hr in *. rewrite Hp in *. clearbody q b low. clear Hr.
  destruct b; cbn [Z.b2z] in *; destruct (low =? 0) eqn:El; zbool; cbn [negb round_nearest_even];
    try (split; [|split]; lia).
  destruct (Z.even q); split; try split; lia.
Qed.

Lemma shr_fexp_normal z x :
  0 < z -> 53 <= Zdigits2 z -> -1074 <= Zdigits2 z + x - 53 ->
  shr_fexp 53 1024 z x loc_Exact
  = if Zdigits2 z =? 53 then (Build_shr_record z false false, x) else (shifted z (Zdigits2 z - 53), x + (Zdigits2 z - 53)).
Proof.
  intros Hz Hd Hx. unfold shr_fexp. cbn [shr_record_of_loc].
  assert (fexp 53 1024 (Zdigits2 z + x) - x = Zdigits2 z - 53) as -> by (unfold fexp, emin; lia).
  destruct (Zdigits2 z =? 53) eqn:E; zbool; [by rewrite E|]. apply shr_shifted; lia.
Qed.

(** A mantissa rounded up to 2^53 gets one digit less. *)
Definition finish (q x : Z) : spec_float :=
  let '(mrs, x') := shr_fexp 53 1024 q x loc_Exact in
  match shr_m mrs with
  | Z0 => S754_zero false
  | Zpos p => if x' <=? 971 then S754_finite false p x' else S754_infinity false
  | Zneg _ => S754_nan
  end.

Lemma finish_spec q x :
  2 ^ 52 <= q <= 2 ^ 53 -> -1074 <= x <= 970 ->
  exists p x', finish q x = S754_finite false p x' /\ Zpos p * 2 ^ (x' - x) = q /\ x <= x' <= x + 1
    /\ 2 ^ 52 <= Zpos p < 2 ^ 53.
Proof.
  intros Hq Hx. unfold finish. destruct (decide (q = 2 ^ 53)) as [->|Hne].
  - assert (Zdigits2 (2 ^ 53) = 54) as E by reflexivity.
    rewrite shr_fexp_normal; [|lia|rewrite E; lia|rewrite E; lia]. rewrite E.
    change (54 =? 53) with false. cbv iota. change (shr_m (shifted (2 ^ 53) (54 - 53))) with 4503599627370496.
    cbv iota. rewrite (proj2 (Z.leb_le _ _)) by lia. eexists _, _. split; [reflexivity|].
    replace (x + (54 - 53) - x) with 1 by lia. split; [reflexivity|]. split; [lia|]. split; [|]; done.
  - assert (Zdigits2 q = 53) as Hd by (apply digits_unique; lia).
    rewrite shr_fexp_normal by lia. rewrite Hd, Z.eqb_refl. cbn [shr_m].
    destruct q as [|p|p]; [lia| |lia]. rewrite (proj2 (Z.leb_le _ _)) by lia.
    exists p, x. split; [done|]. rewrite Z.sub_diag. split; [lia|]. split; lia.
Qed.

(** Rounding a mantissa of 53 digits or more. *)
Lemma round_aux_spec m e :
  0 < m -> 53 <= Zdigits2 m -> -1074 <= Zdigits2 m + e - 53 <= 970 ->
  exists p e', binary_round_aux 53 1024 false m e loc_Exact = S754_finite false p e'
    /\ Zdigits2 m - 53 <= e' - e <= Zdigits2 m - 52 /\ 2 ^ 52 <= Zpos p < 2 ^ 53
    /\ Z.abs (Zpos p * 2 ^ (e' - e) - m) * 2 ^ 53 <= m
    /\ (m mod 2 ^ (Zdigits2 m - 53) = 0 -> Zpos p * 2 ^ (e' - e) = m).
Proof.
  intros Hm Hd He. destruct (digits_of m Hm) as [_ Hb]. set (n := Zdigits2 m - 53) in *.
  assert (exists q, binary_round_aux 53 1024 false m e loc_Exact = finish q (e + n)
    /\ 2 ^ 52 <= q <= 2 ^ 53 /\ Z.abs (q * 2 ^ n - m) * 2 ^ 53 <= m
    /\ (m mod 2 ^ n = 0 -> q * 2 ^ n = m)) as (q & Hr & Hq & Herr & Hex).
  { unfold binary_round_aux. rewrite shr_fexp_normal by lia. fold n.
    destruct (Zdigits2 m =? 53) eqn:E; zbool.
    - assert (n = 0) as Hn by lia. exists m. rewrite Hn. cbn [shr_m loc_of_shr_record round_nearest_even].
      split; [by rewrite Z.add_0_r|]. rewrite E in Hb. change (53 - 1) with 52 in Hb. lia.
    - assert (0 < n) as Hn by lia. exists (nearest m n). split; [done|].
      destruct (nearest_bounds m n ltac:(lia) Hn) as (H1 & H2 & H3).
      assert (2 ^ (Zdigits2 m - 1) = 2 ^ 52 * 2 ^ n) as P1 by (rewrite <- Z.pow_add_r by lia; f_equal; lia).
      assert (2 ^ Zdigits2 m = 2 ^ 53 * 2 ^ n) as P2 by (rewrite <- Z.pow_add_r by lia; f_equal; lia).
      assert (0 < 2 ^ n) as P0 by (apply Z.pow_pos_nonneg; lia).
      assert (2 ^ 52 <= m / 2 ^ n) as Q1 by (apply Z.div_le_lower_bound; lia).
      assert (m / 2 ^ n < 2 ^ 53) as Q2 by (apply Z.div_lt_upper_bound; lia).
      split; [lia|]. split; [lia|]. intros Hz. rewrite (H3 Hz). rewrite Z.mul_comm.
      pose proof (Z.div_mod m (2 ^ n) ltac:(lia)). lia. }
  destruct (finish_spec q (e + n) Hq ltac:(lia)) as (p & e' & Hf & Hv & Hx & Hp).
  exists p, e'. rewrite Hr. split; [done|]. split; [lia|]. split; [done|].
  assert (Zpos p * 2 ^ (e' - e) = q * 2 ^ n) as ->.
  { rewrite <- Hv. replace (e' - e) with ((e' - (e + n)) + n) by lia. rewrite Z.pow_add_r by lia. lia. }
  done.
Qed.

(** ** Integers *)

(** The float of a positive integer below 2^53: its mantissa has all 53
    digits. *)
Definition is_integer (x : spec_float) (n : Z) : Prop :=
  exists m e, x = S754_finite false m e /\ 2 ^ 52 <= Zpos m < 2 ^ 53 /\ -52 <= e <= 0 /\ Zpos m = n * 2 ^ (- e).

Lemma shl_pos m d : Zpos (Pos.iter xO m d) = Zpos m * 2 ^ Zpos d.
Proof.
  induction d as [|d IH] using Pos.peano_ind; [cbn; lia|].
  rewrite Pos.iter_succ, Pos2Z.inj_xO, IH, Pos2Z.inj_succ, Z.pow_succ_r by lia. lia.
Qed.

Lemma digits_mul_pow z k : 0 < z -> 0 <= k -> Zdigits2 (z * 2 ^ k) = Zdigits2 z + k.
Proof.
  intros Hz Hk. destruct (digits_of z Hz) as [Hd Hb]. apply digits_unique; [lia|].
  replace (Zdigits2 z + k - 1) with ((Zdigits2 z - 1) + k) by lia. rewrite !Z.pow_add_r by lia.
  assert (0 < 2 ^ k) by (apply Z.pow_pos_nonneg; lia). nia.
Qed.

(** Normalizing [n * 2^k * 2^-k] gives the integer. *)
Lemma normalize_integer n k :
  0 < n < 2 ^ 53 -> 0 <= k <= 52 -> is_integer (binary_normalize 53 1024 (n * 2 ^ k) (- k) false) n.
Proof.
  intros Hn Hk. destruct (digits_of n ltac:(lia)) as [Hd Hb].
  assert (Zdigits2 n <= 53) as Hd'.
  { destruct (Z.le_gt_cases (Zdigits2 n) 53) as [|Hgt]; [done|].
    assert (2 ^ 53 <= 2 ^ (Zdigits2 n - 1)) by (apply Z.pow_le_mono_r; lia). lia. }
  assert (0 < 2 ^ k) as Hpk by (apply Z.pow_pos_nonneg; lia).
  pose proof (digits_mul_pow n k ltac:(lia) ltac:(lia)) as Hdz.
  destruct (n * 2 ^ k) as [|z|z] eqn:Ez; [nia| |nia]. cbn [binary_normalize]. unfold binary_round.
  change (Zpos (digits2_pos z)) with (Zdigits2 (Zpos z)). rewrite Hdz.
  assert (fexp 53 1024 (Zdigits2 n + k + - k) = Zdigits2 n - 53) as -> by (unfold fexp, emin; lia).
  (* the aligned mantissa *)
  assert (exists y j, shl_align z (- k) (Zdigits2 n - 53) = (y, - j) /\ Zpos y = n * 2 ^ j /\ 0 <= j <= 52
    /\ 53 <= Zdigits2 n + j) as (y & j & -> & Hy & Hj & Hdj).
  { unfold shl_align. destruct (Zdigits2 n - 53 - - k) as [|d|d] eqn:Ed.
    - exists z, k. split; [done|]. lia.
    - exists z, k. split; [done|]. lia.
    - exists (Pos.iter xO z d), (53 - Zdigits2 n). split; [f_equal; lia|]. rewrite shl_pos, <- Ez.
      rewrite <- Z.mul_assoc, <- Z.pow_add_r by lia. split; [do 2 f_equal; lia|]. lia. }
  assert (Zdigits2 (Zpos y) = Zdigits2 n + j) as Hdy by (rewrite Hy; apply digits_mul_pow; lia).
  destruct (round_aux_spec (Zpos y) (- j)) as (p & e & Hr & He & Hp & _ & Hex); [lia|lia|lia|].
  rewrite Hdy in *. assert (Zpos p * 2 ^ (e - - j) = Zpos y) as Hv.
  { apply Hex. rewrite Hy. replace j with ((Zdigits2 n + j - 53) + (53 - Zdigits2 n)) at 1 by lia.
    rewrite Z.pow_add_r, (Z.mul_comm (2 ^ (Zdigits2 n + j - 53))), Z.mul_assoc by lia. apply Z.mod_mul.
    apply Z.pow_nonzero; lia. }
  exists p, e. split; [done|]. split; [done|].
  assert (e <= 0) as He0.
  { destruct (Z.le_gt_cases e 0) as [|Hgt]; [done|]. exfalso.
    assert (2 ^ (j + 1) <= 2 ^ (e - - j)) as Hpow by (apply Z.pow_le_mono_r; lia).
    rewrite Z.pow_add_r in Hpow by lia. assert (0 < 2 ^ j) by (apply Z.pow_pos_nonneg; lia). nia. }
  split; [lia|]. assert (2 ^ j = 2 ^ (e - - j) * 2 ^ (- e)) as Hpow by (rewrite <- Z.pow_add_r by lia; f_equal; lia).
  assert (0 < 2 ^ (e - - j)) as H0 by (apply Z.pow_pos_nonneg; lia).
  apply (Z.mul_reg_r _ _ (2 ^ (e - - j))); [lia|]. rewrite Hv, Hy, Hpow. lia.
Qed.

(** [n as f64] for an unsigned integer. *)
Definition f64_of_int (n : Z) : spec_float := binary_normalize F_PREC F_EMAX n 0 false.

Lemma of_int_integer n : 0 < n < 2 ^ 53 -> is_integer (f64_of_int n) n.
Proof. intros Hn. pose proof (normalize_integer n 0 Hn ltac:(lia)) as H. by rewrite Z.mul_1_r in H. Qed.

(** An integer written with the exponent -52. *)
Lemma align_integer m e n :
  Zpos m = n * 2 ^ (- e) -> -52 <= e <= 0 -> Zpos (fst (shl_align m e (-52))) = n * 2 ^ 52.
Proof.
  intros Hm He. unfold shl_align. destruct (-52 - e) as [|d|d] eqn:Ed; [|lia|]; cbn [fst].
  - rewrite Hm. do 2 f_equal. lia.
  - rewrite shl_pos, Hm, <- Z.mul_assoc, <- Z.pow_add_r by lia. do 2 f_equal. lia.
Qed.

Lemma sub_one x y n :
  is_integer x n -> is_integer y 1 -> 1 < n < 2 ^ 53 -> is_integer (SFsub F_PREC F_EMAX x y) (n - 1).
Proof.
  intros (mx & ex & -> & Hmx & Hex & Ex) (my & ey & -> & Hmy & Hey & Ey) Hn.
  assert (ey = -52) as ->.
  { assert (2 ^ (- ey) = Zpos my) as E by lia.
    assert (-52 < ey -> False) as Hc; [|lia]. intros Hlt.
    assert (2 ^ (- ey) <= 2 ^ 51) by (apply Z.pow_le_mono_r; lia). lia. }
  unfold SFsub. replace (Z.min ex (-52)) with (-52) by lia. cbn [cond_Zopp].
  rewrite (align_integer mx ex n), (align_integer my (-52) 1) by (done || lia).
  rewrite <- Z.mul_sub_distr_r. apply normalize_integer; lia.
Qed.

(** The product of an integer with a number between 1/2 and 1. *)
Lemma mul_integer x n mp :
  is_integer x n -> 0 < n < 2 ^ 52 -> 2 ^ 52 <= Zpos mp < 2 ^ 53 ->
  exists m e, SFmul F_PREC F_EMAX x (S754_finite false mp (-53)) = S754_finite false m e
    /\ -53 <= e <= 0 /\ Z.abs (Zpos m * 2 ^ (e + 53) - n * Zpos mp) <= n.
Proof.
  intros (mx & ex & -> & Hmx & Hex & Ex) Hn Hmp. unfold SFmul. cbn [xorb].
  set (M := Zpos (mx * mp)). assert (M = Zpos mx * Zpos mp) as HM by (unfold M; lia).
  assert (ex <= -1) as Hex1.
  { destruct (decide (ex = 0)) as [->|]; [|lia]. exfalso. rewrite Z.mul_1_r in Ex. lia. }
  assert (105 <= Zdigits2 M <= 106) as Hd.
  { assert (0 < M) as H0 by lia. destruct (digits_of M H0) as [_ Hb].
    assert (2 ^ 104 <= M < 2 ^ 106) as HM2 by (rewrite HM; change (2 ^ 104) with (2 ^ 52 * 2 ^ 52);
      change (2 ^ 106) with (2 ^ 53 * 2 ^ 53); nia).
    split.
    - destruct (Z.le_gt_cases 105 (Zdigits2 M)) as [|Hlt]; [done|]. exfalso.
      assert (2 ^ Zdigits2 M <= 2 ^ 104) by (apply Z.pow_le_mono_r; lia). lia.
    - destruct (Z.le_gt_cases (Zdigits2 M) 106) as [|Hgt]; [done|]. exfalso.
      assert (2 ^ 106 <= 2 ^ (Zdigits2 M - 1)) by (apply Z.pow_le_mono_r; lia). lia. }
  destruct (round_aux_spec M (ex + -53)) as (p & e & Hr & He & _ & Herr & _); [lia|lia|lia|].
  exists p, e. split; [exact Hr|]. split; [lia|].
  (* the exact product, in the unit 2^(ex - 53) *)
  set (u := 2 ^ (- ex)) in *. assert (0 < u) as Hu by (apply Z.pow_pos_nonneg; lia).
  assert (Zpos p * 2 ^ (e - (ex + -53)) = Zpos p * 2 ^ (e + 53) * u) as E1.
  { unfold u. rewrite <- Z.mul_assoc, <- Z.pow_add_r by lia. do 2 f_equal. lia. }
  assert (M = n * Zpos mp * u) as E2 by (rewrite HM, Ex; lia).
  rewrite E1, E2, <- Z.mul_sub_distr_r, Z.abs_mul, (Z.abs_eq u) in Herr by lia.
  set (D := Z.abs (Zpos p * 2 ^ (e + 53) - n * Zpos mp)) in *.
  assert (D * 2 ^ 53 * u <= n * Zpos mp * u) as H1 by lia.
  apply (Z.mul_le_mono_pos_r _ _ _ Hu) in H1. nia.
Qed.
