(* ===== verification/Protocol.v ===== *)
(** * The RESP protocol (src/protocol.rs)

    Parser and serializer of RESP messages. The parser returns [None] for an
    incomplete (or malformed) message and may panic where the code reserves
    capacity for a client-chosen number of items. The model is run with the
    length of the input as fuel, which the theorems show to be enough. *)

From S2P Require Import Prelude Bytes Text Error Float.

Local Open Scope Z_scope.

Inductive RespValue :=
  | SimpleString (s : bytes)
  | RError (s : bytes)
  | Integer (n : Z)
  | BulkString (b : option bytes)
  | Array (items : list RespValue)
  | Null
  | Boolean (v : bool)
  | Double (f : f64)
  | RMap (entries : list (RespValue * RespValue))
  | RSet (items : list RespValue).

Definition CRLF : bytes := [Byte.x0d; Byte.x0a].

(** [data.windows(2).position(|w| w == b"\r\n")]. *)
Fixpoint find_crlf (data : bytes) : option nat :=
  match data with
  | a :: t =>
      match t with
      | b :: _ => if bool_decide (a = Byte.x0d) && bool_decide (b = Byte.x0a) then Some 0%nat
                  else S <$> find_crlf t
      | [] => None
      end
  | [] => None
  end.

Definition parse_line (data : bytes) : option (bytes * nat) :=
  match find_crlf data with
  | Some pos => Some (take (pos - 1) (drop 1 data), (pos + 2)%nat)
  | None => None
  end.

(** [std::str::from_utf8(line).ok()?.parse().ok()?]. *)
Definition parse_text {A} (parse : bytes -> option A) (line : bytes) : option A :=
  if utf8_valid line then parse line else None.

(** ** The parser *)

(** A parser step: [None] asks for more input. *)
Definition presult (A : Type) : Type := outcome (option A).

Definition pbind {A B} (m : presult A) (f : A -> presult B) : presult B :=
  match m with
  | Ok (Some a) => f a
  | Ok None => Ok None
  | Err e => Err e
  | Panic => Panic
  | OutOfFuel => OutOfFuel
  end.

Definition some {A} (a : A) : presult A := Ok (Some a).
Definition maybe {A} (o : option A) : presult A := Ok o.

Notation "x '<?-' m ; k" := (pbind m (fun x => k))
  (at level 20, m at level 100, k at level 200, right associativity) : kv_scope.
Notation "' x '<?-' m ; k" := (pbind m (fun x => k))
  (at level 20, x pattern, m at level 100, k at level 200, right associativity) : kv_scope.
Local Open Scope kv_scope.

(** [&data[n..]]. *)
Definition slice_from (data : bytes) (n : nat) : presult bytes :=
  if (n <=? length data)%nat then some (drop n data) else Panic.

(** The loop of [parse_array] and [parse_set]. *)
Fixpoint parse_items (parse_one : bytes -> presult (RespValue * nat)) (fuel : nat)
    (count : Z) (data : bytes) (items : list RespValue) (consumed : nat)
  : presult (list RespValue * nat) :=
  if count <=? 0 then some (items, consumed)
  else match fuel with
       | O => OutOfFuel
       | S f =>
           rest <?- slice_from data consumed;
           '(val, used) <?- parse_one rest;
           parse_items parse_one f (count - 1) data (items ++ [val]) (consumed + used)
       end.

(** The loop of [parse_map]. *)
Fixpoint parse_entries (parse_one : bytes -> presult (RespValue * nat)) (fuel : nat)
    (count : Z) (data : bytes) (entries : list (RespValue * RespValue)) (consumed : nat)
  : presult (list (RespValue * RespValue) * nat) :=
  if count <=? 0 then some (entries, consumed)
  else match fuel with
       | O => OutOfFuel
       | S f =>
           rest <?- slice_from data consumed;
           '(k, used) <?- parse_one rest;
           let consumed := (consumed + used)%nat in
           rest <?- slice_from data consumed;
           '(v, used) <?- parse_one rest;
           parse_entries parse_one f (count - 1) data (entries ++ [(k, v)]) (consumed + used)
       end.

Definition parse_simple (data : bytes) : presult (RespValue * nat) :=
  '(line, consumed) <?- maybe (parse_line data);
  some (SimpleString (from_utf8_lossy line), consumed).

Definition parse_error (data : bytes) : presult (RespValue * nat) :=
  '(line, consumed) <?- maybe (parse_line data);
  some (RError (from_utf8_lossy line), consumed).

Definition parse_int (data : bytes) : presult (RespValue * nat) :=
  '(line, consumed) <?- maybe (parse_line data);
  n <?- maybe (parse_text parse_i64 line);
  some (Integer n, consumed).

Definition parse_bulk (data : bytes) : presult (RespValue * nat) :=
  '(line, header_len) <?- maybe (parse_line data);
  len <?- maybe (parse_text parse_i64 line);
  if len <? 0 then some (BulkString None, header_len)
  else
    let body_end := Z.of_nat header_len + len + 2 in
    if blen data <? body_end then Ok None
    else let len := Z.to_nat len in
         some (BulkString (Some (take len (drop header_len data))),
               (header_len + len + 2)%nat).

Definition parse_null (data : bytes) : presult (RespValue * nat) :=
  '(_, consumed) <?- maybe (parse_line data);
  some (Null, consumed).

Definition parse_bool (data : bytes) : presult (RespValue * nat) :=
  '(line, consumed) <?- maybe (parse_line data);
  if bool_decide (line = bs "t") then some (Boolean true, consumed)
  else if bool_decide (line = bs "f") then some (Boolean false, consumed)
  else Ok None.

Definition parse_double (data : bytes) : presult (RespValue * nat) :=
  '(line, consumed) <?- maybe (parse_line data);
  f <?- maybe (parse_text parse_f64 line);
  some (Double f, consumed).

Section Parser.
(** The size in bytes of a [RespValue], which the compiler chooses. *)
Variable resp_size : Z.

Section Nested.
Variable parse_one : bytes -> presult (RespValue * nat).
Variable fuel : nat.

Definition parse_array (data : bytes) : presult (RespValue * nat) :=
  '(line, consumed) <?- maybe (parse_line data);
  count <?- maybe (parse_text parse_i64 line);
  if count <? 0 then some (Null, consumed)
  else if capacity_overflow resp_size count then Panic
  else '(items, consumed) <?- parse_items parse_one fuel count data [] consumed;
       some (Array items, consumed).

Definition parse_map (data : bytes) : presult (RespValue * nat) :=
  '(line, consumed) <?- maybe (parse_line data);
  count <?- maybe (parse_text parse_i64 line);
  if capacity_overflow (2 * resp_size) (wrap_u64 count) then Panic
  else '(map, consumed) <?- parse_entries parse_one fuel count data [] consumed;
       some (RMap map, consumed).

Definition parse_set (data : bytes) : presult (RespValue * nat) :=
  '(line, consumed) <?- maybe (parse_line data);
  count <?- maybe (parse_text parse_i64 line);
  if capacity_overflow resp_size (wrap_u64 count) then Panic
  else '(items, consumed) <?- parse_items parse_one fuel count data [] consumed;
       some (RSet items, consumed).
End Nested.

Fixpoint parse_fuel (fuel : nat) (data : bytes) : presult (RespValue * nat) :=
  match fuel with
  | O => OutOfFuel
  | S f =>
      match data with
      | [] => Ok None
      | Byte.x2b :: _ => parse_simple data
      | Byte.x2d :: _ => parse_error data
      | Byte.x3a :: _ => parse_int data
      | Byte.x24 :: _ => parse_bulk data
      | Byte.x2a :: _ => parse_array (parse_fuel f) fuel data
      | Byte.x5f :: _ => parse_null data
      | Byte.x23 :: _ => parse_bool data
      | Byte.x2c :: _ => parse_double data
      | Byte.x25 :: _ => parse_map (parse_fuel f) fuel data
      | Byte.x7e :: _ => parse_set (parse_fuel f) fuel data
      | _ => Ok None
      end
  end.

(** Nested messages are shorter than the message that holds them, and every
    item of a loop takes a byte. *)
Definition parse_one (data : bytes) : presult (RespValue * nat) :=
  parse_fuel (S (length data)) data.

Definition cmd_arg (v : RespValue) : bytes :=
  match v with
  | BulkString (Some b) => b
  | BulkString None => []
  | SimpleString s => s
  | _ => []
  end.

Definition parse_cmd (buf : bytes) : presult (list bytes * nat) :=
  '(val, consumed) <?- parse_one buf;
  match val with
  | Array arr => some (map cmd_arg arr, consumed)
  | BulkString (Some b) => some ([b], consumed)
  | SimpleString s => some ([s], consumed)
  | _ => Ok None
  end.

End Parser.

(** ** The serializer *)

Fixpoint serialize_into (value : RespValue) (buf : bytes) : bytes :=
  match value with
  | SimpleString s => buf ++ [Byte.x2b] ++ s ++ CRLF
  | RError s => buf ++ [Byte.x2d] ++ s ++ CRLF
  | Integer n => buf ++ [Byte.x3a] ++ show_Z n ++ CRLF
  | BulkString None => buf ++ bs "$-1" ++ CRLF
  | BulkString (Some b) => buf ++ [Byte.x24] ++ show_Z (blen b) ++ CRLF ++ b ++ CRLF
  | Array items =>
      fold_left (fun buf item => serialize_into item buf) items
        (buf ++ [Byte.x2a] ++ show_Z (Z.of_nat (length items)) ++ CRLF)
  | Null => buf ++ bs "_" ++ CRLF
  | Boolean v => buf ++ [Byte.x23] ++ [if v then Byte.x74 else Byte.x66] ++ CRLF
  | Double f => buf ++ [Byte.x2c] ++ show_f64 f ++ CRLF
  | RMap entries =>
      fold_left (fun buf kv => serialize_into kv.2 (serialize_into kv.1 buf)) entries
        (buf ++ [Byte.x25] ++ show_Z (Z.of_nat (length entries)) ++ CRLF)
  | RSet items =>
      fold_left (fun buf item => serialize_into item buf) items
        (buf ++ [Byte.x7e] ++ show_Z (Z.of_nat (length items)) ++ CRLF)
  end.

Definition serialize (value : RespValue) : bytes := serialize_into value [].

Example parse_set_command :
  parse_cmd 40 (bs "*3" ++ CRLF ++ bs "$3" ++ CRLF ++ bs "SET" ++ CRLF ++ bs "$3" ++ CRLF
    ++ bs "foo" ++ CRLF ++ bs "$3" ++ CRLF ++ bs "bar" ++ CRLF)
  = Ok (Some ([bs "SET"; bs "foo"; bs "bar"], 31%nat)).
Proof. vm_compute. reflexivity. Qed.

Example serialize_error :
  serialize (RError (bs "ERR unknown command")) = bs "-ERR unknown command" ++ CRLF.
Proof. reflexivity. Qed.

(** ** Facts *)

Section RespInd.
Variable P : RespValue -> Prop.
Hypothesis Hsimple : forall s, P (SimpleString s).
Hypothesis Herror : forall s, P (RError s).
Hypothesis Hint : forall n, P (Integer n).
Hypothesis Hbulk : forall b, P (BulkString b).
Hypothesis Harray : forall l, Forall P l -> P (Array l).
Hypothesis Hnull : P Null.
Hypothesis Hbool : forall v, P (Boolean v).
Hypothesis Hdouble : forall f, P (Double f).
Hypothesis Hmap : forall l, Forall (fun kv => P kv.1 /\ P kv.2) l -> P (RMap l).
Hypothesis Hset : forall l, Forall P l -> P (RSet l).

(** Induction on values that reaches the items of arrays, maps and sets. *)
Fixpoint RespValue_nested_ind (v : RespValue) : P v :=
  match v with
  | SimpleString s => Hsimple s
  | RError s => Herror s
  | Integer n => Hint n
  | BulkString b => Hbulk b
  | Array l => Harray l ((fix go l : Forall P l :=
      match l with
      | [] => Forall_nil_2 _
      | x :: l' => Forall_cons_2 _ _ _ (RespValue_nested_ind x) (go l')
      end) l)
  | Null => Hnull
  | Boolean b => Hbool b
  | Double f => Hdouble f
  | RMap l => Hmap l ((fix go l : Forall (fun kv => P kv.1 /\ P kv.2) l :=
      match l with
      | [] => Forall_nil_2 _
      | x :: l' => Forall_cons_2 _ _ _
          (conj (RespValue_nested_ind x.1) (RespValue_nested_ind x.2)) (go l')
      end) l)
  | RSet l => Hset l ((fix go l : Forall P l :=
      match l with
      | [] => Forall_nil_2 _
      | x :: l' => Forall_cons_2 _ _ _ (RespValue_nested_ind x) (go l')
      end) l)
  end.
End RespInd.

Definition flat_items (l : list RespValue) : bytes := concat (map serialize l).
Definition flat_entries (l : list (RespValue * RespValue)) : bytes :=
  concat (map (fun kv => serialize kv.1 ++ serialize kv.2) l).

Lemma fold_left_append {A} (f : bytes -> A -> bytes) (g : A -> bytes) l buf :
  Forall (fun x => forall b, f b x = b ++ g x) l ->
  fold_left f l buf = buf ++ concat (map g l).
Proof.
  intros H. revert buf. induction H as [|x l Hx _ IH]; intros buf; simpl.
  - by rewrite app_nil_r.
  - by rewrite IH, Hx, <- app_assoc.
Qed.

Lemma serialize_into_app v : forall buf, serialize_into v buf = buf ++ serialize v.
Proof.
  unfold serialize. induction v as [s|s|n|b|l IH| |b|f|l IH|l IH] using RespValue_nested_ind;
    intros buf; cbn [serialize_into]; try done; try (by destruct b).
  - rewrite !(fold_left_append _ (fun v => serialize_into v [])) by done.
    by rewrite <- !app_assoc.
  - rewrite !(fold_left_append _ (fun kv => serialize_into kv.1 [] ++ serialize_into kv.2 []));
      [by rewrite <- !app_assoc|..];
      (eapply Forall_impl; [exact IH|]; intros kv [H1 H2] b; simpl; rewrite H2, H1;
       by rewrite <- app_assoc).
  - rewrite !(fold_left_append _ (fun v => serialize_into v [])) by done.
    by rewrite <- !app_assoc.
Qed.

Lemma serialize_items t l :
  fold_left (fun buf item => serialize_into item buf) l t = t ++ flat_items l.
Proof. apply fold_left_append, Forall_true. intros x b. apply serialize_into_app. Qed.

Lemma serialize_entries t l :
  fold_left (fun buf kv => serialize_into kv.2 (serialize_into kv.1 buf)) l t
  = t ++ flat_entries l.
Proof.
  apply (fold_left_append _ (fun kv => serialize kv.1 ++ serialize kv.2)), Forall_true.
  intros x b. by rewrite !serialize_into_app, <- app_assoc.
Qed.

(** *** Lines *)

Definition is_crlf (a b : byte) : bool :=
  bool_decide (a = Byte.x0d) && bool_decide (b = Byte.x0a).

Lemma find_crlf_cons a b t :
  find_crlf (a :: b :: t)
  = if is_crlf a b then Some 0%nat else S <$> find_crlf (b :: t).
Proof. done. Qed.

Lemma find_crlf_bound d p : find_crlf d = Some p -> (p + 2 <= length d)%nat.
Proof.
  revert p. induction d as [|a [|b t] IH]; intros p H; [done..|].
  rewrite find_crlf_cons in H. destruct (is_crlf a b); [simplify_eq; simpl; lia|].
  destruct (find_crlf (b :: t)) as [q|]; [|done]. specialize (IH q eq_refl).
  simpl in *. simplify_eq. lia.
Qed.

Lemma find_crlf_more d p more : find_crlf d = Some p -> find_crlf (d ++ more) = Some p.
Proof.
  revert p. induction d as [|a [|b t] IH]; intros p H; [done..|].
  rewrite find_crlf_cons in H. change ((a :: b :: t) ++ more) with (a :: b :: t ++ more).
  rewrite find_crlf_cons. destruct (is_crlf a b); [done|].
  destruct (find_crlf (b :: t)) as [q|]; [|done].
  change (b :: t ++ more) with ((b :: t) ++ more). by rewrite (IH q eq_refl).
Qed.

Lemma find_crlf_end s rest : find_crlf s = None -> find_crlf (s ++ CRLF ++ rest) = Some (length s).
Proof.
  induction s as [|a [|b t] IH]; intros H; [done| |].
  - simpl. by destruct (bool_decide (a = Byte.x0d)).
  - rewrite find_crlf_cons in H.
    change ((a :: b :: t) ++ CRLF ++ rest) with (a :: b :: t ++ CRLF ++ rest).
    rewrite find_crlf_cons. destruct (is_crlf a b); [done|].
    change (b :: t ++ CRLF ++ rest) with ((b :: t) ++ CRLF ++ rest). rewrite IH; [done|].
    by destruct (find_crlf (b :: t)).
Qed.

Lemma parse_line_bound d line c :
  parse_line d = Some (line, c) -> (2 <= c <= length d)%nat.
Proof.
  unfold parse_line. intros H. destruct (find_crlf d) eqn:E; [|done].
  apply find_crlf_bound in E. simplify_eq. lia.
Qed.

Lemma parse_line_more d line c more :
  parse_line d = Some (line, c) -> parse_line (d ++ more) = Some (line, c).
Proof.
  unfold parse_line. intros H. destruct (find_crlf d) as [p|] eqn:E; [|done].
  rewrite (find_crlf_more _ _ _ E). apply find_crlf_bound in E. simplify_eq.
  do 2 f_equal. rewrite drop_app_le by lia. rewrite take_app_le; [done|].
  rewrite length_drop. lia.
Qed.

Lemma parse_line_header tag s rest :
  tag <> Byte.x0d -> find_crlf s = None ->
  parse_line ([tag] ++ s ++ CRLF ++ rest) = Some (s, (length s + 3)%nat).
Proof.
  intros Ht Hs. unfold parse_line.
  assert (find_crlf ([tag] ++ s ++ CRLF ++ rest) = Some (S (length s))) as ->.
  { pose proof (find_crlf_end s rest Hs) as H.
    destruct (s ++ CRLF ++ rest) as [|b t]; [done|].
    change ([tag] ++ b :: t) with (tag :: b :: t). rewrite find_crlf_cons, H.
    unfold is_crlf. by rewrite bool_decide_false. }
  do 2 f_equal; [|lia]. simpl. rewrite drop_0, Nat.sub_0_r. apply take_app_length.
Qed.

Lemma no_cr_no_crlf l : forallb (fun b => negb (bool_decide (b = Byte.x0d))) l = true ->
  find_crlf l = None.
Proof.
  induction l as [|a [|b t] IH]; intros H; [done..|].
  cbn [forallb] in H. apply andb_true_iff in H as [Ha Ht]. apply negb_true_iff in Ha.
  rewrite find_crlf_cons. unfold is_crlf. rewrite Ha. simpl andb. by rewrite IH.
Qed.

(** *** Parser steps *)

Lemma pbind_some {A B} (m : presult A) (f : A -> presult B) r :
  pbind m f = Ok (Some r) -> exists a, m = Ok (Some a) /\ f a = Ok (Some r).
Proof. destruct m as [[a|]| | |]; simpl; intros H; try done. eauto. Qed.

Lemma pbind_fuel {A B} (m : presult A) (f : A -> presult B) :
  m <> OutOfFuel -> (forall a, m = Ok (Some a) -> f a <> OutOfFuel) -> pbind m f <> OutOfFuel.
Proof. destruct m as [[a|]| | |]; simpl; intros H Hf; try done. by apply Hf. Qed.

Lemma slice_from_some d n r :
  slice_from d n = Ok (Some r) -> (n <= length d)%nat /\ r = drop n d.
Proof.
  unfold slice_from. destruct (n <=? length d)%nat eqn:E; [|done].
  apply Nat.leb_le in E. intros [= <-]. done.
Qed.

Lemma slice_from_ok d n : (n <= length d)%nat -> slice_from d n = Ok (Some (drop n d)).
Proof. intros H. unfold slice_from. by rewrite (proj2 (Nat.leb_le _ _)). Qed.

(** Opens a successful parse into its steps. *)
Ltac pinv :=
  repeat match goal with
  | H : pbind _ _ = Ok (Some _) |- _ =>
      let a := fresh "a" in let H1 := fresh "H" in
      apply pbind_some in H as (a & H1 & H); unfold maybe in H1;
      try (destruct a as [? ?]); simpl in H
  | H : slice_from _ _ = Ok (Some _) |- _ => apply slice_from_some in H as [? ->]
  | H : some _ = Ok (Some _) |- _ => injection H; clear H; intros; subst
  | H : Ok _ = Ok _ |- _ => injection H; clear H; intros
  end.

(** The ten message parsers, and the rejection of an unknown tag. *)
Inductive tagged (resp_size : Z)
  : ((bytes -> presult (RespValue * nat)) -> nat -> bytes -> presult (RespValue * nat)) -> Prop :=
  | tag_simple : tagged resp_size (fun _ _ => parse_simple)
  | tag_error : tagged resp_size (fun _ _ => parse_error)
  | tag_int : tagged resp_size (fun _ _ => parse_int)
  | tag_bulk : tagged resp_size (fun _ _ => parse_bulk)
  | tag_array : tagged resp_size (parse_array resp_size)
  | tag_null : tagged resp_size (fun _ _ => parse_null)
  | tag_bool : tagged resp_size (fun _ _ => parse_bool)
  | tag_double : tagged resp_size (fun _ _ => parse_double)
  | tag_map : tagged resp_size (parse_map resp_size)
  | tag_set : tagged resp_size (parse_set resp_size)
  | tag_unknown : tagged resp_size (fun _ _ _ => Ok None).

Lemma parse_fuel_tagged rs b : exists p, tagged rs p
  /\ forall f t, parse_fuel rs (S f) (b :: t) = p (parse_fuel rs f) (S f) (b :: t).
Proof.
  destruct b;
    first [ eexists; split; [apply tag_unknown|done]
          | eexists; split; [apply tag_simple|done] | eexists; split; [apply tag_error|done]
          | eexists; split; [apply tag_int|done] | eexists; split; [apply tag_bulk|done]
          | eexists; split; [apply tag_array|done] | eexists; split; [apply tag_null|done]
          | eexists; split; [apply tag_bool|done] | eexists; split; [apply tag_double|done]
          | eexists; split; [apply tag_map|done] | eexists; split; [apply tag_set|done] ].
Qed.

Definition consumes (p : bytes -> presult (RespValue * nat)) : Prop :=
  forall d v n, p d = Ok (Some (v, n)) -> (0 < n <= length d)%nat.

(** [p'] answers as [p] on every input [p] completes, more bytes following or not. *)
Definition extends (p p' : bytes -> presult (RespValue * nat)) : Prop :=
  forall d r more, p d = Ok (Some r) -> p' (d ++ more) = Ok (Some r).

Lemma parse_items_consumes p fuel count d items c items' c' :
  consumes p -> (c <= length d)%nat ->
  parse_items p fuel count d items c = Ok (Some (items', c')) -> (c <= c' <= length d)%nat.
Proof.
  intros Hp. revert count items c. induction fuel as [|f IH]; intros count items c Hc H;
    cbn [parse_items] in H; destruct (count <=? 0); pinv; try done; try lia.
  match goal with H1 : p _ = _ |- _ => apply Hp in H1; rewrite length_drop in H1 end.
  apply IH in H; lia.
Qed.

Lemma parse_entries_consumes p fuel count d items c items' c' :
  consumes p -> (c <= length d)%nat ->
  parse_entries p fuel count d items c = Ok (Some (items', c')) -> (c <= c' <= length d)%nat.
Proof.
  intros Hp. revert count items c. induction fuel as [|f IH]; intros count items c Hc H;
    cbn [parse_entries] in H; destruct (count <=? 0); pinv; try done; try lia.
  repeat match goal with
    H1 : p _ = _ |- _ => apply Hp in H1; rewrite length_drop in H1 end.
  apply IH in H; lia.
Qed.

Lemma tagged_consumes rs p pone fuel : tagged rs p -> consumes pone -> consumes (p pone fuel).
Proof.
  intros Ht Hp d v n H. destruct Ht;
    unfold parse_simple, parse_error, parse_int, parse_bulk, parse_array, parse_null,
      parse_bool, parse_double, parse_map, parse_set in H; pinv; repeat case_hyp H; pinv;
    try done;
    repeat match goal with
    | H1 : parse_line _ = Some _ |- _ => apply parse_line_bound in H1
    | H1 : parse_items _ _ _ _ _ _ = _ |- _ =>
        apply parse_items_consumes in H1; [|done|lia]
    | H1 : parse_entries _ _ _ _ _ _ = _ |- _ =>
        apply parse_entries_consumes in H1; [|done|lia]
    end; try lia.
  unfold blen in *. zbool. lia.
Qed.

Lemma parse_fuel_consumes rs f : consumes (parse_fuel rs f).
Proof.
  induction f as [|f IH]; intros d v n H; [done|]. destruct d as [|b t]; [done|].
  destruct (parse_fuel_tagged rs b) as (p & Ht & Hp). rewrite Hp in H.
  by eapply tagged_consumes.
Qed.

Lemma parse_items_extends p p' f g count d items c r more :
  extends p p' -> (f <= g)%nat ->
  parse_items p f count d items c = Ok (Some r) ->
  parse_items p' g count (d ++ more) items c = Ok (Some r).
Proof.
  intros Hp. revert g count items c.
  induction f as [|f IH]; intros [|g] count items c Hg H; try lia;
    cbn [parse_items] in *; destruct (count <=? 0); try done; pinv.
  rewrite slice_from_ok by (rewrite length_app; lia). simpl.
  rewrite drop_app_le by lia. erewrite Hp by eassumption. simpl. apply IH; [lia|done].
Qed.

Lemma parse_entries_extends p p' f g count d items c r more :
  extends p p' -> (f <= g)%nat ->
  parse_entries p f count d items c = Ok (Some r) ->
  parse_entries p' g count (d ++ more) items c = Ok (Some r).
Proof.
  intros Hp. revert g count items c.
  induction f as [|f IH]; intros [|g] count items c Hg H; try lia;
    cbn [parse_entries] in *; destruct (count <=? 0); try done; pinv.
  do 2 (rewrite slice_from_ok by (rewrite length_app; lia); simpl;
        rewrite drop_app_le by lia; erewrite Hp by eassumption; simpl).
  apply IH; [lia|done].
Qed.

Lemma tagged_extends rs p pone pone' f g :
  tagged rs p -> extends pone pone' -> (f <= g)%nat -> extends (p pone f) (p pone' g).
Proof.
  intros Ht Hp Hfg d r more H. destruct Ht;
    unfold parse_simple, parse_error, parse_int, parse_bulk, parse_array, parse_null,
      parse_bool, parse_double, parse_map, parse_set in *; pinv; try done;
    match goal with H1 : parse_line d = Some _ |- _ =>
      pose proof (parse_line_bound _ _ _ H1);
      rewrite (parse_line_more _ _ _ more H1) end; simpl;
    repeat match goal with
    | H1 : parse_text _ _ = Some _ |- _ => rewrite H1; clear H1; simpl
    end; try done.
  - repeat case_hyp H; try done. rewrite drop_app_le by lia. unfold blen in *.
    rewrite length_app. rewrite (proj2 (Z.ltb_ge _ _)) by lia.
    rewrite take_app_le; [done|]. rewrite length_drop. lia.
  - repeat case_hyp H; try done. pinv. by erewrite parse_items_extends by eassumption.
  - repeat case_hyp H; try done. pinv. by erewrite parse_entries_extends by eassumption.
  - repeat case_hyp H; try done. pinv. by erewrite parse_items_extends by eassumption.
Qed.

Lemma parse_fuel_extends rs f g : (f <= g)%nat -> extends (parse_fuel rs f) (parse_fuel rs g).
Proof.
  revert g. induction f as [|f IH]; intros [|g] Hg [|b t] r more H; try done; try lia.
  destruct (parse_fuel_tagged rs b) as (p & Ht & Hp). rewrite Hp in H.
  change ((b :: t) ++ more) with (b :: t ++ more). rewrite Hp.
  refine (tagged_extends rs p _ _ _ _ Ht _ Hg (b :: t) r more H). apply IH. lia.
Qed.

(** *** Termination *)

Lemma parse_items_fuel p f count d items c :
  consumes p -> (forall d', (length d' < length d)%nat -> p d' <> OutOfFuel) ->
  (0 < c <= length d)%nat -> (length d - c < f)%nat ->
  parse_items p f count d items c <> OutOfFuel.
Proof.
  intros Hc Hp. revert count items c. induction f as [|f IH]; intros count items c Hcd Hf; [lia|].
  cbn [parse_items]. destruct (count <=? 0); [done|].
  apply pbind_fuel; [by rewrite slice_from_ok by lia|]. intros r [_ ->]%slice_from_some.
  apply pbind_fuel; [apply Hp; rewrite length_drop; lia|]. intros [v n] Hv.
  apply Hc in Hv. rewrite length_drop in Hv. apply IH; lia.
Qed.

Lemma parse_entries_fuel p f count d items c :
  consumes p -> (forall d', (length d' < length d)%nat -> p d' <> OutOfFuel) ->
  (0 < c <= length d)%nat -> (length d - c < f)%nat ->
  parse_entries p f count d items c <> OutOfFuel.
Proof.
  intros Hc Hp. revert count items c. induction f as [|f IH]; intros count items c Hcd Hf; [lia|].
  cbn [parse_entries]. destruct (count <=? 0); [done|]. cbv zeta.
  apply pbind_fuel; [by rewrite slice_from_ok by lia|]. intros r [_ ->]%slice_from_some.
  apply pbind_fuel; [apply Hp; rewrite length_drop; lia|]. intros [v n] Hv.
  apply Hc in Hv. rewrite length_drop in Hv.
  apply pbind_fuel; [by rewrite slice_from_ok by lia|]. intros r [_ ->]%slice_from_some.
  apply pbind_fuel; [apply Hp; rewrite length_drop; lia|]. intros [v' n'] Hv'.
  apply Hc in Hv'. rewrite length_drop in Hv'. apply IH; lia.
Qed.

Lemma tagged_fuel rs p pone f d :
  tagged rs p -> consumes pone ->
  (forall d', (length d' < length d)%nat -> pone d' <> OutOfFuel) -> (length d < f)%nat ->
  p pone f d <> OutOfFuel.
Proof.
  intros Ht Hc Hp Hf. destruct Ht;
    unfold parse_simple, parse_error, parse_int, parse_bulk, parse_array, parse_null,
      parse_bool, parse_double, parse_map, parse_set; try done;
    (apply pbind_fuel; [done|]; intros [line c] [= Hl%parse_line_bound]); simpl;
    repeat (apply pbind_fuel; [done|]; intros ? [= ?]); repeat case_goal; try done;
    (apply pbind_fuel; [|by intros []]);
    first [apply parse_items_fuel | apply parse_entries_fuel]; auto; lia.
Qed.

Lemma parse_fuel_enough rs f d : (length d < f)%nat -> parse_fuel rs f d <> OutOfFuel.
Proof.
  revert d. induction f as [|f IH]; intros [|b t] Hf; try lia; [done|].
  destruct (parse_fuel_tagged rs b) as (p & Ht & Hp). rewrite Hp.
  apply (tagged_fuel rs p); [done|apply parse_fuel_consumes| |done].
  intros d' Hd'. apply IH. lia.
Qed.

Lemma parse_one_more rs d r more :
  parse_one rs d = Ok (Some r) -> parse_one rs (d ++ more) = Ok (Some r).
Proof. apply parse_fuel_extends. rewrite length_app. lia. Qed.

(** *** Round trip *)

(** The values a client or the server can put on the wire and read back: text
    lines without CRLF, numbers in range, collections that fit in memory. *)
Fixpoint wf_value (resp_size : Z) (v : RespValue) : bool :=
  let fits size n := negb (capacity_overflow size (Z.of_nat n)) in
  match v with
  | SimpleString s | RError s => utf8_valid s && bool_decide (find_crlf s = None)
  | Integer n => is_i64 n
  | BulkString None | Null | Boolean _ => true
  | BulkString (Some b) => blen b <=? i64_max
  | Array l | RSet l => fits resp_size (length l) && forallb (wf_value resp_size) l
  | Double f => bool_decide (parse_f64 (show_f64 f) = Some f)
                && is_ascii (show_f64 f) && bool_decide (find_crlf (show_f64 f) = None)
  | RMap l => fits (2 * resp_size) (length l)
              && forallb (fun kv => wf_value resp_size kv.1 && wf_value resp_size kv.2) l
  end.

Lemma show_Z_digits z : forallb (fun b => is_digit b || bool_decide (b = Byte.x2d)) (show_Z z) = true.
Proof.
  unfold show_Z. assert (forall y, 0 <= y ->
    forallb (fun b => is_digit b || bool_decide (b = Byte.x2d)) (show_nonneg y) = true) as H.
  { intros y Hy. apply forallb_forall. intros b Hb.
    pose proof (show_nonneg_digits y Hy) as Hd. rewrite forallb_forall in Hd.
    by rewrite (Hd b Hb). }
  destruct (z <? 0) eqn:E; zbool; [cbn [forallb]; simpl orb|]; apply H; lia.
Qed.

Lemma show_Z_no_crlf z : find_crlf (show_Z z) = None.
Proof.
  apply no_cr_no_crlf. pose proof (show_Z_digits z) as H.
  rewrite forallb_forall in *. intros b Hb. specialize (H b Hb).
  apply negb_true_iff, bool_decide_eq_false. by intros ->.
Qed.

Lemma show_Z_ascii z : is_ascii (show_Z z) = true.
Proof.
  pose proof (show_Z_digits z) as H. unfold is_ascii. rewrite forallb_forall in *.
  intros b Hb. specialize (H b Hb). apply orb_true_iff in H as [H|H%bool_decide_eq_true];
    [|by subst]. unfold is_digit, between in H. lia.
Qed.

Lemma parse_text_show_i64 z : is_i64 z = true -> parse_text parse_i64 (show_Z z) = Some z.
Proof.
  intros H. unfold parse_text. rewrite is_ascii_valid by apply show_Z_ascii.
  by apply parse_i64_show.
Qed.

(** A header line [tag number CRLF]. *)
Lemma parse_number_header tag z rest :
  tag <> Byte.x0d ->
  parse_line ([tag] ++ show_Z z ++ CRLF ++ rest)
  = Some (show_Z z, length ([tag] ++ show_Z z ++ CRLF)).
Proof.
  intros H. rewrite parse_line_header by auto using show_Z_no_crlf.
  do 2 f_equal. rewrite !length_app. simpl. lia.
Qed.

(** [p] reads back the serialization of [v], whatever follows. *)
Definition reads (p : bytes -> presult (RespValue * nat)) (v : RespValue) : Prop :=
  forall rest, p (serialize v ++ rest) = Ok (Some (v, length (serialize v))).

Lemma parse_items_reads p f l pre rest acc :
  Forall (reads p) l -> (length l <= f)%nat ->
  parse_items p f (Z.of_nat (length l)) (pre ++ flat_items l ++ rest) acc (length pre)
  = Ok (Some (acc ++ l, length (pre ++ flat_items l))).
Proof.
  intros Hl. revert f pre acc.
  induction Hl as [|v l Hv _ IH]; intros f pre acc Hf; simpl in Hf.
  - destruct f; simpl; by rewrite !app_nil_r.
  - destruct f as [|f]; [lia|]. cbn [parse_items].
    rewrite (proj2 (Z.leb_gt _ _)) by (simpl length; lia).
    rewrite slice_from_ok by (rewrite length_app; lia). simpl.
    rewrite drop_app_length. change (flat_items (v :: l)) with (serialize v ++ flat_items l).
    rewrite <- app_assoc, Hv. simpl.
    replace (Z.of_nat (S (length l)) - 1) with (Z.of_nat (length l)) by lia.
    specialize (IH f (pre ++ serialize v) (acc ++ [v]) ltac:(lia)).
    rewrite <- !app_assoc, length_app in IH. by rewrite IH.
Qed.

Lemma parse_entries_reads p f l pre rest acc :
  Forall (fun kv => reads p kv.1 /\ reads p kv.2) l -> (length l <= f)%nat ->
  parse_entries p f (Z.of_nat (length l)) (pre ++ flat_entries l ++ rest) acc (length pre)
  = Ok (Some (acc ++ l, length (pre ++ flat_entries l))).
Proof.
  intros Hl. revert f pre acc.
  induction Hl as [|[k v] l [Hk Hv] _ IH]; intros f pre acc Hf; simpl in Hf.
  - destruct f; simpl; by rewrite !app_nil_r.
  - destruct f as [|f]; [lia|]. cbn [parse_entries].
    rewrite (proj2 (Z.leb_gt _ _)) by (simpl length; lia).
    change (flat_entries ((k, v) :: l)) with ((serialize k ++ serialize v) ++ flat_entries l).
    rewrite <- !app_assoc, slice_from_ok by (rewrite length_app; lia). simpl.
    rewrite drop_app_length, Hk. simpl. rewrite <- length_app, (app_assoc pre).
    rewrite slice_from_ok by (rewrite !length_app; lia). simpl.
    rewrite drop_app_length, Hv. simpl.
    replace (Z.of_nat (S (length l)) - 1) with (Z.of_nat (length l)) by lia.
    specialize (IH f ((pre ++ serialize k) ++ serialize v) (acc ++ [(k, v)]) ltac:(lia)).
    rewrite <- (length_app (pre ++ serialize k)).
    rewrite <- !app_assoc in *. by rewrite IH.
Qed.

Lemma serialize_Array l :
  serialize (Array l) = [Byte.x2a] ++ show_Z (Z.of_nat (length l)) ++ CRLF ++ flat_items l.
Proof. unfold serialize. cbn [serialize_into]. by rewrite serialize_items, <- !app_assoc. Qed.

Lemma serialize_RSet l :
  serialize (RSet l) = [Byte.x7e] ++ show_Z (Z.of_nat (length l)) ++ CRLF ++ flat_items l.
Proof. unfold serialize. cbn [serialize_into]. by rewrite serialize_items, <- !app_assoc. Qed.

Lemma serialize_RMap l :
  serialize (RMap l) = [Byte.x25] ++ show_Z (Z.of_nat (length l)) ++ CRLF ++ flat_entries l.
Proof. unfold serialize. cbn [serialize_into]. by rewrite serialize_entries, <- !app_assoc. Qed.

Lemma serialize_nonempty v : (0 < length (serialize v))%nat.
Proof.
  destruct v as [| |n|[]| | | | | |];
    rewrite ?serialize_Array, ?serialize_RSet, ?serialize_RMap; simpl; lia.
Qed.

Lemma flat_items_length l v : v ∈ l ->
  (length (serialize v) <= length (flat_items l))%nat.
Proof.
  induction l as [|x l IH]; [by intros ?%elem_of_nil|].
  change (flat_items (x :: l)) with (serialize x ++ flat_items l). rewrite length_app.
  intros [->|H]%elem_of_cons; [lia|]. specialize (IH H). lia.
Qed.

Lemma flat_entries_length l k v : (k, v) ∈ l ->
  (length (serialize k) <= length (flat_entries l)
   /\ length (serialize v) <= length (flat_entries l))%nat.
Proof.
  induction l as [|[k' v'] l IH]; [by intros ?%elem_of_nil|].
  change (flat_entries ((k', v') :: l))
    with ((serialize k' ++ serialize v') ++ flat_entries l). rewrite !length_app.
  intros [[= -> ->]|H]%elem_of_cons; [lia|]. specialize (IH H). lia.
Qed.

Lemma flat_items_count l : (length l <= length (flat_items l))%nat.
Proof.
  induction l as [|x l IH]; [done|].
  change (flat_items (x :: l)) with (serialize x ++ flat_items l). rewrite length_app.
  pose proof (serialize_nonempty x). simpl. lia.
Qed.

Lemma flat_entries_count l : (length l <= length (flat_entries l))%nat.
Proof.
  induction l as [|[k v] l IH]; [done|].
  change (flat_entries ((k, v) :: l))
    with ((serialize k ++ serialize v) ++ flat_entries l). rewrite !length_app.
  pose proof (serialize_nonempty k). simpl. lia.
Qed.

Lemma fits_i64 size n :
  1 <= size -> capacity_overflow size (Z.of_nat n) = false -> is_i64 (Z.of_nat n) = true.
Proof.
  unfold capacity_overflow. intros Hs H. zbool. unfold is_i64, i64_min in *.
  apply andb_true_iff; split; apply Z.leb_le; nia.
Qed.

Lemma fits_wrap size n :
  1 <= size -> capacity_overflow size (Z.of_nat n) = false ->
  wrap_u64 (Z.of_nat n) = Z.of_nat n.
Proof.
  intros Hs H%fits_i64; [|done]. apply wrap_u64_id, is_u64_spec.
  apply is_i64_spec in H. lia.
Qed.

(** A negative count is a huge [usize]. *)
Lemma negative_capacity size count :
  1 <= size -> is_i64 count = true -> count < 0 ->
  capacity_overflow size (wrap_u64 count) = true.
Proof.
  intros Hs Hi Hc. apply is_i64_spec in Hi. unfold capacity_overflow, wrap_u64.
  replace (count mod 2 ^ 64) with (count + 2 ^ 64) by (apply Z.mod_unique with (-1); lia).
  apply Z.ltb_lt. unfold i64_max. nia.
Qed.

Section Reads.
Variable rs : Z.
Hypothesis Hrs : 1 <= rs.

Lemma parse_bulk_reads b rest :
  blen b <= i64_max ->
  parse_bulk (([Byte.x24] ++ show_Z (blen b) ++ CRLF ++ b ++ CRLF) ++ rest)
  = Ok (Some (BulkString (Some b), length ([Byte.x24] ++ show_Z (blen b) ++ CRLF ++ b ++ CRLF))).
Proof.
  intros Hb. unfold parse_bulk. rewrite <- !app_assoc.
  rewrite parse_number_header by done. unfold maybe. cbn [pbind].
  assert (0 <= blen b) by (unfold blen; lia).
  rewrite parse_text_show_i64 by (unfold is_i64, i64_min; lia). cbn [pbind].
  rewrite (proj2 (Z.ltb_ge _ _)) by done.
  set (h := [Byte.x24] ++ show_Z (blen b) ++ CRLF).
  replace ([Byte.x24] ++ show_Z (blen b) ++ CRLF ++ b ++ CRLF ++ rest)
    with (h ++ b ++ CRLF ++ rest) by (unfold h; by rewrite <- !app_assoc).
  replace ([Byte.x24] ++ show_Z (blen b) ++ CRLF ++ b ++ CRLF)
    with (h ++ b ++ CRLF) by (unfold h; by rewrite <- !app_assoc).
  rewrite (proj2 (Z.ltb_ge _ _)).
  2:{ unfold blen. rewrite (length_app h), (length_app b), (length_app CRLF).
      change (length CRLF) with 2%nat. lia. }
  unfold blen. rewrite Nat2Z.id, drop_app_length, take_app_length.
  clearbody h. rewrite !length_app. change (length CRLF) with 2%nat.
  unfold some. by rewrite Nat.add_assoc.
Qed.

Lemma parse_array_reads p f l rest :
  capacity_overflow rs (Z.of_nat (length l)) = false ->
  Forall (reads p) l -> (length l <= f)%nat ->
  parse_array rs p f (serialize (Array l) ++ rest)
  = Ok (Some (Array l, length (serialize (Array l)))).
Proof.
  intros Hc Hl Hf. unfold parse_array. rewrite serialize_Array, <- !app_assoc.
  rewrite parse_number_header by done. unfold maybe. cbn [pbind].
  rewrite parse_text_show_i64 by eauto using fits_i64. cbn [pbind].
  rewrite (proj2 (Z.ltb_ge _ _)) by lia. rewrite Hc.
  pose proof (parse_items_reads p f l ([Byte.x2a] ++ show_Z (Z.of_nat (length l)) ++ CRLF)
    rest [] Hl Hf) as H. rewrite <- !app_assoc in H. by rewrite H.
Qed.

Lemma parse_set_reads p f l rest :
  capacity_overflow rs (Z.of_nat (length l)) = false ->
  Forall (reads p) l -> (length l <= f)%nat ->
  parse_set rs p f (serialize (RSet l) ++ rest)
  = Ok (Some (RSet l, length (serialize (RSet l)))).
Proof.
  intros Hc Hl Hf. unfold parse_set. rewrite serialize_RSet, <- !app_assoc.
  rewrite parse_number_header by done. unfold maybe. cbn [pbind].
  rewrite parse_text_show_i64 by eauto using fits_i64. cbn [pbind].
  rewrite (fits_wrap rs) by done. rewrite Hc.
  pose proof (parse_items_reads p f l ([Byte.x7e] ++ show_Z (Z.of_nat (length l)) ++ CRLF)
    rest [] Hl Hf) as H. rewrite <- !app_assoc in H. by rewrite H.
Qed.

Lemma parse_map_reads p f l rest :
  capacity_overflow (2 * rs) (Z.of_nat (length l)) = false ->
  Forall (fun kv => reads p kv.1 /\ reads p kv.2) l -> (length l <= f)%nat ->
  parse_map rs p f (serialize (RMap l) ++ rest)
  = Ok (Some (RMap l, length (serialize (RMap l)))).
Proof.
  intros Hc Hl Hf. unfold parse_map. rewrite serialize_RMap, <- !app_assoc.
  rewrite parse_number_header by done. unfold maybe. cbn [pbind].
  rewrite parse_text_show_i64 by (eapply fits_i64; [|done]; lia). cbn [pbind].
  rewrite (fits_wrap (2 * rs)) by (done || lia). rewrite Hc.
  pose proof (parse_entries_reads p f l ([Byte.x25] ++ show_Z (Z.of_nat (length l)) ++ CRLF)
    rest [] Hl Hf) as H. rewrite <- !app_assoc in H. by rewrite H.
Qed.

(** A message that is one text line. *)
Lemma line_reads tag s rest :
  tag <> Byte.x0d -> find_crlf s = None ->
  parse_line (([tag] ++ s ++ CRLF) ++ rest) = Some (s, length ([tag] ++ s ++ CRLF)).
Proof.
  intros Ht Hs. rewrite <- !app_assoc, parse_line_header by done.
  do 2 f_equal. rewrite !length_app. simpl. lia.
Qed.

(** The elements of a collection are read when the reader reads every value
    shorter than the collection. *)
Lemma items_read p n l :
  (forall v, wf_value rs v = true -> (length (serialize v) < n)%nat -> reads p v) ->
  forallb (wf_value rs) l = true -> (length (flat_items l) < n)%nat -> Forall (reads p) l.
Proof.
  intros IH Hwf Hn. rewrite forallb_forall in Hwf. apply Forall_forall. intros v Hv.
  pose proof (flat_items_length l v Hv). apply IH; [by apply Hwf, list_elem_of_In|lia].
Qed.

Lemma parse_fuel_reads f v :
  wf_value rs v = true -> (length (serialize v) < f)%nat -> reads (parse_fuel rs f) v.
Proof.
  revert v. induction f as [|f IH]; intros v Hwf Hf rest; [lia|].
  destruct v as [s|s|n|[b|]|l| |b|x|l|l]; cbn [wf_value] in Hwf; zbool.
  - change (parse_simple (([Byte.x2b] ++ s ++ CRLF) ++ rest)
            = some (SimpleString s, length ([Byte.x2b] ++ s ++ CRLF))).
    unfold parse_simple, maybe. case_bool_decide; [|done]. rewrite line_reads by done.
    cbn [pbind]. by rewrite from_utf8_lossy_valid.
  - change (parse_error (([Byte.x2d] ++ s ++ CRLF) ++ rest)
            = some (RError s, length ([Byte.x2d] ++ s ++ CRLF))).
    unfold parse_error, maybe. case_bool_decide; [|done]. rewrite line_reads by done.
    cbn [pbind]. by rewrite from_utf8_lossy_valid.
  - change (parse_int (([Byte.x3a] ++ show_Z n ++ CRLF) ++ rest)
            = some (Integer n, length ([Byte.x3a] ++ show_Z n ++ CRLF))).
    unfold parse_int, maybe. rewrite line_reads by auto using show_Z_no_crlf.
    cbn [pbind]. by rewrite parse_text_show_i64.
  - by apply parse_bulk_reads.
  - reflexivity.
  - transitivity (parse_array rs (parse_fuel rs f) (S f) (serialize (Array l) ++ rest));
      [by rewrite serialize_Array|]. apply parse_array_reads; [done| |].
    + rewrite serialize_Array, !length_app in Hf.
      eapply items_read; [done|done|]. simpl in Hf; lia.
    + rewrite serialize_Array, !length_app in Hf. pose proof (flat_items_count l). lia.
  - reflexivity.
  - by destruct b.
  - change (parse_double (([Byte.x2c] ++ show_f64 x ++ CRLF) ++ rest)
            = some (Double x, length ([Byte.x2c] ++ show_f64 x ++ CRLF))).
    unfold parse_double, maybe. do 2 (case_bool_decide; [|done]).
    rewrite line_reads by done. cbn [pbind]. unfold parse_text.
    rewrite is_ascii_valid by done.
    by match goal with Hp : parse_f64 _ = _ |- _ => rewrite Hp end.
  - transitivity (parse_map rs (parse_fuel rs f) (S f) (serialize (RMap l) ++ rest));
      [by rewrite serialize_RMap|]. apply parse_map_reads; [done| |].
    + rewrite serialize_RMap, !length_app in Hf. rewrite forallb_forall in *.
      apply Forall_forall. intros [k v] Hv. pose proof (flat_entries_length l k v Hv) as [].
      specialize (H0 (k, v) ltac:(by apply list_elem_of_In)). simpl in *. zbool.
      split; apply IH; try done; lia.
    + rewrite serialize_RMap, !length_app in Hf. pose proof (flat_entries_count l). lia.
  - transitivity (parse_set rs (parse_fuel rs f) (S f) (serialize (RSet l) ++ rest));
      [by rewrite serialize_RSet|]. apply parse_set_reads; [done| |].
    + rewrite serialize_RSet, !length_app in Hf.
      eapply items_read; [done|done|]. simpl in Hf; lia.
    + rewrite serialize_RSet, !length_app in Hf. pose proof (flat_items_count l). lia.
Qed.

Lemma parse_one_serialize v rest :
  wf_value rs v = true ->
  parse_one rs (serialize v ++ rest) = Ok (Some (v, length (serialize v))).
Proof. intros H. apply parse_fuel_reads; [done|]. rewrite length_app. lia. Qed.

End Reads.

(** *** Panics *)

(** A panic is not undone by more input. *)
Definition panics (p p' : bytes -> presult (RespValue * nat)) : Prop :=
  forall d more, p d = Panic -> p' (d ++ more) = Panic.

Lemma pbind_panic {A B} (m : presult A) (f : A -> presult B) :
  pbind m f = Panic -> m = Panic \/ exists a, m = Ok (Some a) /\ f a = Panic.
Proof. destruct m as [[a|]| | |]; simpl; intros H; try done; eauto. Qed.

Lemma parse_items_panics p p' f g count d items c more :
  consumes p -> extends p p' -> panics p p' -> (f <= g)%nat -> (c <= length d)%nat ->
  parse_items p f count d items c = Panic ->
  parse_items p' g count (d ++ more) items c = Panic.
Proof.
  intros Hc He Hp. revert g count items c.
  induction f as [|f IH]; intros [|g] count items c Hg Hcd H; try lia;
    cbn [parse_items] in *; destruct (count <=? 0); try done.
  rewrite slice_from_ok in H by done. cbn [pbind] in H.
  rewrite slice_from_ok by (rewrite length_app; lia). cbn [pbind].
  rewrite drop_app_le by done. apply pbind_panic in H as [H|([v n] & Hv & H)].
  - by rewrite Hp.
  - rewrite (He _ _ _ Hv). cbn [pbind]. apply Hc in Hv. rewrite length_drop in Hv.
    apply IH; [lia..|done].
Qed.

Lemma parse_entries_panics p p' f g count d items c more :
  consumes p -> extends p p' -> panics p p' -> (f <= g)%nat -> (c <= length d)%nat ->
  parse_entries p f count d items c = Panic ->
  parse_entries p' g count (d ++ more) items c = Panic.
Proof.
  intros Hc He Hp. revert g count items c.
  induction f as [|f IH]; intros [|g] count items c Hg Hcd H; try lia;
    cbn [parse_entries] in *; destruct (count <=? 0); try done. cbv zeta in *.
  rewrite slice_from_ok in H by done. cbn [pbind] in H.
  rewrite slice_from_ok by (rewrite length_app; lia). cbn [pbind].
  rewrite drop_app_le by done. apply pbind_panic in H as [H|([v n] & Hv & H)];
    [by rewrite Hp|].
  rewrite (He _ _ _ Hv). cbn [pbind]. apply Hc in Hv. rewrite length_drop in Hv.
  rewrite slice_from_ok in H by lia. cbn [pbind] in H.
  rewrite slice_from_ok by (rewrite length_app; lia). cbn [pbind].
  rewrite drop_app_le by lia. apply pbind_panic in H as [H|([v' n'] & Hv' & H)];
    [by rewrite Hp|].
  rewrite (He _ _ _ Hv'). cbn [pbind]. apply Hc in Hv'. rewrite length_drop in Hv'.
  apply IH; [lia..|done].
Qed.

Lemma tagged_panics rs p pone pone' f g :
  tagged rs p -> consumes pone -> extends pone pone' -> panics pone pone' -> (f <= g)%nat ->
  panics (p pone f) (p pone' g).
Proof.
  intros Ht Hc He Hp Hfg d more H. destruct Ht;
    unfold parse_simple, parse_error, parse_int, parse_bulk, parse_array, parse_null,
      parse_bool, parse_double, parse_map, parse_set in *; try done;
    (apply pbind_panic in H as [H|([line c] & [= Hl] & H)]; [done|]);
    try done; cbv beta zeta iota in H;
    try (apply pbind_panic in H as [H|(count & [= Hn] & H)]; [done|]); try done;
    cbv beta zeta in H; repeat (case_hyp H; try done);
    rewrite (parse_line_more _ _ _ more Hl); unfold maybe; cbn [pbind];
    rewrite Hn; cbn [pbind];
    repeat match goal with Hb : _ = _ :> bool |- _ => rewrite Hb; clear Hb end; try done;
    apply parse_line_bound in Hl;
    (apply pbind_panic in H as [H|([] & _ & H)]; [|done]).
  - by erewrite parse_items_panics by (first [eassumption|lia]).
  - by erewrite parse_entries_panics by (first [eassumption|lia]).
  - by erewrite parse_items_panics by (first [eassumption|lia]).
Qed.

Lemma parse_fuel_panics rs f g : (f <= g)%nat -> panics (parse_fuel rs f) (parse_fuel rs g).
Proof.
  revert g. induction f as [|f IH]; intros [|g] Hg [|b t] more H; try done; try lia.
  destruct (parse_fuel_tagged rs b) as (p & Ht & Hp). rewrite Hp in H.
  change ((b :: t) ++ more) with (b :: t ++ more). rewrite Hp.
  refine (tagged_panics rs p _ _ _ _ Ht _ _ _ Hg (b :: t) more H);
    [apply parse_fuel_consumes|apply parse_fuel_extends; lia|apply IH; lia].
Qed.

Lemma parse_one_panics rs d more : parse_one rs d = Panic -> parse_one rs (d ++ more) = Panic.
Proof. apply parse_fuel_panics. rewrite length_app. lia. Qed.

Lemma parse_fuel_no_err rs f d e : parse_fuel rs f d <> Err e.
Proof.
  assert (forall {A B} (m : presult A) (h : A -> presult B), m <> Err e ->
    (forall a, h a <> Err e) -> pbind m h <> Err e) as Hb
    by (intros A B [[a|]| | |] h Hm Hh; simpl; [apply Hh|congruence..]).
  assert (forall p, (forall d', p d' <> Err e) ->
    (forall k c d' items n, parse_items p k c d' items n <> Err e)
    /\ (forall k c d' items n, parse_entries p k c d' items n <> Err e)) as Hl.
  { intros p Hp. split; induction k as [|k IH]; intros; simpl; case_goal; try done;
      repeat (apply Hb; [first [apply Hp|by unfold slice_from; case_goal]|intros]);
      repeat case_goal; repeat (apply Hb; [first [apply Hp|by unfold slice_from; case_goal]|intros]);
      repeat case_goal; try done; apply IH. }
  revert d. induction f as [|f IH]; intros [|b t]; try done.
  destruct (parse_fuel_tagged rs b) as (p & Ht & ->). destruct (Hl _ IH) as [Hi He].
  destruct Ht; unfold parse_simple, parse_error, parse_int, parse_bulk, parse_array, parse_null,
      parse_bool, parse_double, parse_map, parse_set; try done;
    repeat (apply Hb; [done|intros]); repeat case_goal; try done;
    repeat (apply Hb; [done|intros]); repeat case_goal; try done;
    (apply Hb; [apply Hi || apply He|by intros []]).
Qed.

(** ** Properties *)

(** C11: what the serializer writes, the parser reads back, consuming exactly
    the message and leaving any following bytes alone: the RESP round trip for
    every value whose text lines hold no CRLF and whose sizes fit in memory.
    Of a Double it is assumed that the text Rust prints for it is read as the
    same number ([parse_f64 (show_f64 f) = Some f]). *)
Theorem resp_roundtrip rs v rest :
  1 <= rs -> wf_value rs v = true ->
  parse_one rs (serialize v ++ rest) = Ok (Some (v, length (serialize v))).
Proof. intros. by apply parse_one_serialize. Qed.

Definition sample_reply : RespValue :=
  Array [Integer (-42); BulkString (Some (bs "two" ++ CRLF)); Null;
         RMap [(SimpleString (bs "k"), Double 0x400A000000000000)];
         RSet [Boolean true; RError (bs "ERR x"); BulkString None]].

Lemma resp_roundtrip_witness :
  parse_one 40 (serialize sample_reply ++ bs "*") = Ok (Some (sample_reply, length (serialize sample_reply))).
Proof. apply resp_roundtrip; [lia|vm_compute; reflexivity]. Defined.

(** C33: the parser is total and makes progress: it never runs out of steps,
    never returns an error, a completed message takes at least one byte and
    never more than there are, and bytes that arrive later change neither the
    value nor the length of a message already complete. *)
Theorem parser_total_and_stable rs d :
  parse_one rs d <> OutOfFuel
  /\ (forall e, parse_one rs d <> Err e)
  /\ forall v n, parse_one rs d = Ok (Some (v, n)) ->
       (0 < n <= length d)%nat
       /\ forall more, parse_one rs (d ++ more) = Ok (Some (v, n)).
Proof.
  split; [apply parse_fuel_enough; lia|]. split; [intros; apply parse_fuel_no_err|].
  intros v n H. split; [by eapply parse_fuel_consumes|]. intros. by apply parse_one_more.
Qed.

(** Every strict prefix of a well-formed message is recognised as
    incomplete: it is never read as another message, and never crashes. *)
Theorem strict_prefix_incomplete rs v pre suf :
  1 <= rs -> wf_value rs v = true -> serialize v = pre ++ suf -> suf <> [] ->
  parse_one rs pre = Ok None.
Proof.
  intros Hrs Hwf Hs Hsuf. pose proof (parse_one_serialize rs Hrs v [] Hwf) as H.
  rewrite app_nil_r, Hs in H.
  destruct (parse_one rs pre) as [[[v' n]|]|e| |] eqn:E; [|done|..].
  - pose proof (parse_one_more rs pre _ suf E) as E'. rewrite H in E'. simplify_eq.
    apply parse_fuel_consumes in E. rewrite length_app in E.
    destruct suf; simpl in *; [done|lia].
  - by apply parse_fuel_no_err in E.
  - by rewrite (parse_one_panics rs pre suf E) in H.
  - apply parse_fuel_enough in E; [done|lia].
Qed.

Lemma strict_prefix_incomplete_witness :
  parse_one 40 (take 10 (serialize sample_reply)) = Ok None.
Proof.
  apply (strict_prefix_incomplete 40 sample_reply _ (drop 10 (serialize sample_reply)));
    [lia|vm_compute; reflexivity|by rewrite take_drop|vm_compute; discriminate].
Defined.

(** A command on the wire: an array of bulk strings. *)
Definition encode_command (args : list bytes) : RespValue :=
  Array (map (fun a => BulkString (Some a)) args).

Lemma parse_cmd_encoded rs args rest :
  1 <= rs -> wf_value rs (encode_command args) = true ->
  parse_cmd rs (serialize (encode_command args) ++ rest)
  = Ok (Some (args, length (serialize (encode_command args)))).
Proof.
  intros Hrs Hwf. unfold parse_cmd. rewrite parse_one_serialize by done. cbn [pbind].
  unfold encode_command at 1. rewrite map_map. simpl. by rewrite map_id.
Qed.

(** A command sent as an array of bulk strings, arbitrary bytes included,
    is parsed to exactly its arguments. *)
Theorem command_roundtrip rs args rest :
  1 <= rs -> wf_value rs (encode_command args) = true ->
  parse_cmd rs (serialize (encode_command args) ++ rest)
  = Ok (Some (args, length (serialize (encode_command args)))).
Proof. apply parse_cmd_encoded. Qed.

Lemma command_roundtrip_witness :
  parse_cmd 40 (serialize (encode_command [bs "SET"; CRLF; []]) ++ bs "*1")
  = Ok (Some ([bs "SET"; CRLF; []], length (serialize (encode_command [bs "SET"; CRLF; []])))).
Proof. apply command_roundtrip; [lia|vm_compute; reflexivity]. Defined.

(** A header that announces more items than memory can hold makes the
    parser panic instead of rejecting the message, whatever follows it; a map
    or set header with a negative count does as well. *)
Theorem oversized_count_panics rs count rest :
  1 <= rs -> is_i64 count = true ->
  (capacity_overflow rs count = true ->
   parse_one rs ([Byte.x2a] ++ show_Z count ++ CRLF ++ rest) = Panic)
  /\ (count < 0 ->
      parse_one rs ([Byte.x25] ++ show_Z count ++ CRLF ++ rest) = Panic
      /\ parse_one rs ([Byte.x7e] ++ show_Z count ++ CRLF ++ rest) = Panic).
Proof.
  intros Hrs Hi. assert (forall tag, tag <> Byte.x0d ->
    parse_line ([tag] ++ show_Z count ++ CRLF ++ rest)
    = Some (show_Z count, length ([tag] ++ show_Z count ++ CRLF))) as Hl
    by (intros; by apply parse_number_header).
  split; [intros Hc|intros Hneg; split].
  - change (parse_array rs (parse_fuel rs (length ([Byte.x2a] ++ show_Z count ++ CRLF ++ rest)))
      (S (length ([Byte.x2a] ++ show_Z count ++ CRLF ++ rest)))
      ([Byte.x2a] ++ show_Z count ++ CRLF ++ rest) = Panic).
    unfold parse_array, maybe. rewrite Hl by done. cbn [pbind].
    rewrite parse_text_show_i64 by done. cbn [pbind].
    rewrite (proj2 (Z.ltb_ge _ _)); [by rewrite Hc|].
    unfold capacity_overflow, i64_max in Hc. zbool. nia.
  - change (parse_map rs (parse_fuel rs (length ([Byte.x25] ++ show_Z count ++ CRLF ++ rest)))
      (S (length ([Byte.x25] ++ show_Z count ++ CRLF ++ rest)))
      ([Byte.x25] ++ show_Z count ++ CRLF ++ rest) = Panic).
    unfold parse_map, maybe. rewrite Hl by done. cbn [pbind].
    rewrite parse_text_show_i64 by done. cbn [pbind].
    by rewrite (negative_capacity (2 * rs) count) by (done || lia).
  - change (parse_set rs (parse_fuel rs (length ([Byte.x7e] ++ show_Z count ++ CRLF ++ rest)))
      (S (length ([Byte.x7e] ++ show_Z count ++ CRLF ++ rest)))
      ([Byte.x7e] ++ show_Z count ++ CRLF ++ rest) = Panic).
    unfold parse_set, maybe. rewrite Hl by done. cbn [pbind].
    rewrite parse_text_show_i64 by done. cbn [pbind].
    by rewrite (negative_capacity rs count) by done.
Qed.

Lemma oversized_count_panics_witness :
  parse_one 40 ([Byte.x2a] ++ show_Z (2 ^ 60) ++ CRLF ++ []) = Panic
  /\ parse_one 40 ([Byte.x25] ++ show_Z (-1) ++ CRLF ++ []) = Panic.
Proof.
  split; [refine (proj1 (oversized_count_panics 40 (2 ^ 60) [] _ _) _)
         |refine (proj1 (proj2 (oversized_count_panics 40 (-1) [] _ _) _))];
    first [lia|vm_compute; reflexivity].
Defined.
