(* ===== verification/Context.v ===== *)
(** * Command context (src/cmd/mod.rs)

    What the command handlers share: the namespace-aware keys, the metadata
    lookup with its fallback to keys without namespace, argument counts and
    the text of error replies. Time and randomness are read once per command
    and are fields of the context. *)

From S2P Require Import Prelude Bytes Text Error Types Encoding Backend Storage Protocol.

Local Open Scope Z_scope.

Definition WRONGTYPE : bytes :=
  bs "WRONGTYPE Operation against a key holding the wrong kind of value".

Definition wrong_type_error : KvdbError := Command WRONGTYPE.

(** [namespace] is the configured key prefix; [clock] the milliseconds since
    the epoch and [random16] the random number a command reads; [checks]
    whether the build checks arithmetic overflow, and [resp_size] the size in
    bytes the compiler gives a [RespValue]. *)
Record CommandContext := mkContext {
  namespace : bytes;
  clock : Z;
  random16 : Z;
  checks : bool;
  resp_size : Z;
}.

(** [now_ms()] of the command modules, and [generate_version()]. *)
Definition now_ms (ctx : CommandContext) : Z := wrap_i64 (clock ctx).
Definition new_version (ctx : CommandContext) : Z :=
  generate_version (clock ctx) (random16 ctx).

Definition meta_key (ctx : CommandContext) (user_key : bytes) : bytes :=
  metadata_key user_key (namespace ctx).

Definition sub_key (ctx : CommandContext) (user_key : bytes) (version : Z) (sub : bytes)
  : bytes :=
  subkey user_key version sub (namespace ctx).

Definition parse_meta_key (ctx : CommandContext) (data : bytes) : option bytes :=
  parse_metadata_key data (namespace ctx).

Definition ctx_parse_subkey (ctx : CommandContext) (data : bytes)
  : option (bytes * Z * bytes) :=
  parse_subkey data (namespace ctx).

(** Whether the message starts with an upper-case word of two letters or more
    and a space. [c == ' '] is only true of the one-byte character. *)
Fixpoint has_code_from (upper_count : Z) (msg : bytes) : bool :=
  match msg with
  | [] => false
  | c :: rest =>
      if Text.between 65 (byte_to_Z c) 90 then has_code_from (upper_count + 1) rest
      else bool_decide (c = Byte.x20) && (2 <=? upper_count)
  end.

Definition has_redis_error_code (msg : bytes) : bool := has_code_from 0 msg.

Definition format_error (e : KvdbError) : bytes :=
  let msg := error_to_string e in
  if has_redis_error_code msg then msg else bs "ERR " ++ msg.

Definition OK : RespValue := SimpleString (bs "OK").
Definition nil_reply : RespValue := BulkString None.
Definition bulk (b : bytes) : RespValue := BulkString (Some b).

Section Context.
Context {DB : Type} {RDB : RocksDB DB}.

Definition expect_arg_count (name : string) (args : list bytes) (expected : nat) : M DB unit :=
  if negb (Nat.eqb (length args) expected) then throw (WrongArgCount (bs name)) else mret tt.

Definition expect_min_arg_count (name : string) (args : list bytes) (min : nat) : M DB unit :=
  if (length args <? min)%nat then throw (WrongArgCount (bs name)) else mret tt.

Definition get_meta (ctx : CommandContext) (user_key : bytes) : M DB (option bytes) :=
  v ← Storage.get CF_METADATA (meta_key ctx user_key);
  match v with
  | Some v => mret (Some v)
  | None =>
      if bool_decide (namespace ctx = []) then mret None
      else Storage.get CF_METADATA (metadata_key user_key [])
  end.

(** [std::str::from_utf8(data)?.parse::<i64>()?], with [NotInteger] for both
    failures. *)
Definition arg_i64 (data : bytes) : M DB Z :=
  match parse_text parse_i64 data with
  | Some z => mret z
  | None => throw NotInteger
  end.

(** ** Running the storage operations *)

(** Every column family the engine uses is open. *)
Definition wf_db (d : DB) : Prop := forall cf, cf ∈ ALL_CFS -> db_has_cf d cf = true.

Lemma wf_write d b : wf_db d -> wf_db (db_write d b).
Proof. intros H cf Hcf. rewrite db_write_has_cf. by apply H. Qed.

Lemma cf_metadata_in : CF_METADATA ∈ ALL_CFS.
Proof. by apply (bool_decide_unpack _). Qed.
Lemma cf_subkey_in : CF_SUBKEY ∈ ALL_CFS.
Proof. by apply (bool_decide_unpack _). Qed.
Lemma cf_zset_score_in : CF_ZSET_SCORE ∈ ALL_CFS.
Proof. by apply (bool_decide_unpack _). Qed.

Lemma cf_handle_run d cf : wf_db d -> cf ∈ ALL_CFS -> cf_handle cf d = (Ok tt, d).
Proof. intros H Hcf. unfold cf_handle. by rewrite (H cf Hcf). Qed.

Lemma get_run d cf k :
  wf_db d -> cf ∈ ALL_CFS -> Storage.get cf k d = (Ok (db_get d cf k), d).
Proof. intros. unfold Storage.get. by erewrite bind_Ok by (by apply cf_handle_run). Qed.

Lemma put_run d cf k v :
  wf_db d -> cf ∈ ALL_CFS -> put cf k v d = (Ok tt, db_write d [PutCf cf k v]).
Proof. intros. unfold put. by erewrite bind_Ok by (by apply cf_handle_run). Qed.

Lemma delete_run d cf k :
  wf_db d -> cf ∈ ALL_CFS -> Storage.delete cf k d = (Ok tt, db_write d [DeleteCf cf k]).
Proof. intros. unfold Storage.delete. by erewrite bind_Ok by (by apply cf_handle_run). Qed.

Lemma batch_put_run d b cf k v :
  wf_db d -> cf ∈ ALL_CFS -> batch_put b cf k v d = (Ok (b ++ [PutCf cf k v]), d).
Proof. intros. unfold batch_put. by erewrite bind_Ok by (by apply cf_handle_run). Qed.

Lemma batch_delete_run d b cf k :
  wf_db d -> cf ∈ ALL_CFS -> batch_delete b cf k d = (Ok (b ++ [DeleteCf cf k]), d).
Proof. intros. unfold batch_delete. by erewrite bind_Ok by (by apply cf_handle_run). Qed.

(** The metadata value a command finds under a user key. *)
Definition meta_at (d : DB) (ctx : CommandContext) (k : bytes) : option bytes :=
  match db_get d CF_METADATA (meta_key ctx k) with
  | Some v => Some v
  | None => if bool_decide (namespace ctx = []) then None
            else db_get d CF_METADATA (metadata_key k [])
  end.

Lemma get_meta_run d ctx k : wf_db d -> get_meta ctx k d = (Ok (meta_at d ctx k), d).
Proof.
  intros H. unfold get_meta, meta_at.
  erewrite bind_Ok by (apply get_run; [done|apply cf_metadata_in]).
  destruct (db_get d CF_METADATA (meta_key ctx k)); [done|].
  case_bool_decide; [done|]. apply get_run; [done|apply cf_metadata_in].
Qed.

Lemma expect_arg_count_ok name args n d :
  length args = n -> expect_arg_count name args n d = (Ok tt, d).
Proof. intros <-. unfold expect_arg_count. by rewrite Nat.eqb_refl. Qed.

Lemma expect_arg_count_err name args n d :
  length args <> n -> expect_arg_count name args n d = (Err (WrongArgCount (bs name)), d).
Proof. intros H%Nat.eqb_neq. unfold expect_arg_count. by rewrite H. Qed.

Lemma expect_min_arg_count_ok name args n d :
  (n <= length args)%nat -> expect_min_arg_count name args n d = (Ok tt, d).
Proof.
  intros H. unfold expect_min_arg_count.
  by rewrite (proj2 (Nat.ltb_ge _ _)).
Qed.

Lemma index_ok {A} (l : list A) i a (d : DB) : l !! i = Some a -> index l i d = (Ok a, d).
Proof. intros H. unfold index. by rewrite H. Qed.

(** Readers. *)
Lemma ro_cf_handle cf : readonly (cf_handle cf : M DB unit).
Proof. intros d. unfold cf_handle. by case_goal. Qed.

Lemma ro_get cf k : readonly (Storage.get cf k : M DB _).
Proof. apply readonly_bind; [apply ro_cf_handle|done]. Qed.

Lemma ro_batch_put b cf k v : readonly (batch_put b cf k v : M DB _).
Proof. apply readonly_bind; [apply ro_cf_handle|done]. Qed.

Lemma ro_batch_delete b cf k : readonly (batch_delete b cf k : M DB _).
Proof. apply readonly_bind; [apply ro_cf_handle|done]. Qed.

Lemma ro_prefix_scan_page cf p s l : readonly (prefix_scan_page cf p s l : M DB _).
Proof. apply readonly_bind; [apply ro_cf_handle|intros _]. case_goal; done. Qed.

Lemma ro_prefix_scan_page_reverse cf p s l :
  readonly (prefix_scan_page_reverse cf p s l : M DB _).
Proof. apply readonly_bind; [apply ro_cf_handle|intros _]. case_goal; done. Qed.

Lemma ro_page_walk {A} cf p l body (a : A) : readonly (page_walk cf p l body a : M DB A).
Proof.
  apply readonly_with_state. intros d. generalize (S (length (db_seek d cf p))).
  intros n. generalize (@nil byte). revert a. induction n as [|n IH]; intros a s; [done|]. simpl.
  apply readonly_bind; [apply ro_prefix_scan_page|]. intros [[|i items] next]; [done|].
  apply readonly_bind; [done|]. intros [a'|a']; [|done]. destruct next; [apply IH|done].
Qed.

Lemma ro_get_meta ctx k : readonly (get_meta ctx k : M DB _).
Proof.
  apply readonly_bind; [apply ro_get|]. intros [v|]; [done|].
  case_goal; [done|apply ro_get].
Qed.

Lemma ro_expect_arg_count name args n : readonly (expect_arg_count name args n : M DB _).
Proof. unfold expect_arg_count. by case_goal. Qed.

Lemma ro_expect_min_arg_count name args n : readonly (expect_min_arg_count name args n : M DB _).
Proof. unfold expect_min_arg_count. by case_goal. Qed.

Lemma ro_arg_i64 a : readonly (arg_i64 a : M DB _).
Proof. unfold arg_i64. by case_goal. Qed.

(** A batch that is extended. *)
Lemma db_get_extend d b1 b2 cf key :
  db_get (db_write d (b1 ++ b2)) cf key = batch_effect cf key b2 (db_get (db_write d b1) cf key).
Proof. by rewrite !db_get_write, batch_effect_app. Qed.

Lemma db_get_snoc d b o cf key :
  db_get (db_write d (b ++ [o])) cf key = op_effect cf key o (db_get (db_write d b) cf key).
Proof. apply db_get_extend. Qed.

(** Writing one metadata key. *)
Lemma meta_at_put_same d ctx k v :
  meta_at (db_write d [PutCf CF_METADATA (meta_key ctx k) v]) ctx k = Some v.
Proof. unfold meta_at. by rewrite db_get_write, batch_effect_put. Qed.

Lemma op_effect_ne cf k o c : op_key o <> (cf, k) -> op_effect cf k o c = c.
Proof. destruct o; simpl; intros H; by rewrite decide_False. Qed.

Lemma db_get_put_ne d cf k v cf' k' :
  (cf, k) <> (cf', k') -> db_get (db_write d [PutCf cf k v]) cf' k' = db_get d cf' k'.
Proof. intros H. rewrite db_get_write. simpl. by rewrite decide_False. Qed.

End Context.

#[export] Hint Resolve ro_cf_handle ro_get ro_batch_put ro_batch_delete ro_prefix_scan_page
  ro_prefix_scan_page_reverse ro_page_walk ro_get_meta ro_expect_arg_count
  ro_expect_min_arg_count ro_arg_i64 : ro.
#[export] Hint Resolve wf_write cf_metadata_in cf_subkey_in cf_zset_score_in : kv.
#[export] Hint Resolve cf_handle_run get_run put_run delete_run batch_put_run batch_delete_run
  get_meta_run expect_arg_count_ok expect_min_arg_count_ok index_ok : kv.
