(* ===== verification/Keyspace.v ===== *)
(** * The keyspace

    Facts the command modules share: which database keys belong to a user key,
    what a write to one user key leaves alone, and the subkeys of one
    incarnation of a composite key as an ordered collection. *)

From S2P Require Import Prelude Bytes Text Error Types Encoding Backend Storage Protocol Context.

Local Open Scope Z_scope.

(** [v[0] & FLAGS_TYPE_MASK] for a non-empty value. *)
Definition value_type_code (v : bytes) : Z :=
  match v with b :: _ => type_code b | [] => 0 end.

(** The checks the composite types share when they read a metadata value: not
    empty, not a string, decodable, of the expected type, not expired. *)
Definition check_typed_meta (t : DataType) (invalid : string) (ctx : CommandContext) (v : bytes)
  : outcome (option Metadata) :=
  match v with
  | [] => Err (Protocol (bs "empty metadata value"))
  | b :: _ =>
      if type_code b =? code DString then Err wrong_type_error
      else
        meta ← ok_or (decode_metadata v) (Protocol (bs invalid));
        if negb (bool_decide (data_type meta = Some t)) then Err wrong_type_error
        else if is_expired meta (now_ms ctx) then Ok None
        else Ok (Some meta)
  end.

(** [args.chunks_exact(2)]. *)
Fixpoint pairs (args : list bytes) : list (bytes * bytes) :=
  match args with
  | a :: b :: rest => (a, b) :: pairs rest
  | _ => []
  end.

(** The arguments that assign the pairs of [l]. *)
Definition flatten (l : list (bytes * bytes)) : list bytes := concat (map (fun p => [p.1; p.2]) l).

Lemma pairs_flatten l : pairs (flatten l) = l.
Proof. induction l as [|[a b] l IH]; [done|]. cbn. f_equal. exact IH. Qed.

Lemma length_flatten l : length (flatten l) = (2 * length l)%nat.
Proof.
  induction l as [|[a b] l IH]; [done|].
  change (flatten ((a, b) :: l)) with (a :: b :: flatten l). cbn [length]. lia.
Qed.

(** The elements from position [start] to [stop], negative positions counting
    from the end. *)
Definition list_range {A} (l : list A) (start stop : Z) : list A :=
  let n := Z.of_nat (length l) in
  let s := Z.max 0 (if start <? 0 then start + n else start) in
  let e := Z.min (n - 1) (if stop <? 0 then stop + n else stop) in
  take (Z.to_nat (e + 1 - s)) (drop (Z.to_nat s) l).

Section Keyspace.
Context {DB : Type} {RDB : RocksDB DB}.
Implicit Types (d : DB) (ctx : CommandContext) (k v : bytes).

(** Keys short enough for their 4-byte length to be read unambiguously. *)
Definition short ctx k : Prop := blen k < 2 ^ 24 /\ blen (namespace ctx) < 2 ^ 8.

Lemma meta_key_ne ctx k1 k2 :
  short ctx k1 -> short ctx k2 -> k1 <> k2 -> meta_key ctx k1 <> meta_key ctx k2.
Proof.
  intros [H1 _] [H2 _] Hne E. apply Hne.
  apply (metadata_key_app_inj (namespace ctx) k1 k2 [] []); [lia..|].
  by rewrite !app_nil_r.
Qed.

(** Keys of a namespace are not keys without namespace. *)
Lemma meta_key_legacy_ne ctx k1 k2 :
  short ctx k1 -> short ctx k2 -> namespace ctx <> [] ->
  meta_key ctx k1 <> metadata_key k2 [].
Proof.
  intros [H1 Hn] [H2 _] Hne E. apply Hne.
  apply (namespace_app_inj (namespace ctx) [] k1 k2 [] []); [done|done|lia..|].
  by rewrite !app_nil_r.
Qed.

(** A batch that touches no metadata key of [k] keeps its metadata. *)
Lemma meta_at_frame d ctx k b :
  Forall (fun o => op_key o <> (CF_METADATA, meta_key ctx k)) b ->
  (namespace ctx <> [] -> Forall (fun o => op_key o <> (CF_METADATA, metadata_key k [])) b) ->
  meta_at (db_write d b) ctx k = meta_at d ctx k.
Proof.
  intros H1 H2. unfold meta_at. rewrite !db_get_write, batch_effect_frame by done.
  destruct (db_get d CF_METADATA (meta_key ctx k)); [done|]. case_bool_decide; [done|].
  by rewrite batch_effect_frame by auto.
Qed.

(** Operations on the metadata of other keys do not touch [k]. *)
Lemma meta_ops_frame d ctx k (b : WriteBatch) :
  short ctx k ->
  Forall (fun o => (op_key o).1 <> CF_METADATA
                   \/ exists k', op_key o = (CF_METADATA, meta_key ctx k') /\ short ctx k' /\ k' <> k) b ->
  meta_at (db_write d b) ctx k = meta_at d ctx k.
Proof.
  intros Hk Hb. apply meta_at_frame; [|intros Hn]; apply (Forall_impl _ _ _ Hb);
    intros o [Ho|(k' & Ho & Hk' & Hne)] E; rewrite E in Ho; simplify_eq/=.
  - by apply (meta_key_ne ctx k' k).
  - by apply (meta_key_legacy_ne ctx k' k).
Qed.

Lemma meta_at_put_other d ctx k k' v :
  short ctx k -> short ctx k' -> k <> k' ->
  meta_at (db_write d [PutCf CF_METADATA (meta_key ctx k) v]) ctx k' = meta_at d ctx k'.
Proof. intros Hk Hk' Hne. apply meta_ops_frame; [done|]. constructor; [|done]. naive_solver. Qed.

(** The metadata of another namespace's view of the same store. *)
Lemma meta_at_namespace d ctx ctx' k :
  namespace ctx' = namespace ctx -> meta_at d ctx' k = meta_at d ctx k.
Proof. intros E. unfold meta_at, meta_key. by rewrite E. Qed.

Lemma meta_at_empty_ns d ctx k :
  namespace ctx = [] -> meta_at d ctx k = db_get d CF_METADATA (meta_key ctx k).
Proof.
  intros H. unfold meta_at. rewrite bool_decide_true by done.
  by destruct (db_get d CF_METADATA (meta_key ctx k)).
Qed.

(** Running a command once per element, with the replies in order. *)
Fixpoint run_each {A} (cmd : A -> M DB RespValue) (l : list A) : M DB (list RespValue) :=
  match l with
  | [] => mret []
  | x :: rest => r ← cmd x; rs ← run_each cmd rest; mret (r :: rs)
  end.

(** A step that writes the metadata of [k] only. *)
Definition only_meta d d' ctx k : Prop :=
  wf_db d' /\ (forall k', short ctx k -> short ctx k' -> k' <> k ->
    meta_at d' ctx k' = meta_at d ctx k')
  /\ forall cf key, (cf, key) <> (CF_METADATA, meta_key ctx k) ->
     db_get d' cf key = db_get d cf key.

Lemma only_meta_refl d ctx k : wf_db d -> only_meta d d ctx k.
Proof. by repeat split. Qed.

Lemma only_meta_trans d1 d2 d3 ctx k :
  only_meta d1 d2 ctx k -> only_meta d2 d3 ctx k -> only_meta d1 d3 ctx k.
Proof.
  intros (_ & H1 & G1) (? & H2 & G2). split; [done|]. split.
  - intros k' ???. by rewrite H2, H1.
  - intros cf key Hne. by rewrite G2, G1.
Qed.

Lemma only_meta_put d ctx k v :
  wf_db d -> only_meta d (db_write d [PutCf CF_METADATA (meta_key ctx k) v]) ctx k.
Proof.
  intros H. split; [by apply wf_write|]. split.
  - intros k' Hk Hk' Hne. by apply meta_at_put_other.
  - intros cf key Hne. by rewrite db_get_put_ne by done.
Qed.

Lemma data_type_set_expire e m : data_type (set_expire e m) = data_type m.
Proof. done. Qed.

Lemma metadata_ranges_set_expire e m :
  is_i64 e = true -> metadata_ranges m = true -> metadata_ranges (set_expire e m) = true.
Proof.
  unfold metadata_ranges. cbn [set_expire md_expire md_version md_size md_head md_tail].
  rewrite !andb_true_iff. tauto.
Qed.

(** Re-encoding metadata with another expiry keeps every other field. *)
Lemma decode_with_expiry_metadata e v m :
  is_i64 e = true -> decode_metadata v = Some m ->
  decode_metadata (encode_metadata (set_expire e m)) = Some (set_expire e m).
Proof.
  intros He Hm. destruct (decode_metadata_type _ _ Hm) as (f & r & t & _ & _ & Ht & _).
  rewrite (decode_encode_metadata _ t); [|done|].
  - f_equal. pose proof (decode_metadata_canonical _ _ Hm) as Hc.
    unfold canonical_ends in *. rewrite data_type_set_expire. case_bool_decide; [done|].
    destruct m. unfold set_ends, set_expire in *. simpl in *. by simplify_eq.
  - apply metadata_ranges_set_expire; [done|]. by eapply decode_metadata_ranges.
Qed.

Lemma value_type_code_metadata m : value_type_code (encode_metadata m) = type_code (md_flags m).
Proof. by destruct (encode_metadata_flags m) as [r ->]. Qed.


(** ** Subkeys of one incarnation *)

Lemma subkey_nonempty ctx k (v : Z) : sub_key ctx k v [] <> [].
Proof. unfold sub_key, subkey, metadata_key. by case_bool_decide. Qed.


Lemma sub_key_app ctx k (w : Z) f : sub_key ctx k w f = sub_key ctx k w [] ++ f.
Proof. apply subkey_app. Qed.

Lemma sub_key_inj ctx k (w : Z) f g : sub_key ctx k w f = sub_key ctx k w g -> f = g.
Proof. apply subkey_inj. Qed.

(** Subkeys of different keys or versions differ. *)
Lemma sub_key_ne ctx k1 k2 (w1 w2 : Z) f g :
  short ctx k1 -> short ctx k2 -> is_u64 w1 = true -> is_u64 w2 = true ->
  k1 <> k2 \/ w1 <> w2 -> sub_key ctx k1 w1 f <> sub_key ctx k2 w2 g.
Proof.
  intros [H1 _] [H2 _] Hw1 Hw2 Hne E. rewrite !(sub_key_app _ _ _ f), !(sub_key_app _ _ _ g) in E.
  apply subkey_app_inj in E as (? & ? & _); [naive_solver|lia|lia|done|done].
Qed.

Lemma parse_sub_key ctx k (w : Z) f :
  short ctx k -> is_u64 w = true ->
  ctx_parse_subkey ctx (sub_key ctx k w f) = Some (k, w, f).
Proof. intros [Hk Hn] Hw. apply parse_subkey_correct; [lia|done|done]. Qed.

(** The subkeys of [k] at version [w], with their values, in key order. *)
Definition sub_items d ctx cf k (w : Z) : list (bytes * bytes) :=
  map (fun x => (drop (length (sub_key ctx k w [])) x.1, x.2))
    (entries d cf (sub_key ctx k w [])).

Lemma sub_items_entries d ctx cf k (w : Z) :
  entries d cf (sub_key ctx k w [])
  = map (fun x => (sub_key ctx k w x.1, x.2)) (sub_items d ctx cf k w).
Proof.
  unfold sub_items. rewrite map_map. rewrite <- (map_id (entries _ _ _)) at 1.
  apply map_ext_in. intros [key v] Hin%list_elem_of_In. simpl.
  apply entries_elem in Hin as [_ [s ->]%starts_with_spec].
  rewrite drop_app_length. by rewrite (sub_key_app _ _ _ s).
Qed.

Lemma sub_items_elem d ctx cf k (w : Z) f v :
  (f, v) ∈ sub_items d ctx cf k w <-> db_get d cf (sub_key ctx k w f) = Some v.
Proof.
  assert ((f, v) ∈ sub_items d ctx cf k w <->
          (sub_key ctx k w f, v) ∈ entries d cf (sub_key ctx k w [])) as ->.
  { rewrite sub_items_entries, list_elem_of_fmap. split.
    - intros H. by exists (f, v).
    - intros ([f' v'] & [= E%sub_key_inj ->] & H). by subst. }
  rewrite entries_elem. split; [by intros []|]. intros H. split; [done|].
  rewrite (sub_key_app _ _ _ f). apply starts_with_app.
Qed.

Lemma sub_items_sorted d ctx cf k (w : Z) : StronglySorted key_lt (sub_items d ctx cf k w).
Proof.
  pose proof (entries_sorted d cf (sub_key ctx k w [])) as HS.
  rewrite sub_items_entries in HS. remember (sub_items d ctx cf k w) as l eqn:El. clear El.
  induction l as [|x l IH]; [constructor|]. apply StronglySorted_inv in HS as [HS Hx].
  constructor; [by apply IH|]. rewrite Forall_forall in *. intros y Hy.
  specialize (Hx (sub_key ctx k w y.1, y.2)). unfold key_lt, bytes_lt in *.
  rewrite <- (bytes_cmp_app (sub_key ctx k w [])), <- !sub_key_app. apply Hx.
  apply list_elem_of_fmap. eauto.
Qed.

Lemma sub_items_ext d1 d2 ctx cf k (w : Z) :
  (forall f, db_get d1 cf (sub_key ctx k w f) = db_get d2 cf (sub_key ctx k w f)) ->
  sub_items d1 ctx cf k w = sub_items d2 ctx cf k w.
Proof.
  intros H. apply sorted_ext; [apply sub_items_sorted..|].
  intros [f v]. by rewrite !sub_items_elem, H.
Qed.

Lemma sorted_NoDup_keys (l : list kv) : StronglySorted key_lt l -> NoDup l.*1.
Proof.
  induction 1 as [|x l _ IH Hl]; simpl; constructor; [|done].
  rewrite Forall_forall in Hl. intros (y & Ey & Hy)%list_elem_of_fmap.
  apply (bytes_lt_irrefl x.1). rewrite Ey at 2. by apply Hl.
Qed.

(** The subkey and value of a stored item. *)
Definition strip ctx k (w : Z) (x : kv) : kv := (drop (length (sub_key ctx k w [])) x.1, x.2).

Lemma strip_sub_key ctx k (w : Z) (x : kv) :
  starts_with (sub_key ctx k w []) x.1 = true ->
  sub_key ctx k w (strip ctx k w x).1 = x.1.
Proof.
  destruct x as [key v]. cbn [fst]. intros [s ->]%starts_with_spec. unfold strip. cbn [fst].
  rewrite drop_app_length. apply sub_key_app.
Qed.

Lemma sub_items_strip d ctx cf k (w : Z) :
  sub_items d ctx cf k w = map (strip ctx k w) (entries d cf (sub_key ctx k w [])).
Proof. done. Qed.

Lemma remaining_prefix d cf prefix s (x : kv) :
  x ∈ remaining d cf prefix s -> starts_with prefix x.1 = true.
Proof.
  destruct x as [key v]. unfold remaining, entries_after. case_bool_decide.
  - by intros [_ ?]%entries_elem.
  - by intros [_ [_ ?]%entries_elem]%list_elem_of_filter.
Qed.

(** A batch of operations on subkeys of [k] at version [w]. *)
Definition sub_ops ctx cf k (w : Z) (b : WriteBatch) : Prop :=
  Forall (fun o => exists f, op_key o = (cf, sub_key ctx k w f)) b.

(** Other incarnations and other families are not touched by them. *)
Lemma sub_ops_frame d ctx cf k (w : Z) b cf' key :
  sub_ops ctx cf k w b ->
  cf' <> cf \/ starts_with (sub_key ctx k w []) key = false ->
  db_get (db_write d b) cf' key = db_get d cf' key.
Proof.
  intros Hb Hne. rewrite db_get_write, batch_effect_frame; [done|].
  apply (Forall_impl _ _ _ Hb). intros o [f Ho] E. rewrite Ho in E. injection E as E1 E2.
  destruct Hne as [?|Hp]; [by subst|].
  subst key. rewrite (sub_key_app _ _ _ f), starts_with_app in Hp. done.
Qed.

(** ** Composite keys *)

(** The key holds metadata of type [t]. *)
Definition composite_at d ctx k (t : DataType) (meta : Metadata) : Prop :=
  exists v, meta_at d ctx k = Some v /\ decode_metadata v = Some meta
            /\ data_type meta = Some t.

(** Metadata of type [t] that survives being stored. *)
Definition good_meta (t : DataType) (meta : Metadata) : Prop :=
  data_type meta = Some t /\ metadata_ranges meta = true /\ canonical_ends meta = meta.

Lemma good_meta_decode t meta :
  good_meta t meta -> decode_metadata (encode_metadata meta) = Some meta.
Proof. intros (Ht & Hr & Hc). by rewrite (decode_encode_metadata _ t), Hc. Qed.

Lemma composite_good d ctx k t meta : composite_at d ctx k t meta -> good_meta t meta.
Proof.
  intros (v & _ & Hd & Ht). split; [done|].
  split; [by eapply decode_metadata_ranges|by eapply decode_metadata_canonical].
Qed.

Lemma good_meta_version t meta : good_meta t meta -> is_u64 (md_version meta) = true.
Proof. intros (_ & Hr & _). unfold metadata_ranges in Hr. by zbool. Qed.

Lemma good_meta_size t meta : good_meta t meta -> is_u64 (md_size meta) = true.
Proof. intros (_ & Hr & _). unfold metadata_ranges in Hr. by zbool. Qed.

Lemma new_version_u64 ctx : is_u64 (new_version ctx) = true.
Proof. unfold new_version. apply generate_version_range. Qed.

Lemma good_meta_new ctx t : good_meta t (metadata_new t (new_version ctx)).
Proof.
  split; [apply data_type_new|]. split.
  - unfold metadata_ranges. cbn [metadata_new md_expire md_version md_size md_head md_tail].
    by rewrite new_version_u64.
  - unfold canonical_ends. by case_bool_decide.
Qed.

Lemma good_meta_set_size t meta n :
  good_meta t meta -> is_u64 n = true -> good_meta t (set_size n meta).
Proof.
  intros (Ht & Hr & Hc) Hn. split; [done|]. split.
  - unfold metadata_ranges in *.
    cbn [set_size md_expire md_version md_size md_head md_tail].
    rewrite !andb_true_iff in *. tauto.
  - unfold canonical_ends in *. change (data_type (set_size n meta)) with (data_type meta).
    case_bool_decide; [done|]. destruct meta. unfold set_ends, set_size in *. simpl in *.
    by simplify_eq.
Qed.

Lemma decode_nonempty v meta t :
  decode_metadata v = Some meta -> data_type meta = Some t ->
  exists b r, v = b :: r /\ type_code b = code t.
Proof.
  intros Hd Ht. destruct (decode_metadata_type _ _ Hd) as (f & r & t' & -> & <- & Ht' & Hc).
  rewrite Ht in Ht'. simplify_eq. eauto.
Qed.

(** Writing metadata stores a composite key. *)
Lemma composite_written d ctx k t meta v :
  db_get d CF_METADATA (meta_key ctx k) = Some v -> v = encode_metadata meta ->
  good_meta t meta -> composite_at d ctx k t meta.
Proof.
  intros Hv -> Hg. exists (encode_metadata meta). split; [unfold meta_at; by rewrite Hv|].
  split; [by eapply good_meta_decode|apply Hg].
Qed.

(** No live value of type [t]: no metadata, or metadata that has expired. *)
Definition absent d ctx k (t : DataType) : Prop :=
  meta_at d ctx k = None
  \/ exists meta, composite_at d ctx k t meta /\ is_expired meta (now_ms ctx) = true.

(** A stored value carries the expiry [e]: a string with its header, or the
    metadata of a composite type. *)
Definition value_expires (v : bytes) (e : Z) : Prop :=
  (exists p, is_i64 e = true /\ v = encode_string (build_flags DString) e p)
  \/ exists m t, decode_metadata v = Some m /\ data_type m = Some t /\ t <> DString /\ md_expire m = e.

Lemma value_expires_cases v e :
  value_expires v e ->
  v <> []
  /\ ((value_type_code v =? code DString) = true
       /\ (exists f p, decode_string v = Some (f, e, p))
      \/ (value_type_code v =? code DString) = false
         /\ exists m, decode_metadata v = Some m /\ md_expire m = e).
Proof.
  intros [(p & He & ->)|(m & t & Hd & Ht & Hne & <-)].
  - split; [done|]. left. split; [done|]. eexists _, _. by rewrite decode_encode_string.
  - destruct (decode_nonempty v m t Hd Ht) as (b & r & -> & Hb). split; [done|]. right.
    cbn [value_type_code]. rewrite Hb. split; [by destruct t|]. eauto.
Qed.

(** The expiry [E] has not passed. *)
Definition unexpired (E : Z) ctx : Prop := (0 <? E) && (E <=? now_ms ctx) = false.

Lemma unexpired_meta meta E ctx :
  md_expire meta = E -> unexpired E ctx -> is_expired meta (now_ms ctx) = false.
Proof. by intros <-. Qed.

Lemma check_typed_ok ctx t invalid v meta :
  decode_metadata v = Some meta -> data_type meta = Some t -> t <> DString ->
  check_typed_meta t invalid ctx v
  = Ok (if is_expired meta (now_ms ctx) then None else Some meta).
Proof.
  intros Hd Ht Hne. destruct (decode_nonempty v meta t Hd Ht) as (b & r & -> & Hb).
  unfold check_typed_meta. rewrite Hb. replace (code t =? code DString) with false by by destruct t.
  rewrite Hd. cbn [mbind outcome_bind ok_or]. rewrite bool_decide_true by done.
  change (negb true) with false. cbv iota. by case_goal.
Qed.

(** What the read of a typed metadata yields. *)
Lemma load_typed d ctx k t invalid :
  wf_db d -> t <> DString ->
  let load := (m ← get_meta ctx k;
               match m with
               | None => mret None
               | Some v => lift (check_typed_meta t invalid ctx v)
               end) : M DB (option Metadata) in
  (absent d ctx k t -> load d = (Ok None, d))
  /\ forall meta E, composite_at d ctx k t meta -> md_expire meta = E -> unexpired E ctx ->
     load d = (Ok (Some meta), d).
Proof.
  intros H Hne load. unfold load. rewrite (bind_Ok _ _ _ _ _ (get_meta_run d ctx k H)). split.
  - intros [Hn|(meta & (v & Hv & Hd & Ht) & Hx)]; [by rewrite Hn|].
    rewrite Hv. unfold lift. by rewrite (check_typed_ok ctx t invalid v meta), Hx by done.
  - intros meta E (v & Hv & Hd & Ht) He Hx. rewrite Hv. unfold lift.
    rewrite (check_typed_ok ctx t invalid v meta) by done. by rewrite (unexpired_meta meta E).
Qed.

(** A step that changes nothing but the metadata and the subkeys of [k]. *)
Definition only_key d d' ctx k : Prop :=
  wf_db d' /\ forall k', short ctx k -> short ctx k' -> k' <> k ->
    meta_at d' ctx k' = meta_at d ctx k'
    /\ forall w f cf, is_u64 w = true -> cf <> CF_METADATA ->
       db_get d' cf (sub_key ctx k' w f) = db_get d cf (sub_key ctx k' w f).

Lemma only_key_refl d ctx k : wf_db d -> only_key d d ctx k.
Proof. by repeat split. Qed.

Lemma only_key_trans d1 d2 d3 ctx k :
  only_key d1 d2 ctx k -> only_key d2 d3 ctx k -> only_key d1 d3 ctx k.
Proof.
  intros [_ H1] [? H2]. split; [done|]. intros k' Hk Hk' Hne.
  destruct (H1 k' Hk Hk' Hne) as [M1 S1], (H2 k' Hk Hk' Hne) as [M2 S2].
  split; [by rewrite M2, M1|]. intros. by rewrite S2, S1.
Qed.

Definition key_op ctx k (w : Z) (o : write_op) : Prop :=
  op_key o = (CF_METADATA, meta_key ctx k)
  \/ exists cf f, cf <> CF_METADATA /\ op_key o = (cf, sub_key ctx k w f).

Lemma only_key_write d ctx k (w : Z) b :
  wf_db d -> is_u64 w = true -> Forall (key_op ctx k w) b ->
  only_key d (db_write d b) ctx k.
Proof.
  intros H Hw Hb. split; [by apply wf_write|]. intros k' Hk Hk' Hne. split.
  - apply meta_ops_frame; [done|]. apply (Forall_impl _ _ _ Hb).
    intros o [Ho|(cf & f & Hcf & Ho)]; rewrite Ho; [right|by left]. eauto.
  - intros w' f cf Hw' Hcf. rewrite db_get_write, batch_effect_frame; [done|].
    apply (Forall_impl _ _ _ Hb). intros o [Ho|(cf' & f' & Hcf' & Ho)] E; rewrite Ho in E.
    + injection E as E _. done.
    + injection E as _ E. revert E. apply sub_key_ne; auto.
Qed.

(** The same for a step that also keeps the subkeys of [k] at other versions. *)
Definition only_version d d' ctx k (w : Z) : Prop :=
  only_key d d' ctx k /\ forall w' f cf, short ctx k -> is_u64 w' = true -> w' <> w -> cf <> CF_METADATA ->
    db_get d' cf (sub_key ctx k w' f) = db_get d cf (sub_key ctx k w' f).

Lemma only_version_refl d ctx k (w : Z) : wf_db d -> only_version d d ctx k w.
Proof. intros H. split; [by apply only_key_refl|done]. Qed.

Lemma only_version_write d ctx k (w : Z) b :
  wf_db d -> is_u64 w = true -> Forall (key_op ctx k w) b ->
  only_version d (db_write d b) ctx k w.
Proof.
  intros H Hw Hb. split; [by eapply only_key_write|]. intros w' f cf Hk Hw' Hne Hcf.
  rewrite db_get_write, batch_effect_frame; [done|]. apply (Forall_impl _ _ _ Hb).
  intros o [Ho|(cf' & f' & Hcf' & Ho)] E; rewrite Ho in E; injection E as E1 E2; [done|].
  revert E2. apply sub_key_ne; auto.
Qed.

(** The effect of a batch of subkey operations on the subkeys. *)
Lemma batch_effect_other_cf cf cf' k k' v c :
  cf' <> cf -> batch_effect cf k [PutCf cf' k' v] c = c.
Proof. intros Hne. simpl. rewrite decide_False; [done|]. by intros [=]. Qed.

(** One operation of the same kind per subkey. *)
Lemma uniform_effect ctx cf k (w : Z) (op : bytes -> write_op) r (l : list bytes) x c :
  (forall y, op_key (op y) = (cf, sub_key ctx k w y)) ->
  (forall y c, op_effect cf (sub_key ctx k w y) (op y) c = r) ->
  batch_effect cf (sub_key ctx k w x) (map op l) c = if decide (x ∈ l) then r else c.
Proof.
  intros Hk Hr. revert c. induction l as [|y l IH]; intros c; [done|].
  cbn [map]. change (batch_effect _ _ (?o :: ?b) c) with
    (batch_effect cf (sub_key ctx k w x) b (op_effect cf (sub_key ctx k w x) o c)).
  rewrite IH. destruct (decide (x = y)) as [->|Hne].
  - rewrite Hr, (decide_True (P:=y ∈ y :: l)) by by left. by case_decide.
  - rewrite op_effect_ne by (rewrite Hk; intros [= ?%sub_key_inj]; congruence).
    repeat case_decide; set_solver.
Qed.

(** Another command on the same keys, at a later time. *)
Definition later ctx ctx' : Prop :=
  namespace ctx' = namespace ctx /\ now_ms ctx <= now_ms ctx'.

Lemma absent_later d ctx ctx' k t : later ctx ctx' -> absent d ctx k t -> absent d ctx' k t.
Proof.
  intros [Hns Ht] [Hn|(meta & (v & Hv & Hd) & Hx)].
  - left. by rewrite (meta_at_namespace _ ctx ctx').
  - right. exists meta. split; [exists v; by rewrite (meta_at_namespace _ ctx ctx')|].
    unfold is_expired in *. rewrite andb_true_iff, Z.ltb_lt, Z.leb_le in *. lia.
Qed.

Lemma composite_namespace d ctx ctx' k t meta :
  namespace ctx' = namespace ctx -> composite_at d ctx k t meta -> composite_at d ctx' k t meta.
Proof. intros Hns (v & Hv & Hd). exists v. by rewrite (meta_at_namespace _ ctx ctx'). Qed.

End Keyspace.

(** ** Concrete contexts and databases *)

Definition ctx0 : CommandContext := mkContext [] 1000 7 true 40.

Definition db0 : MemDB := mkMemDB ALL_CFS ∅.

Lemma mem_wf m : wf_db (mkMemDB ALL_CFS m).
Proof. intros cf Hcf. by apply bool_decide_eq_true. Qed.

Lemma short0 k : (length k < 100)%nat -> short ctx0 k.
Proof. intros Hk. unfold short, blen. cbn [namespace ctx0 length]. lia. Qed.
