(* ===== verification/Paging.v ===== *)
(** * Loops over pages

    Several commands walk through the subkeys of a key page by page, with an
    early exit inside a page. Such a loop runs its body over the list of all
    items ahead of it. *)

From S2P Require Import Prelude Bytes Error Types Encoding Backend Storage Protocol Context Keyspace.

Local Open Scope Z_scope.

(** [for x in items { body }] with early exits. *)
Fixpoint for_each {A X} (body : A -> X -> outcome (ctrl A)) (a : A) (items : list X)
  : outcome (ctrl A) :=
  match items with
  | [] => Ok (Continue a)
  | x :: rest =>
      r ← body a x;
      match r with
      | Break a => Ok (Break a)
      | Continue a => for_each body a rest
      end
  end.

Section PageLoop.
Context {DB : Type}.

(** [loop { page; if empty break; for .. { .. } match next { .. } }]. *)
Fixpoint page_loop_from {A X} (fuel : nat) (page : bytes -> M DB (list X * option bytes))
    (body : A -> X -> outcome (ctrl A)) (current_key : bytes) (a : A) : M DB A :=
  match fuel with
  | O => out_of_fuel
  | S fuel' =>
      '(items, next_key) ← page current_key;
      match items with
      | [] => mret a
      | _ =>
          r ← lift (for_each body a items);
          match r with
          | Break a => mret a
          | Continue a =>
              match next_key with
              | Some k => page_loop_from fuel' page body k a
              | None => mret a
              end
          end
      end
  end.

End PageLoop.

Lemma for_each_app {A X} (body : A -> X -> outcome (ctrl A)) a l1 l2 :
  for_each body a (l1 ++ l2)
  = match for_each body a l1 with
    | Ok (Continue a') => for_each body a' l2
    | other => other
    end.
Proof.
  revert a. induction l1 as [|x l1 IH]; intros a; simpl; [done|].
  destruct (body a x) as [[a'|a']|e| |]; simpl; auto.
Qed.

(** A loop whose pages are the segments of a list runs its body over the
    list. [I s l] says that [l] is left when the scan continues at [s]. *)
Lemma page_loop_from_ok {DB A X} (d : DB) (page : bytes -> M DB (list X * option bytes))
    (body : A -> X -> outcome (ctrl A)) (n : nat) (I : bytes -> list X -> Prop) :
  (0 < n)%nat ->
  (forall s l, I s l -> exists nxt, page s d = (Ok (take n l, nxt), d)
     /\ if (n <? length l)%nat then exists s', nxt = Some s' /\ I s' (drop n l) else nxt = None) ->
  forall fuel s l a, I s l -> (length l < fuel)%nat ->
  page_loop_from fuel page body s a d = (ctrl_value <$> for_each body a l, d).
Proof.
  intros Hn Hp. induction fuel as [|fuel IH]; intros s l a Hs Hf; [lia|]. cbn [page_loop_from].
  destruct (Hp s l Hs) as (nxt & Hrun & Hnxt). rewrite (bind_Ok _ _ _ _ _ Hrun). cbv beta iota.
  destruct (take n l) as [|x t] eqn:Et.
  { destruct l as [|y l]; [done|]. destruct n; [lia|done]. }
  rewrite <- Et. replace (for_each body a l) with (for_each body a (take n l ++ drop n l))
    by by rewrite take_drop.
  rewrite for_each_app. destruct (for_each body a (take n l)) as [[a'|a']|e| |]; try done.
  unfold mbind at 1, M_bind, lift.
  destruct (n <? length l)%nat eqn:En; [apply Nat.ltb_lt in En|apply Nat.ltb_ge in En].
  - destruct Hnxt as (s' & -> & Hs'). rewrite (IH s' (drop n l)); [done|done|].
    rewrite length_drop. lia.
  - subst nxt. by rewrite drop_ge by lia.
Qed.

(** A loop that skips some items and stops at an item after which nothing is
    in range runs over the items in range. *)
Lemma range_loop {A X} (body : A -> X -> outcome (ctrl A)) (take_item : A -> X -> outcome (ctrl A))
    (inr : X -> bool) l :
  (forall a x, x ∈ l -> inr x = true -> body a x = take_item a x) ->
  (forall a x, x ∈ l -> inr x = false -> body a x = Ok (Continue a) \/ body a x = Ok (Break a)) ->
  (forall a l1 x l2, l = l1 ++ x :: l2 -> inr x = false -> body a x = Ok (Break a) ->
     forall y, y ∈ l2 -> inr y = false) ->
  forall a, ctrl_value <$> for_each body a l
            = ctrl_value <$> for_each take_item a (filter (fun x => inr x = true) l).
Proof.
  induction l as [|x l IH]; intros Hin Hout Hstop a; [done|]. cbn [for_each].
  assert (forall a, ctrl_value <$> for_each body a l
    = ctrl_value <$> for_each take_item a (filter (fun x => inr x = true) l)) as IH'.
  { apply IH; [intros; apply Hin; [by right|done]|intros; apply Hout; [by right|done]|].
    intros b l1 y l2 -> Hy Hb. by eapply (Hstop b (x :: l1) y l2). }
  rewrite filter_cons. destruct (inr x) eqn:Ex.
  - rewrite decide_True by done. cbn [for_each]. rewrite Hin by (done || by left).
    destruct (take_item a x) as [[a'|a']|e| |]; cbn [mbind outcome_bind]; done.
  - rewrite decide_False by done.
    destruct (Hout a x ltac:(by left) Ex) as [E|E]; rewrite E; cbn [mbind outcome_bind]; [done|].
    rewrite filter_none; [done|]. intros y Hy.
    rewrite (Hstop a [] x l eq_refl Ex E y Hy). done.
Qed.

(** ** Forward scans *)

Section Forward.
Context {DB : Type} {RDB : RocksDB DB}.
Implicit Types (d : DB) (prefix s : bytes).

(** What is left when a scan continues at [s]. *)
Definition left_forward d cf prefix s (l : list kv) : Prop :=
  (s = [] \/ starts_with prefix s = true) /\ l = remaining d cf prefix s.

Lemma forward_page d cf prefix limit s l :
  wf_db d -> cf ∈ ALL_CFS -> prefix <> [] -> capacity_overflow KV_SIZE limit = false ->
  (0 < page_size limit)%nat -> left_forward d cf prefix s l ->
  exists nxt, prefix_scan_page cf prefix s limit d = (Ok (take (page_size limit) l, nxt), d)
    /\ if (page_size limit <? length l)%nat
       then exists q, nxt = Some q /\ left_forward d cf prefix q (drop (page_size limit) l)
       else nxt = None.
Proof.
  intros Hwf Hcf Hne Hcap Hpos [Hs ->]. rewrite prefix_scan_page_ok by (done || by apply Hwf).
  cbv zeta. set (n := page_size limit) in *. eexists. split; [done|].
  destruct (n <? length _)%nat eqn:En; [|done]. apply Nat.ltb_lt in En.
  destruct (take_last_elem n (remaining d cf prefix s)) as (y & El & Hy);
    [done|by intros E; rewrite E in En; simpl in En; lia|].
  apply remaining_prefix in Hy. rewrite El. exists y.1. split; [done|]. split; [by right|].
  symmetry. apply (remaining_next _ _ _ s n y El).
  intros E. rewrite E in Hy. by destruct prefix.
Qed.

Lemma remaining_start d cf prefix : remaining d cf prefix [] = entries d cf prefix.
Proof. unfold remaining. by rewrite bool_decide_true. Qed.

End Forward.
