(* ===== verification/StringCmd.v ===== *)
(** * String and generic key commands (src/cmd/string.rs)

    GET, SET, MGET, MSET, DEL, EXISTS, INCR, DECR, APPEND, EXPIRE, PEXPIRE,
    TTL, PTTL and PERSIST, with the operations on a key's live string value
    they are specified by. *)

From S2P Require Import Prelude Bytes Text Error Types Encoding Backend Storage Protocol Context.
From S2P Require Import Keyspace.

Local Open Scope Z_scope.

Definition STRING_FLAGS : byte := build_flags DString.
Definition DEL_BATCH_SIZE : Z := 1024.

Definition is_expired_value (ctx : CommandContext) (v : bytes) : bool :=
  match v with
  | [] => false
  | _ =>
      let live e := (0 <? e) && (e <=? now_ms ctx) in
      if value_type_code v =? code DString then
        match decode_string v with Some (_, exp, _) => live exp | None => false end
      else
        match decode_metadata v with Some m => live (md_expire m) | None => false end
  end.

Record SetOptions := mkSetOptions { so_expire_ms : Z; so_nx : bool; so_xx : bool }.

Section StringCommands.
Context {DB : Type} {RDB : RocksDB DB}.
Variable ctx : CommandContext.

Definition read_string (user_key : bytes) : M DB (option bytes) :=
  m ← get_meta ctx user_key;
  match m with
  | Some v =>
      '(flags, expire, payload) ←
        lift (ok_or (decode_string v) (Protocol (bs "invalid string encoding")));
      if negb (type_code flags =? code DString) then throw wrong_type_error
      else if (0 <? expire) && (expire <=? now_ms ctx) then mret None
      else mret (Some payload)
  | None => mret None
  end.

Definition write_string (user_key payload : bytes) : M DB unit :=
  put CF_METADATA (meta_key ctx user_key) (encode_string STRING_FLAGS 0 payload).

Definition get (args : list bytes) : M DB RespValue :=
  _ ← expect_arg_count "GET" args 1;
  k ← index args 0;
  v ← read_string k;
  match v with Some v => mret (bulk v) | None => mret nil_reply end.

Definition syntax_error : KvdbError := Command (bs "syntax error").
Definition invalid_expire : KvdbError := Command (bs "invalid expire time").

(** The option loop of SET, on the arguments still to read. *)
Fixpoint set_options (o : SetOptions) (opts : list bytes) : M DB SetOptions :=
  match opts with
  | [] => mret o
  | opt :: rest =>
      let opt := to_ascii_uppercase opt in
      if bool_decide (opt = bs "EX") then
        match rest with
        | [] => throw syntax_error
        | a :: rest' =>
            secs ← arg_i64 a;
            if secs <=? 0 then throw invalid_expire
            else ms ← arith_i64 (checks ctx) (secs * 1000);
                 e ← arith_i64 (checks ctx) (now_ms ctx + ms);
                 set_options (mkSetOptions e (so_nx o) (so_xx o)) rest'
        end
      else if bool_decide (opt = bs "PX") then
        match rest with
        | [] => throw syntax_error
        | a :: rest' =>
            ms ← arg_i64 a;
            if ms <=? 0 then throw invalid_expire
            else e ← arith_i64 (checks ctx) (now_ms ctx + ms);
                 set_options (mkSetOptions e (so_nx o) (so_xx o)) rest'
        end
      else if bool_decide (opt = bs "NX") then
        set_options (mkSetOptions (so_expire_ms o) true (so_xx o)) rest
      else if bool_decide (opt = bs "XX") then
        set_options (mkSetOptions (so_expire_ms o) (so_nx o) true) rest
      else throw syntax_error
  end.

Definition key_exists (user_key : bytes) : M DB bool :=
  m ← get_meta ctx user_key;
  match m with
  | Some v => mret (negb (is_expired_value ctx v))
  | None => mret false
  end.

Definition set (args : list bytes) : M DB RespValue :=
  _ ← expect_min_arg_count "SET" args 2;
  user_key ← index args 0;
  value ← index args 1;
  o ← set_options (mkSetOptions 0 false false) (drop 2 args);
  if so_nx o && so_xx o then throw syntax_error
  else
    ex ← key_exists user_key;
    if so_nx o && ex then mret nil_reply
    else if so_xx o && negb ex then mret nil_reply
    else
      _ ← put CF_METADATA (meta_key ctx user_key)
            (encode_string STRING_FLAGS (so_expire_ms o) value);
      mret OK.

Definition read_expire (user_key : bytes) : M DB (option (option Z)) :=
  m ← get_meta ctx user_key;
  match m with
  | None => mret None
  | Some [] => mret None
  | Some v =>
      expire ←
        (if value_type_code v =? code DString then
           '(_, exp, _) ←
             lift (ok_or (decode_string v) (Protocol (bs "invalid string encoding")));
           mret exp
         else
           meta ←
             lift (ok_or (decode_metadata v) (Protocol (bs "invalid metadata encoding")));
           mret (md_expire meta));
      mret (Some (if 0 <? expire then Some expire else None))
  end.

Definition set_expire_ms (user_key : bytes) (expire_ms : Z) : M DB bool :=
  m ← get_meta ctx user_key;
  match m with
  | None => mret false
  | Some [] => mret false
  | Some v =>
      encoded ←
        (if value_type_code v =? code DString then
           '(flags, _, payload) ←
             lift (ok_or (decode_string v) (Protocol (bs "invalid string encoding")));
           mret (encode_string flags expire_ms payload)
         else
           meta ←
             lift (ok_or (decode_metadata v) (Protocol (bs "invalid metadata encoding")));
           mret (encode_metadata (set_expire expire_ms meta)));
      _ ← put CF_METADATA (meta_key ctx user_key) encoded;
      mret true
  end.

Definition clear_expire (user_key : bytes) : M DB bool := set_expire_ms user_key 0.

Definition expire (args : list bytes) : M DB RespValue :=
  _ ← expect_arg_count "EXPIRE" args 2;
  a ← index args 1;
  secs ← arg_i64 a;
  ms ← arith_i64 (checks ctx) (secs * 1000);
  expire_ms ← arith_i64 (checks ctx) (now_ms ctx + ms);
  k ← index args 0;
  ok ← set_expire_ms k expire_ms;
  mret (Integer (if (ok : bool) then 1 else 0)).

Definition pexpire (args : list bytes) : M DB RespValue :=
  _ ← expect_arg_count "PEXPIRE" args 2;
  a ← index args 1;
  ms ← arg_i64 a;
  expire_ms ← arith_i64 (checks ctx) (now_ms ctx + ms);
  k ← index args 0;
  ok ← set_expire_ms k expire_ms;
  mret (Integer (if (ok : bool) then 1 else 0)).

Definition ttl (args : list bytes) : M DB RespValue :=
  _ ← expect_arg_count "TTL" args 1;
  k ← index args 0;
  e ← read_expire k;
  match e with
  | None => mret (Integer (-2))
  | Some None => mret (Integer (-1))
  | Some (Some expire_ms) =>
      if expire_ms <=? now_ms ctx then mret (Integer (-2))
      else left ← arith_i64 (checks ctx) (expire_ms - now_ms ctx);
           up ← arith_i64 (checks ctx) (left + 999);
           mret (Integer (Z.quot up 1000))
  end.

Definition pttl (args : list bytes) : M DB RespValue :=
  _ ← expect_arg_count "PTTL" args 1;
  k ← index args 0;
  e ← read_expire k;
  match e with
  | None => mret (Integer (-2))
  | Some None => mret (Integer (-1))
  | Some (Some expire_ms) =>
      if expire_ms <=? now_ms ctx then mret (Integer (-2))
      else left ← arith_i64 (checks ctx) (expire_ms - now_ms ctx);
           mret (Integer left)
  end.

Definition persist (args : list bytes) : M DB RespValue :=
  _ ← expect_arg_count "PERSIST" args 1;
  k ← index args 0;
  e ← read_expire k;
  match e with
  | None => mret (Integer 0)
  | Some None => mret (Integer 0)
  | Some (Some _) => _ ← clear_expire k; mret (Integer 1)
  end.

Definition mget (args : list bytes) : M DB RespValue :=
  _ ← expect_min_arg_count "MGET" args 1;
  result ← mfold (fun result key =>
    value ← read_string key; mret (result ++ [BulkString value])) [] args;
  mret (Array result).

Definition mset (args : list bytes) : M DB RespValue :=
  if negb (Nat.eqb (length args mod 2) 0) then throw (WrongArgCount (bs "MSET"))
  else
    batch ← mfold (fun batch pair =>
      batch_put batch CF_METADATA (meta_key ctx pair.1)
        (encode_string STRING_FLAGS 0 pair.2)) [] (pairs args);
    _ ← write batch;
    mret OK.

Definition purge_subkeys (user_key : bytes) (version : Z) (is_zset : bool) : M DB unit :=
  let prefix := sub_key ctx user_key version [] in
  _ ← delete_prefix CF_SUBKEY prefix DEL_BATCH_SIZE;
  if is_zset then delete_prefix CF_ZSET_SCORE prefix DEL_BATCH_SIZE else mret tt.

(** The body of DEL for one key: the new count. *)
Definition del_one (count : Z) (key : bytes) : M DB Z :=
  m ← get_meta ctx key;
  match m with
  | None => mret count
  | Some meta_val =>
      _ ← match meta_val with
          | [] => mret tt
          | _ =>
              if negb (value_type_code meta_val =? code DString) then
                match decode_metadata meta_val with
                | Some meta =>
                    purge_subkeys key (md_version meta)
                      (bool_decide (data_type meta = Some DZSet))
                | None => mret tt
                end
              else mret tt
          end;
      _ ← Storage.delete CF_METADATA (meta_key ctx key);
      arith_i64 (checks ctx) (count + 1)
  end.

Definition del (args : list bytes) : M DB RespValue :=
  _ ← expect_min_arg_count "DEL" args 1;
  count ← mfold del_one 0 args;
  mret (Integer count).

Definition exists_ (args : list bytes) : M DB RespValue :=
  _ ← expect_min_arg_count "EXISTS" args 1;
  count ← mfold (fun count key =>
    m ← get_meta ctx key;
    match m with
    | Some _ => arith_i64 (checks ctx) (count + 1)
    | None => mret count
    end) 0 args;
  mret (Integer count).

(** INCR and DECR, by the amount added; the key lock is held throughout. *)
Definition incr_by (name : string) (delta : Z) (args : list bytes) : M DB RespValue :=
  _ ← expect_arg_count name args 1;
  k ← index args 0;
  v ← read_string k;
  current ← match v with Some v => arg_i64 v | None => mret 0 end;
  if is_i64 (current + delta) then
    _ ← write_string k (show_Z (current + delta));
    mret (Integer (current + delta))
  else throw OutOfRange.

Definition incr : list bytes -> M DB RespValue := incr_by "INCR" 1.
Definition decr : list bytes -> M DB RespValue := incr_by "DECR" (-1).

Definition append (args : list bytes) : M DB RespValue :=
  _ ← expect_arg_count "APPEND" args 2;
  k ← index args 0;
  c ← read_string k;
  a ← index args 1;
  let current := (match c with Some v => v | None => [] end) ++ a in
  let len := wrap_i64 (blen current) in
  _ ← write_string k current;
  mret (Integer len).

End StringCommands.

(** A session on an empty database: SET, INCR, APPEND, GET. *)
Example string_session :
  let d0 := mkMemDB ALL_CFS ∅ in
  let run := (
    _ ← set ctx0 [bs "k"; bs "41"];
    a ← incr ctx0 [bs "k"];
    _ ← append ctx0 [bs "k"; bs "!"];
    b ← get ctx0 [bs "k"];
    _ ← set ctx0 [bs "t"; bs "v"; bs "px"; bs "250"];
    c ← pttl ctx0 [bs "t"];
    e ← del ctx0 [bs "k"; bs "k"];
    f ← get ctx0 [bs "k"];
    mret [a; b; c; e; f]) in
  fst (run d0)
  = Ok [Integer 42; bulk (bs "42!"); Integer 250; Integer 1; nil_reply].
Proof. vm_compute. reflexivity. Qed.

(** ** Facts *)

Section StringFacts.
Context {DB : Type} {RDB : RocksDB DB}.
Implicit Types (d : DB) (ctx : CommandContext) (k v : bytes).

(** Whether an expiry time has passed. *)
Definition passed ctx (e : Z) : bool := (0 <? e) && (e <=? now_ms ctx).

(** What a stored metadata value means to a string command. *)
Definition string_value ctx (o : option bytes) : outcome (option bytes) :=
  match o with
  | None => Ok None
  | Some v =>
      match decode_string v with
      | None => Err (Protocol (bs "invalid string encoding"))
      | Some (flags, expire, payload) =>
          if negb (type_code flags =? code DString) then Err wrong_type_error
          else if passed ctx expire then Ok None else Ok (Some payload)
      end
  end.

Lemma read_string_run d ctx k :
  wf_db d -> read_string ctx k d = (string_value ctx (meta_at d ctx k), d).
Proof.
  intros H. unfold read_string. erewrite bind_Ok by eauto with kv.
  destruct (meta_at d ctx k) as [v|]; [|done]. simpl.
  destruct (decode_string v) as [[[f e] p]|]; [|done].
  unfold mbind, M_bind, lift. simpl. unfold passed. by repeat case_match.
Qed.

Lemma string_value_encode ctx e p :
  is_i64 e = true ->
  string_value ctx (Some (encode_string STRING_FLAGS e p))
  = Ok (if passed ctx e then None else Some p).
Proof. intros H. simpl. rewrite decode_encode_string by done. simpl. by case_goal. Qed.

Lemma get_reply d ctx k o :
  wf_db d -> string_value ctx (meta_at d ctx k) = Ok o ->
  get ctx [k] d = (Ok (BulkString o), d).
Proof.
  intros H Ho. unfold get. mrun. mrun.
  erewrite bind_Ok by (rewrite read_string_run, Ho; done). by destruct o.
Qed.

(** The key holds a live value of any type. *)
Definition live d ctx k : bool :=
  match meta_at d ctx k with Some v => negb (is_expired_value ctx v) | None => false end.

Lemma key_exists_run d ctx k : wf_db d -> key_exists ctx k d = (Ok (live d ctx k), d).
Proof.
  intros H. unfold key_exists, live. mrun. by destruct (meta_at d ctx k).
Qed.

Lemma ro_set_options ctx o opts : readonly (set_options ctx o opts : M DB _).
Proof.
  revert o. induction opts as [opts IH] using (induction_ltof1 _ (@length bytes)).
  unfold ltof in IH. intros o. destruct opts as [|opt rest]; [done|].
  cbn [set_options]. cbv zeta. ro; apply IH; cbn [length]; lia.
Qed.

(** *** SET *)

(** The condition of NX or XX is not met. *)
Definition set_refused d ctx k (o : SetOptions) : bool :=
  (so_nx o && live d ctx k) || (so_xx o && negb (live d ctx k)).

Lemma set_run d ctx k v opts o :
  wf_db d -> set_options ctx (mkSetOptions 0 false false) opts d = (Ok o, d) ->
  set ctx (k :: v :: opts) d
  = if so_nx o && so_xx o then (Err syntax_error, d)
    else if set_refused d ctx k o then (Ok nil_reply, d)
    else (Ok OK, db_write d [PutCf CF_METADATA (meta_key ctx k)
                               (encode_string STRING_FLAGS (so_expire_ms o) v)]).
Proof.
  intros H Ho. unfold set, set_refused.
  erewrite bind_Ok by (apply expect_min_arg_count_ok; simpl; lia). do 3 mrun.
  destruct (so_nx o && so_xx o) eqn:E; [done|].
  erewrite bind_Ok by (by apply key_exists_run).
  destruct (so_nx o), (so_xx o), (live d ctx k); try done; simpl;
    by erewrite bind_Ok by eauto with kv.
Qed.

(** *** What the options of SET mean *)

Inductive set_opt := SetEX (n : Z) | SetPX (n : Z) | SetNX | SetXX.

#[global] Instance set_opt_eq_dec : EqDecision set_opt.
Proof. solve_decision. Defined.

(** How a list of options is spelled: names in any case, times in decimal. *)
Inductive spells : list set_opt -> list bytes -> Prop :=
  | spells_nil : spells [] []
  | spells_ex w n l ws :
      to_ascii_uppercase w = bs "EX" -> spells l ws -> spells (SetEX n :: l) (w :: show_Z n :: ws)
  | spells_px w n l ws :
      to_ascii_uppercase w = bs "PX" -> spells l ws -> spells (SetPX n :: l) (w :: show_Z n :: ws)
  | spells_nx w l ws : to_ascii_uppercase w = bs "NX" -> spells l ws -> spells (SetNX :: l) (w :: ws)
  | spells_xx w l ws : to_ascii_uppercase w = bs "XX" -> spells l ws -> spells (SetXX :: l) (w :: ws).

(** The times are positive and the deadlines fit. *)
Definition times_ok ctx (l : list set_opt) : Prop :=
  Forall (fun o => match o with
    | SetEX n => 0 < n /\ is_i64 (n * 1000) = true /\ is_i64 (now_ms ctx + n * 1000) = true
    | SetPX n => 0 < n /\ is_i64 n = true /\ is_i64 (now_ms ctx + n) = true
    | _ => True
    end) l.

(** The deadline asked for; the last option wins, [e] when there is none. *)
Fixpoint deadline ctx (e : Z) (l : list set_opt) : Z :=
  match l with
  | [] => e
  | SetEX n :: l => deadline ctx (now_ms ctx + n * 1000) l
  | SetPX n :: l => deadline ctx (now_ms ctx + n) l
  | _ :: l => deadline ctx e l
  end.

(** Whether the key exists: it has an entry whose expiry has not passed. *)
Inductive exists_at d ctx k : bool -> Prop :=
  | at_nothing : meta_at d ctx k = None -> exists_at d ctx k false
  | at_entry v e : meta_at d ctx k = Some v -> value_expires v e -> exists_at d ctx k (negb (passed ctx e)).

Lemma value_expires_expired ctx v e : value_expires v e -> is_expired_value ctx v = passed ctx e.
Proof.
  intros (Hv & Hc)%value_expires_cases. unfold is_expired_value. destruct v; [done|].
  by destruct Hc as [[-> (f & p & ->)]|[-> (m & -> & <-)]].
Qed.

Lemma exists_at_live d ctx k b : exists_at d ctx k b -> live d ctx k = b.
Proof.
  unfold live. intros [Hn|v e Hv He]; [by rewrite Hn|]. by rewrite Hv, (value_expires_expired ctx v e).
Qed.

Lemma deadline_i64 ctx e l : is_i64 e = true -> times_ok ctx l -> is_i64 (deadline ctx e l) = true.
Proof.
  intros He H. revert e He. induction H as [|o l Ho _ IH]; intros e He; [done|].
  destruct o; cbn [deadline]; apply IH; tauto.
Qed.

Definition read_options ctx (o : SetOptions) (l : list set_opt) : SetOptions :=
  mkSetOptions (deadline ctx (so_expire_ms o) l)
    (so_nx o || bool_decide (SetNX ∈ l)) (so_xx o || bool_decide (SetXX ∈ l)).

Lemma arg_i64_show n d : is_i64 n = true -> arg_i64 (show_Z n) d = (Ok n, d).
Proof. intros H. unfold arg_i64. by rewrite parse_text_show_i64. Qed.

(** The times an option asks for are read from their decimal text. *)
Lemma times_ok_i64 ctx o l n :
  times_ok ctx (o :: l) -> o = SetEX n \/ o = SetPX n -> 0 < n /\ is_i64 n = true.
Proof.
  intros H%Forall_cons_1%proj1 [-> | ->]; [|tauto]. split; [tauto|].
  unfold is_i64, i64_min, i64_max in *. zbool. lia.
Qed.

Lemma set_options_spelled ctx l ws rest o d :
  spells l ws -> times_ok ctx l ->
  set_options ctx o (ws ++ rest) d = set_options ctx (read_options ctx o l) rest d.
Proof.
  intros Hs. revert o. induction Hs as [|w n l ws Hw Hs IH|w n l ws Hw Hs IH|w l ws Hw Hs IH|w l ws Hw Hs IH];
    intros o Ht; [|pose proof (Forall_cons_1 _ _ _ Ht) as [Hn Ht']; cbn [app set_options]; cbv zeta; rewrite Hw..].
  - destruct o as [e nx xx]. unfold read_options. cbn. by rewrite !orb_false_r.
  - destruct (times_ok_i64 ctx _ l n Ht (or_introl eq_refl)) as [Hp Hi]. rewrite bool_decide_true by done.
    rewrite (bind_Ok _ _ _ _ _ (arg_i64_show n d Hi)). replace (n <=? 0) with false by lia.
    erewrite bind_Ok by (apply arith_i64_ok; tauto). erewrite bind_Ok by (apply arith_i64_ok; tauto).
    rewrite IH by done. unfold read_options. cbn [so_expire_ms so_nx so_xx deadline].
    by rewrite (bool_decide_ext (SetNX ∈ SetEX n :: l) (SetNX ∈ l)),
      (bool_decide_ext (SetXX ∈ SetEX n :: l) (SetXX ∈ l)) by set_solver.
  - destruct (times_ok_i64 ctx _ l n Ht (or_intror eq_refl)) as [Hp Hi]. rewrite bool_decide_false by done.
    rewrite bool_decide_true by done.
    rewrite (bind_Ok _ _ _ _ _ (arg_i64_show n d Hi)). replace (n <=? 0) with false by lia.
    erewrite bind_Ok by (apply arith_i64_ok; tauto).
    rewrite IH by done. unfold read_options. cbn [so_expire_ms so_nx so_xx deadline].
    by rewrite (bool_decide_ext (SetNX ∈ SetPX n :: l) (SetNX ∈ l)),
      (bool_decide_ext (SetXX ∈ SetPX n :: l) (SetXX ∈ l)) by set_solver.
  - do 2 rewrite bool_decide_false by done. rewrite bool_decide_true by done. rewrite IH by done.
    unfold read_options. cbn [so_expire_ms so_nx so_xx deadline].
    rewrite (bool_decide_true (SetNX ∈ SetNX :: l)) by set_solver. rewrite orb_true_r.
    by rewrite (bool_decide_ext (SetXX ∈ SetNX :: l) (SetXX ∈ l)) by set_solver.
  - do 3 rewrite bool_decide_false by done. rewrite bool_decide_true by done. rewrite IH by done.
    unfold read_options. cbn [so_expire_ms so_nx so_xx deadline].
    rewrite (bool_decide_true (SetXX ∈ SetXX :: l)) by set_solver. rewrite orb_true_r.
    by rewrite (bool_decide_ext (SetNX ∈ SetXX :: l) (SetNX ∈ l)) by set_solver.
Qed.

Lemma set_options_refused ctx l ws d w rest :
  spells l ws -> times_ok ctx l ->
  let fails opts e := set_options ctx (mkSetOptions 0 false false) opts d = (Err e, d) in
  (Forall (fun name => to_ascii_uppercase w <> bs name) ["EX"; "PX"; "NX"; "XX"] ->
   fails (ws ++ w :: rest) syntax_error)
  /\ (to_ascii_uppercase w = bs "EX" \/ to_ascii_uppercase w = bs "PX" ->
      fails (ws ++ [w]) syntax_error
      /\ (forall n, is_i64 n = true -> n <= 0 -> fails (ws ++ w :: show_Z n :: rest) invalid_expire)
      /\ forall t, parse_text parse_i64 t = None -> fails (ws ++ w :: t :: rest) NotInteger).
Proof.
  intros Hs Ht. cbn zeta. split.
  - intros Hw. rewrite !Forall_cons in Hw. destruct Hw as (? & ? & ? & ? & _).
    rewrite (set_options_spelled ctx l) by done. cbn [set_options]. cbv zeta.
    by repeat rewrite bool_decide_false by done.
  - intros Hw. split_and!; [|intros n Hi Hn|intros t Hp]; rewrite (set_options_spelled ctx l) by done;
      cbn [set_options]; cbv zeta; destruct Hw as [-> | ->];
      rewrite ?(bool_decide_false (bs "PX" = bs "EX")), bool_decide_true by done; try done.
    1,2: rewrite (bind_Ok _ _ _ _ _ (arg_i64_show n d Hi)); by replace (n <=? 0) with true by lia.
    all: apply bind_Err; unfold arg_i64; by rewrite Hp.
Qed.

Lemma set_refuses d ctx k v opts e :
  set_options ctx (mkSetOptions 0 false false) opts d = (Err e, d) ->
  set ctx (k :: v :: opts) d = (Err e, d).
Proof.
  intros Ho. unfold set. erewrite bind_Ok by (apply expect_min_arg_count_ok; simpl; lia). do 2 mrun.
  by apply bind_Err.
Qed.

(** *** Read-modify-write commands *)

Lemma write_string_run d ctx k p :
  wf_db d ->
  write_string ctx k p d
  = (Ok tt, db_write d [PutCf CF_METADATA (meta_key ctx k) (encode_string STRING_FLAGS 0 p)]).
Proof. intros. apply put_run; auto with kv. Qed.

Lemma string_value_written d ctx k p :
  string_value ctx (meta_at (db_write d
    [PutCf CF_METADATA (meta_key ctx k) (encode_string STRING_FLAGS 0 p)]) ctx k)
  = Ok (Some p).
Proof. by rewrite meta_at_put_same, string_value_encode. Qed.

(** The number INCR and DECR find under a key. *)
Definition counter_at d ctx k : outcome Z :=
  match string_value ctx (meta_at d ctx k) with
  | Ok None => Ok 0
  | Ok (Some p) => ok_or (parse_text parse_i64 p) NotInteger
  | Err e => Err e
  | Panic => Panic
  | OutOfFuel => OutOfFuel
  end.

Lemma incr_by_run d ctx name delta k :
  wf_db d ->
  incr_by ctx name delta [k] d
  = match counter_at d ctx k with
    | Ok z =>
        if is_i64 (z + delta) then
          (Ok (Integer (z + delta)),
           db_write d [PutCf CF_METADATA (meta_key ctx k)
                         (encode_string STRING_FLAGS 0 (show_Z (z + delta)))])
        else (Err OutOfRange, d)
    | Err e => (Err e, d)
    | Panic => (Panic, d)
    | OutOfFuel => (OutOfFuel, d)
    end.
Proof.
  intros H. unfold incr_by, counter_at. do 2 mrun.
  pose proof (read_string_run d ctx k H) as Hr.
  destruct (string_value ctx (meta_at d ctx k)) as [o|e| |];
    [|by erewrite bind_Err|by erewrite bind_Panic|unfold mbind, M_bind; by rewrite Hr].
  erewrite bind_Ok by exact Hr.
  destruct o as [p|].
  - unfold arg_i64. destruct (parse_text parse_i64 p) as [z|]; [|done].
    simpl ok_or. erewrite bind_Ok by reflexivity. cbv beta. case_goal; [|done].
    by erewrite bind_Ok by (by apply write_string_run).
  - erewrite bind_Ok by reflexivity. cbv beta. case_goal; [|done].
    by erewrite bind_Ok by (by apply write_string_run).
Qed.

Lemma counter_at_written d ctx k z :
  is_i64 z = true ->
  counter_at (db_write d [PutCf CF_METADATA (meta_key ctx k)
    (encode_string STRING_FLAGS 0 (show_Z z))]) ctx k = Ok z.
Proof.
  intros Hz. unfold counter_at. rewrite string_value_written.
  by rewrite parse_text_show_i64.
Qed.

Lemma incr_n d ctx k z n :
  wf_db d -> counter_at d ctx k = Ok z -> i64_min <= z -> z + Z.of_nat n <= i64_max ->
  exists d', run_each (fun _ => incr ctx [k]) (seq 0 n) d
             = (Ok (map Integer (seqZ (z + 1) (Z.of_nat n))), d')
    /\ counter_at d' ctx k = Ok (z + Z.of_nat n) /\ only_meta d d' ctx k.
Proof.
  revert d z. generalize 0%nat. induction n as [|n IH]; intros s d z H Hz Hlo Hhi.
  - exists d. rewrite Z.add_0_r. split; [done|]. split; [done|by apply only_meta_refl].
  - cbn [seq run_each]. assert (is_i64 (z + 1) = true) as Hi by (unfold is_i64; lia).
    pose proof (incr_by_run d ctx "INCR" 1 k H) as Hr. rewrite Hz, Hi in Hr.
    set (d1 := db_write _ _) in Hr.
    assert (only_meta d d1 ctx k) as Hd1 by by apply only_meta_put.
    destruct (IH (S s) d1 (z + 1)) as (d' & Hrun & Hc & Hm);
      [apply Hd1|by apply counter_at_written|lia..|].
    exists d'. split; [|split].
    + unfold incr at 1. erewrite bind_Ok by exact Hr. erewrite bind_Ok by exact Hrun.
      rewrite (seqZ_cons (z + 1)) by lia. simpl map.
      by replace (Z.pred (Z.of_nat (S n))) with (Z.of_nat n) by lia.
    + rewrite Hc. f_equal. lia.
    + by apply only_meta_trans with d1.
Qed.

Lemma append_run d ctx k a o :
  wf_db d -> string_value ctx (meta_at d ctx k) = Ok o ->
  let p := default [] o ++ a in
  append ctx [k; a] d
  = (Ok (Integer (wrap_i64 (blen p))),
     db_write d [PutCf CF_METADATA (meta_key ctx k) (encode_string STRING_FLAGS 0 p)]).
Proof.
  intros H Ho p. unfold append. do 2 mrun.
  erewrite bind_Ok by (rewrite read_string_run, Ho; done). mrun.
  assert ((match o with Some v => v | None => [] end) ++ a = p) as -> by by destruct o.
  by erewrite bind_Ok by (by apply write_string_run).
Qed.

Lemma append_n d ctx k (l : list bytes) p :
  wf_db d -> string_value ctx (meta_at d ctx k) = Ok (Some p) ->
  exists d' rs, run_each (fun a => append ctx [k; a]) l d = (Ok rs, d')
    /\ string_value ctx (meta_at d' ctx k) = Ok (Some (p ++ concat l))
    /\ only_meta d d' ctx k.
Proof.
  revert d p. induction l as [|a l IH]; intros d p H Hp.
  - exists d, []. simpl. rewrite app_nil_r. split; [done|]. split; [done|by apply only_meta_refl].
  - pose proof (append_run d ctx k a _ H Hp) as Hr. simpl in Hr.
    set (d1 := db_write _ _) in Hr.
    assert (only_meta d d1 ctx k) as Hd1 by by apply only_meta_put.
    destruct (IH d1 (p ++ a)) as (d' & rs & Hrun & Hv & Hm);
      [apply Hd1|by apply string_value_written|].
    exists d', (Integer (wrap_i64 (blen (p ++ a))) :: rs). cbn [run_each].
    split; [|split].
    + erewrite bind_Ok by exact Hr. by erewrite bind_Ok by exact Hrun.
    + rewrite Hv. simpl. by rewrite <- app_assoc.
    + by apply only_meta_trans with d1.
Qed.

(** *** Expiry *)

(** The expiry field of a stored value of any type, and the value with
    another one. *)
Definition expiry_of (v : bytes) : option Z :=
  if value_type_code v =? code DString then
    match decode_string v with Some (_, e, _) => Some e | None => None end
  else match decode_metadata v with Some m => Some (md_expire m) | None => None end.

Definition with_expiry (e : Z) (v : bytes) : bytes :=
  if value_type_code v =? code DString then
    match decode_string v with Some (f, _, p) => encode_string f e p | None => v end
  else match decode_metadata v with
       | Some m => encode_metadata (set_expire e m) | None => v end.

Lemma expiry_of_nonempty v e : expiry_of v = Some e -> v <> [].
Proof. by intros H ->. Qed.

Lemma read_expire_run d ctx k v e :
  wf_db d -> meta_at d ctx k = Some v -> expiry_of v = Some e ->
  read_expire ctx k d = (Ok (Some (if 0 <? e then Some e else None)), d).
Proof.
  intros H Hv He. unfold read_expire. mrun. rewrite Hv.
  destruct v as [|b t]; [done|]. unfold expiry_of in He.
  destruct (value_type_code (b :: t) =? code DString).
  - destruct (decode_string (b :: t)) as [[[f e'] p]|]; by simplify_eq.
  - destruct (decode_metadata (b :: t)) as [m|]; by simplify_eq.
Qed.

Lemma set_expire_ms_run d ctx k v e e0 :
  wf_db d -> meta_at d ctx k = Some v -> expiry_of v = Some e0 ->
  set_expire_ms ctx k e d
  = (Ok true, db_write d [PutCf CF_METADATA (meta_key ctx k) (with_expiry e v)]).
Proof.
  intros H Hv He. unfold set_expire_ms. mrun. rewrite Hv.
  destruct v as [|b t]; [done|]. unfold expiry_of in He. unfold with_expiry.
  destruct (value_type_code (b :: t) =? code DString).
  - destruct (decode_string (b :: t)) as [[[f e'] p]|]; [|done].
    erewrite bind_Ok by reflexivity. by erewrite bind_Ok by eauto with kv.
  - destruct (decode_metadata (b :: t)) as [m|]; [|done].
    erewrite bind_Ok by reflexivity. by erewrite bind_Ok by eauto with kv.
Qed.

Lemma expiry_of_with_expiry e v e0 :
  is_i64 e = true -> expiry_of v = Some e0 -> expiry_of (with_expiry e v) = Some e.
Proof.
  intros He. unfold expiry_of, with_expiry. destruct (value_type_code v =? code DString) eqn:Et.
  - destruct (decode_string v) as [[[f e'] p]|] eqn:E; [|done]. intros _.
    assert (value_type_code v = type_code f) as Hf.
    { unfold decode_string in E. destruct v; [by repeat case_match|].
      repeat case_hyp E; by simplify_eq. }
    change (value_type_code (encode_string f e p)) with (type_code f).
    by rewrite <- Hf, Et, decode_encode_string.
  - destruct (decode_metadata v) as [m|] eqn:E; [|done]. intros _.
    destruct (decode_metadata_type _ _ E) as (f & r & t & -> & Hf & _ & _).
    rewrite value_type_code_metadata. simpl md_flags. rewrite Hf.
    change (value_type_code (f :: r)) with (type_code f) in Et. rewrite Et.
    by rewrite (decode_with_expiry_metadata _ _ _ He E).
Qed.

(** *** MSET and MGET *)

Definition mset_batch ctx (l : list (bytes * bytes)) : WriteBatch :=
  map (fun p => PutCf CF_METADATA (meta_key ctx p.1) (encode_string STRING_FLAGS 0 p.2)) l.

(** The value the last pair for [k] assigns. *)
Definition last_value k (l : list (bytes * bytes)) : option bytes :=
  fold_left (fun acc p => if decide (p.1 = k) then Some p.2 else acc) l None.

Lemma mset_run d ctx args :
  wf_db d -> (length args mod 2 = 0)%nat ->
  mset ctx args d = (Ok OK, db_write d (mset_batch ctx (pairs args))).
Proof.
  intros H Hn. unfold mset. rewrite Hn. change (negb (0 =? 0)%nat) with false. cbv iota.
  assert (forall l b, mfold (fun batch pair => batch_put batch CF_METADATA
      (meta_key ctx pair.1) (encode_string STRING_FLAGS 0 pair.2)) b l d
    = (Ok (b ++ mset_batch ctx l), d)) as Hf.
  { induction l as [|p l IH]; intros b; simpl; [by rewrite app_nil_r|].
    erewrite bind_Ok by eauto with kv. rewrite IH. by rewrite <- app_assoc. }
  by erewrite bind_Ok by apply Hf.
Qed.

Lemma mset_effect ctx k l c :
  short ctx k -> Forall (fun p => short ctx p.1) l ->
  batch_effect CF_METADATA (meta_key ctx k) (mset_batch ctx l) c
  = match last_value k l with
    | Some v => Some (encode_string STRING_FLAGS 0 v) | None => c end.
Proof.
  intros Hk Hl. unfold last_value, batch_effect, mset_batch.
  assert (forall a, fold_left (fun c o => op_effect CF_METADATA (meta_key ctx k) o c)
      (map (fun p => PutCf CF_METADATA (meta_key ctx p.1) (encode_string STRING_FLAGS 0 p.2)) l)
      (match a with Some v => Some (encode_string STRING_FLAGS 0 v) | None => c end)
    = match fold_left (fun acc p => if decide (p.1 = k) then Some p.2 else acc) l a with
      | Some v => Some (encode_string STRING_FLAGS 0 v) | None => c end) as Hg; [|apply (Hg None)].
  induction Hl as [|[k' v'] l Hk' _ IH]; intros a; simpl; [done|]. simpl in Hk'.
  destruct (decide (k' = k)) as [->|Hne].
  - rewrite decide_True by done. apply (IH (Some v')).
  - rewrite decide_False; [apply IH|]. intros [= E]. by apply (meta_key_ne ctx k' k).
Qed.

Lemma mget_run d ctx keys os :
  wf_db d -> keys <> [] ->
  Forall2 (fun k o => string_value ctx (meta_at d ctx k) = Ok o) keys os ->
  mget ctx keys d = (Ok (Array (map BulkString os)), d).
Proof.
  intros H Hne Hk. unfold mget.
  erewrite bind_Ok by (apply expect_min_arg_count_ok; destruct keys; [done|simpl; lia]).
  assert (forall acc, mfold (fun result key => value ← read_string ctx key;
      mret (result ++ [BulkString value])) acc keys d
    = (Ok (acc ++ map BulkString os), d)) as Hf; [|by erewrite bind_Ok by apply Hf].
  clear Hne. induction Hk as [|k o keys os Ho _ IH]; intros acc; simpl.
  - by rewrite app_nil_r.
  - erewrite bind_Ok.
    2:{ erewrite bind_Ok by (rewrite read_string_run, Ho; done). done. }
    rewrite IH. by rewrite <- app_assoc.
Qed.

(** *** DEL *)

Lemma delete_prefix_run d ctx cf k (v : Z) :
  wf_db d -> cf ∈ ALL_CFS ->
  exists d', delete_prefix cf (sub_key ctx k v []) DEL_BATCH_SIZE d = (Ok tt, d')
    /\ cleared d d' cf (sub_key ctx k v []).
Proof.
  intros H Hcf. apply delete_prefix_ok; [by apply H|done|left; apply subkey_nonempty].
Qed.

(** The incarnation whose subkeys DEL removes with a metadata value, and
    whether its score index goes as well. *)
Definition incarnation (v : bytes) : option (Z * bool) :=
  if value_type_code v =? code DString then None
  else match decode_metadata v with
       | Some m => Some (md_version m, bool_decide (data_type m = Some DZSet))
       | None => None
       end.

(** The keys of the store that belong to the incarnation [i] of [k]. *)
Definition owned ctx k (i : option (Z * bool)) (cf : cf_name) (key : bytes) : bool :=
  match i with
  | None => false
  | Some (v, z) =>
      (bool_decide (cf = CF_SUBKEY) || (z && bool_decide (cf = CF_ZSET_SCORE)))
      && starts_with (sub_key ctx k v []) key
  end.

Lemma purge_subkeys_run d ctx k (v : Z) (z : bool) :
  wf_db d ->
  exists d', purge_subkeys ctx k v z d = (Ok tt, d') /\ wf_db d'
    /\ forall cf key, db_get d' cf key
       = if owned ctx k (Some (v, z)) cf key then None else db_get d cf key.
Proof.
  intros H. unfold purge_subkeys.
  destruct (delete_prefix_run d ctx CF_SUBKEY k v H) as (d1 & R1 & C1 & G1); [auto with kv|].
  assert (wf_db d1) as H1 by (intros cf Hcf; rewrite C1; auto).
  erewrite bind_Ok by exact R1. destruct z.
  - destruct (delete_prefix_run d1 ctx CF_ZSET_SCORE k v H1) as (d2 & R2 & C2 & G2);
      [auto with kv|]. exists d2. split; [done|].
    split; [intros cf Hcf; rewrite C2; auto|]. intros cf key. rewrite G2, G1. unfold owned.
    by destruct (bool_decide (cf = CF_SUBKEY)), (bool_decide (cf = CF_ZSET_SCORE)),
      (starts_with (sub_key ctx k v []) key).
  - exists d1. split; [done|]. split; [done|]. intros cf key. rewrite G1. unfold owned.
    by rewrite andb_false_l, orb_false_r.
Qed.

(** Deleting one key removes its metadata entry and exactly the keys its
    incarnation owns. *)
Lemma del_one_run d ctx c k v :
  wf_db d -> meta_at d ctx k = Some v -> is_i64 (c + 1) = true ->
  exists d', del_one ctx c k d = (Ok (c + 1), d') /\ wf_db d'
    /\ forall cf key, db_get d' cf key
       = if bool_decide ((cf, key) = (CF_METADATA, meta_key ctx k))
            || owned ctx k (incarnation v) cf key
         then None else db_get d cf key.
Proof.
  intros H Hv Hc. unfold del_one. mrun. rewrite Hv.
  match goal with |- exists d', (?m ≫= _) d = _ /\ _ =>
    assert (exists d1, m d = (Ok tt, d1) /\ wf_db d1 /\ forall cf key, db_get d1 cf key
      = if owned ctx k (incarnation v) cf key then None else db_get d cf key)
      as (d1 & R1 & H1 & G1) end.
  { destruct v as [|b t]; [by exists d|]. unfold incarnation.
    destruct (value_type_code (b :: t) =? code DString); simpl negb; cbv iota; [by exists d|].
    destruct (decode_metadata (b :: t)) as [m|]; [|by exists d]. by apply purge_subkeys_run. }
  erewrite bind_Ok by exact R1. erewrite bind_Ok by eauto with kv.
  eexists. split; [by apply arith_i64_ok|]. split; [by apply wf_write|].
  intros cf key. rewrite db_get_write. simpl. rewrite G1.
  case_decide as E1; case_bool_decide as E2; simpl; try done; congruence.
Qed.

(** [d'] is [d] without the keys [ks]. *)
Record removed ctx (ks : list bytes) d d' : Prop := {
  removed_wf : wf_db d';
  removed_meta k : k ∈ ks -> meta_at d' ctx k = None;
  removed_owned k v cf key :
    k ∈ ks -> meta_at d ctx k = Some v -> owned ctx k (incarnation v) cf key = true ->
    db_get d' cf key = None;
  removed_other_meta k : short ctx k -> k ∉ ks -> meta_at d' ctx k = meta_at d ctx k;
  removed_other_sub k w sub cf :
    short ctx k -> is_u64 w = true -> k ∉ ks -> cf <> CF_METADATA ->
    db_get d' cf (sub_key ctx k w sub) = db_get d cf (sub_key ctx k w sub);
  removed_shrinks cf key : db_get d cf key = None -> db_get d' cf key = None;
}.

Lemma removed_nil ctx d : wf_db d -> removed ctx [] d d.
Proof. intros H. constructor; try done; by intros k * ?%elem_of_nil. Qed.

Lemma removed_cons ctx k ks d d1 d' :
  removed ctx [k] d d1 -> removed ctx ks d1 d' -> namespace ctx = [] ->
  Forall (short ctx) (k :: ks) -> removed ctx (k :: ks) d d'.
Proof.
  intros R1 R2 Hns [Hk Hks]%Forall_cons. constructor.
  - apply R2.
  - intros k' [->|Hin]%elem_of_cons; [|by apply R2].
    assert (meta_at d1 ctx k = None) as E by (apply R1; by left).
    rewrite meta_at_empty_ns in * by done. by apply R2.
  - intros k' v cf key Hin Hv Ho. destruct (decide (k' = k)) as [->|Hne].
    + eapply removed_shrinks; [done|]. by eapply removed_owned; [done|left|..].
    + apply elem_of_cons in Hin as [->|Hin]; [done|].
      rewrite Forall_forall in Hks. eapply removed_owned; [done|done| |done].
      rewrite (removed_other_meta _ _ _ _ R1); [done|by apply Hks|].
      by rewrite list_elem_of_singleton.
  - intros k' Hs [Hne Hin]%not_elem_of_cons.
    rewrite (removed_other_meta _ _ _ _ R2), (removed_other_meta _ _ _ _ R1); try done.
    by rewrite list_elem_of_singleton.
  - intros k' w sub cf Hs Hw [Hne Hin]%not_elem_of_cons Hcf.
    rewrite (removed_other_sub _ _ _ _ R2), (removed_other_sub _ _ _ _ R1); try done.
    by rewrite list_elem_of_singleton.
  - intros cf key Hn. by apply R2, R1.
Qed.

Lemma incarnation_version v w z : incarnation v = Some (w, z) -> is_u64 w = true.
Proof.
  unfold incarnation. case_goal; [done|]. destruct (decode_metadata v) as [m|] eqn:E; [|done].
  intros [= <- _]. apply decode_metadata_ranges in E. unfold metadata_ranges in E. by zbool.
Qed.

Lemma removed_present d ctx c k v :
  wf_db d -> namespace ctx = [] -> short ctx k -> meta_at d ctx k = Some v ->
  is_i64 (c + 1) = true ->
  exists d', del_one ctx c k d = (Ok (c + 1), d') /\ removed ctx [k] d d'.
Proof.
  intros H Hns Hk Hv Hc. destruct (del_one_run d ctx c k v H Hv Hc) as (d' & R & H' & G).
  exists d'. split; [done|].
  assert (forall cf key, cf = CF_METADATA -> owned ctx k (incarnation v) cf key = false) as Hom.
  { intros cf key ->. unfold owned. destruct (incarnation v) as [[w []]|]; done. }
  constructor; try done.
  - intros k' ->%list_elem_of_singleton. rewrite meta_at_empty_ns, G by done.
    by rewrite bool_decide_true.
  - intros k' v' cf key ->%list_elem_of_singleton Hv' Ho. rewrite Hv in Hv'. simplify_eq.
    rewrite G, Ho. by rewrite orb_true_r.
  - intros k' Hs Hne. rewrite list_elem_of_singleton in Hne.
    rewrite !meta_at_empty_ns, G, Hom, orb_false_r by done. rewrite bool_decide_false; [done|].
    intros [= E]. by apply (meta_key_ne ctx k' k).
  - intros k' w sub cf Hs Hw Hne Hcf. rewrite list_elem_of_singleton in Hne. rewrite G.
    rewrite bool_decide_false by (intros [= ? _]; done). simpl. unfold owned.
    destruct (incarnation v) as [[w' z]|] eqn:E; [|done].
    destruct (starts_with _ _) eqn:Es; [|by rewrite andb_false_r].
    apply subkey_prefix_exact in Es as [-> _]; [done|..]; unfold short in *; try lia; [|done].
    by eapply incarnation_version.
  - intros cf key Hn. rewrite G, Hn. by case_goal.
Qed.

Lemma del_all d ctx keys c :
  wf_db d -> namespace ctx = [] -> Forall (short ctx) keys ->
  0 <= c -> c + Z.of_nat (length keys) <= i64_max ->
  exists d', mfold (del_one ctx) c keys d
    = (Ok (c + Z.of_nat (size (filter (fun k => is_Some (meta_at d ctx k))
                                 (list_to_set keys : gset bytes)))), d')
    /\ removed ctx keys d d'.
Proof.
  intros H Hns Hks. revert d c H. induction Hks as [|k keys Hk Hks IH]; intros d c H Hc0 Hc.
  - exists d. split; [|by apply removed_nil]. simpl.
    assert (filter (fun k => is_Some (meta_at d ctx k)) (∅ : gset bytes) = ∅) as ->.
    { apply set_eq. intros x. rewrite elem_of_filter. set_solver. }
    rewrite size_empty. by rewrite Z.add_0_r.
  - cbn [mfold]. cbn [length] in Hc. destruct (meta_at d ctx k) as [v|] eqn:Hv.
    + destruct (removed_present d ctx c k v) as (d1 & R1 & D1);
        [done..|unfold is_i64, i64_min in *; lia|].
      destruct (IH d1 (c + 1)) as (d' & R & D'); [apply D1|lia..|].
      exists d'. split; [|apply (removed_cons ctx k keys d d1 d'); [done..|by constructor]].
      erewrite bind_Ok by exact R1. rewrite R. do 2 f_equal.
      assert (forall k', k' ∈ keys -> meta_at d1 ctx k' = if decide (k' = k) then None else meta_at d ctx k') as Hd1.
      { intros k' Hin. case_decide as E; [subst; apply D1; by left|].
        apply D1; [by rewrite Forall_forall in Hks; apply Hks|by rewrite list_elem_of_singleton]. }
      replace (filter (fun k' => is_Some (meta_at d ctx k')) (list_to_set (k :: keys) : gset bytes))
        with ({[k]} ∪ filter (fun k' => is_Some (meta_at d1 ctx k')) (list_to_set keys : gset bytes)).
      { rewrite size_union, size_singleton; [lia|].
        intros k' ->%elem_of_singleton [[? Hs] Hin%elem_of_list_to_set]%elem_of_filter.
        rewrite Hd1, decide_True in Hs by done. done. }
      apply set_eq. intros k'. rewrite elem_of_union, !elem_of_filter, elem_of_singleton.
      simpl. rewrite elem_of_union, elem_of_singleton, elem_of_list_to_set.
      destruct (decide (k' = k)) as [->|Hne].
      * split; [|by left]. intros _. split; [by rewrite Hv|by left].
      * split; [intros [?|[Hs Hin]]|intros [Hs [?|Hin]]]; try done.
        -- rewrite Hd1, decide_False in Hs by done. auto.
        -- right. by rewrite Hd1, decide_False by done.
    + destruct (IH d c) as (d' & R & D'); [done|lia..|]. exists d'.
      assert (del_one ctx c k d = (Ok c, d)) as R1
        by (unfold del_one; mrun; by rewrite Hv).
      split.
      * erewrite bind_Ok by exact R1. rewrite R.
        replace (filter (fun k' => is_Some (meta_at d ctx k')) (list_to_set (k :: keys) : gset bytes))
          with (filter (fun k' => is_Some (meta_at d ctx k')) (list_to_set keys : gset bytes));
          [done|]. apply set_eq. intros k'. rewrite !elem_of_filter. simpl. rewrite elem_of_union, elem_of_singleton.
        split; [intros []; auto|]. intros [Hs [->|]]; [|done]. rewrite Hv in Hs. by destruct Hs.
      * apply (removed_cons ctx k keys d d d'); [|done..|by constructor].
        constructor; try done; intros k' * ->%list_elem_of_singleton; [done|congruence].
Qed.

End StringFacts.

(** ** Properties *)

Section StringProperties.
Context {DB : Type} {RDB : RocksDB DB}.
Implicit Types (d : DB) (ctx : CommandContext) (k v : bytes).

(** C4: SET with any list of EX, PX, NX and XX options, spelled in any case:
    asked for both NX and XX it is a syntax error; NX on a key that exists and
    XX on a key that does not reply nil; each of these changes nothing. A key
    exists when it has an entry whose expiry has not passed. Otherwise SET
    replies OK, touches no other key, and at any later time of the same
    namespace GET reads the value until the deadline (the last of EX, in
    seconds, and PX, in milliseconds, counts from now; without one there is
    none) and nil from then on. An unknown option word, and EX or PX without a
    number, are syntax errors, a number that is not positive an invalid expiry
    and a text that is no integer an integer error, all without effect. *)
Theorem set_then_get d ctx k v l ws (b : bool) :
  wf_db d -> spells l ws -> times_ok ctx l -> exists_at d ctx k b ->
  (SetNX ∈ l -> SetXX ∈ l -> set ctx (k :: v :: ws) d = (Err syntax_error, d))
  /\ (~ (SetNX ∈ l /\ SetXX ∈ l) -> (SetNX ∈ l /\ b = true) \/ (SetXX ∈ l /\ b = false) ->
      set ctx (k :: v :: ws) d = (Ok nil_reply, d))
  /\ ((SetNX ∈ l -> SetXX ∉ l /\ b = false) -> (SetXX ∈ l -> b = true) ->
      exists d', set ctx (k :: v :: ws) d = (Ok OK, d')
        /\ only_meta d d' ctx k
        /\ forall ctx', namespace ctx' = namespace ctx ->
           get ctx' [k] d'
           = (Ok (if passed ctx' (deadline ctx 0 l) then nil_reply else bulk v), d'))
  /\ (forall w rest,
      (Forall (fun name => to_ascii_uppercase w <> bs name) ["EX"; "PX"; "NX"; "XX"] ->
       set ctx (k :: v :: ws ++ w :: rest) d = (Err syntax_error, d))
      /\ (to_ascii_uppercase w = bs "EX" \/ to_ascii_uppercase w = bs "PX" ->
          set ctx (k :: v :: ws ++ [w]) d = (Err syntax_error, d)
          /\ (forall n, is_i64 n = true -> n <= 0 ->
              set ctx (k :: v :: ws ++ w :: show_Z n :: rest) d = (Err invalid_expire, d))
          /\ forall t, parse_text parse_i64 t = None ->
             set ctx (k :: v :: ws ++ w :: t :: rest) d = (Err NotInteger, d))).
Proof.
  intros H Hs Ht He. pose proof (exists_at_live _ _ _ _ He) as Hl.
  pose proof (set_options_spelled ctx l ws [] (mkSetOptions 0 false false) d Hs Ht) as Ho.
  rewrite app_nil_r in Ho.
  pose proof (set_run d ctx k v ws _ H Ho) as R. unfold set_refused in R. cbn [read_options so_nx so_xx so_expire_ms orb] in R.
  rewrite Hl in R. split_and!.
  - intros Hn Hx. by rewrite !bool_decide_true in R.
  - intros Hb Hr. rewrite R. rewrite (proj2 (andb_false_iff _ _)).
    2:{ rewrite !bool_decide_eq_false. destruct (decide (SetNX ∈ l)); tauto. }
    destruct Hr as [[Hi ->]|[Hi ->]]; rewrite (bool_decide_true _ Hi); [done|]. by rewrite orb_true_r.
  - intros Hn Hx. eexists. split; [rewrite R|].
    { repeat case_bool_decide; try naive_solver; destruct b; naive_solver. }
    split; [by apply only_meta_put|]. intros ctx' Hns. erewrite get_reply; [|by apply wf_write|].
    2:{ rewrite (meta_at_namespace _ ctx ctx') by done. rewrite meta_at_put_same.
        apply string_value_encode. by apply deadline_i64. }
    unfold nil_reply, bulk. by destruct (passed ctx' (deadline ctx 0 l)).
  - intros w rest. destruct (set_options_refused ctx l ws d w rest Hs Ht) as (R1 & R2).
    split; [intros Hw; by apply set_refuses, R1|]. intros Hw. destruct (R2 Hw) as (R3 & R4 & R5).
    split_and!; [by apply set_refuses|intros; by apply set_refuses, R4|intros; by apply set_refuses, R5].
Qed.

(** C34: a counter that holds [z] (an absent key holds 0) counts exactly: [n]
    INCRs reply [z+1], ..., [z+n], leave [z+n] stored and touch no other key;
    at the largest or smallest integer INCR or DECR is refused and changes
    nothing, as on a value that is no integer or of another type. *)
Theorem incr_counts d ctx k z n :
  wf_db d -> counter_at d ctx k = Ok z -> i64_min <= z -> z + Z.of_nat n <= i64_max ->
  (exists d', run_each (fun _ => incr ctx [k]) (seq 0 n) d
              = (Ok (map Integer (seqZ (z + 1) (Z.of_nat n))), d')
     /\ counter_at d' ctx k = Ok (z + Z.of_nat n) /\ only_meta d d' ctx k)
  /\ (z = i64_max -> incr ctx [k] d = (Err OutOfRange, d))
  /\ (z = i64_min -> decr ctx [k] d = (Err OutOfRange, d))
  /\ (forall k2 e, counter_at d ctx k2 = Err e -> incr ctx [k2] d = (Err e, d)).
Proof.
  intros H Hz Hlo Hhi. split; [by apply incr_n|].
  unfold incr, decr. repeat split.
  - intros ->. by rewrite incr_by_run, Hz.
  - intros ->. by rewrite incr_by_run, Hz.
  - intros k2 e He. by rewrite incr_by_run, He.
Qed.

(** Successive APPENDs to a string leave the concatenation of what it held
    and of everything appended, and touch no other key. *)
Theorem append_concatenates d ctx k p (l : list bytes) :
  wf_db d -> string_value ctx (meta_at d ctx k) = Ok (Some p) ->
  exists d' rs, run_each (fun a => append ctx [k; a]) l d = (Ok rs, d')
    /\ get ctx [k] d' = (Ok (bulk (p ++ concat l)), d')
    /\ only_meta d d' ctx k.
Proof.
  intros H Hp. destruct (append_n d ctx k l p H Hp) as (d' & rs & R & V & O).
  exists d', rs. split; [done|]. split; [|done]. apply get_reply; [apply O|done].
Qed.

(** PEXPIRE on a key of any type keeps everything but the expiry; until
    the time it sets PTTL reports the milliseconds left and TTL the seconds
    left rounded up, and from then on both report the key as gone. *)
Theorem pexpire_then_pttl d ctx k v e0 ms :
  wf_db d -> meta_at d ctx k = Some v -> expiry_of v = Some e0 ->
  0 < ms -> 0 <= now_ms ctx -> now_ms ctx + ms <= i64_max - 999 ->
  exists d', pexpire ctx [k; show_Z ms] d = (Ok (Integer 1), d')
    /\ meta_at d' ctx k = Some (with_expiry (now_ms ctx + ms) v)
    /\ only_meta d d' ctx k
    /\ forall ctx', namespace ctx' = namespace ctx -> 0 <= now_ms ctx' ->
       let left := now_ms ctx + ms - now_ms ctx' in
       pttl ctx' [k] d' = (Ok (Integer (if 0 <? left then left else -2)), d')
       /\ ttl ctx' [k] d'
          = (Ok (Integer (if 0 <? left then (left + 999) / 1000 else -2)), d').
Proof.
  intros H Hv He Hms Hnow Hmax. unfold i64_max in Hmax.
  assert (is_i64 ms = true) as Hi by (unfold is_i64, i64_min, i64_max; lia).
  assert (is_i64 (now_ms ctx + ms) = true) as Hi' by (unfold is_i64, i64_min, i64_max; lia).
  set (d' := db_write d [PutCf CF_METADATA (meta_key ctx k) (with_expiry (now_ms ctx + ms) v)]).
  assert (meta_at d' ctx k = Some (with_expiry (now_ms ctx + ms) v)) as Hv'
    by apply meta_at_put_same.
  exists d'. split; [|split; [done|split; [by apply only_meta_put|]]].
  - unfold pexpire. do 2 mrun.
    erewrite bind_Ok by (unfold arg_i64; by rewrite parse_text_show_i64).
    erewrite bind_Ok by (by apply arith_i64_ok). mrun.
    by erewrite bind_Ok by (by eapply set_expire_ms_run).
  - intros ctx' Hns Hnow' left.
    assert (read_expire ctx' k d' = (Ok (Some (Some (now_ms ctx + ms))), d')) as Hr.
    { replace (Some (now_ms ctx + ms))
        with (if 0 <? now_ms ctx + ms then Some (now_ms ctx + ms) else None)
        by (rewrite (proj2 (Z.ltb_lt _ _)); [done|lia]).
      eapply read_expire_run; [by apply wf_write| |by eapply expiry_of_with_expiry].
      by rewrite (meta_at_namespace _ ctx ctx'). }
    assert (forall z, left <= z <= left + 999 -> 0 < left -> is_i64 z = true) as Hr2
      by (intros; unfold is_i64, i64_min, i64_max, left in *; lia).
    split; [unfold pttl|unfold ttl]; (do 2 mrun; erewrite bind_Ok by exact Hr; cbv beta iota);
      destruct (0 <? left) eqn:El; zbool; unfold left in *;
      first [rewrite (proj2 (Z.leb_gt _ _)) by lia | by rewrite (proj2 (Z.leb_le _ _)) by lia];
      repeat (erewrite bind_Ok by (apply arith_i64_ok, Hr2; lia); cbv beta).
    + done.
    + by rewrite Z.quot_div_nonneg by lia.
Qed.

(** MSET is one atomic write after which MGET of the same keys, in any
    order and with repetitions, returns for each the value of its last pair;
    a key it does not name keeps its metadata. *)
Theorem mset_then_mget d ctx args keys :
  wf_db d -> (length args mod 2 = 0)%nat -> Forall (fun p => short ctx p.1) (pairs args) ->
  keys <> [] -> Forall (fun k => is_Some (last_value k (pairs args)) /\ short ctx k) keys ->
  exists b, mset ctx args d = (Ok OK, db_write d b)
    /\ mget ctx keys (db_write d b)
       = (Ok (Array (map (fun k => BulkString (last_value k (pairs args))) keys)), db_write d b)
    /\ forall k, short ctx k -> Forall (fun p => p.1 <> k) (pairs args) ->
       meta_at (db_write d b) ctx k = meta_at d ctx k.
Proof.
  intros H Hn Hp Hne Hk. exists (mset_batch ctx (pairs args)).
  split; [by apply mset_run|]. split.
  - rewrite <- (map_map (fun k => last_value k (pairs args)) BulkString).
    apply mget_run; [by apply wf_write|done|].
    apply Forall2_fmap_r, Forall_Forall2_diag, (Forall_impl _ _ _ Hk). intros k [[v Hv] Hs].
    unfold meta_at. rewrite db_get_write, mset_effect by done.
    rewrite Hv, string_value_encode by done. by rewrite <- Hv.
  - intros k Hs Hnk. apply meta_ops_frame; [done|]. unfold mset_batch.
    apply Forall_map, Forall_forall. intros p Hin. right. exists p.1.
    rewrite Forall_forall in Hp, Hnk. auto.
Qed.

(** C10: without a namespace DEL removes every named key with its metadata and
    exactly the subkeys (and score index) of its current incarnation, leaves
    the metadata and all subkeys of every other key alone, and replies the
    number of distinct named keys that existed. *)
Theorem del_exact d ctx keys :
  wf_db d -> namespace ctx = [] -> keys <> [] -> Forall (short ctx) keys ->
  Z.of_nat (length keys) <= i64_max ->
  exists d', del ctx keys d
    = (Ok (Integer (Z.of_nat (size (filter (fun k => is_Some (meta_at d ctx k))
                                      (list_to_set keys : gset bytes))))), d')
    /\ removed ctx keys d d'.
Proof.
  intros H Hns Hne Hs Hl. destruct (del_all d ctx keys 0) as (d' & R & D); [done..|lia|].
  exists d'. split; [|done]. unfold del.
  erewrite bind_Ok by (apply expect_min_arg_count_ok; destruct keys; [done|simpl; lia]).
  by erewrite bind_Ok by exact R.
Qed.

End StringProperties.

(** ** Witnesses *)

Definition db_passed : MemDB :=
  db_write db0 [PutCf CF_METADATA (meta_key ctx0 (bs "k")) (encode_string STRING_FLAGS 999 (bs "old"))].

(** NX with a deadline on a key whose expiry has passed. *)
Lemma set_then_get_witness :
  exists d', set ctx0 [bs "k"; bs "v"; bs "nx"; bs "Ex"; bs "2"; bs "PX"; bs "50"] db_passed = (Ok OK, d')
    /\ only_meta db_passed d' ctx0 (bs "k")
    /\ forall ctx', namespace ctx' = namespace ctx0 ->
       get ctx' [bs "k"] d' = (Ok (if passed ctx' 1050 then nil_reply else bulk (bs "v")), d').
Proof.
  refine (proj1 (proj2 (proj2 (set_then_get db_passed ctx0 (bs "k") (bs "v") [SetNX; SetEX 2; SetPX 50]
           [bs "nx"; bs "Ex"; bs "2"; bs "PX"; bs "50"] false _ _ _ _))) _ _).
  - apply wf_write, mem_wf.
  - apply spells_nx; [reflexivity|]. apply (spells_ex (bs "Ex") 2); [reflexivity|].
    apply (spells_px (bs "PX") 50); [reflexivity|]. apply spells_nil.
  - repeat apply Forall_cons_2; try apply Forall_nil_2; vm_compute; auto.
  - change false with (negb (passed ctx0 999)).
    apply (at_entry _ _ _ (encode_string STRING_FLAGS 999 (bs "old")) 999); [vm_compute; reflexivity|].
    left. eexists. split; reflexivity.
  - intros _. split; [|reflexivity]. set_solver.
  - set_solver.
Defined.

Lemma incr_counts_witness :
  (exists d', run_each (fun _ => incr ctx0 [bs "k"]) (seq 0 3) db0
              = (Ok (map Integer (seqZ (0 + 1) 3)), d')
     /\ counter_at d' ctx0 (bs "k") = Ok (0 + 3) /\ only_meta db0 d' ctx0 (bs "k"))
  /\ (0 = i64_max -> incr ctx0 [bs "k"] db0 = (Err OutOfRange, db0))
  /\ (0 = i64_min -> decr ctx0 [bs "k"] db0 = (Err OutOfRange, db0))
  /\ (forall k2 e, counter_at db0 ctx0 k2 = Err e -> incr ctx0 [k2] db0 = (Err e, db0)).
Proof.
  apply (incr_counts db0 ctx0 (bs "k") 0 3);
    [apply mem_wf|vm_compute; reflexivity|unfold i64_min; lia|unfold i64_max; lia].
Defined.

Definition db_s : MemDB :=
  db_write db0 [PutCf CF_METADATA (meta_key ctx0 (bs "s")) (encode_string STRING_FLAGS 0 (bs "ab"))].

Lemma append_concatenates_witness :
  exists d' rs, run_each (fun a => append ctx0 [bs "s"; a]) [bs "c"; bs "d"] db_s = (Ok rs, d')
    /\ get ctx0 [bs "s"] d' = (Ok (bulk (bs "ab" ++ concat [bs "c"; bs "d"])), d')
    /\ only_meta db_s d' ctx0 (bs "s").
Proof. apply append_concatenates; [apply wf_write, mem_wf|vm_compute; reflexivity]. Defined.

Lemma pexpire_then_pttl_witness :
  exists d', pexpire ctx0 [bs "s"; show_Z 50] db_s = (Ok (Integer 1), d')
    /\ meta_at d' ctx0 (bs "s")
       = Some (with_expiry (now_ms ctx0 + 50) (encode_string STRING_FLAGS 0 (bs "ab")))
    /\ only_meta db_s d' ctx0 (bs "s")
    /\ forall ctx', namespace ctx' = namespace ctx0 -> 0 <= now_ms ctx' ->
       let left := now_ms ctx0 + 50 - now_ms ctx' in
       pttl ctx' [bs "s"] d' = (Ok (Integer (if 0 <? left then left else -2)), d')
       /\ ttl ctx' [bs "s"] d'
          = (Ok (Integer (if 0 <? left then (left + 999) / 1000 else -2)), d').
Proof.
  apply (pexpire_then_pttl db_s ctx0 (bs "s") _ 0 50); [apply wf_write, mem_wf|..];
    try (vm_compute; reflexivity); try lia; vm_compute; discriminate.
Defined.

Lemma mset_then_mget_witness :
  exists b, mset ctx0 [bs "a"; bs "1"; bs "b"; bs "2"; bs "a"; bs "3"] db0 = (Ok OK, db_write db0 b)
    /\ mget ctx0 [bs "b"; bs "a"] (db_write db0 b)
       = (Ok (Array [bulk (bs "2"); bulk (bs "3")]), db_write db0 b)
    /\ forall k, short ctx0 k ->
       Forall (fun p => p.1 <> k) (pairs [bs "a"; bs "1"; bs "b"; bs "2"; bs "a"; bs "3"]) ->
       meta_at (db_write db0 b) ctx0 k = meta_at db0 ctx0 k.
Proof.
  apply (mset_then_mget db0 ctx0 [bs "a"; bs "1"; bs "b"; bs "2"; bs "a"; bs "3"]
           [bs "b"; bs "a"]); [apply mem_wf|done| |done|];
    repeat apply Forall_cons_2; try apply Forall_nil_2;
    repeat split; try (vm_compute; reflexivity); by eexists.
Defined.

Lemma del_exact_witness :
  exists d', del ctx0 [bs "s"; bs "x"; bs "s"] db_s
    = (Ok (Integer (Z.of_nat (size (filter (fun k => is_Some (meta_at db_s ctx0 k))
                                 (list_to_set [bs "s"; bs "x"; bs "s"] : gset bytes))))), d')
    /\ removed ctx0 [bs "s"; bs "x"; bs "s"] db_s d'.
Proof.
  apply (del_exact db_s ctx0 [bs "s"; bs "x"; bs "s"]); [apply wf_write, mem_wf|done|done| |].
  - repeat apply Forall_cons_2; try apply Forall_nil_2; split; vm_compute; reflexivity.
  - vm_compute. discriminate.
Defined.

(** ** Behaviours that differ from the documentation *)

Definition db_expired : MemDB :=
  db_write db0 [PutCf CF_METADATA (meta_key ctx0 (bs "s")) (encode_string STRING_FLAGS 999 (bs "ab"))].

(** A key that has expired but not been overwritten is gone for GET and TTL,
    counted by EXISTS, and brought back by PERSIST. *)
Example expired_key_revived :
  fst ((a ← get ctx0 [bs "s"]; b ← ttl ctx0 [bs "s"]; c ← exists_ ctx0 [bs "s"];
        e ← persist ctx0 [bs "s"]; f ← get ctx0 [bs "s"]; mret [a; b; c; e; f]) db_expired)
  = Ok [nil_reply; Integer (-2); Integer 1; Integer 1; bulk (bs "ab")].
Proof. vm_compute. reflexivity. Qed.

Definition ctx_ns : CommandContext := mkContext (bs "app") 1000 7 true 40.

(** Under a namespace DEL reports the deletion of a key stored without one,
    which stays readable. *)
Example legacy_key_not_deleted :
  fst ((a ← del ctx_ns [bs "s"]; b ← get ctx_ns [bs "s"]; mret [a; b]) db_s)
  = Ok [Integer 1; bulk (bs "ab")].
Proof. vm_compute. reflexivity. Qed.
