(* ===== verification/Locks.v ===== *)
(** * The key locks (src/storage.rs, src/cmd/string.rs)

    INCR, DECR and APPEND read a value and write it back under a lock of the
    storage engine, one of a fixed number of mutexes chosen by a hash of the
    key. Here the handlers are programs of single database operations, threads
    interleave between any two operations, and a command waits for its lock.
    Every such execution is an execution of the commands one after the other. *)

From S2P Require Import Prelude Bytes Text Error Types Encoding Backend Storage Protocol Context Keyspace StringCmd.

Local Open Scope Z_scope.

(** ** Programs of database operations *)

(** What a handler does between taking its lock and returning. *)
Inductive prog :=
  | Ret (r : outcome RespValue)
  | Get (key : bytes) (k : option bytes -> prog)
  | Put (key value : bytes) (k : prog).

(** Goes on with a value, or returns the error. *)
Definition resume {A} (r : outcome A) (k : A -> prog) : prog :=
  match r with Ok a => k a | Err e => Ret (Err e) | Panic => Ret Panic | OutOfFuel => Ret OutOfFuel end.

Inductive locked := LIncr | LDecr | LAppend.

(** One call of a handler: its context, which handler, and its arguments. *)
Record call := mkCall { c_ctx : CommandContext; c_op : locked; c_args : list bytes }.

Section Bodies.
Variable ctx : CommandContext.

(** [get_meta]: the key, then the key of the old format. *)
Definition get_meta_prog (user_key : bytes) (k : option bytes -> prog) : prog :=
  Get (meta_key ctx user_key) (fun v =>
    match v with
    | Some v => k (Some v)
    | None => if bool_decide (namespace ctx = []) then k None else Get (metadata_key user_key []) k
    end).

Definition read_string_prog (user_key : bytes) (k : option bytes -> prog) : prog :=
  get_meta_prog user_key (fun m => resume (string_value ctx m) k).

Definition write_string_prog (user_key payload : bytes) (k : prog) : prog :=
  Put (meta_key ctx user_key) (encode_string STRING_FLAGS 0 payload) k.

Definition incr_prog (delta : Z) (user_key : bytes) : prog :=
  read_string_prog user_key (fun v =>
    resume (match v with Some v => ok_or (parse_text parse_i64 v) NotInteger | None => Ok 0 end) (fun current =>
      if is_i64 (current + delta) then
        write_string_prog user_key (show_Z (current + delta)) (Ret (Ok (Integer (current + delta))))
      else Ret (Err OutOfRange))).

Definition append_prog (user_key value : bytes) : prog :=
  read_string_prog user_key (fun c =>
    let current := (match c with Some v => v | None => [] end) ++ value in
    write_string_prog user_key current (Ret (Ok (Integer (wrap_i64 (blen current)))))).

End Bodies.

(** The check before the lock, then the key to lock and the guarded part. *)
Definition guarded (c : call) : outcome (bytes * prog) :=
  match c_op c, c_args c with
  | LIncr, [k] => Ok (k, incr_prog (c_ctx c) 1 k)
  | LDecr, [k] => Ok (k, incr_prog (c_ctx c) (-1) k)
  | LAppend, [k; v] => Ok (k, append_prog (c_ctx c) k v)
  | LIncr, _ => Err (WrongArgCount (bs "INCR"))
  | LDecr, _ => Err (WrongArgCount (bs "DECR"))
  | LAppend, _ => Err (WrongArgCount (bs "APPEND"))
  end.

Section Locks.
Context {DB : Type} {RDB : RocksDB DB}.
(** The digest of the standard library's default hasher. *)
Variable default_hash : bytes -> Z.
Implicit Types (d : DB) (c : call).

(** The handler as the command table runs it. *)
Definition handler c : M DB RespValue :=
  match c_op c with
  | LIncr => incr (c_ctx c) (c_args c)
  | LDecr => decr (c_ctx c) (c_args c)
  | LAppend => append (c_ctx c) (c_args c)
  end.

Fixpoint run_prog (p : prog) : M DB RespValue :=
  match p with
  | Ret r => lift r
  | Get key k => v ← Storage.get CF_METADATA key; run_prog (k v)
  | Put key value k => _ ← put CF_METADATA key value; run_prog k
  end.

(** The next operation of a program, [None] when it has returned. *)
Definition prog_step (p : prog) d : option (prog * DB) :=
  match p with
  | Ret _ => None
  | Get key k => let '(r, d') := Storage.get CF_METADATA key d in Some (resume r k, d')
  | Put key value k => let '(r, d') := put CF_METADATA key value d in Some (resume r (fun _ => k), d')
  end.

(** The mutex [key_lock] chooses for a key. *)
Definition shard c (user_key : bytes) : Z := shard_index default_hash (meta_key (c_ctx c) user_key).

(** ** Threads *)

(** A thread runs its calls in turn; inside a call it holds a mutex. *)
Record thread := mkThread {
  t_done : list (call * outcome RespValue); t_current : option (call * bytes * prog); t_todo : list call }.

Record system := mkSystem { sys_db : DB; key_locks : gset Z; sys_threads : list thread }.

Definition begin (l : list (list call)) d : system := mkSystem d ∅ (map (mkThread [] None) l).

Inductive step (s : system) : system -> Prop :=
  (** the arguments are refused *)
  | step_refuse i done c rest e :
      sys_threads s !! i = Some (mkThread done None (c :: rest)) -> guarded c = Err e ->
      step s (mkSystem (sys_db s) (key_locks s)
                (<[i := mkThread (done ++ [(c, Err e)]) None rest]> (sys_threads s)))
  (** [key_lock(..)] returns: the mutex was free *)
  | step_lock i done c rest k p :
      sys_threads s !! i = Some (mkThread done None (c :: rest)) -> guarded c = Ok (k, p) ->
      shard c k ∉ key_locks s ->
      step s (mkSystem (sys_db s) ({[shard c k]} ∪ key_locks s)
                (<[i := mkThread done (Some (c, k, p)) rest]> (sys_threads s)))
  (** one database operation *)
  | step_op i done c k p rest p' d' :
      sys_threads s !! i = Some (mkThread done (Some (c, k, p)) rest) ->
      prog_step p (sys_db s) = Some (p', d') ->
      step s (mkSystem d' (key_locks s) (<[i := mkThread done (Some (c, k, p')) rest]> (sys_threads s)))
  (** the handler returns and drops its guard *)
  | step_return i done c k r rest :
      sys_threads s !! i = Some (mkThread done (Some (c, k, Ret r)) rest) ->
      step s (mkSystem (sys_db s) (key_locks s ∖ {[shard c k]})
                (<[i := mkThread (done ++ [(c, r)]) None rest]> (sys_threads s))).

(** ** The reference: one call after the other *)

Definition entry : Type := nat * (call * outcome RespValue).

(** The calls of a log run in order, each giving the reply of the log. *)
Fixpoint serial (log : list entry) d d' : Prop :=
  match log with
  | [] => d' = d
  | (_, (c, r)) :: log => exists d1, handler c d = (r, d1) /\ serial log d1 d'
  end.

(** What a log says of one thread. *)
Definition of_thread (i : nat) (log : list entry) : list (call * outcome RespValue) :=
  map snd (filter (fun e => e.1 = i) log).

Lemma serial_snoc log i c r d d1 d2 :
  serial log d d1 -> handler c d1 = (r, d2) -> serial (log ++ [(i, (c, r))]) d d2.
Proof.
  revert d. induction log as [|[j [c' r']] log IH]; intros d; simpl.
  - intros -> H. by exists d2.
  - intros (d' & H' & Hs) H. exists d'. by split; [|apply IH].
Qed.

Lemma of_thread_snoc i j e log :
  of_thread i (log ++ [(j, e)]) = of_thread i log ++ (if decide (j = i) then [e] else []).
Proof.
  unfold of_thread. rewrite filter_app, map_app, filter_cons. f_equal. simpl.
  by case_decide.
Qed.

(** ** The guarded programs *)

Lemma run_read_string ctx k f d :
  wf_db d ->
  run_prog (read_string_prog ctx k f) d = run_prog (resume (string_value ctx (meta_at d ctx k)) f) d.
Proof.
  intros H. unfold read_string_prog, get_meta_prog, meta_at. cbn [run_prog].
  erewrite bind_Ok by (apply get_run; [done|apply cf_metadata_in]).
  destruct (db_get d CF_METADATA (meta_key ctx k)) as [v|]; [done|].
  case_bool_decide; [done|]. cbn [run_prog].
  by erewrite bind_Ok by (apply get_run; [done|apply cf_metadata_in]).
Qed.

Lemma run_incr ctx name delta k d :
  wf_db d -> incr_by ctx name delta [k] d = run_prog (incr_prog ctx delta k) d.
Proof.
  intros H. unfold incr_prog. rewrite run_read_string, incr_by_run by done. unfold counter_at.
  destruct (string_value ctx (meta_at d ctx k)) as [[v|]| | |]; cbn [resume]; try done.
  - destruct (parse_text parse_i64 v) as [z|]; cbn [ok_or resume]; [|done]. case_goal; [|done].
    unfold write_string_prog. cbn [run_prog].
    by rewrite (bind_Ok _ _ _ _ _ (put_run _ _ _ _ H cf_metadata_in)).
  - case_goal; [|done]. unfold write_string_prog. cbn [run_prog].
    by rewrite (bind_Ok _ _ _ _ _ (put_run _ _ _ _ H cf_metadata_in)).
Qed.

Lemma run_append ctx k v d :
  wf_db d -> append ctx [k; v] d = run_prog (append_prog ctx k v) d.
Proof.
  intros H. unfold append_prog. rewrite run_read_string by done. unfold append.
  do 2 mrun. pose proof (read_string_run d ctx k H) as Hr.
  destruct (string_value ctx (meta_at d ctx k)) as [o|e| |];
    [|by erewrite bind_Err|by erewrite bind_Panic|unfold mbind, M_bind; by rewrite Hr].
  by rewrite (bind_Ok _ _ _ _ _ Hr).
Qed.

(** A handler is its check followed by its guarded program. *)
Lemma handler_guarded c d :
  wf_db d ->
  handler c d = match guarded c with
                | Ok (_, p) => run_prog p d
                | Err e => (Err e, d)
                | Panic => (Panic, d)
                | OutOfFuel => (OutOfFuel, d)
                end.
Proof.
  intros H. destruct c as [ctx op args]. unfold handler, guarded; cbn [c_op c_args c_ctx].
  destruct op, args as [|k [|v [|w rest]]]; try reflexivity;
    [by apply run_incr|by apply run_incr|by apply run_append].
Qed.

(** Reads of chosen keys, then at most one write, of the key [own]. *)
Inductive rmw (own : bytes) (reads : bytes -> Prop) : prog -> Prop :=
  | rmw_ret r : rmw own reads (Ret r)
  | rmw_get key k : reads key -> (forall v, rmw own reads (k v)) -> rmw own reads (Get key k)
  | rmw_put v r : rmw own reads (Put own v (Ret r)).

(** The reply of such a program and what it writes. *)
Fixpoint plan (p : prog) d : outcome RespValue * option bytes :=
  match p with
  | Ret r => (r, None)
  | Get key k => plan (k (db_get d CF_METADATA key)) d
  | Put _ v k => ((plan k d).1, Some v)
  end.

Definition effect (own : bytes) (w : option bytes) d : DB :=
  match w with Some v => db_write d [PutCf CF_METADATA own v] | None => d end.

Lemma run_plan own reads p d :
  wf_db d -> rmw own reads p -> run_prog p d = ((plan p d).1, effect own (plan p d).2 d).
Proof.
  intros H Hp. induction Hp as [r|key k Hk Hp IH|v r]; [done| |]; cbn [run_prog plan].
  - by rewrite (bind_Ok _ _ _ _ _ (get_run _ _ _ H cf_metadata_in)).
  - by rewrite (bind_Ok _ _ _ _ _ (put_run _ _ _ _ H cf_metadata_in)).
Qed.

Lemma plan_frame own reads p d d' :
  rmw own reads p ->
  (forall key, reads key -> db_get d' CF_METADATA key = db_get d CF_METADATA key) ->
  plan p d' = plan p d.
Proof.
  intros Hp Hr. induction Hp as [r|key k Hk Hp IH|v r]; [done| |done]. cbn [plan]. by rewrite Hr.
Qed.

(** The keys a handler on [k] reads. *)
Definition reads_of (ctx : CommandContext) (k key : bytes) : Prop :=
  key = meta_key ctx k \/ (namespace ctx <> [] /\ key = metadata_key k []).

Lemma rmw_resume {A} own reads (r : outcome A) f :
  (forall a, rmw own reads (f a)) -> rmw own reads (resume r f).
Proof. intros Hf. destruct r; simpl; [done|constructor..]. Qed.

Lemma rmw_read_string ctx k f :
  (forall o, rmw (meta_key ctx k) (reads_of ctx k) (f o)) ->
  rmw (meta_key ctx k) (reads_of ctx k) (read_string_prog ctx k f).
Proof.
  intros Hf. constructor; [by left|]. intros [v|]; [by apply rmw_resume|].
  case_bool_decide; [by apply rmw_resume|]. constructor; [by right|]. intros v. by apply rmw_resume.
Qed.

Lemma guarded_rmw c k p :
  guarded c = Ok (k, p) -> rmw (meta_key (c_ctx c) k) (reads_of (c_ctx c) k) p.
Proof.
  destruct c as [ctx op args]. unfold guarded; cbn [c_op c_args c_ctx].
  assert (forall delta k, rmw (meta_key ctx k) (reads_of ctx k) (incr_prog ctx delta k)) as Hi.
  { intros delta k0. apply rmw_read_string. intros o. apply rmw_resume. intros z.
    case_goal; constructor. }
  destruct op, args as [|k0 [|v [|]]]; intros [= <- <-]; [apply Hi..|].
  apply rmw_read_string. intros o. constructor.
Qed.

(** ** The invariant *)

(** The calls of one server: the same namespace, and keys of usual length. *)
Definition sane (ns : bytes) c : Prop :=
  namespace (c_ctx c) = ns /\ forall k p, guarded c = Ok (k, p) -> short (c_ctx c) k.

Definition calls_of (t : thread) : list call :=
  map fst (t_done t) ++ (match t_current t with Some (c, _, _) => [c] | None => [] end) ++ t_todo t.

Definition holds (t : thread) (x : Z) : Prop :=
  match t_current t with Some (c, k, _) => shard c k = x | None => False end.

(** A thread against its part of the log: between two calls, in a call that
    has not written yet and would do now what it would have done at its start,
    or in a call that has written. *)
Inductive thread_ok d (log : list (call * outcome RespValue)) : thread -> Prop :=
  | ok_idle rest : thread_ok d log (mkThread log None rest)
  | ok_before c k p0 p rest :
      guarded c = Ok (k, p0) -> rmw (meta_key (c_ctx c) k) (reads_of (c_ctx c) k) p -> plan p d = plan p0 d ->
      thread_ok d log (mkThread log (Some (c, k, p)) rest)
  | ok_after done c k p0 r rest :
      guarded c = Ok (k, p0) -> log = done ++ [(c, r)] -> thread_ok d log (mkThread done (Some (c, k, Ret r)) rest).

Section Invariant.
Variable l : list (list call).
Variable ns : bytes.
Variable d0 : DB.
Hypothesis Hsane : Forall (Forall (sane ns)) l.

Record inv (s : system) (log : list entry) : Prop := {
  inv_serial : serial log d0 (sys_db s);
  inv_wf : wf_db (sys_db s);
  inv_threads i t : sys_threads s !! i = Some t ->
    thread_ok (sys_db s) (of_thread i log) t /\ l !! i = Some (calls_of t);
  inv_held x : x ∈ key_locks s <-> exists i t, sys_threads s !! i = Some t /\ holds t x;
  inv_excl i j t t' x : sys_threads s !! i = Some t -> sys_threads s !! j = Some t' ->
    holds t x -> holds t' x -> i = j }.

Lemma begin_inv : wf_db d0 -> inv (begin l d0) [].
Proof.
  intros H. assert (forall i t, sys_threads (begin l d0) !! i = Some t ->
    exists cs, l !! i = Some cs /\ t = mkThread [] None cs) as Hb.
  { intros i t. simpl. rewrite list_lookup_fmap. intros (cs & ? & ?)%fmap_Some. eauto. }
  split; [done|done| | |].
  - intros i t (cs & E & ->)%Hb. split; [constructor|done].
  - intros x. simpl. split; [by intros ?%not_elem_of_empty|].
    intros (i & t & (cs & _ & ->)%Hb & []).
  - intros i j t t' x (cs & _ & ->)%Hb _ [].
Qed.

(** Two calls of different mutexes: the write of one is not read by the other. *)
Lemma other_write d c k p c' k' p' v :
  sane ns c -> sane ns c' -> guarded c = Ok (k, p) -> guarded c' = Ok (k', p') ->
  shard c k <> shard c' k' ->
  forall key, reads_of (c_ctx c) k key ->
    db_get (db_write d [PutCf CF_METADATA (meta_key (c_ctx c') k') v]) CF_METADATA key
    = db_get d CF_METADATA key.
Proof.
  intros [Hn Hk] [Hn' Hk'] Hg Hg' Hx key Hr. specialize (Hk _ _ Hg). specialize (Hk' _ _ Hg').
  rewrite db_get_write, batch_effect_frame; [done|]. constructor; [|done]. simpl. intros [= E].
  unfold shard in Hx. unfold meta_key in Hx, E. destruct Hr as [->|[Hne ->]].
  - unfold meta_key in E. by rewrite E in Hx.
  - rewrite Hn' in E. apply (meta_key_legacy_ne (c_ctx c) k' k); [|done|done|unfold meta_key; by rewrite Hn].
    destruct Hk as [_ Hs], Hk' as [Hs' _]. by split.
Qed.

(** Thread [i] moves. *)
Lemma inv_move s log i t t' d' locks' log' :
  inv s log -> sys_threads s !! i = Some t ->
  serial log' d0 d' -> wf_db d' -> thread_ok d' (of_thread i log') t' -> calls_of t' = calls_of t ->
  (forall j tj, j <> i -> sys_threads s !! j = Some tj ->
     thread_ok (sys_db s) (of_thread j log) tj -> thread_ok d' (of_thread j log') tj) ->
  (forall x, x ∈ locks' <-> holds t' x \/ (x ∈ key_locks s /\ ~ holds t x)) ->
  (forall x, holds t' x -> holds t x \/ x ∉ key_locks s) ->
  inv (mkSystem d' locks' (<[i := t']> (sys_threads s))) log'.
Proof.
  intros [Hs Hw Ht Hh He] Hi Hs' Hw' Ht' Hc Hf Hl Hn.
  assert (forall j tj, <[i := t']> (sys_threads s) !! j = Some tj ->
    (j = i /\ tj = t') \/ (j <> i /\ sys_threads s !! j = Some tj)) as Hlook.
  { intros j tj. destruct (decide (j = i)) as [->|Hj]; [|rewrite list_lookup_insert_ne by done; auto].
    rewrite list_lookup_insert_eq by (by eapply lookup_lt_Some). intros [= <-]. auto. }
  split; [done|done| | |]; simpl.
  - intros j tj [[-> ->]|[Hj E]]%Hlook; [rewrite Hc; split; [done|by apply Ht]|].
    destruct (Ht _ _ E) as [Ho Hcj]. split; [by apply Hf|done].
  - intros x. rewrite Hl. split.
    + intros [Hx|[(j & tj & E & Hx)%Hh Hnx]].
      * exists i, t'. by rewrite list_lookup_insert_eq by (by eapply lookup_lt_Some).
      * exists j, tj. rewrite list_lookup_insert_ne; [done|]. intros ->. by simplify_eq.
    + intros (j & tj & [[-> ->]|[Hj E]]%Hlook & Hx); [by left|]. right. split; [apply Hh; eauto|].
      intros Hx'. apply Hj. by eapply He.
  - assert (forall j tj x, j <> i -> sys_threads s !! j = Some tj -> holds t' x -> holds tj x -> False) as Hd.
    { intros j tj x Hj E Hx Hx'. destruct (Hn _ Hx) as [Hx2|Hx2]; [by apply Hj; eapply He|].
      apply Hx2, Hh. eauto. }
    intros j j' tj tj' x [[-> ->]|[Hj E]]%Hlook [[-> ->]|[Hj' E']]%Hlook Hx Hx'; [done|..|by eapply He];
      exfalso; eauto.
Qed.

(** The call that ends a thread's part of the log is the one it is in. *)
Lemma calls_return done c k p r rest :
  calls_of (mkThread (done ++ [(c, r)]) None rest) = calls_of (mkThread done (Some (c, k, p)) rest).
Proof. unfold calls_of. simpl. by rewrite map_app, <- app_assoc. Qed.

Lemma of_thread_other i j e log : j <> i -> of_thread j (log ++ [(i, e)]) = of_thread j log.
Proof. intros Hj. rewrite of_thread_snoc, decide_False by done. apply app_nil_r. Qed.

Lemma of_thread_same i e log : of_thread i (log ++ [(i, e)]) = of_thread i log ++ [e].
Proof. by rewrite of_thread_snoc, decide_True. Qed.

Lemma thread_sane s log i t c : inv s log -> sys_threads s !! i = Some t -> c ∈ calls_of t -> sane ns c.
Proof.
  intros H Hi Hc. destruct (inv_threads _ _ H _ _ Hi) as [_ El].
  eapply Forall_forall in Hsane; [|by eapply list_elem_of_lookup_2]. by eapply Forall_forall in Hsane.
Qed.

Lemma thread_ok_log d log log' t : log = log' -> thread_ok d log t -> thread_ok d log' t.
Proof. by intros ->. Qed.

(** A guarded program that has not written yet ends as the handler would. *)
Lemma handler_now d c k p0 p :
  wf_db d -> guarded c = Ok (k, p0) -> plan p d = plan p0 d ->
  handler c d = ((plan p d).1, effect (meta_key (c_ctx c) k) (plan p d).2 d).
Proof.
  intros H Hg Hp. rewrite handler_guarded, Hg, Hp by done.
  apply (run_plan _ _ _ _ H (guarded_rmw _ _ _ Hg)).
Qed.

(** The other threads do not notice the write of a call. *)
Lemma others_keep s log i t c k p0 v done p rest j tj :
  inv s log -> sys_threads s !! i = Some t -> t = mkThread done (Some (c, k, p)) rest ->
  guarded c = Ok (k, p0) -> j <> i -> sys_threads s !! j = Some tj ->
  thread_ok (sys_db s) (of_thread j log) tj ->
  thread_ok (db_write (sys_db s) [PutCf CF_METADATA (meta_key (c_ctx c) k) v]) (of_thread j log) tj.
Proof.
  intros Hinv Hi -> Hg Hj Ej Hok.
  inversion Hok as [rest'|c' k' q0 q rest' Hg' Hr Hp|done' c' k' q0 r' rest' Hg' E]; subst tj; [constructor| |];
    [|by eapply ok_after].
  eapply ok_before; [done|done|].
  assert (forall key, reads_of (c_ctx c') k' key ->
    db_get (db_write (sys_db s) [PutCf CF_METADATA (meta_key (c_ctx c) k) v]) CF_METADATA key
    = db_get (sys_db s) CF_METADATA key) as Hf.
  { apply (other_write _ c' k' q0 c k p0 v); [eapply (thread_sane s log j); [done..|]|
      eapply (thread_sane s log i); [done..|]|done|done|].
    - unfold calls_of. simpl. set_solver.
    - unfold calls_of. simpl. set_solver.
    - intros E. apply Hj. by eapply (inv_excl _ _ Hinv j i _ _ (shard c k)). }
  rewrite (plan_frame _ _ q _ _ Hr Hf), Hp. symmetry. by apply (plan_frame _ _ q0 _ _ (guarded_rmw _ _ _ Hg')).
Qed.

Lemma keep_held s log i t t' :
  inv s log -> sys_threads s !! i = Some t -> (forall x, holds t' x <-> holds t x) ->
  forall x, x ∈ key_locks s <-> holds t' x \/ (x ∈ key_locks s /\ ~ holds t x).
Proof.
  intros Hinv Hi Ht x. rewrite Ht. split.
  - intros Hx. assert (Decision (holds t x)) as [?|?] by (unfold holds; repeat case_match; apply _); auto.
  - intros [Hx|[Hx _]]; [|done]. apply (inv_held _ _ Hinv). eauto.
Qed.

Lemma step_inv s s' log : inv s log -> step s s' -> exists new, inv s' (log ++ new).
Proof.
  intros Hinv Hstep. pose proof (inv_wf _ _ Hinv) as Hw. pose proof (inv_serial _ _ Hinv) as Hs.
  destruct Hstep as [i done c rest e Hi Hg|i done c rest k p Hi Hg Hx|i done c k p rest p' d' Hi Hp|i done c k r rest Hi];
    destruct (inv_threads _ _ Hinv _ _ Hi) as [Hok _].
  - exists [(i, (c, Err e))]. inversion Hok; subst. eapply (inv_move s log i); try done.
    + eapply serial_snoc; [done|]. by rewrite handler_guarded, Hg.
    + rewrite of_thread_same. constructor.
    + unfold calls_of. simpl. by rewrite map_app, <- app_assoc.
    + intros j tj Hj _. apply thread_ok_log. by rewrite of_thread_other.
    + intros x. unfold holds. cbn. naive_solver.
  - exists []. rewrite app_nil_r. inversion Hok; subst. eapply (inv_move s log i); try done.
    + eapply ok_before; [done|by apply guarded_rmw|done].
    + intros x. rewrite elem_of_union, elem_of_singleton. simpl. naive_solver.
    + intros x. simpl. intros <-. by right.
  - inversion Hok as [|c' k' p0 q rest' Hg Hr Hpl|done' c' k' p0 r rest' Hg E]; subst; [|done].
    inversion Hr as [r|key f Hkey Hf|v r]; subst; [done| |]; simpl in Hp.
    + rewrite get_run in Hp by (done || apply cf_metadata_in). injection Hp as <- <-.
      exists []. rewrite app_nil_r. eapply (inv_move s log i); try done.
      * eapply ok_before; [done|by apply Hf|done].
      * by eapply keep_held.
      * auto.
    + rewrite put_run in Hp by (done || apply cf_metadata_in). injection Hp as <- <-.
      exists [(i, (c, r))]. eapply (inv_move s log i); try done.
      * eapply serial_snoc; [done|]. by rewrite (handler_now _ _ _ _ _ Hw Hg Hpl).
      * by apply wf_write.
      * rewrite of_thread_same. by eapply ok_after.
      * intros j tj Hj Ej Ho. rewrite of_thread_other by done. eapply others_keep; [exact Hinv|exact Hi|reflexivity|exact Hg|exact Hj|exact Ej|exact Ho].
      * by eapply keep_held.
      * auto.
  - assert (forall x, x ∈ key_locks s ∖ {[shard c k]} <->
      False \/ (x ∈ key_locks s /\ ~ shard c k = x)) as Hl by set_solver.
    inversion Hok as [|c' k' p0 q rest' Hg Hr Hpl|done' c' k' p0 r' rest' Hg E]; subst.
    + exists [(i, (c, r))]. eapply (inv_move s log i); try done.
      * eapply serial_snoc; [done|]. by rewrite (handler_now _ _ _ _ _ Hw Hg Hpl).
      * rewrite of_thread_same. constructor.
      * apply calls_return.
      * intros j tj Hj _. apply thread_ok_log. by rewrite of_thread_other.
    + exists []. rewrite app_nil_r. eapply (inv_move s log i); try done.
      * rewrite E. constructor.
      * apply calls_return.
Qed.

Lemma steps_inv s s' log : inv s log -> rtc step s s' -> exists log', inv s' log'.
Proof.
  intros Hi Hr. revert log Hi. induction Hr as [|s1 s2 s3 Hs _ IH]; intros log Hi; [eauto|].
  destruct (step_inv _ _ _ Hi Hs) as [new Hn]. by eapply IH.
Qed.

End Invariant.

(** ** Progress *)

(** Every path of a program has at most [n] operations. *)
Inductive within : nat -> prog -> Prop :=
  | within_ret n r : within n (Ret r)
  | within_get n key k : (forall v, within n (k v)) -> within (S n) (Get key k)
  | within_put n key v k : within n k -> within (S n) (Put key v k).

Lemma within_resume {A} n (r : outcome A) f : (forall a, within n (f a)) -> within n (resume r f).
Proof. intros Hf. destruct r; simpl; [done|constructor..]. Qed.

Lemma within_step n p d p' d' : prog_step p d = Some (p', d') -> within n p -> exists m, n = S m /\ within m p'.
Proof.
  intros Hp Hn. destruct Hn as [|n key k Hk|n key v k Hk]; simpl in Hp; [done| |]; exists n; (split; [done|]).
  - destruct (Storage.get CF_METADATA key d) as [r d1]. injection Hp as <- _. by apply within_resume.
  - destruct (put CF_METADATA key v d) as [r d1]. injection Hp as <- _. by apply within_resume.
Qed.

Lemma within_le n m p : within n p -> (n <= m)%nat -> within m p.
Proof.
  intros Hn. revert m. induction Hn as [|n key k Hk IH|n key v k Hk IH]; intros m Hm; [constructor|..];
    (destruct m as [|m]; [lia|]); constructor; [intros v|]; apply IH; lia.
Qed.

Lemma within_read_string ctx k f : (forall o, within 1 (f o)) -> within 3 (read_string_prog ctx k f).
Proof.
  intros Hf. assert (forall m, within 1 (resume (string_value ctx m) f)) as Hm
    by (intros m; by apply within_resume).
  constructor. intros [v|]; [by eapply within_le; [apply Hm|lia]|].
  case_bool_decide; [by eapply within_le; [apply Hm|lia]|]. by constructor.
Qed.

Lemma guarded_within c k p : guarded c = Ok (k, p) -> within 3 p.
Proof.
  destruct c as [ctx op args]. unfold guarded; cbn [c_op c_args c_ctx].
  assert (forall delta k, within 3 (incr_prog ctx delta k)) as Hi.
  { intros delta k0. apply within_read_string. intros o. apply within_resume. intros z.
    case_goal; repeat constructor. }
  destruct op, args as [|k0 [|v [|]]]; intros [= <- <-]; [apply Hi..|].
  apply within_read_string. intros o. repeat constructor.
Qed.

(** An upper bound on the steps a thread still takes: five for a call (the
    lock, two reads, a write, the return). *)
Definition budget (t : thread) (n : nat) : Prop :=
  exists m, (match t_current t with None => m = 0%nat | Some (_, _, p) => exists q, within q p /\ m = S q end)
            /\ n = (5 * length (t_todo t) + m)%nat.

Definition total (s : system) (n : nat) : Prop :=
  exists ns, Forall2 budget (sys_threads s) ns /\ n = sum_list ns.

Lemma sum_list_insert (ns : list nat) i n n' :
  ns !! i = Some n -> (sum_list (<[i:=n']> ns) + n = sum_list ns + n')%nat.
Proof.
  revert i. induction ns as [|x ns IH]; intros [|i] Hi; simplify_eq/=; [lia|].
  specialize (IH i Hi). lia.
Qed.

Lemma total_step s s' N : step s s' -> total s N -> exists N', total s' N' /\ (N' < N)%nat.
Proof.
  assert (forall i t t' d' locks', sys_threads s !! i = Some t ->
    (forall n, budget t n -> exists m, budget t' m /\ (m < n)%nat) -> total s N ->
    exists N', total (mkSystem d' locks' (<[i := t']> (sys_threads s))) N' /\ (N' < N)%nat) as Hmove.
  { intros i t t' d' locks' Hi Hb (ns & Hns & ->).
    destruct (Forall2_lookup_l _ _ _ _ _ Hns Hi) as (n & Hn & Hbn). destruct (Hb n Hbn) as (m & Hm & Hlt).
    exists (sum_list (<[i := m]> ns)). split; [|pose proof (sum_list_insert ns i n m Hn); lia].
    exists (<[i := m]> ns). split; [by apply Forall2_insert|done]. }
  intros Hstep. destruct Hstep as [i done c rest e Hi Hg|i done c rest k p Hi Hg Hx|i done c k p rest p' d' Hi Hp|i done c k r rest Hi];
    apply (Hmove _ _ _ _ _ Hi); intros n (m & Hm & ->); cbn [t_current t_todo length] in *.
  - subst m. eexists. split; [by exists 0%nat|]. simpl. lia.
  - subst m. eexists. split; [exists 4%nat; split; [exists 3%nat; by split; [eapply guarded_within|]|done]|].
    simpl. lia.
  - destruct Hm as (q & Hq & ->). destruct (within_step _ _ _ _ _ Hp Hq) as (q' & -> & Hq').
    eexists. split; [exists (S q'); split; [by exists q'|done]|]. simpl. lia.
  - destruct Hm as (q & Hq & ->). eexists. split; [by exists 0%nat|]. simpl. lia.
Qed.

Lemma total_steps s s' n N : nsteps step n s s' -> total s N -> (n <= N)%nat.
Proof.
  intros Hn. revert N. induction Hn as [|n s1 s2 s3 Hs Hn IH]; intros N HN; [lia|].
  destruct (total_step _ _ _ Hs HN) as (N' & HN' & Hlt). specialize (IH _ HN'). lia.
Qed.

Lemma begin_total l d : total (begin l d) (5 * sum_list (map length l)).
Proof.
  exists (map (fun cs => 5 * length cs)%nat l). split; simpl.
  - induction l as [|cs l IH]; simpl; constructor; [|done]. exists 0%nat. split; [done|simpl; lia].
  - induction l as [|cs l IH]; simpl; lia.
Qed.

Definition finished (t : thread) : Prop := t_current t = None /\ t_todo t = [].

(** A thread in a call can go on. *)
Lemma in_call_moves s i done c k p rest :
  sys_threads s !! i = Some (mkThread done (Some (c, k, p)) rest) -> exists s', step s s'.
Proof.
  intros Hi. destruct (prog_step p (sys_db s)) as [[p' d']|] eqn:Hp; [eexists; by eapply step_op|].
  destruct p as [r|key f|key v f]; simpl in Hp; [eexists; by eapply step_return| |];
    exfalso; by case_match.
Qed.

(** Some thread can move unless all have finished. *)
Lemma unfinished_moves l d0 s log i t :
  inv l d0 s log -> sys_threads s !! i = Some t -> finished t \/ exists s', step s s'.
Proof.
  intros Hinv Hi. destruct t as [done [[[c k] p]|] todo]; [right; by eapply in_call_moves|].
  destruct todo as [|c rest]; [by left|]. right.
  assert ((exists e, guarded c = Err e) \/ exists k p, guarded c = Ok (k, p)) as [[e Hg]|(k & p & Hg)].
  { unfold guarded. destruct (c_op c), (c_args c) as [|? [|? [|]]]; eauto. }
  - eexists. by eapply step_refuse.
  - destruct (decide (shard c k ∈ key_locks s)) as [Hx|Hx]; [|eexists; by eapply step_lock].
    apply (inv_held _ _ _ _ Hinv) in Hx as (j & [done' [[[c' k'] p']|] todo'] & Hj & Hh); [|by destruct Hh].
    by eapply in_call_moves.
Qed.

Lemma deadlock_free l d0 s log :
  inv l d0 s log -> (forall s', ~ step s s') -> Forall finished (sys_threads s).
Proof.
  intros Hinv Hstuck. apply Forall_lookup. intros i t Hi.
  destruct (unfinished_moves _ _ _ _ _ _ Hinv Hi) as [?|[s' Hs]]; [done|]. by destruct (Hstuck s').
Qed.

(** ** Running a schedule *)

(** The next step of thread [i], [None] when it waits or has finished. *)
Definition advance (i : nat) (s : system) : option system :=
  match sys_threads s !! i with
  | Some (mkThread done None (c :: rest)) =>
      match guarded c with
      | Ok (k, p) =>
          if decide (shard c k ∈ key_locks s) then None
          else Some (mkSystem (sys_db s) ({[shard c k]} ∪ key_locks s)
                       (<[i := mkThread done (Some (c, k, p)) rest]> (sys_threads s)))
      | Err e => Some (mkSystem (sys_db s) (key_locks s)
                         (<[i := mkThread (done ++ [(c, Err e)]) None rest]> (sys_threads s)))
      | _ => None
      end
  | Some (mkThread done (Some (c, k, Ret r)) rest) =>
      Some (mkSystem (sys_db s) (key_locks s ∖ {[shard c k]})
              (<[i := mkThread (done ++ [(c, r)]) None rest]> (sys_threads s)))
  | Some (mkThread done (Some (c, k, p)) rest) =>
      match prog_step p (sys_db s) with
      | Some (p', d') => Some (mkSystem d' (key_locks s) (<[i := mkThread done (Some (c, k, p')) rest]> (sys_threads s)))
      | None => None
      end
  | _ => None
  end.

Lemma advance_step i s s' : advance i s = Some s' -> step s s'.
Proof.
  unfold advance. destruct (sys_threads s !! i) as [[past [[[c k] p]|] todo]|] eqn:Hi; [| |done].
  - destruct (prog_step p (sys_db s)) as [[p' d']|] eqn:Hp.
    + destruct p; [done|..]; intros [= <-]; by eapply step_op.
    + destruct p; [|done..]. intros [= <-]. by eapply step_return.
  - destruct todo as [|c rest]; [done|]. destruct (guarded c) as [[k p]|e| |] eqn:Hg; [| |done..].
    + case_decide; [done|]. intros [= <-]. by eapply step_lock.
    + intros [= <-]. by eapply step_refuse.
Qed.

Fixpoint follow (schedule : list nat) (s : system) : option system :=
  match schedule with
  | [] => Some s
  | i :: schedule => s' ← advance i s; follow schedule s'
  end.

Lemma follow_steps schedule s s' : follow schedule s = Some s' -> nsteps step (length schedule) s s'.
Proof.
  revert s. induction schedule as [|i schedule IH]; intros s; simpl; [intros [= <-]; constructor|].
  intros (s1 & H1%advance_step & H2)%bind_Some. econstructor; [done|by apply IH].
Qed.

(** ** Properties *)

(** C19: the key locks make INCR, DECR and APPEND atomic. However the threads
    interleave, no two of them hold the same mutex, and there is one order of
    the calls in which the handlers, run one after the other, give the replies
    the threads have received and the same database; each thread's calls occur
    in it in the order the thread makes them, a call under way at most once
    and last. *)
Theorem locked_serializable l ns d0 s :
  wf_db d0 -> Forall (Forall (sane ns)) l -> rtc step (begin l d0) s ->
  (forall i j t t' x, sys_threads s !! i = Some t -> sys_threads s !! j = Some t' ->
     holds t x -> holds t' x -> i = j)
  /\ exists log, serial log d0 (sys_db s)
     /\ forall i t, sys_threads s !! i = Some t ->
          l !! i = Some (calls_of t)
          /\ (of_thread i log = t_done t
              \/ exists c k r, t_current t = Some (c, k, Ret r) /\ of_thread i log = t_done t ++ [(c, r)]).
Proof.
  intros Hw Hsane Hr. destruct (steps_inv l ns d0 Hsane _ _ [] (begin_inv l d0 Hw) Hr) as [log Hinv].
  split; [intros; by eapply (inv_excl _ _ _ _ Hinv)|]. exists log. split; [apply Hinv|].
  intros i t Hi. destruct (inv_threads _ _ _ _ Hinv _ _ Hi) as [Hok Hc]. split; [done|].
  destruct Hok; simpl; [by left|by left|right; eauto].
Qed.

(** C20: the key locks never deadlock: threads take at most five steps for each
    call, and when no thread can move every call has been answered. *)
Theorem locks_live l ns d0 s n :
  wf_db d0 -> Forall (Forall (sane ns)) l -> nsteps step n (begin l d0) s ->
  (n <= 5 * sum_list (map length l))%nat
  /\ ((forall s', ~ step s s') -> Forall finished (sys_threads s)).
Proof.
  intros Hw Hsane Hn. split; [eapply total_steps; [done|apply begin_total]|].
  apply rtc_nsteps_2 in Hn.
  destruct (steps_inv l ns d0 Hsane _ _ [] (begin_inv l d0 Hw) Hn) as [log Hinv].
  by eapply deadlock_free.
Qed.

End Locks.

(** ** A concrete run *)

Definition incr_k : call := mkCall ctx0 LIncr [bs "k"].
Definition append_k : call := mkCall ctx0 LAppend [bs "k"; bs "0"].
Definition incr_j : call := mkCall ctx0 LIncr [bs "jj"].

(** Three threads, two of them on one key; a digest that separates the keys. *)
Definition three : list (list call) := [[incr_k; incr_k]; [append_k]; [incr_j]].
Definition three_start : system := begin three db0.

(** The third thread works between the operations of the first; the second
    cannot move until the first has returned. *)
Definition mixed : list nat := [0; 2; 0; 2; 0; 2; 2; 0; 1; 1; 1; 1; 0; 0; 0; 0]%nat.

Definition after_mixed : system := default three_start (follow blen mixed three_start).

Lemma three_sane : Forall (Forall (sane [])) three.
Proof.
  repeat match goal with |- Forall _ _ => constructor end; (split; [reflexivity|]);
    intros k p; unfold guarded; cbn; intros [= <- _]; apply short0; simpl; lia.
Qed.

Example mixed_replies :
  map t_done (sys_threads after_mixed)
  = [[(incr_k, Ok (Integer 1)); (incr_k, Ok (Integer 11))]; [(append_k, Ok (Integer 2))]; [(incr_j, Ok (Integer 1))]].
Proof. vm_compute. reflexivity. Qed.

Lemma locked_serializable_witness :
  exists log, serial log db0 (sys_db after_mixed) /\ length (of_thread 0 log) = 2%nat.
Proof.
  assert (nsteps (step blen) (length mixed) three_start after_mixed) as Hn
    by (apply follow_steps; vm_compute; reflexivity).
  destruct (locked_serializable blen three [] db0 after_mixed (mem_wf ∅) three_sane (rtc_nsteps_2 _ _ _ Hn))
    as (_ & log & Hs & Ht).
  exists log. split; [exact Hs|]. destruct (Ht 0%nat (default (mkThread [] None []) (sys_threads after_mixed !! 0%nat)))
    as [_ [E|(c & k & r & E & _)]].
  - vm_compute. reflexivity.
  - rewrite E. vm_compute. reflexivity.
  - vm_compute in E. discriminate E.
Defined.

Lemma locks_live_witness :
  (length mixed <= 20)%nat /\ Forall finished (sys_threads after_mixed).
Proof.
  assert (nsteps (step blen) (length mixed) three_start after_mixed) as Hn
    by (apply follow_steps; vm_compute; reflexivity).
  destruct (locks_live blen three [] db0 after_mixed _ (mem_wf ∅) three_sane Hn) as [H1 H2].
  split; [exact H1|]. apply H2. intros s' Hs.
  inversion Hs as [i|i|i|i]; subst; vm_compute in H;
    repeat (destruct i as [|i]; vm_compute in H; try discriminate H).
Defined.

(** SET takes no lock: between the read and the write of an INCR it is lost,
    and the key ends with a value that neither order of the two commands
    gives. *)
Example set_races_with_incr :
  let k := bs "k" in
  let d := (StringCmd.set ctx0 [k; bs "5"] db0).2 in
  let before := follow blen [0; 0]%nat (begin [[incr_k]] d) in
  let during := (fun s => mkSystem (StringCmd.set ctx0 [k; bs "10"] (sys_db s)).2 (key_locks s) (sys_threads s)) <$> before in
  let after := during ≫= follow blen [0; 0]%nat in
  (fun s => (StringCmd.get ctx0 [k] (sys_db s)).1) <$> after = Some (Ok (bulk (bs "6")))
  /\ (StringCmd.get ctx0 [k] (StringCmd.set ctx0 [k; bs "10"] (incr ctx0 [k] d).2).2).1 = Ok (bulk (bs "10"))
  /\ (StringCmd.get ctx0 [k] (incr ctx0 [k] (StringCmd.set ctx0 [k; bs "10"] d).2).2).1 = Ok (bulk (bs "11")).
Proof. vm_compute. repeat split. Qed.
