(* ===== verification/HashCmd.v ===== *)
(** * Hash commands (src/cmd/hash.rs)

    HSET, HGET, HMGET, HGETALL, HDEL, HEXISTS, HLEN and HSCAN, refined to
    operations on a finite map from fields to values. *)

From S2P Require Import Prelude Bytes Text Error Types Encoding Backend Storage Protocol Context.
From S2P Require Import Keyspace.

Local Open Scope Z_scope.

Definition HASH_PAGE_SIZE : Z := 1024.

Definition decode_and_check_hash (v : bytes) : outcome (option Metadata) :=
  match v with
  | [] => Err (Protocol (bs "empty metadata value"))
  | b :: _ =>
      if type_code b =? code DString then Err wrong_type_error
      else
        meta ← ok_or (decode_metadata v) (Protocol (bs "invalid metadata encoding"));
        if negb (bool_decide (data_type meta = Some DHash)) then Err wrong_type_error
        else Ok (Some meta)
  end.

(** [format!("{:02x}", b)]. *)
Definition hex_byte (b : byte) : bytes :=
  [digit_of (byte_to_Z b / 16); digit_of (byte_to_Z b mod 16)].

Definition encode_cursor (key : bytes) : bytes :=
  match key with
  | [] => bs "0"
  | _ => concat (map hex_byte key)
  end.

(** The bytes of [s] in steps of two: slicing a [str] off a character boundary
    panics, and the first pair that is no hexadecimal number ends the walk. *)
Fixpoint cursor_bytes (s l : bytes) (i : nat) : outcome (option bytes) :=
  match l with
  | a :: b :: rest =>
      if negb (is_char_boundary s i && is_char_boundary s (i + 2)) then Panic
      else match parse_radix 16 0 255 [a; b] with
           | None => Ok None
           | Some z =>
               r ← cursor_bytes s rest (i + 2);
               match r with
               | Some r => Ok (Some (byte_of_Z z :: r))
               | None => Ok None
               end
           end
  | _ => Ok (Some [])
  end.

Definition decode_cursor (s : bytes) : outcome (option bytes) :=
  if bool_decide (s = []) || bool_decide (s = bs "0") then Ok (Some [])
  else if negb (Nat.eqb (length s mod 2) 0) then Ok None
  else cursor_bytes s s 0.

Section HashCommands.
Context {DB : Type} {RDB : RocksDB DB}.
Variable ctx : CommandContext.

Definition read_hash_meta (user_key : bytes) : M DB (option Metadata) :=
  m ← get_meta ctx user_key;
  match m with
  | Some v => lift (decode_and_check_hash v)
  | None => mret None
  end.

Definition ensure_hash_meta (user_key : bytes) : M DB Metadata :=
  m ← read_hash_meta user_key;
  match m with
  | Some meta => mret meta
  | None => mret (metadata_new DHash (new_version ctx))
  end.

(** One field of HSET: the metadata, the batch and the number added so far. *)
Definition hset_field (user_key : bytes) (st : Metadata * WriteBatch * Z)
    (pair : bytes * bytes) : M DB (Metadata * WriteBatch * Z) :=
  let '(meta, batch, added) := st in
  let sk := sub_key ctx user_key (md_version meta) pair.1 in
  old ← Storage.get CF_SUBKEY sk;
  batch ← batch_put batch CF_SUBKEY sk pair.2;
  match old with
  | Some _ => mret (meta, batch, added)
  | None =>
      size ← arith_u64 (checks ctx) (md_size meta + 1);
      added ← arith_i64 (checks ctx) (added + 1);
      mret (set_size size meta, batch, added)
  end.

Definition hset (args : list bytes) : M DB RespValue :=
  _ ← expect_min_arg_count "HSET" args 3;
  if Nat.eqb (length args mod 2) 0 then throw (WrongArgCount (bs "HSET"))
  else
    user_key ← index args 0;
    meta ← ensure_hash_meta user_key;
    '(meta, batch, added) ← mfold (hset_field user_key) (meta, [], 0) (pairs (drop 1 args));
    batch ← batch_put batch CF_METADATA (meta_key ctx user_key) (encode_metadata meta);
    _ ← write batch;
    mret (Integer added).

Definition hget (args : list bytes) : M DB RespValue :=
  _ ← expect_arg_count "HGET" args 2;
  user_key ← index args 0;
  field ← index args 1;
  m ← read_hash_meta user_key;
  match m with
  | None => mret nil_reply
  | Some meta =>
      v ← Storage.get CF_SUBKEY (sub_key ctx user_key (md_version meta) field);
      mret (BulkString v)
  end.

Definition hmget (args : list bytes) : M DB RespValue :=
  _ ← expect_min_arg_count "HMGET" args 2;
  user_key ← index args 0;
  m ← read_hash_meta user_key;
  match m with
  | None => mret (Array (repeat nil_reply (length args - 1)))
  | Some meta =>
      result ← mfold (fun result field =>
        v ← Storage.get CF_SUBKEY (sub_key ctx user_key (md_version meta) field);
        mret (result ++ [BulkString v])) [] (drop 1 args);
      mret (Array result)
  end.

(** The loop body of HGETALL and HSCAN. *)
Definition push_entry (result : list RespValue) (item : kv) : outcome (ctrl (list RespValue)) :=
  '(_, _, field) ← ok_or (ctx_parse_subkey ctx item.1) (Protocol (bs "invalid subkey encoding"));
  Ok (Continue (result ++ [bulk field; bulk item.2])).

Definition hgetall (args : list bytes) : M DB RespValue :=
  _ ← expect_arg_count "HGETALL" args 1;
  user_key ← index args 0;
  m ← read_hash_meta user_key;
  match m with
  | None => mret (Array [])
  | Some meta =>
      let prefix := sub_key ctx user_key (md_version meta) [] in
      capacity ← arith_u64 (checks ctx) (md_size meta * 2);
      if capacity_overflow (resp_size ctx) capacity then panic
      else
        result ← page_walk CF_SUBKEY prefix HASH_PAGE_SIZE push_entry [];
        mret (Array result)
  end.

(** One field of HDEL. *)
Definition hdel_field (user_key : bytes) (st : Metadata * WriteBatch * Z) (field : bytes)
  : M DB (Metadata * WriteBatch * Z) :=
  let '(meta, batch, deleted) := st in
  let sk := sub_key ctx user_key (md_version meta) field in
  old ← Storage.get CF_SUBKEY sk;
  match old with
  | None => mret (meta, batch, deleted)
  | Some _ =>
      batch ← batch_delete batch CF_SUBKEY sk;
      deleted ← arith_i64 (checks ctx) (deleted + 1);
      mret (set_size (Z.max 0 (md_size meta - 1)) meta, batch, deleted)
  end.

Definition hdel (args : list bytes) : M DB RespValue :=
  _ ← expect_min_arg_count "HDEL" args 2;
  user_key ← index args 0;
  m ← read_hash_meta user_key;
  match m with
  | None => mret (Integer 0)
  | Some meta =>
      '(meta, batch, deleted) ← mfold (hdel_field user_key) (meta, [], 0) (drop 1 args);
      batch ← (if 0 <? deleted
               then batch_put batch CF_METADATA (meta_key ctx user_key) (encode_metadata meta)
               else mret batch);
      _ ← write batch;
      mret (Integer deleted)
  end.

Definition hexists (args : list bytes) : M DB RespValue :=
  _ ← expect_arg_count "HEXISTS" args 2;
  user_key ← index args 0;
  field ← index args 1;
  m ← read_hash_meta user_key;
  match m with
  | None => mret (Integer 0)
  | Some meta =>
      v ← Storage.get CF_SUBKEY (sub_key ctx user_key (md_version meta) field);
      mret (Integer (match v with Some _ => 1 | None => 0 end))
  end.

Definition hlen (args : list bytes) : M DB RespValue :=
  _ ← expect_arg_count "HLEN" args 1;
  user_key ← index args 0;
  m ← read_hash_meta user_key;
  match m with
  | None => mret (Integer 0)
  | Some meta => mret (Integer (wrap_i64 (md_size meta)))
  end.

Definition parse_usize (data : bytes) : M DB Z :=
  match parse_text parse_u64 data with
  | Some z => mret z
  | None => throw NotInteger
  end.

Definition hscan (args : list bytes) : M DB RespValue :=
  _ ← expect_min_arg_count "HSCAN" args 2;
  user_key ← index args 0;
  cursor_str ← index args 1;
  if negb (utf8_valid cursor_str) then throw (Command (bs "invalid cursor"))
  else
    count ←
      (if (4 <=? length args)%nat
          && match args !! 2%nat with
             | Some a => eq_ignore_ascii_case a (bs "COUNT") | None => false end
       then a ← index args 3; parse_usize a
       else if (2 <? length args)%nat then throw (Command (bs "syntax error"))
       else mret 10);
    c ← lift (decode_cursor cursor_str);
    start_key ← lift (ok_or c (Command (bs "invalid cursor")));
    m ← read_hash_meta user_key;
    match m with
    | None => mret (Array [bulk (bs "0"); Array []])
    | Some meta =>
        let prefix := sub_key ctx user_key (md_version meta) [] in
        '(items, next_key) ← prefix_scan_page CF_SUBKEY prefix start_key count;
        c ← lift (for_items push_entry [] items);
        let next_cursor := encode_cursor (match next_key with Some k => k | None => [] end) in
        mret (Array [bulk next_cursor; Array (ctrl_value c)])
    end.

End HashCommands.

Example hash_session :
  fst ((a ← hset ctx0 [bs "h"; bs "f"; bs "1"; bs "g"; bs "2"];
        b ← hset ctx0 [bs "h"; bs "f"; bs "3"];
        c ← hgetall ctx0 [bs "h"];
        e ← hdel ctx0 [bs "h"; bs "g"; bs "x"];
        f ← hlen ctx0 [bs "h"];
        g ← hscan ctx0 [bs "h"; bs "0"];
        mret [a; b; c; e; f; g]) db0)
  = Ok [Integer 2; Integer 0; Array (map bulk [bs "f"; bs "3"; bs "g"; bs "2"]);
        Integer 1; Integer 1; Array [bulk (bs "0"); Array [bulk (bs "f"); bulk (bs "3")]]].
Proof. vm_compute. reflexivity. Qed.

(** ** Refinement to finite maps *)

Section HashFacts.
Context {DB : Type} {RDB : RocksDB DB}.
Implicit Types (d : DB) (ctx : CommandContext) (k f v : bytes) (m : gmap bytes bytes).

(** The stored subkeys of [k] at version [w] are the map [m]. *)
Definition fields d ctx k (w : Z) m : Prop :=
  forall f, db_get d CF_SUBKEY (sub_key ctx k w f) = m !! f.

(** Metadata of the hash [m] that expires at [E]. *)
Definition hash_meta (E : Z) (meta : Metadata) m : Prop :=
  good_meta DHash meta /\ md_expire meta = E /\ md_size meta = Z.of_nat (size m).

(** The key holds the metadata [meta] of the hash [m], which has not expired. *)
Definition hash_at (E : Z) d ctx k (meta : Metadata) m : Prop :=
  composite_at d ctx k DHash meta /\ unexpired E ctx
  /\ hash_meta E meta m /\ fields d ctx k (md_version meta) m.

(** The key represents the live hash [m] with expiry [E]; an absent key the
    empty one, provided no subkeys are left under the version a write would
    choose. *)
Definition hash_repr (E : Z) d ctx k m : Prop :=
  (meta_at d ctx k = None /\ m = ∅ /\ E = 0 /\ fields d ctx k (new_version ctx) ∅)
  \/ exists meta, hash_at E d ctx k meta m.

Lemma decode_and_check_ok v meta :
  decode_metadata v = Some meta -> data_type meta = Some DHash ->
  decode_and_check_hash v = Ok (Some meta).
Proof.
  intros Hd Ht. destruct (decode_nonempty v meta DHash Hd Ht) as (b & r & -> & Hb).
  unfold decode_and_check_hash. rewrite Hb, Hd. simpl. by rewrite bool_decide_true.
Qed.

Lemma read_hash_meta_run E d ctx k m :
  wf_db d -> hash_repr E d ctx k m ->
  exists o, read_hash_meta ctx k d = (Ok o, d)
    /\ match o with
       | None => m = ∅ /\ E = 0 /\ meta_at d ctx k = None
       | Some meta => hash_meta E meta m /\ fields d ctx k (md_version meta) m
                      /\ composite_at d ctx k DHash meta
       end.
Proof.
  intros H Hh. unfold read_hash_meta. rewrite (bind_Ok _ _ _ _ _ (get_meta_run d ctx k H)).
  destruct Hh as [(Hm & -> & -> & Hf)|(meta & Hc & _ & Hs & Hf)].
  - rewrite Hm. by exists None.
  - destruct Hc as (v & Hv & Hd & Ht). rewrite Hv. unfold lift.
    rewrite (decode_and_check_ok v meta) by done. exists (Some meta).
    split; [done|]. repeat (split; [done|]). by exists v.
Qed.

Lemma ensure_hash_meta_run E d ctx k m :
  wf_db d -> hash_repr E d ctx k m ->
  exists meta, ensure_hash_meta ctx k d = (Ok meta, d)
    /\ hash_meta E meta m /\ fields d ctx k (md_version meta) m.
Proof.
  intros H Hh. destruct (read_hash_meta_run E d ctx k m H Hh) as (o & Ho & Hs).
  unfold ensure_hash_meta. rewrite (bind_Ok _ _ _ _ _ Ho). destruct o as [meta|].
  - destruct Hs as (? & ? & _). by exists meta.
  - eexists. split; [done|]. destruct Hs as (-> & -> & Hn). split; [by split; [apply good_meta_new|]|].
    destruct Hh as [(_ & _ & _ & Hf)|(meta & (v & Hv & _) & _)];
      [done|congruence].
Qed.

(** *** HSET *)

(** The map after the assignments, and how many of them name a field [m]
    does not have. *)
Definition assign_all m (l : list (bytes * bytes)) : gmap bytes bytes :=
  fold_left (fun m p => <[p.1:=p.2]> m) l m.

Definition count_new m (l : list (bytes * bytes)) : Z :=
  Z.of_nat (length (filter (fun p => m !! p.1 = None) l)).

Definition put_batch ctx k (w : Z) (l : list (bytes * bytes)) : WriteBatch :=
  map (fun p => PutCf CF_SUBKEY (sub_key ctx k w p.1) p.2) l.

Lemma count_new_bounds m l : 0 <= count_new m l <= Z.of_nat (length l).
Proof.
  unfold count_new. pose proof (length_filter (fun p : bytes * bytes => m !! p.1 = None) l). lia.
Qed.

Lemma size_assign_all m l :
  NoDup l.*1 -> Z.of_nat (size (assign_all m l)) = Z.of_nat (size m) + count_new m l.
Proof.
  unfold assign_all. revert m. induction l as [|[f v] l IH]; intros m Hn; simpl.
  - unfold count_new. simpl. lia.
  - simpl in Hn. apply NoDup_cons in Hn as [Hf Hn]. rewrite IH by done.
    assert (count_new (<[f:=v]> m) l = count_new m l) as ->.
    { unfold count_new. do 2 f_equal. apply list_filter_ext.
      intros [g u] Hin. simpl. rewrite lookup_insert_ne; [done|].
      intros ->. apply Hf, list_elem_of_fmap. by exists (g, u). }
    unfold count_new. rewrite filter_cons. simpl.
    destruct (m !! f) as [u|] eqn:E.
    + rewrite map_size_insert_Some by eauto. rewrite decide_False by done. lia.
    + rewrite map_size_insert_None by done. rewrite decide_True by done. simpl. lia.
Qed.

Lemma hset_field_run d ctx k m meta f v b a :
  wf_db d -> fields d ctx k (md_version meta) m ->
  0 <= md_size meta < u64_max -> 0 <= a < i64_max ->
  hset_field ctx k (meta, b, a) (f, v) d
  = (Ok (if decide (m !! f = None)
         then (set_size (md_size meta + 1) meta,
               b ++ [PutCf CF_SUBKEY (sub_key ctx k (md_version meta) f) v], a + 1)
         else (meta, b ++ [PutCf CF_SUBKEY (sub_key ctx k (md_version meta) f) v], a)), d).
Proof.
  intros H Hf Hs Ha. unfold hset_field. cbv beta iota zeta. cbn [fst snd].
  erewrite bind_Ok by eauto with kv. erewrite bind_Ok by eauto with kv. rewrite Hf.
  destruct (m !! f) eqn:E; [by rewrite decide_False|]. rewrite decide_True by done.
  erewrite bind_Ok by (apply arith_u64_ok; unfold is_u64, u64_max in *; lia).
  by erewrite bind_Ok by (apply arith_i64_ok; unfold is_i64, i64_min, i64_max in *; lia).
Qed.

Lemma hset_fold d ctx k m meta l b a :
  wf_db d -> fields d ctx k (md_version meta) m ->
  0 <= md_size meta -> md_size meta + Z.of_nat (length l) <= u64_max ->
  0 <= a -> a + Z.of_nat (length l) <= i64_max ->
  mfold (hset_field ctx k) (meta, b, a) l d
  = (Ok (set_size (md_size meta + count_new m l) meta,
         b ++ put_batch ctx k (md_version meta) l, a + count_new m l), d).
Proof.
  intros H. revert meta b a. induction l as [|[f v] l IH]; intros meta b a Hf Hs0 Hs Ha0 Ha.
  - simpl. unfold count_new. simpl. rewrite app_nil_r, !Z.add_0_r. by destruct meta.
  - cbn [mfold length] in *.
    assert (count_new m ((f, v) :: l)
            = (if decide (m !! f = None) then 1 else 0) + count_new m l) as Hc.
    { unfold count_new. rewrite filter_cons. simpl. case_decide; simpl; lia. }
    rewrite Hc. erewrite bind_Ok by (apply (hset_field_run d ctx k m); (done || lia)).
    case_decide; rewrite IH; try done; try (simpl; lia);
      cbn [set_size md_size md_version put_batch map fst snd];
      rewrite <- app_assoc, ?Z.add_0_l, ?Z.add_assoc; done.
Qed.

Lemma put_batch_effect ctx k (w : Z) l f c :
  batch_effect CF_SUBKEY (sub_key ctx k w f) (put_batch ctx k w l) (c !! f)
  = assign_all c l !! f.
Proof.
  unfold batch_effect, put_batch, assign_all. revert c.
  induction l as [|[g u] l IH]; intros c; simpl; [done|]. rewrite <- IH.
  destruct (decide (g = f)) as [->|Hne].
  - rewrite decide_True by done. by rewrite lookup_insert_eq.
  - rewrite decide_False by (intros [= E%sub_key_inj]; done). by rewrite lookup_insert_ne.
Qed.

Lemma put_batch_ops ctx k (w : Z) l : Forall (key_op ctx k w) (put_batch ctx k w l).
Proof. apply Forall_map, Forall_true. intros p. right. by eexists CF_SUBKEY, p.1. Qed.

(** Storing metadata after a batch of subkey operations. *)
Lemma hash_at_written E d ctx ctx' k meta m (b : WriteBatch) :
  namespace ctx' = namespace ctx -> unexpired E ctx' -> hash_meta E meta m ->
  (forall f, batch_effect CF_SUBKEY (sub_key ctx k (md_version meta) f) b
               (db_get d CF_SUBKEY (sub_key ctx k (md_version meta) f)) = m !! f) ->
  hash_at E (db_write d (b ++ [PutCf CF_METADATA (meta_key ctx k) (encode_metadata meta)])) ctx' k meta m.
Proof.
  intros Hns Hx Hm Hf. split; [|split; [done|split; [done|]]].
  - eapply composite_written; [|done|apply Hm]. unfold meta_key in *. rewrite Hns.
    by rewrite db_get_write, batch_effect_app, batch_effect_put.
  - intros f. unfold sub_key in *. rewrite Hns, db_get_write, batch_effect_app.
    rewrite batch_effect_other_cf by done. apply Hf.
Qed.

Lemma ro_read_hash_meta ctx k : readonly (read_hash_meta ctx k : M DB _).
Proof. unfold read_hash_meta. ro. Qed.

(** *** HDEL *)

Definition remove_all m (l : list bytes) : gmap bytes bytes :=
  fold_left (fun m f => base.delete f m) l m.

Definition count_present m (l : list bytes) : Z :=
  Z.of_nat (length (filter (fun f => is_Some (m !! f)) l)).

Definition del_batch ctx k (w : Z) m (l : list bytes) : WriteBatch :=
  map (fun f => DeleteCf CF_SUBKEY (sub_key ctx k w f)) (filter (fun f => is_Some (m !! f)) l).

Lemma count_present_cons m f l :
  count_present m (f :: l) = (if decide (is_Some (m !! f)) then 1 else 0) + count_present m l.
Proof. unfold count_present. rewrite filter_cons. case_decide; simpl; lia. Qed.

Lemma count_present_bounds m l : 0 <= count_present m l <= Z.of_nat (length l).
Proof.
  unfold count_present. pose proof (length_filter (fun f => is_Some (m !! f)) l). lia.
Qed.

Lemma size_remove_all m l :
  NoDup l -> Z.of_nat (size (remove_all m l)) = Z.of_nat (size m) - count_present m l.
Proof.
  unfold remove_all. revert m. induction l as [|f l IH]; intros m Hn; simpl.
  - unfold count_present. simpl. lia.
  - apply NoDup_cons in Hn as [Hf Hn]. rewrite IH by done.
    assert (count_present (base.delete f m) l = count_present m l) as ->.
    { unfold count_present. do 2 f_equal. apply list_filter_ext.
      intros g Hin. rewrite lookup_delete_ne; [done|]. by intros ->. }
    rewrite count_present_cons. destruct (m !! f) as [u|] eqn:E.
    + assert (is_Some (m !! f)) as Hsome by eauto.
      pose proof (map_size_delete_Some _ _ Hsome) as Hd.
      assert (size m <> 0)%nat by (intros Hz%map_size_empty_inv; subst; by rewrite lookup_empty in E).
      rewrite decide_True by eauto. lia.
    + rewrite map_size_delete_None by done. rewrite decide_False by (by intros []). lia.
Qed.

Lemma hdel_field_run d ctx k m meta f b a :
  wf_db d -> fields d ctx k (md_version meta) m -> 0 <= a < i64_max ->
  hdel_field ctx k (meta, b, a) f d
  = (Ok (if decide (is_Some (m !! f))
         then (set_size (Z.max 0 (md_size meta - 1)) meta,
               b ++ [DeleteCf CF_SUBKEY (sub_key ctx k (md_version meta) f)], a + 1)
         else (meta, b, a)), d).
Proof.
  intros H Hf Ha. unfold hdel_field. cbv beta iota zeta.
  erewrite bind_Ok by eauto with kv. rewrite Hf.
  destruct (m !! f) eqn:E; [|by rewrite decide_False by (by intros [])].
  rewrite decide_True by eauto. erewrite bind_Ok by eauto with kv.
  by erewrite bind_Ok by (apply arith_i64_ok; unfold is_i64, i64_min, i64_max in *; lia).
Qed.

Lemma hdel_fold d ctx k m meta l b a :
  wf_db d -> fields d ctx k (md_version meta) m ->
  count_present m l <= md_size meta -> 0 <= a -> a + Z.of_nat (length l) <= i64_max ->
  mfold (hdel_field ctx k) (meta, b, a) l d
  = (Ok (set_size (md_size meta - count_present m l) meta,
         b ++ del_batch ctx k (md_version meta) m l, a + count_present m l), d).
Proof.
  intros H. revert meta b a. induction l as [|f l IH]; intros meta b a Hf Hs Ha0 Ha.
  - simpl. unfold count_present, del_batch. simpl. rewrite app_nil_r, Z.sub_0_r, Z.add_0_r.
    by destruct meta.
  - cbn [mfold length] in *. rewrite count_present_cons in *.
    unfold del_batch. rewrite filter_cons. pose proof (count_present_bounds m l).
    erewrite bind_Ok by (apply (hdel_field_run d ctx k m); (done || lia)).
    case_decide; (rewrite IH; [|done|simpl; lia..]);
      cbn [set_size md_size md_version map]; rewrite <- ?app_assoc.
    + rewrite Z.max_r by lia. unfold set_size. simpl.
      replace (md_size meta - (1 + count_present m l)) with (md_size meta - 1 - count_present m l)
        by lia. by rewrite Z.add_assoc.
    + by rewrite !Z.add_0_l.
Qed.

Lemma del_batch_effect ctx k (w : Z) m l f :
  batch_effect CF_SUBKEY (sub_key ctx k w f) (del_batch ctx k w m l) (m !! f)
  = remove_all m l !! f.
Proof.
  assert (remove_all m l !! f = if decide (f ∈ l) then None else m !! f) as ->.
  { unfold remove_all. revert m. induction l as [|g l IH]; intros m; simpl; [done|].
    rewrite IH. destruct (decide (f = g)) as [->|Hne].
    - rewrite lookup_delete_eq. rewrite (decide_True (P:=g ∈ g :: l)) by by left.
      by case_decide.
    - rewrite lookup_delete_ne by done. repeat case_decide; set_solver. }
  unfold del_batch. rewrite <- (map_map (fun f => (sub_key ctx k w f, @nil byte))
    (fun x => DeleteCf CF_SUBKEY x.1)).
  fold (delete_items CF_SUBKEY (map (fun f => (sub_key ctx k w f, @nil byte))
    (filter (fun f => is_Some (m !! f)) l))).
  rewrite delete_items_effect.
  assert (sub_key ctx k w f ∈ (map (fun f => (sub_key ctx k w f, @nil byte))
            (filter (fun f => is_Some (m !! f)) l)).*1 <-> f ∈ l /\ is_Some (m !! f)) as Hin.
  { rewrite list_elem_of_fmap. setoid_rewrite list_elem_of_fmap. split.
    - intros (x & E & g & -> & [Hs Hg]%list_elem_of_filter). simpl in E.
      apply sub_key_inj in E. by subst.
    - intros [Hl Hs]. exists (sub_key ctx k w f, []). split; [done|]. exists f.
      split; [done|]. by apply list_elem_of_filter. }
  destruct (decide (f ∈ l)) as [Hl|Hl].
  - destruct (m !! f) eqn:E.
    + rewrite bool_decide_true; [done|]. split; [done|]. apply Hin. eauto.
    + by case_bool_decide.
  - rewrite bool_decide_false; [done|]. intros [_ H]. by apply Hin in H as [].
Qed.

Lemma count_present_empty l : count_present ∅ l = 0.
Proof.
  unfold count_present. induction l as [|f l IH]; [done|]. rewrite filter_cons, decide_False; [done|].
  rewrite lookup_empty. by intros [].
Qed.

Lemma remove_all_empty l : remove_all ∅ l = ∅.
Proof. unfold remove_all. induction l as [|f l IH]; [done|]. simpl. by rewrite delete_empty. Qed.

Lemma del_batch_ops ctx k (w : Z) m l : Forall (key_op ctx k w) (del_batch ctx k w m l).
Proof. apply Forall_map, Forall_true. intros f. right. by eexists CF_SUBKEY, f. Qed.

(** HDEL after its argument check. *)
Definition hdel_body ctx k (l : list bytes) : M DB RespValue :=
  m ← read_hash_meta ctx k;
  match m with
  | None => mret (Integer 0)
  | Some meta =>
      '(meta, batch, deleted) ← mfold (hdel_field ctx k) (meta, [], 0) l;
      batch ← (if 0 <? deleted
               then batch_put batch CF_METADATA (meta_key ctx k) (encode_metadata meta)
               else mret batch);
      _ ← write batch; mret (Integer deleted)
  end.

Lemma hdel_start d ctx k l : l <> [] -> hdel ctx (k :: l) d = hdel_body ctx k l d.
Proof.
  intros Hne. unfold hdel.
  erewrite bind_Ok by (apply expect_min_arg_count_ok; destruct l; [done|simpl; lia]).
  by mrun.
Qed.

(** HDEL on an existing hash. *)
Lemma hdel_present E d ctx ctx' k m meta l :
  wf_db d -> namespace ctx' = namespace ctx -> unexpired E ctx' -> NoDup l -> hash_meta E meta m ->
  fields d ctx k (md_version meta) m -> composite_at d ctx k DHash meta ->
  Z.of_nat (length l) <= i64_max ->
  exists d', ('(meta, batch, deleted) ← mfold (hdel_field ctx k) (meta, [], 0) l;
              batch ← (if 0 <? deleted
                then batch_put batch CF_METADATA (meta_key ctx k) (encode_metadata meta)
                else mret batch);
              _ ← write batch; mret (Integer deleted)) d
             = (Ok (Integer (count_present m l)), d')
    /\ hash_at E d' ctx' k (set_size (md_size meta - count_present m l) meta) (remove_all m l)
    /\ only_version d d' ctx k (md_version meta).
Proof.
  intros H Hns Hx Hnd (Hg & He & Hsz) Hf Hc Hmax. pose proof (count_present_bounds m l) as Hb.
  pose proof (size_remove_all m l Hnd) as Hsr.
  rewrite (bind_Ok _ _ _ _ _ (hdel_fold d ctx k m meta l [] 0 H Hf ltac:(lia) ltac:(lia)
    ltac:(lia))). cbv beta iota. rewrite Z.add_0_l, app_nil_l.
  assert (good_meta DHash (set_size (md_size meta - count_present m l) meta)) as Hg'.
  { apply good_meta_set_size; [done|]. pose proof (good_meta_size _ _ Hg) as Hu.
    unfold is_u64 in *. zbool. lia. }
  pose proof (good_meta_version _ _ Hg) as Hw.
  destruct (0 <? count_present m l) eqn:Ed; zbool.
  - erewrite bind_Ok by eauto with kv. erewrite bind_Ok by reflexivity. eexists. split; [done|].
    split.
    + apply hash_at_written; [done|done|split; [done|split; [done|simpl; lia]]|]. intros f. rewrite Hf.
      apply del_batch_effect.
    + apply (only_version_write d ctx k (md_version meta)); [done..|].
      apply Forall_app. split; [apply del_batch_ops|]. constructor; [by left|done].
  - erewrite bind_Ok by reflexivity. erewrite bind_Ok by reflexivity. eexists. split; [done|].
    split; [|apply (only_version_write d ctx k (md_version meta)); [done..|apply del_batch_ops]].
    assert (set_size (md_size meta - count_present m l) meta = meta) as ->
      by (destruct meta; unfold set_size; simpl; f_equal; lia).
    split; [|split; [done|split; [split; [done|split; [done|lia]]|]]].
    + destruct Hc as (v & Hv & Hd). exists v. split; [|done].
      rewrite (meta_at_namespace _ ctx ctx') by done. rewrite meta_at_frame; [done|..];
        [|intros _]; apply Forall_map, Forall_true; intros f [=].
    + intros f. unfold sub_key. rewrite Hns. fold (sub_key ctx k (md_version meta) f).
      rewrite db_get_write, Hf. apply del_batch_effect.
Qed.

(** *** Readers *)

(** The replies for the pairs of a hash, flattened. *)
Definition flat_pairs (l : list (bytes * bytes)) : list RespValue :=
  concat (map (fun x => [bulk x.1; bulk x.2]) l).

Lemma push_entries ctx k (w : Z) (l : list (bytes * bytes)) acc :
  short ctx k -> is_u64 w = true ->
  for_items (push_entry ctx) acc (map (fun x => (sub_key ctx k w x.1, x.2)) l)
  = Ok (Continue (acc ++ flat_pairs l)).
Proof.
  intros Hk Hw. revert acc. induction l as [|[f v] l IH]; intros acc; simpl.
  - by rewrite app_nil_r.
  - unfold push_entry at 1. simpl fst. rewrite parse_sub_key by done. simpl. rewrite IH.
    by rewrite <- app_assoc.
Qed.

Lemma sub_items_size d ctx k (w : Z) m :
  fields d ctx k w m -> length (sub_items d ctx CF_SUBKEY k w) = size m.
Proof.
  intros Hf. rewrite <- (length_fmap fst (sub_items d ctx CF_SUBKEY k w)).
  replace (size m) with (size (dom m)) by apply size_dom.
  rewrite <- (size_list_to_set (C:=gset bytes)) by (apply sorted_NoDup_keys, sub_items_sorted).
  f_equal. apply set_eq. intros f. rewrite elem_of_list_to_set, elem_of_dom, list_elem_of_fmap.
  split.
  - intros ([f' v] & -> & Hin%sub_items_elem). rewrite Hf in Hin. simpl. eauto.
  - intros [v Hv]. exists (f, v). split; [done|]. apply sub_items_elem. by rewrite Hf.
Qed.

(** The listing of a hash: its pairs in field order. *)
Definition listing m (l : list (bytes * bytes)) : Prop :=
  StronglySorted key_lt l /\ forall f v, (f, v) ∈ l <-> m !! f = Some v.

Lemma listing_fields d ctx k (w : Z) m :
  fields d ctx k w m -> listing m (sub_items d ctx CF_SUBKEY k w).
Proof.
  intros Hf. split; [apply sub_items_sorted|]. intros f v. by rewrite sub_items_elem, Hf.
Qed.

Lemma listing_empty : listing ∅ [].
Proof. split; [constructor|]. intros f v. split; [by intros ?%elem_of_nil|done]. Qed.

Lemma hgetall_run E d ctx k m :
  wf_db d -> short ctx k -> hash_repr E d ctx k m ->
  0 <= resp_size ctx -> capacity_overflow (resp_size ctx) (Z.of_nat (size m) * 2) = false ->
  Z.of_nat (size m) * 2 <= u64_max ->
  exists l, hgetall ctx [k] d = (Ok (Array (flat_pairs l)), d) /\ listing m l.
Proof.
  intros H Hk Hh Hrs Hcap Hmax. unfold hgetall. do 2 mrun.
  destruct (read_hash_meta_run E d ctx k m H Hh) as (o & Ho & Hs).
  rewrite (bind_Ok _ _ _ _ _ Ho). destruct o as [meta|].
  - destruct Hs as ((Hg & _ & Hsz) & Hf & _). exists (sub_items d ctx CF_SUBKEY k (md_version meta)).
    split; [|by apply listing_fields]. cbv zeta.
    erewrite bind_Ok by (apply arith_u64_ok; rewrite Hsz; unfold is_u64; lia).
    rewrite Hsz, Hcap.
    erewrite bind_Ok; [done|]. rewrite page_walk_ok;
      [|apply H; auto with kv|done|left; apply subkey_nonempty].
    rewrite sub_items_entries, push_entries; [done|done|by eapply good_meta_version].
  - destruct Hs as [-> _]. exists []. split; [done|apply listing_empty].
Qed.

End HashFacts.

(** ** Cursors *)

Lemma parse_hex_byte b : parse_radix 16 0 255 (hex_byte b) = Some (byte_to_Z b).
Proof. by destruct b. Qed.

Lemma hex_byte_ascii b : is_ascii (hex_byte b) = true.
Proof. by destruct b. Qed.

Lemma hex_bytes_ascii key : is_ascii (concat (map hex_byte key)) = true.
Proof.
  induction key as [|b key IH]; [done|]. cbn [map concat].
  by rewrite is_ascii_app, hex_byte_ascii, IH.
Qed.

Lemma ascii_boundary s i : is_ascii s = true -> (i <= length s)%nat -> is_char_boundary s i = true.
Proof.
  intros Ha Hi. unfold is_char_boundary. destruct (s !! i) as [b|] eqn:E.
  - unfold is_ascii in Ha. rewrite forallb_forall in Ha.
    specialize (Ha b ltac:(by apply list_elem_of_In, list_elem_of_lookup; eauto)).
    revert Ha. by destruct b.
  - apply lookup_ge_None in E. apply Nat.eqb_eq. lia.
Qed.

Lemma cursor_bytes_hex s key i :
  is_ascii s = true -> (i + 2 * length key <= length s)%nat ->
  cursor_bytes s (concat (map hex_byte key)) i = Ok (Some key).
Proof.
  intros Hs. revert i. induction key as [|b key IH]; intros i Hi; [done|].
  cbn [map concat length] in *. change (hex_byte b ++ ?l)
    with (digit_of (byte_to_Z b / 16) :: digit_of (byte_to_Z b mod 16) :: l).
  cbn [cursor_bytes]. rewrite !ascii_boundary by (done || lia). simpl negb. cbv iota.
  change [digit_of (byte_to_Z b / 16); digit_of (byte_to_Z b mod 16)] with (hex_byte b).
  rewrite parse_hex_byte, IH by lia. simpl. by rewrite byte_of_to_Z.
Qed.

Lemma length_hex key : length (concat (map hex_byte key)) = (2 * length key)%nat.
Proof. induction key as [|b key IH]; [done|]. cbn [map concat length]. rewrite length_app, IH. simpl. lia. Qed.

(** A cursor HSCAN returns is read back as the key it stands for. *)
Lemma decode_encode_cursor key : decode_cursor (encode_cursor key) = Ok (Some key).
Proof.
  unfold decode_cursor, encode_cursor. destruct key as [|b key]; [done|].
  pose proof (length_hex (b :: key)) as Hl. pose proof (hex_bytes_ascii (b :: key)) as Ha.
  set (s := concat (map hex_byte (b :: key))) in *.
  rewrite bool_decide_false by (intros E; rewrite E in Hl; simpl in Hl; lia).
  rewrite bool_decide_false by (intros E; rewrite E in Hl; simpl in Hl; lia).
  simpl orb. cbv iota. rewrite Hl, Nat.mul_comm, Nat.Div0.mod_mul. simpl negb. cbv iota.
  unfold s. apply cursor_bytes_hex; [done|]. rewrite <- Hl. done.
Qed.

(** ** Full iterations *)

Section Scan.
Context {DB : Type} {RDB : RocksDB DB}.
Variables (ctx : CommandContext) (k : bytes).

(** A client that calls HSCAN with the cursor of the last reply until it gets
    the cursor 0. *)
Fixpoint scan_all (fuel : nat) (cursor : bytes) (count : Z) : M DB (list RespValue) :=
  match fuel with
  | O => out_of_fuel
  | S fuel' =>
      r ← hscan ctx [k; cursor; bs "COUNT"; show_Z count];
      match r with
      | Array [BulkString (Some next); Array items] =>
          if bool_decide (next = bs "0") then mret items
          else rest ← scan_all fuel' next count; mret (items ++ rest)
      | _ => panic
      end
  end.

Lemma encode_cursor_ascii key : is_ascii (encode_cursor key) = true.
Proof. destruct key as [|b key]; [done|]. apply hex_bytes_ascii. Qed.

Lemma encode_cursor_zero key : encode_cursor key = bs "0" -> key = [].
Proof.
  destruct key as [|b key]; [done|]. unfold encode_cursor. intros E.
  pose proof (length_hex (b :: key)) as Hl. rewrite E in Hl. simpl in Hl. lia.
Qed.

Lemma push_stripped (w : Z) (l : list kv) acc :
  short ctx k -> is_u64 w = true ->
  Forall (fun x => starts_with (sub_key ctx k w []) x.1 = true) l ->
  for_items (push_entry ctx) acc l = Ok (Continue (acc ++ flat_pairs (map (strip ctx k w) l))).
Proof.
  intros Hk Hw Hl. rewrite <- (push_entries ctx k w) by done. f_equal.
  rewrite map_map. rewrite <- (map_id l) at 1. apply map_ext_in.
  intros [key v] Hin%list_elem_of_In. rewrite Forall_forall in Hl.
  specialize (Hl _ Hin). simpl in *. apply starts_with_spec in Hl as [s ->].
  rewrite drop_app_length. by rewrite (sub_key_app _ _ _ s).
Qed.

Lemma hscan_page (d : DB) meta s count :
  wf_db d -> short ctx k -> good_meta DHash meta ->
  read_hash_meta ctx k d = (Ok (Some meta), d) ->
  is_u64 count = true -> capacity_overflow KV_SIZE count = false ->
  let prefix := sub_key ctx k (md_version meta) [] in
  s = [] \/ starts_with prefix s = true ->
  let R := remaining d CF_SUBKEY prefix s in
  let r := take (page_size count) R in
  let next := if (page_size count <? length R)%nat
              then default [] (fst <$> last r) else [] in
  hscan ctx [k; encode_cursor s; bs "COUNT"; show_Z count] d
  = (Ok (Array [bulk (encode_cursor next);
                Array (flat_pairs (map (strip ctx k (md_version meta)) r))]), d).
Proof.
  intros H Hk Hg Hm Hc Hcap prefix Hs R r next. unfold hscan.
  erewrite bind_Ok by (apply expect_min_arg_count_ok; simpl; lia). do 2 mrun.
  rewrite is_ascii_valid by apply encode_cursor_ascii. change (negb true) with false. cbv iota.
  erewrite bind_Ok.
  2:{ change ((4 <=? _)%nat && _) with true. cbv iota. mrun. unfold parse_usize, parse_text.
      rewrite is_ascii_valid by apply show_Z_ascii. by rewrite parse_u64_show. }
  unfold lift at 1. rewrite decode_encode_cursor. erewrite bind_Ok by reflexivity.
  erewrite bind_Ok by reflexivity. rewrite (bind_Ok _ _ _ _ _ Hm). cbv zeta.
  fold prefix. rewrite (bind_Ok _ _ _ _ _ (prefix_scan_page_ok d CF_SUBKEY prefix s count
    ltac:(apply H; auto with kv) Hcap Hs)). cbv zeta. fold R r.
  rewrite (push_stripped (md_version meta) r []); [|done|by eapply good_meta_version|].
  2:{ apply Forall_forall. intros x (i & Hi & _)%elem_of_take.
      apply (remaining_prefix d CF_SUBKEY prefix s), list_elem_of_lookup. eauto. }
  erewrite bind_Ok by reflexivity. simpl ctrl_value. unfold next.
  destruct (page_size count <? length R)%nat; [|done]. by destruct (last r) as [[]|].
Qed.

Lemma scan_all_from fuel (d : DB) meta s count :
  wf_db d -> short ctx k -> good_meta DHash meta ->
  read_hash_meta ctx k d = (Ok (Some meta), d) ->
  is_u64 count = true -> capacity_overflow KV_SIZE count = false ->
  let prefix := sub_key ctx k (md_version meta) [] in
  s = [] \/ starts_with prefix s = true ->
  (length (remaining d CF_SUBKEY prefix s) < fuel)%nat ->
  scan_all fuel (encode_cursor s) count d
  = (Ok (flat_pairs (map (strip ctx k (md_version meta)) (remaining d CF_SUBKEY prefix s))), d).
Proof.
  intros H Hk Hg Hm Hc Hcap prefix. revert s.
  induction fuel as [|f IH]; intros s Hs Hf; [lia|]. cbn [scan_all].
  rewrite (bind_Ok _ _ _ _ _ (hscan_page d meta s count H Hk Hg Hm Hc Hcap Hs)).
  fold prefix. set (R := remaining d CF_SUBKEY prefix s) in *. cbv iota beta.
  assert (0 < page_size count)%nat as Hp by (unfold page_size; lia).
  unfold bulk. destruct (page_size count <? length R)%nat eqn:El.
  - apply Nat.ltb_lt in El.
    destruct (take_last_elem (page_size count) R Hp) as ([ky vy] & Hl & Hy);
      [by intros E; rewrite E in El; simpl in El; lia|].
    assert (starts_with prefix ky = true) as Hky
      by (apply (remaining_prefix d CF_SUBKEY prefix s (ky, vy)); exact Hy).
    assert (ky <> []) as Hne.
    { intros ->. destruct prefix eqn:E; [by apply (subkey_nonempty ctx k (md_version meta))|done]. }
    rewrite Hl. simpl default.
    rewrite bool_decide_false by (by intros ?%encode_cursor_zero).
    pose proof (remaining_next d CF_SUBKEY prefix s (page_size count) (ky, vy) Hl Hne) as Hn.
    simpl in Hn. rewrite (bind_Ok _ _ _ _ _ (IH ky ltac:(by right) ltac:(rewrite Hn, length_drop; unfold R in *; lia))).
    rewrite Hn. unfold flat_pairs. fold R. unfold mret, M_ret.
    rewrite <- concat_app, <- !map_app, take_drop. done.
  - apply Nat.ltb_ge in El. rewrite bool_decide_true by done. rewrite take_ge by done. done.
Qed.

End Scan.

(** ** Properties *)

Section HashProperties.
Context {DB : Type} {RDB : RocksDB DB}.
Implicit Types (d : DB) (ctx : CommandContext) (k f v : bytes) (m : gmap bytes bytes).

(** HSET from the metadata it starts with. *)
Lemma hset_run E d ctx ctx' k m l meta :
  wf_db d -> ensure_hash_meta ctx k d = (Ok meta, d) -> hash_meta E meta m ->
  fields d ctx k (md_version meta) m -> l <> [] -> NoDup l.*1 ->
  Z.of_nat (size m) + Z.of_nat (length l) <= i64_max -> namespace ctx' = namespace ctx -> unexpired E ctx' ->
  exists d', hset ctx (k :: flatten l) d = (Ok (Integer (count_new m l)), d')
    /\ hash_at E d' ctx' k (set_size (md_size meta + count_new m l) meta) (assign_all m l)
    /\ only_version d d' ctx k (md_version meta).
Proof.
  intros H He (Hg & Hex & Hs) Hf Hne Hnd Hmax Hns Hx. unfold i64_max in Hmax.
  set (meta' := set_size (md_size meta + count_new m l) meta).
  pose proof (count_new_bounds m l) as Hb.
  assert (good_meta DHash meta') as Hg'
    by (apply good_meta_set_size; [done|unfold is_u64, u64_max; lia]).
  set (b := put_batch ctx k (md_version meta) l
              ++ [PutCf CF_METADATA (meta_key ctx k) (encode_metadata meta')]).
  exists (db_write d b). split; [|split].
  - unfold hset. pose proof (length_flatten l) as Hl.
    erewrite bind_Ok by (apply expect_min_arg_count_ok; cbn [length]; rewrite Hl;
      destruct l; [done|simpl; lia]).
    replace (length (k :: flatten l) mod 2 =? 0)%nat with false.
    2:{ cbn [length]. rewrite Hl, <- Nat.add_1_l, Nat.mul_comm, Nat.Div0.mod_add. done. }
    mrun. rewrite (bind_Ok _ _ _ _ _ He). change (drop 1 (k :: flatten l)) with (flatten l).
    rewrite pairs_flatten.
    rewrite (bind_Ok _ _ _ _ _ (hset_fold d ctx k m meta l [] 0 H Hf ltac:(lia)
      ltac:(unfold u64_max; lia) ltac:(lia) ltac:(unfold i64_max; lia))).
    cbv beta iota. erewrite bind_Ok by eauto with kv. done.
  - apply hash_at_written; [done|done| |].
    + split; [done|]. split; [done|]. simpl. rewrite size_assign_all by done. lia.
    + intros f. rewrite Hf. apply put_batch_effect.
  - apply (only_version_write d ctx k (md_version meta)); [done|by eapply good_meta_version|].
    apply Forall_app. split; [apply put_batch_ops|]. constructor; [by left|done].
Qed.

(** C5: HSET of pairwise different fields, on a key that is absent or holds a
    hash that has not expired, refines the assignment of the pairs to the map
    the key represents: it replies the number of new fields, the key then
    represents the updated map with the expiry it had, size included, and no
    other key's metadata or subkeys change. *)
Theorem hset_refines E d ctx ctx' k m l :
  wf_db d -> hash_repr E d ctx k m -> l <> [] -> NoDup l.*1 ->
  Z.of_nat (size m) + Z.of_nat (length l) <= i64_max -> namespace ctx' = namespace ctx -> unexpired E ctx' ->
  exists d', hset ctx (k :: flatten l) d = (Ok (Integer (count_new m l)), d')
    /\ hash_repr E d' ctx' k (assign_all m l) /\ only_key d d' ctx k.
Proof.
  intros H Hh Hne Hnd Hmax Hns Hx.
  destruct (ensure_hash_meta_run E d ctx k m H Hh) as (meta & He & Hm & Hf).
  destruct (hset_run E d ctx ctx' k m l meta) as (d' & R & Ha & Ho); [done..|].
  exists d'. split; [done|]. split; [right; by eexists|apply Ho].
Qed.

(** HDEL of pairwise different fields refines their removal: it replies
    the number of fields that were present, and the key then represents the
    map without them. *)
Theorem hdel_refines E d ctx ctx' k m l :
  wf_db d -> hash_repr E d ctx k m -> l <> [] -> NoDup l ->
  Z.of_nat (length l) <= i64_max -> namespace ctx' = namespace ctx -> unexpired E ctx' ->
  fields d ctx' k (new_version ctx') ∅ ->
  exists d', hdel ctx (k :: l) d = (Ok (Integer (count_present m l)), d')
    /\ hash_repr E d' ctx' k (remove_all m l) /\ only_key d d' ctx k.
Proof.
  intros H Hh Hne Hnd Hmax Hns Hx Hfresh. rewrite hdel_start by done.
  unfold hdel_body.
  destruct (read_hash_meta_run E d ctx k m H Hh) as (o & Ho & Hs).
  rewrite (bind_Ok _ _ _ _ _ Ho). destruct o as [meta|].
  - destruct Hs as (Hm & Hf & Hc).
    destruct (hdel_present E d ctx ctx' k m meta l) as (d' & R & Ha & Hv); [done..|lia|].
    exists d'. split; [done|]. split; [right; by eexists|apply Hv].
  - destruct Hs as (-> & -> & Hn). exists d. rewrite count_present_empty, remove_all_empty.
    split; [done|]. split; [left|by apply only_key_refl].
    by rewrite (meta_at_namespace _ ctx ctx').
Qed.

Lemma hget_run E d ctx k m f : wf_db d -> hash_repr E d ctx k m -> hget ctx [k; f] d = (Ok (BulkString (m !! f)), d).
Proof.
  intros H Hh. destruct (read_hash_meta_run E d ctx k m H Hh) as (o & Ho & Hs).
  unfold hget. do 3 mrun. rewrite (bind_Ok _ _ _ _ _ Ho). destruct o as [meta|].
  - destruct Hs as (_ & Hf & _). erewrite bind_Ok by eauto with kv. by rewrite Hf.
  - by destruct Hs as (-> & _).
Qed.

Lemma hexists_run E d ctx k m f :
  wf_db d -> hash_repr E d ctx k m ->
  hexists ctx [k; f] d = (Ok (Integer (if decide (is_Some (m !! f)) then 1 else 0)), d).
Proof.
  intros H Hh. destruct (read_hash_meta_run E d ctx k m H Hh) as (o & Ho & Hs).
  unfold hexists. do 3 mrun. rewrite (bind_Ok _ _ _ _ _ Ho). destruct o as [meta|].
  - destruct Hs as (_ & Hf & _). erewrite bind_Ok by eauto with kv. rewrite Hf.
    destruct (m !! f) eqn:Ef; [by rewrite decide_True by eauto|].
    by rewrite decide_False by (by intros []).
  - destruct Hs as [-> _]. rewrite lookup_empty. by rewrite decide_False by (by intros []).
Qed.

Lemma hlen_run E d ctx k m :
  wf_db d -> hash_repr E d ctx k m -> Z.of_nat (size m) <= i64_max ->
  hlen ctx [k] d = (Ok (Integer (Z.of_nat (size m))), d).
Proof.
  intros H Hh Hmax. destruct (read_hash_meta_run E d ctx k m H Hh) as (o & Ho & Hs).
  unfold hlen. do 2 mrun. rewrite (bind_Ok _ _ _ _ _ Ho). destruct o as [meta|].
  - destruct Hs as ((_ & _ & ->) & _). by rewrite wrap_i64_id by (unfold is_i64, i64_min; lia).
  - by destruct Hs as [-> _].
Qed.

(** C26: on a key that is absent or holds a hash that has not expired, and so
    represents the map [m], HGET, HMGET, HEXISTS and HLEN
    answer from the map, and HGETALL returns its pairs in field order. *)
Theorem hash_reads E d ctx k m f (fs : list bytes) :
  wf_db d -> short ctx k -> hash_repr E d ctx k m -> fs <> [] -> 0 <= resp_size ctx ->
  Z.of_nat (size m) * 2 * (1 + resp_size ctx) <= i64_max ->
  hget ctx [k; f] d = (Ok (BulkString (m !! f)), d)
  /\ hexists ctx [k; f] d = (Ok (Integer (if decide (is_Some (m !! f)) then 1 else 0)), d)
  /\ hlen ctx [k] d = (Ok (Integer (Z.of_nat (size m))), d)
  /\ hmget ctx (k :: fs) d = (Ok (Array (map (fun f => BulkString (m !! f)) fs)), d)
  /\ exists l, hgetall ctx [k] d = (Ok (Array (flat_pairs l)), d) /\ listing m l.
Proof.
  intros H Hk Hh Hfs Hrs Hmax.
  destruct (read_hash_meta_run E d ctx k m H Hh) as (o & Ho & Hs).
  split; [by eapply hget_run|]. split; [by eapply hexists_run|].
  split; [eapply hlen_run; [done|done|unfold i64_max in *; nia]|]. split.
  - unfold hmget.
    erewrite bind_Ok by (apply expect_min_arg_count_ok; destruct fs; [done|simpl; lia]).
    mrun. rewrite (bind_Ok _ _ _ _ _ Ho). destruct o as [meta|].
    + destruct Hs as (_ & Hf & _). change (drop 1 (k :: fs)) with fs.
      assert (forall acc, mfold (fun result field =>
          v ← Storage.get CF_SUBKEY (sub_key ctx k (md_version meta) field);
          mret (result ++ [BulkString v])) acc fs d
        = (Ok (acc ++ map (fun f => BulkString (m !! f)) fs), d)) as Hm.
      { clear Hfs. induction fs as [|g fs IH]; intros acc; simpl; [by rewrite app_nil_r|].
        erewrite bind_Ok; [|by erewrite bind_Ok by eauto with kv]. rewrite IH, Hf.
        by rewrite <- app_assoc. }
      by erewrite bind_Ok by apply Hm.
    + destruct Hs as [-> _]. cbn [length]. rewrite Nat.sub_succ, Nat.sub_0_r.
      replace (map (fun f => BulkString (∅ !! f)) fs) with (repeat nil_reply (length fs)); [done|].
      clear. induction fs as [|g fs IH]; [done|]. simpl. by rewrite IH.
  - eapply hgetall_run; [done|done|done|done| |unfold i64_max, u64_max in *; nia].
    unfold capacity_overflow. apply Z.ltb_ge. unfold i64_max in *. nia.
Qed.


End HashProperties.

(** ** Witnesses *)

(** The hash [f -> 1, g -> 2] stored under [h]. *)
Definition demo_meta : Metadata := set_size 2 (metadata_new DHash (new_version ctx0)).
Definition demo_hash : gmap bytes bytes := <[bs "f":=bs "1"]> (<[bs "g":=bs "2"]> ∅).
Definition db_h : MemDB :=
  db_write db0
    (put_batch ctx0 (bs "h") (md_version demo_meta) [(bs "f", bs "1"); (bs "g", bs "2")]
     ++ [PutCf CF_METADATA (meta_key ctx0 (bs "h")) (encode_metadata demo_meta)]).

Lemma db_h_wf : wf_db db_h.
Proof. apply wf_write, mem_wf. Qed.

Lemma db_h_short : short ctx0 (bs "h").
Proof. split; vm_compute; reflexivity. Qed.

Lemma db_h_repr : hash_repr 0 db_h ctx0 (bs "h") demo_hash.
Proof.
  right. eexists. apply hash_at_written; [done|done| |].
  - split; [apply good_meta_set_size; [apply good_meta_new|done]|]. split; [done|vm_compute; reflexivity].
  - intros f. change (db_get db0 CF_SUBKEY ?x) with (mem_get db0 CF_SUBKEY x).
    unfold mem_get. simpl mem_data. rewrite lookup_empty, <- (lookup_empty f).
    rewrite (put_batch_effect ctx0 (bs "h") (md_version demo_meta) _ f ∅). unfold assign_all.
    simpl fold_left. unfold demo_hash. by rewrite insert_insert_ne by done.
Qed.

Lemma hset_refines_witness :
  exists d', hset ctx0 (bs "h" :: flatten [(bs "f", bs "9"); (bs "x", bs "3")]) db_h
      = (Ok (Integer (count_new demo_hash [(bs "f", bs "9"); (bs "x", bs "3")])), d')
    /\ hash_repr 0 d' ctx0 (bs "h") (assign_all demo_hash [(bs "f", bs "9"); (bs "x", bs "3")])
    /\ only_key db_h d' ctx0 (bs "h").
Proof.
  apply (hset_refines 0 db_h ctx0 ctx0 (bs "h") demo_hash [(bs "f", bs "9"); (bs "x", bs "3")]);
    [apply db_h_wf|apply db_h_repr|done| |vm_compute; discriminate|done|done].
  apply (bool_decide_unpack _). vm_compute. exact I.
Defined.

Lemma hdel_refines_witness :
  exists d', hdel ctx0 [bs "h"; bs "g"; bs "x"] db_h
      = (Ok (Integer (count_present demo_hash [bs "g"; bs "x"])), d')
    /\ hash_repr 0 d' (mkContext [] 2000 9 true 40) (bs "h") (remove_all demo_hash [bs "g"; bs "x"])
    /\ only_key db_h d' ctx0 (bs "h").
Proof.
  apply (hdel_refines 0 db_h ctx0 (mkContext [] 2000 9 true 40) (bs "h") demo_hash [bs "g"; bs "x"]);
    [apply db_h_wf|apply db_h_repr|done| |vm_compute; discriminate|done|done|].
  - apply (bool_decide_unpack _). vm_compute. exact I.
  - intros f. unfold db_h. rewrite db_get_write, batch_effect_app.
    rewrite batch_effect_other_cf by done. rewrite batch_effect_frame; [done|].
    repeat apply Forall_cons_2; try apply Forall_nil_2; intros [= E]; revert E;
      apply sub_key_ne; try apply db_h_short; try done; right; vm_compute; discriminate.
Defined.

Lemma hash_reads_witness :
  hget ctx0 [bs "h"; bs "f"] db_h = (Ok (BulkString (demo_hash !! bs "f")), db_h)
  /\ hexists ctx0 [bs "h"; bs "f"] db_h
     = (Ok (Integer (if decide (is_Some (demo_hash !! bs "f")) then 1 else 0)), db_h)
  /\ hlen ctx0 [bs "h"] db_h = (Ok (Integer (Z.of_nat (size demo_hash))), db_h)
  /\ hmget ctx0 [bs "h"; bs "x"] db_h
     = (Ok (Array (map (fun f => BulkString (demo_hash !! f)) [bs "x"])), db_h)
  /\ exists l, hgetall ctx0 [bs "h"] db_h = (Ok (Array (flat_pairs l)), db_h)
               /\ listing demo_hash l.
Proof.
  apply (hash_reads 0 db_h ctx0 (bs "h") demo_hash (bs "f") [bs "x"]);
    [apply db_h_wf|apply db_h_short|apply db_h_repr|done|vm_compute; discriminate
    |vm_compute; discriminate].
Defined.


(** ** Behaviours that differ from the documentation *)

(** A field named twice in one HSET is counted twice: the reply and the stored
    size are then 2 for a hash of one field. *)
Example hset_duplicate_miscounts :
  fst ((a ← hset ctx0 [bs "h"; bs "f"; bs "1"; bs "f"; bs "2"];
        b ← hlen ctx0 [bs "h"]; c ← hgetall ctx0 [bs "h"]; mret [a; b; c]) db0)
  = Ok [Integer 2; Integer 2; Array [bulk (bs "f"); bulk (bs "2")]].
Proof. vm_compute. reflexivity. Qed.

(** An expired hash is still served. *)
Example hash_expiry_ignored :
  let late := mkContext [] 9000 7 true 40 in
  fst ((_ ← hset ctx0 [bs "h"; bs "f"; bs "1"];
        _ ← put CF_METADATA (meta_key ctx0 (bs "h"))
              (encode_metadata (set_expire 2000 (set_size 1 (metadata_new DHash (new_version ctx0)))));
        hget late [bs "h"; bs "f"]) db0)
  = Ok (bulk (bs "1")).
Proof. vm_compute. reflexivity. Qed.

(** A cursor that is valid UTF-8 but no hexadecimal text can crash the command. *)
Example hscan_cursor_panics :
  fst (hscan ctx0 [bs "h"; [Byte.x61; Byte.xc3; Byte.xa9; Byte.x62]] db0) = Panic.
Proof. vm_compute. reflexivity. Qed.
