(* ===== verification/ListCmd.v ===== *)
(** * List commands (src/cmd/list.rs)

    LPUSH, RPUSH, LPOP, RPOP, LRANGE, LINDEX and LLEN, refined to operations
    on a list: the elements are stored under order-preserving images of the
    consecutive indices from [head] to [tail]. *)

From S2P Require Import Prelude Bytes Text Error Types Encoding Backend Storage Protocol Context.
From S2P Require Import Keyspace.

Local Open Scope Z_scope.

Definition LIST_PAGE_SIZE : Z := 1024.

(** [(idx as u64 ^ (1u64 << 63)).to_be_bytes()]. *)
Definition encode_index (idx : Z) : bytes :=
  be_bytes 8 (Z.lxor (wrap_u64 idx) (Z.shiftl 1 63)).

Definition decode_index (b : bytes) : outcome Z :=
  if (length b <? 8)%nat then Panic
  else Ok (wrap_i64 (Z.lxor (from_be (take 8 b)) (Z.shiftl 1 63))).

(** [&sub[..8]]. *)
Definition first8 (sub : bytes) : outcome bytes :=
  if (length sub <? 8)%nat then Panic else Ok (take 8 sub).

Section ListCommands.
Context {DB : Type} {RDB : RocksDB DB}.
Variable ctx : CommandContext.

Definition load_list_meta (user_key : bytes) : M DB (option Metadata) :=
  m ← get_meta ctx user_key;
  match m with
  | None => mret None
  | Some v => lift (check_typed_meta DList "invalid list metadata" ctx v)
  end.

Definition parse_usize (data : bytes) : M DB Z :=
  match parse_text parse_u64 data with
  | Some z => mret z
  | None => throw NotInteger
  end.

(** One element of LPUSH or RPUSH. *)
Definition push_element (user_key : bytes) (left : bool) (st : Metadata * WriteBatch)
    (element : bytes) : M DB (Metadata * WriteBatch) :=
  let '(meta, batch) := st in
  if left then
    head ← arith_i64 (checks ctx) (md_head meta - 1);
    batch ← batch_put batch CF_SUBKEY
              (sub_key ctx user_key (md_version meta) (encode_index head)) element;
    size ← arith_u64 (checks ctx) (md_size meta + 1);
    mret (set_ends head (md_tail meta) size meta, batch)
  else
    tail ← arith_i64 (checks ctx) (md_tail meta + 1);
    batch ← batch_put batch CF_SUBKEY
              (sub_key ctx user_key (md_version meta) (encode_index tail)) element;
    size ← arith_u64 (checks ctx) (md_size meta + 1);
    mret (set_ends (md_head meta) tail size meta, batch).

Definition push (args : list bytes) (left : bool) : M DB RespValue :=
  _ ← expect_min_arg_count (if left then "LPUSH" else "RPUSH") args 2;
  user_key ← index args 0;
  m ← load_list_meta user_key;
  let meta := match m with
              | Some meta => meta
              | None => metadata_new DList (new_version ctx)
              end in
  '(meta, batch) ← mfold (push_element user_key left) (meta, []) (drop 1 args);
  batch ← batch_put batch CF_METADATA (meta_key ctx user_key) (encode_metadata meta);
  _ ← write batch;
  mret (Integer (wrap_i64 (md_size meta))).

Definition lpush (args : list bytes) : M DB RespValue := push args true.
Definition rpush (args : list bytes) : M DB RespValue := push args false.

(** Moving one end inwards. *)
Definition shrink (left : bool) (meta : Metadata) : M DB Metadata :=
  if left then
    head ← arith_i64 (checks ctx) (md_head meta + 1);
    size ← arith_u64 (checks ctx) (md_size meta - 1);
    mret (set_ends head (md_tail meta) size meta)
  else
    tail ← arith_i64 (checks ctx) (md_tail meta - 1);
    size ← arith_u64 (checks ctx) (md_size meta - 1);
    mret (set_ends (md_head meta) tail size meta).

(** [if meta.size == 0 { meta.head = 0; meta.tail = -1; }]. *)
Definition reset_ends (meta : Metadata) : Metadata :=
  if md_size meta =? 0 then set_ends 0 (-1) 0 meta else meta.

Definition nonempty_meta (m : option Metadata) : option Metadata :=
  match m with
  | Some meta => if 0 <? md_size meta then Some meta else None
  | None => None
  end.

Definition end_index (left : bool) (meta : Metadata) : Z :=
  if left then md_head meta else md_tail meta.

(** LPOP or RPOP without a count. *)
Definition pop_one (user_key : bytes) (left : bool) : M DB RespValue :=
  m ← load_list_meta user_key;
  match nonempty_meta m with
  | None => mret nil_reply
  | Some meta =>
      let sk := sub_key ctx user_key (md_version meta) (encode_index (end_index left meta)) in
      value ← Storage.get CF_SUBKEY sk;
      batch ← batch_delete [] CF_SUBKEY sk;
      meta ← shrink left meta;
      batch ← batch_put batch CF_METADATA (meta_key ctx user_key)
                (encode_metadata (reset_ends meta));
      _ ← write batch;
      mret (BulkString value)
  end.

(** One round of LPOP or RPOP with a count. *)
Definition pop_round (user_key : bytes) (left : bool)
    (st : Metadata * list RespValue * WriteBatch) (_ : nat)
  : M DB (Metadata * list RespValue * WriteBatch) :=
  let '(meta, result, batch) := st in
  let sk := sub_key ctx user_key (md_version meta) (encode_index (end_index left meta)) in
  v ← Storage.get CF_SUBKEY sk;
  let '(result, batch) := match v with
                          | Some v => (result ++ [bulk v], batch ++ [DeleteCf CF_SUBKEY sk])
                          | None => (result, batch)
                          end in
  meta ← shrink left meta;
  mret (meta, result, batch).

Definition pop_many (user_key : bytes) (count : Z) (left : bool) : M DB RespValue :=
  if count =? 0 then mret (Array [])
  else
    m ← load_list_meta user_key;
    match nonempty_meta m with
    | None => mret (Array [])
    | Some meta =>
        let actual := Z.min count (md_size meta) in
        if capacity_overflow (resp_size ctx) actual then panic
        else
          _ ← cf_handle CF_SUBKEY;
          '(meta, result, batch) ←
            mfold (pop_round user_key left) (meta, [], []) (seq 0 (Z.to_nat actual));
          batch ← batch_put batch CF_METADATA (meta_key ctx user_key)
                    (encode_metadata (reset_ends meta));
          _ ← write batch;
          mret (Array result)
    end.

Definition pop (args : list bytes) (left : bool) : M DB RespValue :=
  let name := if left then "LPOP" else "RPOP" in
  if negb (Nat.eqb (length args) 1) && negb (Nat.eqb (length args) 2)
  then throw (WrongArgCount (bs name))
  else
    user_key ← index args 0;
    if Nat.eqb (length args) 1 then pop_one user_key left
    else
      a ← index args 1;
      count ← parse_usize a;
      pop_many user_key count left.

Definition lpop (args : list bytes) : M DB RespValue := pop args true.
Definition rpop (args : list bytes) : M DB RespValue := pop args false.

(** The loop body of LRANGE. *)
Definition lrange_item (start_idx end_idx count : Z) (result : list RespValue) (item : kv)
  : outcome (ctrl (list RespValue)) :=
  '(_, _, sub) ← ok_or (ctx_parse_subkey ctx item.1) (Protocol (bs "invalid list subkey"));
  b ← first8 sub;
  idx ← decode_index b;
  if idx <? start_idx then Ok (Continue result)
  else if end_idx <? idx then Ok (Break result)
  else
    let result := result ++ [bulk item.2] in
    if count <=? Z.of_nat (length result) then Ok (Break result) else Ok (Continue result).

Definition lrange (args : list bytes) : M DB RespValue :=
  _ ← expect_arg_count "LRANGE" args 3;
  user_key ← index args 0;
  a ← index args 1; start ← arg_i64 a;
  b ← index args 2; stop ← arg_i64 b;
  m ← load_list_meta user_key;
  match m with
  | None => mret (Array [])
  | Some meta =>
      if md_size meta =? 0 then mret (Array [])
      else
        let len := wrap_i64 (md_size meta) in
        s ← (if start <? 0 then arith_i64 (checks ctx) (start + len) else mret start);
        e ← (if stop <? 0 then arith_i64 (checks ctx) (stop + len) else mret stop);
        let s := if s <? 0 then 0 else s in
        e ← (if len <=? e then arith_i64 (checks ctx) (len - 1) else mret e);
        if e <? s then mret (Array [])
        else
          start_idx ← arith_i64 (checks ctx) (md_head meta + s);
          end_idx ← arith_i64 (checks ctx) (md_head meta + e);
          n ← arith_i64 (checks ctx) (e - s);
          n ← arith_i64 (checks ctx) (n + 1);
          let count := wrap_u64 n in
          if capacity_overflow (resp_size ctx) count then panic
          else
            result ← page_walk CF_SUBKEY (sub_key ctx user_key (md_version meta) [])
                       LIST_PAGE_SIZE (lrange_item start_idx end_idx count) [];
            mret (Array result)
  end.

Definition lindex (args : list bytes) : M DB RespValue :=
  _ ← expect_arg_count "LINDEX" args 2;
  user_key ← index args 0;
  a ← index args 1;
  idx ← arg_i64 a;
  m ← load_list_meta user_key;
  match m with
  | None => mret nil_reply
  | Some meta =>
      if md_size meta =? 0 then mret nil_reply
      else
        let len := wrap_i64 (md_size meta) in
        i ← (if idx <? 0 then arith_i64 (checks ctx) (idx + len) else mret idx);
        if (i <? 0) || (len <=? i) then mret nil_reply
        else
          at_ ← arith_i64 (checks ctx) (md_head meta + i);
          v ← Storage.get CF_SUBKEY (sub_key ctx user_key (md_version meta) (encode_index at_));
          mret (BulkString v)
  end.

Definition llen (args : list bytes) : M DB RespValue :=
  _ ← expect_arg_count "LLEN" args 1;
  user_key ← index args 0;
  m ← load_list_meta user_key;
  let len := match m with Some meta => md_size meta | None => 0 end in
  mret (Integer (wrap_i64 len)).

End ListCommands.

Example list_session :
  fst ((a ← rpush ctx0 [bs "l"; bs "b"; bs "c"];
        b ← lpush ctx0 [bs "l"; bs "a"; bs "z"];
        c ← lrange ctx0 [bs "l"; bs "0"; bs "-1"];
        e ← rpop ctx0 [bs "l"];
        f ← lpop ctx0 [bs "l"; bs "2"];
        g ← lindex ctx0 [bs "l"; bs "-1"];
        h ← llen ctx0 [bs "l"];
        mret [a; b; c; e; f; g; h]) db0)
  = Ok [Integer 2; Integer 4; Array (map bulk [bs "z"; bs "a"; bs "b"; bs "c"]);
        bulk (bs "c"); Array [bulk (bs "z"); bulk (bs "a")]; bulk (bs "b"); Integer 1].
Proof. vm_compute. reflexivity. Qed.

(** ** Indices *)

Lemma lxor_high u : 0 <= u < 2 ^ 63 -> Z.lxor u (2 ^ 63) = u + 2 ^ 63.
Proof.
  intros Hu. symmetry. apply Z.add_nocarry_lxor.
  apply Z.bits_inj'. intros i Hi. rewrite Z.bits_0, Z.land_spec, Z.pow2_bits_eqb by lia.
  destruct (63 =? i) eqn:E; [|by rewrite andb_false_r]. zbool. subst.
  rewrite Z.bits_above_log2; [done|lia|]. destruct (decide (u = 0)) as [->|]; [simpl; lia|].
  apply Z.log2_lt_pow2; lia.
Qed.

Lemma lxor_sign u : 0 <= u < 2 ^ 64 -> Z.lxor u (2 ^ 63) = (u + 2 ^ 63) mod 2 ^ 64.
Proof.
  intros Hu. destruct (decide (u < 2 ^ 63)).
  - rewrite lxor_high, Z.mod_small by lia. done.
  - replace u with (Z.lxor (u - 2 ^ 63) (2 ^ 63)) at 1 by (rewrite lxor_high; lia).
    rewrite Z.lxor_assoc, Z.lxor_nilpotent, Z.lxor_0_r.
    symmetry. replace (u + 2 ^ 63) with (u - 2 ^ 63 + 1 * 2 ^ 64) by lia.
    rewrite Z.mod_add by lia. apply Z.mod_small. lia.
Qed.

(** The image of an index is its offset from the smallest one. *)
Lemma encode_index_eq i : is_i64 i = true -> encode_index i = be_bytes 8 (i + 2 ^ 63).
Proof.
  intros Hi%is_i64_spec. unfold encode_index. change (Z.shiftl 1 63) with (2 ^ 63).
  rewrite lxor_sign by (apply Z.mod_pos_bound; lia). unfold wrap_u64.
  rewrite Zplus_mod_idemp_l. rewrite Z.mod_small by lia. done.
Qed.

Lemma length_encode_index i : length (encode_index i) = 8%nat.
Proof. apply length_be_bytes. Qed.

Lemma decode_encode_index i : is_i64 i = true -> decode_index (encode_index i) = Ok i.
Proof.
  intros Hi. unfold decode_index. rewrite length_encode_index. change (8 <? 8)%nat with false.
  cbv iota. rewrite take_ge by (rewrite length_encode_index; lia).
  rewrite encode_index_eq by done. apply is_i64_spec in Hi.
  rewrite u64_be_roundtrip by (apply is_u64_spec; lia).
  change (Z.shiftl 1 63) with (2 ^ 63). rewrite lxor_sign by lia.
  rewrite wrap_i64_mod. f_equal. replace (i + 2 ^ 63 + 2 ^ 63) with (i + 1 * 2 ^ 64) by lia.
  rewrite <- wrap_i64_mod, Z.mod_add by lia. rewrite wrap_i64_mod.
  apply wrap_i64_id, is_i64_spec. lia.
Qed.

Lemma encode_index_inj i j :
  is_i64 i = true -> is_i64 j = true -> encode_index i = encode_index j -> i = j.
Proof.
  intros Hi Hj E. pose proof (decode_encode_index i Hi) as H.
  rewrite E, decode_encode_index in H by done. by simplify_eq.
Qed.

(** The byte order of the images is the order of the indices. *)
Lemma encode_index_lt i j :
  is_i64 i = true -> is_i64 j = true -> i < j -> bytes_lt (encode_index i) (encode_index j).
Proof.
  intros Hi Hj Hlt. rewrite !encode_index_eq by done. apply is_i64_spec in Hi, Hj.
  apply be_bytes_lt; change (2 ^ (8 * Z.of_nat 8)) with (2 ^ 64); lia.
Qed.

(** ** Refinement to lists *)

Section ListFacts.
Context {DB : Type} {RDB : RocksDB DB}.
Implicit Types (d : DB) (ctx : CommandContext) (k : bytes) (l : list bytes).

(** The stored subkeys of [k] at version [w] are the elements of [l] under the
    indices from [h] on, and nothing else. *)
Definition elements d ctx k (w h : Z) l : Prop :=
  (forall i x, l !! i = Some x ->
     db_get d CF_SUBKEY (sub_key ctx k w (encode_index (h + Z.of_nat i))) = Some x)
  /\ forall sub x, db_get d CF_SUBKEY (sub_key ctx k w sub) = Some x ->
     exists i, sub = encode_index (h + Z.of_nat i) /\ l !! i = Some x.

(** Metadata of a list of [l]'s length with expiry [E], whose indices stay
    within [-B..B]. *)
Definition list_meta (B E : Z) (meta : Metadata) l : Prop :=
  good_meta DList meta /\ md_expire meta = E /\ md_size meta = Z.of_nat (length l)
  /\ md_tail meta = md_head meta + Z.of_nat (length l) - 1
  /\ - B <= md_head meta /\ md_tail meta <= B.

(** The key holds the metadata [meta] of the list [l]. *)
Definition list_at (B E : Z) d ctx k (meta : Metadata) l : Prop :=
  composite_at d ctx k DList meta /\ unexpired E ctx
  /\ list_meta B E meta l /\ elements d ctx k (md_version meta) (md_head meta) l.

(** The key represents the list [l] with expiry [E]; an absent or expired key
    the empty list, provided no subkeys are left under the version a push
    would choose. *)
Definition list_repr (B E : Z) d ctx k l : Prop :=
  0 <= B /\
  ((l = [] /\ E = 0 /\ elements d ctx k (new_version ctx) 0 []
    /\ absent d ctx k DList)
   \/ exists meta, list_at B E d ctx k meta l).

Lemma load_list_meta_run B E d ctx k l :
  wf_db d -> list_repr B E d ctx k l ->
  exists o, load_list_meta ctx k d = (Ok o, d)
    /\ match o with
       | None => l = [] /\ E = 0 /\ elements d ctx k (new_version ctx) 0 []
       | Some meta => composite_at d ctx k DList meta /\ list_meta B E meta l
                      /\ elements d ctx k (md_version meta) (md_head meta) l
       end.
Proof.
  intros H Hr. destruct (load_typed d ctx k DList "invalid list metadata" H) as [Hn Hs]; [done|].
  destruct Hr as [_ [(-> & -> & He & Ha)|(meta & Hc & Hx & Hm & He)]].
  - exists None. split; [by apply Hn|done].
  - exists (Some meta). split; [|done]. apply (Hs meta E); [done|apply Hm|done].
Qed.

Lemma list_meta_new B ctx : 0 <= B -> list_meta B 0 (metadata_new DList (new_version ctx)) [].
Proof. intros. split; [apply good_meta_new|]. simpl. lia. Qed.

(** The metadata a push starts from. *)
Lemma push_start B E d ctx k l :
  wf_db d -> list_repr B E d ctx k l ->
  exists o meta, load_list_meta ctx k d = (Ok o, d)
    /\ meta = match o with Some m => m | None => metadata_new DList (new_version ctx) end
    /\ list_meta B E meta l /\ elements d ctx k (md_version meta) (md_head meta) l.
Proof.
  intros H Hr. destruct (load_list_meta_run B E d ctx k l H Hr) as (o & Ho & Hs).
  exists o. eexists. split; [done|]. split; [done|]. destruct o as [meta|].
  - by destruct Hs as (_ & ? & ?).
  - destruct Hs as (-> & -> & He). split; [|done]. apply list_meta_new. apply Hr.
Qed.

Lemma good_meta_ends meta h t n :
  good_meta DList meta -> is_i64 h = true -> is_i64 t = true -> is_u64 n = true ->
  good_meta DList (set_ends h t n meta).
Proof.
  intros (Ht & Hr & Hc) Hh Htl Hn. split; [done|]. split.
  - unfold metadata_ranges in *.
    cbn [set_ends md_expire md_version md_size md_head md_tail].
    rewrite !andb_true_iff in *. tauto.
  - unfold canonical_ends. change (data_type (set_ends h t n meta)) with (data_type meta).
    by rewrite bool_decide_true.
Qed.

(** *** Pushing *)

(** The list after one push, and after several. *)
Definition push_list (left : bool) l (x : bytes) : list bytes :=
  if left then x :: l else l ++ [x].

Definition push_all (left : bool) l (xs : list bytes) : list bytes :=
  fold_left (push_list left) xs l.

Lemma push_all_eq left l xs :
  push_all left l xs = if left then reverse xs ++ l else l ++ xs.
Proof.
  unfold push_all. revert l. induction xs as [|x xs IH]; intros l; simpl.
  - destruct left; [done|by rewrite app_nil_r].
  - rewrite IH. destruct left; simpl; [|by rewrite <- app_assoc].
    by rewrite reverse_cons, <- app_assoc.
Qed.

Lemma length_push_list left l x : length (push_list left l x) = S (length l).
Proof. destruct left; simpl; [done|]. rewrite length_app. simpl. lia. Qed.

Definition push_index (left : bool) (meta : Metadata) : Z :=
  if left then md_head meta - 1 else md_tail meta + 1.

Definition pushed (left : bool) (meta : Metadata) : Metadata :=
  if left then set_ends (md_head meta - 1) (md_tail meta) (md_size meta + 1) meta
  else set_ends (md_head meta) (md_tail meta + 1) (md_size meta + 1) meta.

Lemma list_meta_pushed B E left meta l x :
  0 <= B -> B + 1 < 2 ^ 63 -> list_meta B E meta l ->
  list_meta (B + 1) E (pushed left meta) (push_list left l x).
Proof.
  intros HB0 HB (Hg & He & Hs & Ht & Hh & Htl). unfold list_meta.
  rewrite length_push_list, Nat2Z.inj_succ.
  destruct left; cbn [pushed set_ends md_expire md_size md_head md_tail];
    (split; [apply good_meta_ends; [done|apply is_i64_spec; lia..|apply is_u64_spec; lia]|]); lia.
Qed.

Lemma elements_pushed B E d d' ctx k left meta l x :
  0 <= B -> B + 1 < 2 ^ 63 -> list_meta B E meta l ->
  elements d ctx k (md_version meta) (md_head meta) l ->
  (forall sub, db_get d' CF_SUBKEY (sub_key ctx k (md_version meta) sub)
     = if decide (sub = encode_index (push_index left meta)) then Some x
       else db_get d CF_SUBKEY (sub_key ctx k (md_version meta) sub)) ->
  elements d' ctx k (md_version meta) (md_head (pushed left meta)) (push_list left l x).
Proof.
  intros HB0 HB (Hg & He & Hs & Ht & Hh & Htl) [E1 E2] Hd.
  assert (forall i y, l !! i = Some y -> 0 <= Z.of_nat i < Z.of_nat (length l)) as Hi
    by (intros i y Hi%lookup_lt_Some; lia).
  assert (forall i y, l !! i = Some y ->
    encode_index (md_head meta + Z.of_nat i) <> encode_index (push_index left meta)) as Hne.
  { intros i y Hy Eq. specialize (Hi i y Hy). apply encode_index_inj in Eq;
      destruct left; unfold push_index in *; try (apply is_i64_spec); lia. }
  destruct left; unfold push_index in *; simpl in *; split.
  - intros [|i] y Hy; simpl in Hy.
    + rewrite Hd, decide_True; [done|]. f_equal. lia.
    + rewrite Hd. replace (md_head meta - 1 + Z.of_nat (S i)) with (md_head meta + Z.of_nat i) by lia.
      rewrite decide_False by eauto. auto.
  - intros sub y Hy. rewrite Hd in Hy. case_decide as Eq.
    + exists 0%nat. simplify_eq. split; [f_equal; lia|done].
    + destruct (E2 _ _ Hy) as (i & -> & Hl). exists (S i). split; [f_equal; lia|done].
  - intros i y Hy. apply lookup_app_Some in Hy as [Hy|[Hlen Hy]].
    + rewrite Hd, decide_False by eauto. auto.
    + apply list_lookup_singleton_Some in Hy as [Hz ->].
      rewrite Hd, decide_True; [done|]. f_equal. lia.
  - intros sub y Hy. rewrite Hd in Hy. case_decide as Eq.
    + exists (length l). simplify_eq. split; [f_equal; lia|].
      by rewrite lookup_app_r, Nat.sub_diag by lia.
    + destruct (E2 _ _ Hy) as (i & -> & Hl). exists i. split; [done|].
      by apply lookup_app_l_Some.
Qed.

Lemma push_element_run B E d ctx k left meta l b x :
  wf_db d -> 0 <= B -> B + 1 < 2 ^ 63 -> list_meta B E meta l ->
  push_element ctx k left (meta, b) x d
  = (Ok (pushed left meta,
         b ++ [PutCf CF_SUBKEY (sub_key ctx k (md_version meta)
                                  (encode_index (push_index left meta))) x]), d).
Proof.
  intros H HB0 HB (Hg & He & Hs & Ht & Hh & Htl). unfold push_element.
  destruct left; (erewrite bind_Ok by (apply arith_i64_ok, is_i64_spec; lia));
    erewrite bind_Ok by eauto with kv;
    by erewrite bind_Ok by (apply arith_u64_ok, is_u64_spec; lia).
Qed.

Lemma push_fold E d ctx k left xs B meta l b :
  wf_db d -> 0 <= B -> B + Z.of_nat (length xs) < 2 ^ 63 -> list_meta B E meta l ->
  elements (db_write d b) ctx k (md_version meta) (md_head meta) l ->
  Forall (key_op ctx k (md_version meta)) b ->
  exists meta' b', mfold (push_element ctx k left) (meta, b) xs d = (Ok (meta', b'), d)
    /\ list_meta (B + Z.of_nat (length xs)) E meta' (push_all left l xs)
    /\ md_version meta' = md_version meta
    /\ elements (db_write d b') ctx k (md_version meta') (md_head meta') (push_all left l xs)
    /\ Forall (key_op ctx k (md_version meta)) b'.
Proof.
  intros H. revert B meta l b. induction xs as [|x xs IH]; intros B meta l b HB0 HB Hm He Hb.
  - exists meta, b. simpl. rewrite Z.add_0_r. done.
  - cbn [mfold length] in *.
    rewrite (bind_Ok _ _ _ _ _ (push_element_run B E d ctx k left meta l b x H HB0 ltac:(lia) Hm)).
    set (o := PutCf _ _ _).
    assert (md_version (pushed left meta) = md_version meta) as Hv by by destruct left.
    destruct (IH (B + 1) (pushed left meta) (push_list left l x) (b ++ [o]))
      as (meta' & b' & R & Hm' & Hv' & He' & Hb'); [lia..| | | |].
    + apply list_meta_pushed; [done|lia|done].
    + rewrite Hv. eapply (elements_pushed B E (db_write d b)); [done|lia|done|done|].
      intros sub. rewrite db_get_snoc. simpl.
      destruct (decide (sub = encode_index (push_index left meta))) as [->|Hne].
      * by rewrite decide_True.
      * rewrite decide_False; [done|]. by intros [= Eq%sub_key_inj].
    + rewrite Hv. apply Forall_app. split; [done|]. constructor; [|done].
      right. by eexists CF_SUBKEY, _.
    + exists meta', b'. rewrite Hv in *. split; [done|]. split; [|done].
      replace (B + Z.of_nat (S (length xs))) with (B + 1 + Z.of_nat (length xs)) by lia. done.
Qed.

(** Storing the metadata of a list after its elements. *)
Lemma list_at_written B E d ctx ctx' k meta l b :
  namespace ctx' = namespace ctx -> unexpired E ctx' -> list_meta B E meta l ->
  elements (db_write d b) ctx k (md_version meta) (md_head meta) l ->
  list_at B E
    (db_write d (b ++ [PutCf CF_METADATA (meta_key ctx k) (encode_metadata meta)])) ctx' k meta l.
Proof.
  intros Hns Hx Hm He.
  assert (forall sub, db_get (db_write d (b ++ [PutCf CF_METADATA (meta_key ctx k) (encode_metadata meta)]))
      CF_SUBKEY (sub_key ctx' k (md_version meta) sub)
    = db_get (db_write d b) CF_SUBKEY (sub_key ctx k (md_version meta) sub)) as Hsub.
  { intros sub. unfold sub_key. rewrite Hns, db_get_snoc. done. }
  split; [|split; [done|split; [done|]]].
  - eapply composite_written; [|done|apply Hm]. unfold meta_key. rewrite Hns, db_get_snoc.
    simpl. by rewrite decide_True.
  - destruct He as [E1 E2]. split.
    + intros i x Hx'. rewrite Hsub. auto.
    + intros sub x. rewrite Hsub. auto.
Qed.

(** *** Popping *)

(** The elements in the order they are popped. *)
Definition side (left : bool) l : list bytes := if left then l else reverse l.

(** What is left after [n] pops. *)
Definition rest_list (left : bool) l (n : nat) : list bytes :=
  if left then drop n l else take (length l - n) l.

Definition pop_index (left : bool) (meta : Metadata) (j : nat) : Z :=
  if left then md_head meta + Z.of_nat j else md_tail meta - Z.of_nat j.

Definition popped (left : bool) (n : nat) (meta : Metadata) : Metadata :=
  if left then set_ends (md_head meta + Z.of_nat n) (md_tail meta) (md_size meta - Z.of_nat n) meta
  else set_ends (md_head meta) (md_tail meta - Z.of_nat n) (md_size meta - Z.of_nat n) meta.

Lemma pop_lookup B E d ctx k left meta l j x :
  list_meta B E meta l -> elements d ctx k (md_version meta) (md_head meta) l ->
  side left l !! j = Some x ->
  db_get d CF_SUBKEY (sub_key ctx k (md_version meta) (encode_index (pop_index left meta j)))
  = Some x.
Proof.
  intros (Hg & He & Hs & Ht & Hh & Htl) [E1 _] Hx. unfold pop_index. destruct left; simpl in Hx.
  - by apply E1.
  - pose proof (lookup_lt_Some _ _ _ Hx) as Hlt. rewrite length_reverse in Hlt.
    rewrite reverse_lookup in Hx by done.
    replace (md_tail meta - Z.of_nat j) with (md_head meta + Z.of_nat (length l - S j)) by lia.
    by apply E1.
Qed.

Definition pop_batch ctx k (left : bool) (meta : Metadata) (n : nat) : WriteBatch :=
  map (fun j => DeleteCf CF_SUBKEY
         (sub_key ctx k (md_version meta) (encode_index (pop_index left meta j)))) (seq 0 n).

Lemma list_meta_popped B E left meta l n :
  0 <= B < 2 ^ 63 -> list_meta B E meta l -> (n <= length l)%nat ->
  list_meta B E (reset_ends (popped left n meta)) (rest_list left l n).
Proof.
  intros HB (Hg & He & Hs & Ht & Hh & Htl) Hn.
  assert (length (rest_list left l n) = (length l - n)%nat) as Hl.
  { destruct left; simpl; [by rewrite length_drop|rewrite length_take; lia]. }
  assert (md_size (popped left n meta) = Z.of_nat (length l - n)) as Hsz
    by (destruct left; simpl; lia).
  assert (forall h t, - B <= h <= B -> - B - 1 <= t <= B ->
    good_meta DList (set_ends h t (Z.of_nat (length l - n)) meta)) as Hgood
    by (intros; apply good_meta_ends; [done|apply is_i64_spec; lia..|apply is_u64_spec; lia]).
  unfold reset_ends. rewrite Hsz.
  destruct (Z.of_nat (length l - n) =? 0) eqn:Ez; zbool; unfold list_meta; rewrite Hl.
  - replace (set_ends 0 (-1) 0 (popped left n meta))
      with (set_ends 0 (-1) (Z.of_nat (length l - n)) meta) by (rewrite Ez; by destruct left).
    split; [apply Hgood; lia|]. simpl. lia.
  - replace (popped left n meta)
      with (set_ends (md_head (popped left n meta)) (md_tail (popped left n meta))
              (Z.of_nat (length l - n)) meta)
      by (destruct left; unfold popped; simpl; f_equal; lia).
    split; [apply Hgood; destruct left; simpl; lia|]. destruct left; simpl; lia.
Qed.

Lemma elements_nil d ctx k (w h h' : Z) :
  elements d ctx k w h [] -> elements d ctx k w h' [].
Proof.
  intros [_ E2]. split; [done|]. intros sub x Hx. destruct (E2 sub x Hx) as (i & _ & Hi). done.
Qed.

Definition pop_subs (left : bool) (meta : Metadata) (n : nat) : list bytes :=
  map (fun j => encode_index (pop_index left meta j)) (seq 0 n).

Lemma elem_of_pop_subs left meta n sub :
  sub ∈ pop_subs left meta n
  <-> exists j, (j < n)%nat /\ sub = encode_index (pop_index left meta j).
Proof.
  unfold pop_subs. rewrite list_elem_of_fmap. split.
  - intros (j & -> & Hj%elem_of_seq). exists j. split; [lia|done].
  - intros (j & Hj & ->). exists j. split; [done|]. apply elem_of_seq. lia.
Qed.

Lemma pop_batch_effect d ctx k left meta n sub :
  db_get (db_write d (pop_batch ctx k left meta n)) CF_SUBKEY (sub_key ctx k (md_version meta) sub)
  = if decide (sub ∈ pop_subs left meta n) then None
    else db_get d CF_SUBKEY (sub_key ctx k (md_version meta) sub).
Proof.
  rewrite db_get_write.
  replace (pop_batch ctx k left meta n) with (delete_items CF_SUBKEY
    (map (fun s => (sub_key ctx k (md_version meta) s, @nil byte)) (pop_subs left meta n)))
    by (unfold delete_items, pop_batch, pop_subs; by rewrite !map_map).
  rewrite delete_items_effect.
  assert (sub_key ctx k (md_version meta) sub
      ∈ (map (fun s => (sub_key ctx k (md_version meta) s, @nil byte)) (pop_subs left meta n)).*1
    <-> sub ∈ pop_subs left meta n) as Hin.
  { rewrite list_elem_of_fmap. split.
    - intros (x & Eq & Hx). apply list_elem_of_fmap in Hx as (s & -> & Hs).
      apply sub_key_inj in Eq. by subst.
    - intros Hs. eexists. split; [|apply list_elem_of_fmap; by exists sub]. done. }
  case_bool_decide as Hb; case_decide as Hd; try done; exfalso; tauto.
Qed.

Lemma elements_popped B E d ctx k left meta l n :
  0 <= B < 2 ^ 63 -> list_meta B E meta l ->
  elements d ctx k (md_version meta) (md_head meta) l -> (n <= length l)%nat ->
  elements (db_write d (pop_batch ctx k left meta n)) ctx k (md_version meta)
    (md_head (popped left n meta)) (rest_list left l n).
Proof.
  intros HB (Hg & He & Hs & Ht & Hh & Htl) [E1 E2] Hn.
  (* an index of the list is popped exactly when it is among the first [n] *)
  assert (forall i x, l !! i = Some x ->
    encode_index (md_head meta + Z.of_nat i) ∈ pop_subs left meta n
    <-> (if left then (i < n)%nat else (length l - n <= i)%nat)) as Hpop.
  { intros i x Hi%lookup_lt_Some. rewrite elem_of_pop_subs. split.
    - intros (j & Hj & Eq). apply encode_index_inj in Eq;
        destruct left; simpl in *; try apply is_i64_spec; lia.
    - destruct left; simpl; intros Hin.
      + exists i. split; [done|]. done.
      + exists (length l - 1 - i)%nat. split; [lia|]. f_equal. lia. }
  split.
  - intros i x Hx. rewrite pop_batch_effect. destruct left; simpl in *.
    + rewrite lookup_drop in Hx.
      replace (md_head meta + Z.of_nat n + Z.of_nat i) with (md_head meta + Z.of_nat (n + i)) by lia.
      rewrite decide_False by (rewrite Hpop by done; lia). auto.
    + apply lookup_take_Some in Hx as [Hx Hlt].
      rewrite decide_False by (rewrite Hpop by done; lia). auto.
  - intros sub x Hx. rewrite pop_batch_effect in Hx. case_decide as Hd; [done|].
    destruct (E2 _ _ Hx) as (i & -> & Hi). rewrite Hpop in Hd by done.
    destruct left; simpl in *.
    + exists (i - n)%nat. split; [f_equal; lia|]. rewrite lookup_drop.
      by replace (n + (i - n))%nat with i by lia.
    + exists i. split; [done|]. apply lookup_take_Some. split; [done|lia].
Qed.

Lemma shrink_run B E d ctx left meta l j :
  0 <= B -> B + 1 < 2 ^ 63 -> list_meta B E meta l -> (j < length l)%nat ->
  shrink ctx left (popped left j meta) d = (Ok (popped left (S j) meta), d).
Proof.
  intros HB0 HB (Hg & He & Hs & Ht & Hh & Htl) Hj. unfold shrink.
  destruct left; cbn [popped set_ends md_head md_tail md_size];
    (erewrite bind_Ok by (apply arith_i64_ok, is_i64_spec; lia));
    (erewrite bind_Ok by (apply arith_u64_ok, is_u64_spec; lia));
    unfold mret, M_ret, set_ends; cbn [md_flags md_expire md_version md_size md_head md_tail];
    do 3 f_equal; lia.
Qed.

Lemma end_index_popped left j meta : end_index left (popped left j meta) = pop_index left meta j.
Proof. by destruct left. Qed.

Lemma popped_version left j meta : md_version (popped left j meta) = md_version meta.
Proof. by destruct left. Qed.

Lemma pop_fold B E d ctx k left meta l n j s :
  wf_db d -> 0 <= B -> B + 1 < 2 ^ 63 -> list_meta B E meta l ->
  elements d ctx k (md_version meta) (md_head meta) l -> (j + n <= length l)%nat ->
  mfold (pop_round ctx k left)
    (popped left j meta, map bulk (take j (side left l)), pop_batch ctx k left meta j)
    (seq s n) d
  = (Ok (popped left (j + n) meta, map bulk (take (j + n) (side left l)),
         pop_batch ctx k left meta (j + n)), d).
Proof.
  intros H HB0 HB Hm He. revert j s. induction n as [|n IH]; intros j s Hj.
  - by rewrite Nat.add_0_r.
  - cbn [seq mfold].
    assert (exists x, side left l !! j = Some x) as [x Hx].
    { apply lookup_lt_is_Some. destruct left; simpl; rewrite ?length_reverse; lia. }
    erewrite bind_Ok.
    2:{ unfold pop_round. cbv beta iota zeta. rewrite end_index_popped, popped_version.
        erewrite bind_Ok by eauto with kv.
        rewrite (pop_lookup B E d ctx k left meta l j x Hm He Hx).
        erewrite bind_Ok by (eapply (shrink_run B E); [done|done|done|lia]). done. }
    specialize (IH (S j) (S s) ltac:(lia)).
    replace (j + S n)%nat with (S j + n)%nat by lia. rewrite <- IH. do 3 f_equal.
    + f_equal. rewrite (take_S_r _ _ _ Hx), map_app. done.
    + unfold pop_batch. rewrite seq_S, map_app. done.
Qed.

(** *** Reading *)

Definition indexed (h : Z) l : list (bytes * bytes) :=
  imap (fun i x => (encode_index (h + Z.of_nat i), x)) l.

Lemma indexed_cons h x l : indexed h (x :: l) = (encode_index h, x) :: indexed (h + 1) l.
Proof.
  unfold indexed. simpl. rewrite Z.add_0_r. f_equal. apply imap_ext. intros i y _. simpl.
  do 2 f_equal. lia.
Qed.

Lemma elem_of_indexed h l sub x :
  (sub, x) ∈ indexed h l <-> exists i, sub = encode_index (h + Z.of_nat i) /\ l !! i = Some x.
Proof.
  unfold indexed. rewrite elem_of_lookup_imap. split.
  - intros (i & y & [= -> ->] & Hy). eauto.
  - intros (i & -> & Hy). eauto.
Qed.

Lemma indexed_sorted h l :
  - 2 ^ 63 <= h -> h + Z.of_nat (length l) <= 2 ^ 63 -> StronglySorted key_lt (indexed h l).
Proof.
  revert h. induction l as [|x l IH]; intros h Hlo Hhi; [constructor|].
  rewrite indexed_cons. cbn [length] in Hhi. constructor; [apply IH; lia|].
  apply Forall_forall. intros [sub y] (i & -> & Hi%lookup_lt_Some)%elem_of_indexed.
  apply encode_index_lt; try apply is_i64_spec; lia.
Qed.

(** The subkeys in key order are the elements in list order. *)
Lemma list_sub_items B E d ctx k meta l :
  0 <= B < 2 ^ 63 -> list_meta B E meta l ->
  elements d ctx k (md_version meta) (md_head meta) l ->
  sub_items d ctx CF_SUBKEY k (md_version meta) = indexed (md_head meta) l.
Proof.
  intros HB (Hg & He & Hs & Ht & Hh & Htl) [E1 E2].
  apply sorted_ext; [apply sub_items_sorted|apply indexed_sorted; lia|].
  intros [sub x]. rewrite sub_items_elem, elem_of_indexed. split; [apply E2|].
  intros (i & -> & Hi). auto.
Qed.

Lemma lrange_item_step ctx (S' E' c : Z) acc (key x : bytes) u (w' : Z) sub b (i : Z) :
  ctx_parse_subkey ctx key = Some (u, w', sub) -> first8 sub = Ok b -> decode_index b = Ok i ->
  lrange_item ctx S' E' c acc (key, x)
  = if i <? S' then Ok (Continue acc)
    else if E' <? i then Ok (Break acc)
    else if c <=? Z.of_nat (length (acc ++ [bulk x])) then Ok (Break (acc ++ [bulk x]))
         else Ok (Continue (acc ++ [bulk x])).
Proof.
  intros H1 H2 H3. unfold lrange_item. cbn [fst snd]. rewrite H1.
  cbn [mbind outcome_bind ok_or]. rewrite H2. cbn [mbind outcome_bind].
  rewrite H3. done.
Qed.

Lemma first8_index i : first8 (encode_index i) = Ok (encode_index i).
Proof.
  unfold first8. rewrite length_encode_index, take_ge by (rewrite length_encode_index; lia).
  done.
Qed.

Lemma lrange_items ctx k (w S' E' : Z) l h acc :
  short ctx k -> is_u64 w = true -> - 2 ^ 63 <= h -> h + Z.of_nat (length l) <= 2 ^ 63 ->
  h <= E' -> S' <= E' -> Z.of_nat (length acc) = Z.max 0 (h - S') ->
  ctrl_value <$> for_items (lrange_item ctx S' E' (E' - S' + 1)) acc
      (map (fun x => (sub_key ctx k w x.1, x.2)) (indexed h l))
  = Ok (acc ++ map bulk (take (Z.to_nat (E' + 1 - Z.max h S')) (drop (Z.to_nat (S' - h)) l))).
Proof.
  intros Hk Hw. revert h acc. induction l as [|x l IH]; intros h acc Hlo Hhi HhE HSE Hacc.
  - simpl. by rewrite drop_nil, take_nil, app_nil_r.
  - rewrite indexed_cons. cbn [map for_items fst snd length] in *.
    rewrite (lrange_item_step ctx _ _ _ acc _ x k w (encode_index h) (encode_index h) h);
      [|by apply parse_sub_key|apply first8_index|apply decode_encode_index, is_i64_spec; lia].
    destruct (h <? S') eqn:Eh; zbool.
    + rewrite IH by lia. do 3 f_equal. rewrite !Z.max_r by lia. f_equal.
      replace (Z.to_nat (S' - h)) with (S (Z.to_nat (S' - (h + 1)))) by lia. done.
    + rewrite (proj2 (Z.ltb_ge E' h)) by lia. rewrite length_app. cbn [length].
      replace (Z.to_nat (S' - h)) with 0%nat by lia. rewrite drop_0.
      rewrite Z.max_l by lia.
      destruct (E' - S' + 1 <=? Z.of_nat (length acc + 1)) eqn:Ec; zbool.
      * replace (Z.to_nat (E' + 1 - h)) with 1%nat by lia. done.
      * rewrite IH by (rewrite ?length_app; simpl; lia).
        replace (Z.to_nat (S' - (h + 1))) with 0%nat by lia. rewrite drop_0.
        rewrite Z.max_l by lia. rewrite <- app_assoc. do 2 f_equal.
        replace (Z.to_nat (E' + 1 - h)) with (S (Z.to_nat (E' + 1 - (h + 1)))) by lia. done.
Qed.

Definition list_index l (i : Z) : option bytes :=
  let j := if i <? 0 then i + Z.of_nat (length l) else i in
  if j <? 0 then None else l !! Z.to_nat j.

End ListFacts.

(** ** Properties *)

Section ListProperties.
Context {DB : Type} {RDB : RocksDB DB}.
Implicit Types (d : DB) (ctx : CommandContext) (k : bytes) (l : list bytes).

Lemma reset_version meta : md_version (reset_ends meta) = md_version meta.
Proof. unfold reset_ends. by case_goal. Qed.

(** A push from the metadata it starts with. *)
Lemma push_run B E d ctx ctx' k l left xs o meta :
  wf_db d -> 0 <= B -> load_list_meta ctx k d = (Ok o, d) ->
  meta = match o with Some m => m | None => metadata_new DList (new_version ctx) end ->
  list_meta B E meta l -> elements d ctx k (md_version meta) (md_head meta) l -> xs <> [] ->
  B + Z.of_nat (length xs) < 2 ^ 62 -> namespace ctx' = namespace ctx -> unexpired E ctx' ->
  exists d' meta', push ctx (k :: xs) left d
             = (Ok (Integer (Z.of_nat (length (push_all left l xs)))), d')
    /\ list_at (B + Z.of_nat (length xs)) E d' ctx' k meta' (push_all left l xs)
    /\ md_version meta' = md_version meta /\ only_version d d' ctx k (md_version meta).
Proof.
  intros H HB0 Ho Em Hm He Hne HB Hns Hx.
  assert (elements (db_write d []) ctx k (md_version meta) (md_head meta) l) as He'.
  { destruct He as [E1 E2]. split; intros *; rewrite db_get_write; [apply E1|apply E2]. }
  destruct (push_fold E d ctx k left xs B meta l []) as (meta' & b' & R & Hm' & Hv & Hel & Hb);
    [done|done|lia|done|done|done|].
  eexists _, meta'. split; [|split; [|split; [done|]]].
  - unfold push.
    erewrite bind_Ok by (apply expect_min_arg_count_ok; destruct xs; [done|simpl; lia]).
    mrun. rewrite (bind_Ok _ _ _ _ _ Ho), <- Em.
    change (drop 1 (k :: xs)) with xs. rewrite (bind_Ok _ _ _ _ _ R). cbv beta iota.
    erewrite bind_Ok by eauto with kv. erewrite bind_Ok by reflexivity.
    destruct Hm' as (_ & _ & -> & Ht & Hh & Htl).
    by rewrite wrap_i64_id by (apply is_i64_spec; lia).
  - apply list_at_written; [done|done|done|]. by rewrite Hv in *.
  - apply (only_version_write d ctx k (md_version meta)); [done|by eapply good_meta_version, Hm|].
    apply Forall_app. split; [done|]. constructor; [by left|done].
Qed.

(** LPUSH and RPUSH refine pushing the elements one after the other on
    the left or the right end of the list the key represents: they reply the
    new length, the key then represents the new list until it expires, and no
    other key is touched. *)
Theorem push_refines B E d ctx ctx' k l left xs :
  wf_db d -> list_repr B E d ctx k l -> xs <> [] ->
  B + Z.of_nat (length xs) < 2 ^ 62 -> namespace ctx' = namespace ctx -> unexpired E ctx' ->
  exists d', push ctx (k :: xs) left d
             = (Ok (Integer (Z.of_nat (length (push_all left l xs)))), d')
    /\ list_repr (B + Z.of_nat (length xs)) E d' ctx' k
         (if left then reverse xs ++ l else l ++ xs)
    /\ only_key d d' ctx k.
Proof.
  intros H Hr Hne HB Hns Hx. assert (0 <= B) as HB0 by apply Hr.
  destruct (push_start B E d ctx k l H Hr) as (o & meta & Ho & Em & Hm & He).
  destruct (push_run B E d ctx ctx' k l left xs o meta) as (d' & meta' & R & Ha & _ & Hv); [done..|].
  exists d'. split; [done|]. rewrite <- push_all_eq. split; [split; [lia|right; by eexists]|apply Hv].
Qed.

Definition after_pop d ctx k (left : bool) meta (c : nat) : DB :=
  db_write d (pop_batch ctx k left meta c ++
    [PutCf CF_METADATA (meta_key ctx k) (encode_metadata (reset_ends (popped left c meta)))]).

Lemma after_pop_at B E d ctx ctx' k left meta l c :
  wf_db d -> 0 <= B < 2 ^ 63 -> list_meta B E meta l ->
  elements d ctx k (md_version meta) (md_head meta) l ->
  namespace ctx' = namespace ctx -> unexpired E ctx' -> (c <= length l)%nat ->
  list_at B E (after_pop d ctx k left meta c) ctx' k (reset_ends (popped left c meta)) (rest_list left l c)
  /\ only_version d (after_pop d ctx k left meta c) ctx k (md_version meta).
Proof.
  intros H HB Hm He Hns Hx Hc. split.
  - apply list_at_written; [done|done|by apply list_meta_popped|].
    rewrite reset_version, popped_version.
    pose proof (elements_popped B E d ctx k left meta l c HB Hm He Hc) as Hp.
    unfold reset_ends. case_goal; [|done]. zbool.
    assert (rest_list left l c = []) as Hnil.
    { apply length_zero_iff_nil. destruct Hm as (_ & _ & Hsz & _).
      destruct left; simpl in *; rewrite ?length_drop, ?length_take; lia. }
    rewrite Hnil in *. by eapply elements_nil.
  - apply (only_version_write d ctx k (md_version meta)); [done|by eapply good_meta_version, Hm|].
    apply Forall_app. split; [|constructor; [by left|done]].
    apply Forall_map, Forall_true. intros j. right. by eexists CF_SUBKEY, _.
Qed.

Lemma after_pop_repr B E d ctx ctx' k left meta l c :
  wf_db d -> 0 <= B < 2 ^ 63 -> list_meta B E meta l ->
  elements d ctx k (md_version meta) (md_head meta) l ->
  namespace ctx' = namespace ctx -> unexpired E ctx' -> (c <= length l)%nat ->
  list_repr B E (after_pop d ctx k left meta c) ctx' k (rest_list left l c)
  /\ only_key d (after_pop d ctx k left meta c) ctx k.
Proof.
  intros H HB Hm He Hns Hx Hc. destruct (after_pop_at B E d ctx ctx' k left meta l c) as [Ha Hv]; [done..|].
  split; [split; [lia|right; by eexists]|apply Hv].
Qed.

Lemma popped_0 left meta : popped left 0 meta = meta.
Proof. destruct meta, left; unfold popped, set_ends; simpl; f_equal; lia. Qed.

Lemma nonempty_list_meta B E meta l :
  list_meta B E meta l -> l <> [] -> nonempty_meta (Some meta) = Some meta.
Proof.
  intros (_ & _ & Hs & _) Hne. unfold nonempty_meta. rewrite Hs. destruct l; [done|].
  by rewrite (proj2 (Z.ltb_lt _ _)) by (simpl; lia).
Qed.

Lemma pop_one_run B E d ctx k left meta l :
  wf_db d -> 0 <= B -> B + 1 < 2 ^ 63 -> l <> [] -> list_meta B E meta l ->
  elements d ctx k (md_version meta) (md_head meta) l ->
  load_list_meta ctx k d = (Ok (Some meta), d) ->
  pop_one ctx k left d = (Ok (BulkString (head (side left l))), after_pop d ctx k left meta 1).
Proof.
  intros H HB0 HB Hne Hm He Ho.
  assert (0 < length l)%nat as Hlen by (destruct l; [done|simpl; lia]).
  assert (exists x, side left l !! 0%nat = Some x) as [x Hx0].
  { apply lookup_lt_is_Some. destruct left; simpl; rewrite ?length_reverse; lia. }
  pose proof (shrink_run B E d ctx left meta l 0 HB0 HB Hm Hlen) as Hsh.
  pose proof (end_index_popped left 0 meta) as Hei. rewrite popped_0 in Hsh, Hei.
  unfold pop_one. rewrite (bind_Ok _ _ _ _ _ Ho), (nonempty_list_meta B E meta l) by done.
  cbv zeta. rewrite Hei. erewrite bind_Ok by eauto with kv.
  rewrite (pop_lookup B E d ctx k left meta l 0 x) by done.
  erewrite bind_Ok by eauto with kv. rewrite (bind_Ok _ _ _ _ _ Hsh).
  erewrite bind_Ok by eauto with kv. erewrite bind_Ok by reflexivity.
  rewrite head_lookup, Hx0. done.
Qed.

Lemma pop_many_run B E d ctx k left meta l (n : nat) :
  wf_db d -> 0 <= B -> B + 1 < 2 ^ 63 -> l <> [] -> (0 < n)%nat -> list_meta B E meta l ->
  elements d ctx k (md_version meta) (md_head meta) l ->
  load_list_meta ctx k d = (Ok (Some meta), d) ->
  capacity_overflow (resp_size ctx) (Z.min (Z.of_nat n) (Z.of_nat (length l))) = false ->
  pop_many ctx k (Z.of_nat n) left d
  = (Ok (Array (map bulk (take n (side left l)))),
     after_pop d ctx k left meta (n `min` length l)).
Proof.
  intros H HB0 HB Hne Hn Hm He Ho Hcap. set (c := (n `min` length l)%nat).
  assert (Z.min (Z.of_nat n) (md_size meta) = Z.of_nat c) as Hmin
    by (destruct Hm as (_ & _ & -> & _); unfold c; lia).
  unfold pop_many. rewrite (proj2 (Z.eqb_neq _ _)) by lia.
  rewrite (bind_Ok _ _ _ _ _ Ho), (nonempty_list_meta B E meta l) by done.
  cbv zeta. rewrite Hmin.
  replace (capacity_overflow (resp_size ctx) (Z.of_nat c)) with false
    by (symmetry; rewrite <- Hcap; f_equal; unfold c; lia).
  erewrite bind_Ok by eauto with kv. rewrite Nat2Z.id.
  pose proof (pop_fold B E d ctx k left meta l c 0 0 H HB0 HB Hm He ltac:(unfold c; lia)) as Hf.
  rewrite popped_0 in Hf. cbn [Nat.add] in Hf.
  change (map bulk (take 0 (side left l))) with (@nil RespValue) in Hf.
  change (pop_batch ctx k left meta 0) with (@nil write_op) in Hf.
  rewrite (bind_Ok _ _ _ _ _ Hf). cbv beta iota.
  erewrite bind_Ok by eauto with kv. erewrite bind_Ok by reflexivity.
  replace (take n (side left l)) with (take c (side left l)); [done|].
  unfold c. rewrite <- take_take. f_equal. apply take_ge.
  destruct left; simpl; rewrite ?length_reverse; done.
Qed.

Lemma rest_list_min left l n : rest_list left l n = rest_list left l (n `min` length l).
Proof.
  destruct left; simpl.
  - destruct (decide (n <= length l)%nat); [by rewrite Nat.min_l by lia|].
    rewrite Nat.min_r by lia. by rewrite !drop_ge by lia.
  - by replace (length l - n `min` length l)%nat with (length l - n)%nat by lia.
Qed.

(** C6: LPOP and RPOP, without or with a count, refine taking elements off the
    left or right end of a non-empty list: they reply the elements removed in
    the order they are popped and the key then represents the rest. *)
Theorem pop_refines B E d ctx ctx' k l left (n : nat) :
  wf_db d -> list_repr B E d ctx k l -> l <> [] -> (0 < n)%nat ->
  B + 1 < 2 ^ 63 -> is_u64 (Z.of_nat n) = true ->
  capacity_overflow (resp_size ctx) (Z.min (Z.of_nat n) (Z.of_nat (length l))) = false ->
  namespace ctx' = namespace ctx -> unexpired E ctx' ->
  (exists d', pop ctx [k] left d = (Ok (BulkString (head (side left l))), d')
     /\ list_repr B E d' ctx' k (rest_list left l 1) /\ only_key d d' ctx k)
  /\ exists d', pop ctx [k; show_Z (Z.of_nat n)] left d
               = (Ok (Array (map bulk (take n (side left l)))), d')
     /\ list_repr B E d' ctx' k (rest_list left l n) /\ only_key d d' ctx k.
Proof.
  intros H Hr Hne Hn HB Hu Hcap Hns Hx. assert (0 <= B) as HB0 by apply Hr.
  destruct (load_list_meta_run B E d ctx k l H Hr) as (o & Ho & Hs).
  destruct o as [meta|]; [|by destruct Hs]. destruct Hs as (Hc & Hm & He). split.
  - exists (after_pop d ctx k left meta 1).
    split; [|apply (after_pop_repr B E); [done|lia|done..|destruct l; [done|simpl; lia]]].
    unfold pop. change (negb (length [k] =? 1)%nat && _) with false. cbv iota. mrun.
    by eapply pop_one_run.
  - exists (after_pop d ctx k left meta (n `min` length l)).
    rewrite rest_list_min.
    split; [|apply (after_pop_repr B E); [done|lia|done..|lia]].
    unfold pop. change (negb _ && negb (length [k; _] =? 2)%nat) with false. cbv iota. mrun.
    change (length [k; _] =? 1)%nat with false. cbv iota. mrun.
    erewrite bind_Ok; [by eapply (pop_many_run B E)|].
    unfold parse_usize, parse_text. rewrite is_ascii_valid by apply show_Z_ascii.
    by rewrite parse_u64_show by done.
Qed.

Lemma lrange_run B E d ctx k meta l start stop :
  wf_db d -> short ctx k -> 0 <= B < 2 ^ 62 -> list_meta B E meta l -> l <> [] ->
  elements d ctx k (md_version meta) (md_head meta) l ->
  load_list_meta ctx k d = (Ok (Some meta), d) ->
  is_i64 start = true -> is_i64 stop = true -> 0 <= resp_size ctx ->
  capacity_overflow (resp_size ctx) (Z.of_nat (length l)) = false ->
  lrange ctx [k; show_Z start; show_Z stop] d
  = (Ok (Array (map bulk (list_range l start stop))), d).
Proof.
  intros H Hk HB Hm Hne He Ho Hst Hsp Hrs Hcap. unfold lrange. do 3 mrun.
  erewrite bind_Ok by (unfold arg_i64; by rewrite parse_text_show_i64). mrun.
  erewrite bind_Ok by (unfold arg_i64; by rewrite parse_text_show_i64).
  rewrite (bind_Ok _ _ _ _ _ Ho).
  pose proof Hm as (Hg & HE & Hs & Ht & Hh & Htl).
  set (n := Z.of_nat (length l)) in *.
  assert (0 < n < 2 ^ 63) as Hn by (destruct l; [done|]; unfold n in *; cbn [length] in *; lia).
  rewrite Hs, (proj2 (Z.eqb_neq _ _)) by lia. rewrite wrap_i64_id by (apply is_i64_spec; lia).
  apply is_i64_spec in Hst, Hsp. cbv zeta.
  unfold list_range. fold n. cbv zeta.
  erewrite (bind_Ok _ _ _ (if start <? 0 then start + n else start)).
  2:{ destruct (start <? 0) eqn:Es; zbool; [apply arith_i64_ok, is_i64_spec; lia|done]. }
  erewrite (bind_Ok _ _ _ (if stop <? 0 then stop + n else stop)).
  2:{ destruct (stop <? 0) eqn:Es; zbool; [apply arith_i64_ok, is_i64_spec; lia|done]. }
  set (s0 := if start <? 0 then start + n else start).
  set (e0 := if stop <? 0 then stop + n else stop).
  assert (- 2 ^ 63 <= s0 < 2 ^ 63) by (unfold s0; destruct (start <? 0) eqn:?; zbool; lia).
  assert (- 2 ^ 63 <= e0 < 2 ^ 63) by (unfold e0; destruct (stop <? 0) eqn:?; zbool; lia).
  clearbody s0 e0.
  erewrite (bind_Ok _ _ _ (Z.min (n - 1) e0)).
  2:{ destruct (n <=? e0) eqn:Es; zbool; [rewrite Z.min_l by lia; apply arith_i64_ok, is_i64_spec; lia|].
      by rewrite Z.min_r by lia. }
  replace (if s0 <? 0 then 0 else s0) with (Z.max 0 s0)
    by (destruct (s0 <? 0) eqn:?; zbool; lia).
  set (s := Z.max 0 s0). set (e := Z.min (n - 1) e0).
  destruct (e <? s) eqn:Ee; zbool.
  { replace (Z.to_nat (e + 1 - s)) with 0%nat by lia. done. }
  assert (0 <= s <= e /\ e < n) as Hse by (unfold s, e in *; lia). clearbody s e.
  do 4 (erewrite bind_Ok by (apply arith_i64_ok, is_i64_spec; lia)).
  rewrite wrap_u64_id by (apply is_u64_spec; lia).
  replace (capacity_overflow (resp_size ctx) (e - s + 1)) with false.
  2:{ symmetry. unfold capacity_overflow in *. apply Z.ltb_ge in Hcap. apply Z.ltb_ge. nia. }
  erewrite bind_Ok; [done|]. rewrite page_walk_ok;
    [|apply H; auto with kv|done|left; apply subkey_nonempty].
  rewrite sub_items_entries, (list_sub_items B E d ctx k meta l); [|lia|done|done].
  replace (e - s + 1) with ((md_head meta + e) - (md_head meta + s) + 1) by lia.
  rewrite (lrange_items ctx k); [|done|by eapply good_meta_version|unfold n in *; simpl; lia..].
  rewrite app_nil_l.
  replace (Z.to_nat (md_head meta + e + 1 - Z.max (md_head meta) (md_head meta + s)))
    with (Z.to_nat (e + 1 - s)) by lia.
  by replace (md_head meta + s - md_head meta) with s by lia.
Qed.

(** A key without a list, or with one whose size is zero, reads as the empty list. *)
Lemma empty_reads d ctx k o start stop i :
  load_list_meta ctx k d = (Ok o, d) ->
  match o with Some meta => md_size meta = 0 | None => True end ->
  is_i64 start = true -> is_i64 stop = true -> is_i64 i = true ->
  lrange ctx [k; show_Z start; show_Z stop] d = (Ok (Array []), d)
  /\ lindex ctx [k; show_Z i] d = (Ok (BulkString None), d)
  /\ llen ctx [k] d = (Ok (Integer 0), d).
Proof.
  intros Ho Hz Hst Hsp Hi. unfold lrange, lindex, llen. split; [|split].
  - do 3 mrun. erewrite bind_Ok by (unfold arg_i64; by rewrite parse_text_show_i64). mrun.
    erewrite bind_Ok by (unfold arg_i64; by rewrite parse_text_show_i64).
    rewrite (bind_Ok _ _ _ _ _ Ho). destruct o; [by rewrite Hz|done].
  - do 3 mrun. erewrite bind_Ok by (unfold arg_i64; by rewrite parse_text_show_i64).
    rewrite (bind_Ok _ _ _ _ _ Ho). destruct o; [by rewrite Hz|done].
  - do 2 mrun. rewrite (bind_Ok _ _ _ _ _ Ho). destruct o; [by rewrite Hz|done].
Qed.

Lemma lindex_run B E d ctx k meta l i :
  wf_db d -> 0 <= B < 2 ^ 62 -> list_meta B E meta l -> l <> [] ->
  elements d ctx k (md_version meta) (md_head meta) l ->
  load_list_meta ctx k d = (Ok (Some meta), d) -> is_i64 i = true ->
  lindex ctx [k; show_Z i] d = (Ok (BulkString (list_index l i)), d).
Proof.
  intros H HB (Hg & HE & Hs & Ht & Hh & Htl) Hne [E1 _] Ho Hi.
  assert (0 < length l)%nat as Hlen by (destruct l; [done|simpl; lia]).
  unfold lindex. do 3 mrun. erewrite bind_Ok by (unfold arg_i64; by rewrite parse_text_show_i64).
  rewrite (bind_Ok _ _ _ _ _ Ho), Hs, (proj2 (Z.eqb_neq _ _)) by lia.
  rewrite wrap_i64_id by (apply is_i64_spec; lia). cbv zeta.
  apply is_i64_spec in Hi. unfold list_index.
  erewrite (bind_Ok _ _ _ (if i <? 0 then i + Z.of_nat (length l) else i)).
  2:{ destruct (i <? 0) eqn:Es; zbool; [apply arith_i64_ok, is_i64_spec; lia|done]. }
  set (j := if i <? 0 then _ else _). cbv zeta.
  destruct (j <? 0) eqn:Ej; zbool; [done|]. rewrite orb_false_l.
  destruct (Z.of_nat (length l) <=? j) eqn:El; zbool.
  { by rewrite lookup_ge_None_2 by lia. }
  erewrite bind_Ok by (apply arith_i64_ok, is_i64_spec; lia).
  erewrite bind_Ok by eauto with kv.
  assert (exists x, l !! Z.to_nat j = Some x) as [x Hx] by (apply lookup_lt_is_Some; lia).
  pose proof (E1 _ _ Hx) as E1x. rewrite Z2Nat.id in E1x by lia.
  by rewrite E1x, Hx.
Qed.

(** C27: on a key that represents the list [l], LRANGE returns the elements of
    the requested positions in order, LINDEX the element at a position and
    LLEN the length, negative positions counting from the end and positions
    out of range selecting nothing. *)
Theorem list_reads B E d ctx k l start stop i :
  wf_db d -> short ctx k -> list_repr B E d ctx k l -> B < 2 ^ 62 ->
  is_i64 start = true -> is_i64 stop = true -> is_i64 i = true -> 0 <= resp_size ctx ->
  capacity_overflow (resp_size ctx) (Z.of_nat (length l)) = false ->
  lrange ctx [k; show_Z start; show_Z stop] d
    = (Ok (Array (map bulk (list_range l start stop))), d)
  /\ lindex ctx [k; show_Z i] d = (Ok (BulkString (list_index l i)), d)
  /\ llen ctx [k] d = (Ok (Integer (Z.of_nat (length l))), d).
Proof.
  intros H Hk Hr HB Hst Hsp Hi Hrs Hcap. assert (0 <= B) as HB0 by apply Hr.
  destruct (load_list_meta_run B E d ctx k l H Hr) as (o & Ho & Hs).
  destruct (decide (l = [])) as [->|Hne].
  { replace (list_range (@nil bytes) start stop) with (@nil bytes)
      by (unfold list_range; by rewrite drop_nil, take_nil).
    replace (list_index [] i) with (@None bytes)
      by (unfold list_index; cbv zeta; rewrite lookup_nil; by repeat case_match).
    apply (empty_reads _ _ _ o); try done. destruct o; [|done]. apply Hs. }
  destruct o as [meta|]; [|by destruct Hs]. destruct Hs as (Hc & Hm & He).
  split; [by eapply (lrange_run B E)|]. split; [by eapply (lindex_run B E)|].
  destruct Hm as (_ & _ & Hs & Ht & Hh & Htl). unfold llen. do 2 mrun.
  rewrite (bind_Ok _ _ _ _ _ Ho), Hs, wrap_i64_id by (apply is_i64_spec; lia). done.
Qed.

(** The 8-byte image of an index orders as the index does and is decoded
    back to it, so that a scan of a list's subkeys meets them in list order. *)
Theorem index_image_ordered i j :
  is_i64 i = true -> is_i64 j = true ->
  decode_index (encode_index i) = Ok i
  /\ (bytes_lt (encode_index i) (encode_index j) <-> i < j).
Proof.
  intros Hi Hj. split; [by apply decode_encode_index|]. split; [|by apply encode_index_lt].
  intros Hlt. destruct (Z.lt_trichotomy i j) as [|[->|Hgt]]; [done|..].
  - by apply bytes_lt_irrefl in Hlt.
  - exfalso. apply (encode_index_lt j i) in Hgt; [|done..].
    by apply (bytes_lt_irrefl (encode_index i)), (bytes_lt_trans _ (encode_index j)).
Qed.

End ListProperties.

(** ** Witnesses *)

(** The list [a, b] stored under [l]. *)
Definition demo_lmeta : Metadata := set_ends (-1) 0 2 (metadata_new DList (new_version ctx0)).
Definition demo_list : list bytes := [bs "a"; bs "b"].
Definition demo_lbatch : WriteBatch :=
  [PutCf CF_SUBKEY (sub_key ctx0 (bs "l") (md_version demo_lmeta) (encode_index (-1))) (bs "a");
   PutCf CF_SUBKEY (sub_key ctx0 (bs "l") (md_version demo_lmeta) (encode_index 0)) (bs "b")].
Definition db_l : MemDB :=
  db_write db0
    (demo_lbatch ++ [PutCf CF_METADATA (meta_key ctx0 (bs "l")) (encode_metadata demo_lmeta)]).

Lemma db_l_wf : wf_db db_l.
Proof. apply wf_write, mem_wf. Qed.

Lemma db_l_short : short ctx0 (bs "l").
Proof. split; vm_compute; reflexivity. Qed.

Lemma db_l_elements :
  elements (db_write db0 demo_lbatch) ctx0 (bs "l") (md_version demo_lmeta) (-1) demo_list.
Proof.
  split.
  - intros i x Hx. destruct i as [|[|i]]; [injection Hx as <-..|done]; vm_compute; reflexivity.
  - intros sub x. rewrite db_get_write. unfold demo_lbatch.
    change (db_get db0 CF_SUBKEY ?s) with (@None bytes).
    unfold batch_effect. cbn [fold_left op_effect].
    destruct (decide _) as [Eq|_]; [|destruct (decide _) as [Eq|_]; [|done]];
      apply (f_equal snd) in Eq; cbn [snd] in Eq; apply sub_key_inj in Eq; subst sub;
      intros [= <-].
    + by exists 1%nat.
    + by exists 0%nat.
Qed.

Lemma db_l_repr : list_repr 1 0 db_l ctx0 (bs "l") demo_list.
Proof.
  split; [lia|]. right. eexists. apply list_at_written; [done|done| |apply db_l_elements].
  split; [apply good_meta_ends; [apply good_meta_new|done..]|].
  cbn [demo_lmeta set_ends md_expire md_size md_head md_tail metadata_new demo_list length]. lia.
Qed.

Lemma push_refines_witness :
  exists d', push ctx0 [bs "l"; bs "x"; bs "y"] true db_l
             = (Ok (Integer (Z.of_nat (length (push_all true demo_list [bs "x"; bs "y"])))), d')
    /\ list_repr (1 + 2) 0 d' ctx0 (bs "l") (reverse [bs "x"; bs "y"] ++ demo_list)
    /\ only_key db_l d' ctx0 (bs "l").
Proof.
  apply (push_refines 1 0 db_l ctx0 ctx0 (bs "l") demo_list true [bs "x"; bs "y"]);
    [apply db_l_wf|apply db_l_repr|done|cbn [length]; lia|done|done].
Defined.

Lemma pop_refines_witness :
  (exists d', pop ctx0 [bs "l"] false db_l = (Ok (BulkString (head (side false demo_list))), d')
     /\ list_repr 1 0 d' ctx0 (bs "l") (rest_list false demo_list 1) /\ only_key db_l d' ctx0 (bs "l"))
  /\ exists d', pop ctx0 [bs "l"; show_Z (Z.of_nat 5)] false db_l
               = (Ok (Array (map bulk (take 5 (side false demo_list)))), d')
     /\ list_repr 1 0 d' ctx0 (bs "l") (rest_list false demo_list 5)
     /\ only_key db_l d' ctx0 (bs "l").
Proof.
  apply (pop_refines 1 0 db_l ctx0 ctx0 (bs "l") demo_list false 5);
    [apply db_l_wf|apply db_l_repr|done|lia|lia|done|done|done|done].
Defined.

Lemma list_reads_witness :
  lrange ctx0 [bs "l"; show_Z 0; show_Z (-1)] db_l
    = (Ok (Array (map bulk (list_range demo_list 0 (-1)))), db_l)
  /\ lindex ctx0 [bs "l"; show_Z (-1)] db_l = (Ok (BulkString (list_index demo_list (-1))), db_l)
  /\ llen ctx0 [bs "l"] db_l = (Ok (Integer (Z.of_nat (length demo_list))), db_l).
Proof.
  apply (list_reads 1 0 db_l ctx0 (bs "l") demo_list 0 (-1) (-1));
    [apply db_l_wf|apply db_l_short|apply db_l_repr|lia|done|done|done|vm_compute; discriminate|done].
Defined.

Lemma index_image_ordered_witness :
  decode_index (encode_index (-1)) = Ok (-1)
  /\ (bytes_lt (encode_index (-1)) (encode_index 0) <-> -1 < 0).
Proof. apply index_image_ordered; done. Defined.
