(* ===== verification/SetCmd.v ===== *)
(** * Set commands (src/cmd/set.rs)

    SADD, SREM, SISMEMBER, SMEMBERS, SCARD, SINTER, SDIFF and SUNION, refined
    to operations on a finite set. *)

From S2P Require Import Prelude Bytes Text Error Types Encoding Backend Storage Protocol Context.
From S2P Require Import Keyspace.

Local Open Scope Z_scope.

Definition SET_VALUE : bytes := [].
Definition SET_OPS_CHUNK_SIZE : Z := 1024.
Definition SET_UNION_RESULT_LIMIT : Z := 1000000.

(** Whether [HashSet::<Bytes>::with_capacity(n)] exceeds what can be
    allocated: the table has a power of two of buckets, at most 7/8 full, of
    32 bytes and one control byte each, and one more group of 16. *)
Definition hashset_overflow (n : Z) : bool :=
  (2 ^ 64 <=? n * 8) || (i64_max <? 2 ^ (Z.log2_up (n * 8 / 7)) * 33 + 16).

(** [HashSet::insert] on the elements inserted so far: whether it was new. *)
Definition hs_insert (seen : list bytes) (x : bytes) : bool * list bytes :=
  if decide (x ∈ seen) then (false, seen) else (true, seen ++ [x]).

(** [sort_by_key(|a| a.1.size)], a stable sort. *)
Fixpoint insert_by_size (x : bytes * Metadata) (l : list (bytes * Metadata))
  : list (bytes * Metadata) :=
  match l with
  | [] => [x]
  | y :: l' => if md_size x.2 <=? md_size y.2 then x :: l else y :: insert_by_size x l'
  end.

Definition sort_by_size (l : list (bytes * Metadata)) : list (bytes * Metadata) :=
  fold_right insert_by_size [] l.

Section SetCommands.
Context {DB : Type} {RDB : RocksDB DB}.
Variable ctx : CommandContext.
(** The order in which a [HashSet] built by these insertions is iterated. *)
Variable hash_order : list bytes -> list bytes.

Definition read_set_metadata (user_key : bytes) : M DB (option Metadata) :=
  m ← get_meta ctx user_key;
  match m with
  | None => mret None
  | Some v => lift (check_typed_meta DSet "invalid set metadata" ctx v)
  end.

(** The members collected from the scanned items. *)
Fixpoint collect_members (user_key : bytes) (version : Z) (members : list bytes)
    (items : list kv) : list bytes :=
  match items with
  | [] => members
  | (k, _) :: rest =>
      let members :=
        match ctx_parse_subkey ctx k with
        | Some (parsed_key, v, member) =>
            if bool_decide (parsed_key = user_key) && (v =? version)
            then (hs_insert members member).2 else members
        | None => members
        end in
      collect_members user_key version members rest
  end.

Definition load_members (user_key : bytes) (meta : Metadata) : M DB (list bytes) :=
  items ← prefix_scan CF_SUBKEY (sub_key ctx user_key (md_version meta) []);
  if hashset_overflow (md_size meta) then panic
  else mret (hash_order (collect_members user_key (md_version meta) [] items)).

Definition page_member (version : Z) (item : kv) : option bytes :=
  match ctx_parse_subkey ctx item.1 with
  | Some (_, v, member) => if v =? version then Some member else None
  | None => None
  end.

Definition iter_members_page (user_key : bytes) (version : Z) (start_key : bytes)
  : M DB (list bytes * option bytes) :=
  '(items, next_key) ←
    prefix_scan_page CF_SUBKEY (sub_key ctx user_key version []) start_key SET_OPS_CHUNK_SIZE;
  mret (omap (page_member version) items, next_key).

(** The loop of SINTER, SDIFF and SUNION over the members of one set. *)
Fixpoint members_loop {A} (fuel : nat) (user_key : bytes) (version : Z)
    (body : A -> bytes -> M DB A) (start_key : bytes) (a : A) : M DB A :=
  match fuel with
  | O => out_of_fuel
  | S fuel' =>
      '(members, next_key) ← iter_members_page user_key version start_key;
      match members with
      | [] => mret a
      | _ =>
          a ← mfold body a members;
          match next_key with
          | Some k => members_loop fuel' user_key version body k a
          | None => mret a
          end
      end
  end.

(** Every round but the last yields a member. *)
Definition for_members {A} (user_key : bytes) (version : Z) (body : A -> bytes -> M DB A) (a : A)
  : M DB A :=
  with_state (fun d =>
    members_loop (S (length (db_seek d CF_SUBKEY (sub_key ctx user_key version []))))
      user_key version body [] a).

Definition member_exists (user_key : bytes) (version : Z) (member : bytes) : M DB bool :=
  v ← Storage.get CF_SUBKEY (sub_key ctx user_key version member);
  mret (match v with Some _ => true | None => false end).

(** [r.unwrap_or(default)]. *)
Definition unwrap_or {A} (default : A) (m : M DB A) : M DB A := fun d =>
  match m d with
  | (Err _, d') => (Ok default, d')
  | other => other
  end.

(** One member of SADD. *)
Definition sadd_member (user_key : bytes) (meta : Metadata)
    (st : list bytes * WriteBatch * Z) (member : bytes) : M DB (list bytes * WriteBatch * Z) :=
  let '(seen, batch, added) := st in
  let '(fresh, seen) := hs_insert seen member in
  if negb fresh then mret (seen, batch, added)
  else
    let skey := sub_key ctx user_key (md_version meta) member in
    v ← Storage.get CF_SUBKEY skey;
    match v with
    | None =>
        batch ← batch_put batch CF_SUBKEY skey SET_VALUE;
        added ← arith_i64 (checks ctx) (added + 1);
        mret (seen, batch, added)
    | Some _ => mret (seen, batch, added)
    end.

Definition sadd (args : list bytes) : M DB RespValue :=
  _ ← expect_min_arg_count "SADD" args 2;
  user_key ← index args 0;
  m ← read_set_metadata user_key;
  let '(meta, is_new) := match m with
                         | Some m => (m, false)
                         | None => (metadata_new DSet (new_version ctx), true)
                         end in
  '(_, batch, added) ← mfold (sadd_member user_key meta) ([], [], 0) (drop 1 args);
  _ ← (if (0 <? added) || is_new then
         let new_size := Z.min u64_max (md_size meta + wrap_u64 added) in
         batch ← batch_put batch CF_METADATA (meta_key ctx user_key)
                   (encode_metadata (set_size new_size meta));
         write batch
       else mret tt);
  mret (Integer added).

(** One member of SREM. *)
Definition srem_member (user_key : bytes) (meta : Metadata)
    (st : list bytes * WriteBatch * Z) (member : bytes) : M DB (list bytes * WriteBatch * Z) :=
  let '(seen, batch, removed) := st in
  let '(fresh, seen) := hs_insert seen member in
  if negb fresh then mret (seen, batch, removed)
  else
    let skey := sub_key ctx user_key (md_version meta) member in
    v ← Storage.get CF_SUBKEY skey;
    match v with
    | Some _ =>
        batch ← batch_delete batch CF_SUBKEY skey;
        removed ← arith_i64 (checks ctx) (removed + 1);
        mret (seen, batch, removed)
    | None => mret (seen, batch, removed)
    end.

Definition srem (args : list bytes) : M DB RespValue :=
  _ ← expect_min_arg_count "SREM" args 2;
  user_key ← index args 0;
  m ← read_set_metadata user_key;
  match m with
  | None => mret (Integer 0)
  | Some meta =>
      '(_, batch, removed) ← mfold (srem_member user_key meta) ([], [], 0) (drop 1 args);
      _ ← (if 0 <? removed then
             let new_size := Z.max 0 (md_size meta - wrap_u64 removed) in
             batch ← batch_put batch CF_METADATA (meta_key ctx user_key)
                       (encode_metadata (set_size new_size meta));
             write batch
           else mret tt);
      mret (Integer removed)
  end.

Definition sismember (args : list bytes) : M DB RespValue :=
  _ ← expect_arg_count "SISMEMBER" args 2;
  user_key ← index args 0;
  m ← read_set_metadata user_key;
  match m with
  | None => mret (Integer 0)
  | Some meta =>
      member ← index args 1;
      v ← Storage.get CF_SUBKEY (sub_key ctx user_key (md_version meta) member);
      mret (Integer (match v with Some _ => 1 | None => 0 end))
  end.

Definition smembers (args : list bytes) : M DB RespValue :=
  _ ← expect_arg_count "SMEMBERS" args 1;
  user_key ← index args 0;
  m ← read_set_metadata user_key;
  match m with
  | None => mret (Array [])
  | Some meta =>
      members ← load_members user_key meta;
      mret (Array (map bulk members))
  end.

Definition scard (args : list bytes) : M DB RespValue :=
  _ ← expect_arg_count "SCARD" args 1;
  user_key ← index args 0;
  m ← read_set_metadata user_key;
  match m with
  | None => mret (Integer 0)
  | Some meta => mret (Integer (wrap_i64 (md_size meta)))
  end.

(** [others.iter().all(...)]. *)
Fixpoint in_all (member : bytes) (others : list (bytes * Z)) : M DB bool :=
  match others with
  | [] => mret true
  | (k, v) :: rest =>
      b ← unwrap_or false (member_exists k v member);
      if (b : bool) then in_all member rest else mret false
  end.

(** [others.iter().any(...)]. *)
Fixpoint in_any (member : bytes) (others : list (bytes * Z)) : M DB bool :=
  match others with
  | [] => mret false
  | (k, v) :: rest =>
      b ← unwrap_or false (member_exists k v member);
      if (b : bool) then mret true else in_any member rest
  end.

(** The metadata of every key of SINTER, or [None] when a key is missing. *)
Fixpoint collect_metas (metas : list (bytes * Metadata)) (keys : list bytes)
  : M DB (option (list (bytes * Metadata))) :=
  match keys with
  | [] => mret (Some metas)
  | user_key :: rest =>
      m ← read_set_metadata user_key;
      match m with
      | Some m => collect_metas (metas ++ [(user_key, m)]) rest
      | None => mret None
      end
  end.

Definition sinter (args : list bytes) : M DB RespValue :=
  _ ← expect_min_arg_count "SINTER" args 1;
  ms ← collect_metas [] args;
  match ms with
  | None => mret (Array [])
  | Some metas =>
      match sort_by_size metas with
      | [] => panic
      | (base_key, base_meta) :: metas =>
          let others := map (fun x => (x.1, md_version x.2)) metas in
          result ← for_members base_key (md_version base_meta) (fun result member =>
            b ← in_all member others;
            mret (if (b : bool) then result ++ [bulk member] else result)) [];
          mret (Array result)
      end
  end.

(** The sets of [args[1..]] SDIFF subtracts: keys that are missing or hold
    another type are skipped. *)
Fixpoint collect_others (others : list (bytes * Z)) (keys : list bytes)
  : M DB (list (bytes * Z)) :=
  match keys with
  | [] => mret others
  | k :: rest =>
      m ← unwrap_or None (read_set_metadata k);
      match m with
      | Some m => collect_others (others ++ [(k, md_version m)]) rest
      | None => collect_others others rest
      end
  end.

Definition sdiff (args : list bytes) : M DB RespValue :=
  _ ← expect_min_arg_count "SDIFF" args 1;
  first_key ← index args 0;
  m ← read_set_metadata first_key;
  match m with
  | None => mret (Array [])
  | Some first_meta =>
      others ← collect_others [] (drop 1 args);
      result ← for_members first_key (md_version first_meta) (fun result member =>
        b ← in_any member others;
        mret (if (b : bool) then result else result ++ [bulk member])) [];
      mret (Array result)
  end.

(** One member of SUNION: the members seen so far and the result. *)
Definition sunion_member (st : list bytes * list RespValue) (member : bytes)
  : M DB (list bytes * list RespValue) :=
  let '(seen, result) := st in
  if SET_UNION_RESULT_LIMIT <=? Z.of_nat (length seen)
  then throw (Command (bs "SUNION result exceeds memory limit"))
  else
    let '(fresh, seen) := hs_insert seen member in
    mret (seen, if fresh then result ++ [bulk member] else result).

Definition sunion (args : list bytes) : M DB RespValue :=
  _ ← expect_min_arg_count "SUNION" args 1;
  '(_, result) ← mfold (fun st user_key =>
    m ← read_set_metadata user_key;
    match m with
    | None => mret st
    | Some meta => for_members user_key (md_version meta) sunion_member st
    end) ([], []) args;
  mret (Array result).

End SetCommands.

Example set_session :
  let rev := fun l => rev l in
  fst ((a ← sadd ctx0 [bs "s"; bs "a"; bs "b"; bs "a"];
        _ ← sadd (mkContext [] 2000 1 true 40) [bs "t"; bs "b"; bs "c"];
        b ← sinter ctx0 [bs "s"; bs "t"];
        c ← sdiff ctx0 [bs "s"; bs "t"];
        e ← sunion ctx0 [bs "s"; bs "t"];
        f ← srem ctx0 [bs "s"; bs "b"; bs "b"];
        g ← scard ctx0 [bs "s"];
        h ← smembers ctx0 rev [bs "t"];
        mret [a; b; c; e; f; g; h]) db0)
  = Ok [Integer 2; Array [bulk (bs "b")]; Array [bulk (bs "a")];
        Array [bulk (bs "a"); bulk (bs "b"); bulk (bs "c")]; Integer 1; Integer 1;
        Array [bulk (bs "c"); bulk (bs "b")]].
Proof. vm_compute. reflexivity. Qed.

(** ** Lists of first occurrences *)

(** The elements of [l] that are not in [seen], each at its first occurrence:
    what a [HashSet] that has seen [seen] lets through. *)
Fixpoint fresh_of (seen l : list bytes) : list bytes :=
  match l with
  | [] => []
  | x :: rest =>
      if decide (x ∈ seen) then fresh_of seen rest else x :: fresh_of (seen ++ [x]) rest
  end.

Lemma fresh_of_elem seen l x : x ∈ fresh_of seen l <-> x ∈ l /\ x ∉ seen.
Proof.
  revert seen. induction l as [|y l IH]; intros seen; simpl; [set_solver|].
  case_decide; [|rewrite elem_of_cons]; rewrite IH; [set_solver|].
  destruct (decide (x = y)); set_solver.
Qed.

Lemma fresh_of_NoDup seen l : NoDup (fresh_of seen l).
Proof.
  revert seen. induction l as [|y l IH]; intros seen; simpl; [constructor|].
  case_decide; [done|]. constructor; [rewrite fresh_of_elem; set_solver|done].
Qed.

Lemma fresh_of_length seen l : (length (fresh_of seen l) <= length l)%nat.
Proof.
  revert seen. induction l as [|y l IH]; intros seen; simpl; [lia|].
  case_decide; simpl; [pose proof (IH seen)|pose proof (IH (seen ++ [y]))]; lia.
Qed.

Lemma fresh_of_id seen l : NoDup (seen ++ l) -> fresh_of seen l = l.
Proof.
  revert seen. induction l as [|y l IH]; intros seen Hn; simpl; [done|].
  rewrite decide_False by (apply NoDup_app in Hn as (_ & Hd & _); set_solver).
  f_equal. apply IH. by rewrite <- app_assoc.
Qed.

Lemma hs_insert_fresh seen x :
  hs_insert seen x = (if decide (x ∈ seen) then (false, seen) else (true, seen ++ [x])).
Proof. done. Qed.

(** ** Representation *)

Section SetFacts.
Context {DB : Type} {RDB : RocksDB DB}.
Implicit Types (d : DB) (ctx : CommandContext) (k x : bytes) (X : gset bytes).

(** The members stored under version [w]. *)
Definition members d ctx k (w : Z) X : Prop :=
  forall x, is_Some (db_get d CF_SUBKEY (sub_key ctx k w x)) <-> x ∈ X.

Definition set_meta (E : Z) (meta : Metadata) X : Prop :=
  good_meta DSet meta /\ md_expire meta = E /\ md_size meta = Z.of_nat (size X).

(** The key holds the metadata [meta] of the set [X]. *)
Definition set_at (E : Z) d ctx k (meta : Metadata) X : Prop :=
  composite_at d ctx k DSet meta /\ unexpired E ctx
  /\ set_meta E meta X /\ members d ctx k (md_version meta) X.

(** The key represents the set [X] with expiry [E]; an absent or expired key
    the empty set, provided no subkeys are left under the version a write
    would choose. *)
Definition set_repr (E : Z) d ctx k X : Prop :=
  (X = ∅ /\ E = 0 /\ members d ctx k (new_version ctx) ∅ /\ absent d ctx k DSet)
  \/ exists meta, set_at E d ctx k meta X.

Lemma read_set_metadata_run E d ctx k X :
  wf_db d -> set_repr E d ctx k X ->
  exists o, read_set_metadata ctx k d = (Ok o, d)
    /\ match o with
       | None => X = ∅ /\ E = 0 /\ members d ctx k (new_version ctx) ∅ /\ absent d ctx k DSet
       | Some meta => composite_at d ctx k DSet meta /\ set_meta E meta X
                      /\ members d ctx k (md_version meta) X
       end.
Proof.
  intros H Hr. destruct (load_typed d ctx k DSet "invalid set metadata" H) as [Hn Hs]; [done|].
  destruct Hr as [(-> & -> & Hm & Ha)|(meta & Hc & Hx & Hm & Hf)].
  - exists None. split; [by apply Hn|done].
  - exists (Some meta). split; [|done]. apply (Hs meta E); [done|apply Hm|done].
Qed.

Lemma ro_read_set_metadata ctx k : readonly (read_set_metadata ctx k : M DB _).
Proof. unfold read_set_metadata. ro. Qed.

(** *** Member batches *)

Definition put_members ctx k (w : Z) (l : list bytes) : WriteBatch :=
  map (fun x => PutCf CF_SUBKEY (sub_key ctx k w x) SET_VALUE) l.

Definition del_members ctx k (w : Z) (l : list bytes) : WriteBatch :=
  map (fun x => DeleteCf CF_SUBKEY (sub_key ctx k w x)) l.

Lemma put_members_effect ctx k (w : Z) l x c :
  batch_effect CF_SUBKEY (sub_key ctx k w x) (put_members ctx k w l) c
  = if decide (x ∈ l) then Some SET_VALUE else c.
Proof.
  apply uniform_effect; [done|]. intros y c'. cbn [op_effect]. by rewrite decide_True.
Qed.

Lemma del_members_effect ctx k (w : Z) l x c :
  batch_effect CF_SUBKEY (sub_key ctx k w x) (del_members ctx k w l) c
  = if decide (x ∈ l) then None else c.
Proof.
  apply uniform_effect; [done|]. intros y c'. cbn [op_effect]. by rewrite decide_True.
Qed.

Lemma put_members_ops ctx k (w : Z) l : Forall (key_op ctx k w) (put_members ctx k w l).
Proof. apply Forall_map, Forall_true. intros x. right. by eexists CF_SUBKEY, x. Qed.

Lemma del_members_ops ctx k (w : Z) l : Forall (key_op ctx k w) (del_members ctx k w l).
Proof. apply Forall_map, Forall_true. intros x. right. by eexists CF_SUBKEY, x. Qed.

(** Storing metadata after a batch of member operations. *)
Lemma set_at_written E d ctx ctx' k meta X (b : WriteBatch) :
  namespace ctx' = namespace ctx -> unexpired E ctx' -> set_meta E meta X ->
  (forall x, is_Some (batch_effect CF_SUBKEY (sub_key ctx k (md_version meta) x) b
               (db_get d CF_SUBKEY (sub_key ctx k (md_version meta) x))) <-> x ∈ X) ->
  set_at E (db_write d (b ++ [PutCf CF_METADATA (meta_key ctx k) (encode_metadata meta)])) ctx' k meta X.
Proof.
  intros Hns Hx Hm Hf. split; [|split; [done|split; [done|]]].
  - eapply composite_written; [|done|apply Hm]. unfold meta_key in *. rewrite Hns.
    by rewrite db_get_write, batch_effect_app, batch_effect_put.
  - intros x. unfold sub_key in *. rewrite Hns, db_get_write, batch_effect_app.
    rewrite batch_effect_other_cf by done. apply Hf.
Qed.

(** *** SADD *)

Lemma sadd_member_run d ctx k meta X seen b a x :
  wf_db d -> members d ctx k (md_version meta) X -> 0 <= a < i64_max ->
  sadd_member ctx k meta (seen, b, a) x d
  = (Ok (if decide (x ∈ seen) then (seen, b, a)
         else if decide (x ∈ X) then (seen ++ [x], b, a)
         else (seen ++ [x], b ++ put_members ctx k (md_version meta) [x], a + 1)), d).
Proof.
  intros H Hf Ha. unfold sadd_member. rewrite hs_insert_fresh.
  case_decide; [done|]. change (negb true) with false. cbv iota zeta beta.
  erewrite bind_Ok by eauto with kv. specialize (Hf x).
  destruct (db_get d CF_SUBKEY (sub_key ctx k (md_version meta) x)) eqn:Eg.
  - by rewrite decide_True by (apply Hf; eauto).
  - rewrite decide_False by (intros [? ?]%Hf; done). erewrite bind_Ok by eauto with kv.
    by erewrite bind_Ok by (apply arith_i64_ok; apply is_i64_spec; unfold i64_max in *; lia).
Qed.

(** The members of [l] SADD inserts and SREM deletes. *)
Definition added_of X (seen l : list bytes) : list bytes := filter (fun x => x ∉ X) (fresh_of seen l).
Definition removed_of X (seen l : list bytes) : list bytes := filter (fun x => x ∈ X) (fresh_of seen l).

Lemma sadd_fold d ctx k meta X l : forall seen b a,
  wf_db d -> members d ctx k (md_version meta) X ->
  0 <= a -> a + Z.of_nat (length l) <= i64_max ->
  mfold (sadd_member ctx k meta) (seen, b, a) l d
  = (Ok (seen ++ fresh_of seen l, b ++ put_members ctx k (md_version meta) (added_of X seen l),
         a + Z.of_nat (length (added_of X seen l))), d).
Proof.
  unfold added_of. induction l as [|x l IH]; intros seen b a H Hf Ha Hmax.
  - simpl. by rewrite !app_nil_r, Z.add_0_r.
  - cbn [mfold length] in *.
    erewrite bind_Ok by (apply (sadd_member_run d ctx k meta X); (done || lia)).
    cbn [fresh_of]. case_decide; [by rewrite IH by (done || lia)|]. rewrite filter_cons.
    case_decide as Hx.
    + rewrite decide_False by (by intros ?). rewrite IH by (done || lia).
      by rewrite <- app_assoc.
    + rewrite decide_True by done. rewrite IH by (done || lia). rewrite <- !app_assoc.
      unfold put_members. cbn [map length app].
      by rewrite Nat2Z.inj_succ, <- Z.add_1_l, Z.add_assoc.
Qed.

Lemma added_of_bounds X l : (length (added_of X [] l) <= length l)%nat.
Proof.
  unfold added_of. pose proof (length_filter (fun x => x ∉ X) (fresh_of [] l)).
  pose proof (fresh_of_length [] l). lia.
Qed.

Lemma removed_of_bounds X l : (length (removed_of X [] l) <= length l)%nat.
Proof.
  unfold removed_of. pose proof (length_filter (fun x => x ∈ X) (fresh_of [] l)).
  pose proof (fresh_of_length [] l). lia.
Qed.

Lemma length_set_of (l : list bytes) X :
  NoDup l -> (forall x, x ∈ l <-> x ∈ X) -> length l = size X.
Proof.
  intros Hn Hx. rewrite <- (size_list_to_set (C:=gset bytes) l) by done. f_equal. set_solver.
Qed.

Lemma length_added_of X l :
  length (added_of X [] l) = size ((list_to_set l : gset bytes) ∖ X).
Proof.
  apply length_set_of; [apply NoDup_filter, fresh_of_NoDup|]. intros x.
  unfold added_of. rewrite list_elem_of_filter, fresh_of_elem. set_solver.
Qed.

Lemma length_removed_of X l :
  length (removed_of X [] l) = size ((list_to_set l : gset bytes) ∩ X).
Proof.
  apply length_set_of; [apply NoDup_filter, fresh_of_NoDup|]. intros x.
  unfold removed_of. rewrite list_elem_of_filter, fresh_of_elem. set_solver.
Qed.

Lemma added_of_elem X l x : x ∈ added_of X [] l <-> x ∈ l /\ x ∉ X.
Proof. unfold added_of. rewrite list_elem_of_filter, fresh_of_elem. set_solver. Qed.

Lemma removed_of_elem X l x : x ∈ removed_of X [] l <-> x ∈ l /\ x ∈ X.
Proof. unfold removed_of. rewrite list_elem_of_filter, fresh_of_elem. set_solver. Qed.

Lemma srem_member_run d ctx k meta X seen b a x :
  wf_db d -> members d ctx k (md_version meta) X -> 0 <= a < i64_max ->
  srem_member ctx k meta (seen, b, a) x d
  = (Ok (if decide (x ∈ seen) then (seen, b, a)
         else if decide (x ∈ X)
         then (seen ++ [x], b ++ del_members ctx k (md_version meta) [x], a + 1)
         else (seen ++ [x], b, a)), d).
Proof.
  intros H Hf Ha. unfold srem_member. rewrite hs_insert_fresh.
  case_decide; [done|]. change (negb true) with false. cbv iota zeta beta.
  erewrite bind_Ok by eauto with kv. specialize (Hf x).
  destruct (db_get d CF_SUBKEY (sub_key ctx k (md_version meta) x)) eqn:Eg.
  - rewrite decide_True by (apply Hf; eauto). erewrite bind_Ok by eauto with kv.
    by erewrite bind_Ok by (apply arith_i64_ok; apply is_i64_spec; unfold i64_max in *; lia).
  - by rewrite decide_False by (intros [? ?]%Hf; done).
Qed.

Lemma srem_fold d ctx k meta X l : forall seen b a,
  wf_db d -> members d ctx k (md_version meta) X ->
  0 <= a -> a + Z.of_nat (length l) <= i64_max ->
  mfold (srem_member ctx k meta) (seen, b, a) l d
  = (Ok (seen ++ fresh_of seen l, b ++ del_members ctx k (md_version meta) (removed_of X seen l),
         a + Z.of_nat (length (removed_of X seen l))), d).
Proof.
  unfold removed_of. induction l as [|x l IH]; intros seen b a H Hf Ha Hmax.
  - simpl. by rewrite !app_nil_r, Z.add_0_r.
  - cbn [mfold length] in *.
    erewrite bind_Ok by (apply (srem_member_run d ctx k meta X); (done || lia)).
    cbn [fresh_of]. case_decide; [by rewrite IH by (done || lia)|]. rewrite filter_cons.
    case_decide as Hx; rewrite IH by (done || lia); rewrite <- !app_assoc; [|done].
    unfold del_members. cbn [map length app].
    by rewrite Nat2Z.inj_succ, <- Z.add_1_l, Z.add_assoc.
Qed.

Lemma members_namespace d ctx ctx' k (w : Z) X :
  namespace ctx' = namespace ctx -> members d ctx k w X -> members d ctx' k w X.
Proof. intros Hns Hf x. unfold sub_key. rewrite Hns. apply Hf. Qed.

End SetFacts.

(** ** Iterating over the members of a set *)

Section SetIteration.
Context {DB : Type} {RDB : RocksDB DB}.
Implicit Types (d : DB) (ctx : CommandContext) (k x : bytes) (X : gset bytes).

(** The members in the order of their keys. *)
Definition member_list d ctx k (w : Z) : list bytes := (sub_items d ctx CF_SUBKEY k w).*1.

Lemma member_list_elem d ctx k (w : Z) X x :
  members d ctx k w X -> x ∈ member_list d ctx k w <-> x ∈ X.
Proof.
  intros Hf. rewrite <- (Hf x). unfold member_list. rewrite list_elem_of_fmap. split.
  - intros ([y v] & -> & Hin%sub_items_elem). simpl. eauto.
  - intros [v Hv]. exists (x, v). split; [done|]. by apply sub_items_elem.
Qed.

Lemma member_list_NoDup d ctx k (w : Z) : NoDup (member_list d ctx k w).
Proof. apply sorted_NoDup_keys, sub_items_sorted. Qed.

Lemma page_members ctx k (w : Z) (l : list kv) :
  short ctx k -> is_u64 w = true ->
  Forall (fun x : kv => starts_with (sub_key ctx k w []) x.1 = true) l ->
  omap (page_member ctx w) l = (map (strip ctx k w) l).*1.
Proof.
  intros Hk Hw. induction 1 as [|x l Hx _ IH]; [done|]. cbn [omap list_omap map fmap list_fmap].
  unfold page_member at 1. rewrite <- (strip_sub_key ctx k w x Hx) at 1.
  rewrite parse_sub_key by done. rewrite Z.eqb_refl. cbv iota. f_equal. exact IH.
Qed.

Lemma members_loop_ok {A} fuel d ctx k (w : Z) (body : A -> bytes -> M DB A) s a :
  wf_db d -> short ctx k -> is_u64 w = true -> (forall a x, readonly (body a x)) ->
  let prefix := sub_key ctx k w [] in
  s = [] \/ starts_with prefix s = true ->
  (length (remaining d CF_SUBKEY prefix s) < fuel)%nat ->
  members_loop ctx fuel k w body s a d
  = mfold body a (map (strip ctx k w) (remaining d CF_SUBKEY prefix s)).*1 d.
Proof.
  intros H Hk Hw Hro prefix. revert s a.
  induction fuel as [|fuel IH]; intros s a Hs Hf; [lia|]. cbn [members_loop].
  assert (Forall (fun x : kv => starts_with prefix x.1 = true) (remaining d CF_SUBKEY prefix s)) as HP.
  { apply Forall_forall. intros x. apply remaining_prefix. }
  unfold iter_members_page. fold prefix.
  pose proof (prefix_scan_page_ok d CF_SUBKEY prefix s SET_OPS_CHUNK_SIZE
    ltac:(apply H; auto with kv) eq_refl Hs) as Hp. cbv zeta in Hp.
  set (R := remaining d CF_SUBKEY prefix s) in *. set (n := page_size SET_OPS_CHUNK_SIZE) in *.
  assert (1 <= n)%nat as Hn by (unfold n, page_size; lia).
  erewrite bind_Ok by (erewrite bind_Ok by (exact Hp); reflexivity). cbv beta iota.
  rewrite (page_members ctx k w) by (try done; by apply Forall_take).
  assert ((map (strip ctx k w) R).*1
    = (map (strip ctx k w) (take n R)).*1 ++ (map (strip ctx k w) (drop n R)).*1) as ER.
  { rewrite <- fmap_app, <- map_app, take_drop. done. }
  rewrite ER, mfold_app. clear ER.
  destruct (map (strip ctx k w) (take n R)).*1 as [|m0 ms] eqn:Em.
  { destruct R as [|y R]; [by rewrite drop_nil|]. destruct n; [lia|done]. }
  set (l := m0 :: ms) in *. unfold mbind, M_bind.
  pose proof (readonly_mfold body a l ltac:(intros; apply Hro) d) as Hd.
  destruct (mfold body a l d) as [[a'|e| |] d'] eqn:Er; [|done..]. simpl in Hd. subst d'.
  destruct (n <? length R)%nat eqn:En; [apply Nat.ltb_lt in En|apply Nat.ltb_ge in En].
  - destruct (take_last_elem n R Hn) as ([ky vy] & El & Hy);
      [by intros E0; rewrite E0 in En; simpl in En; lia|].
    rewrite Forall_forall in HP. pose proof (HP _ Hy) as Hky. rewrite El.
    assert (ky <> []) as Hne.
    { intros ->. destruct prefix eqn:E; [by apply (subkey_nonempty ctx k w)|done]. }
    pose proof (remaining_next d CF_SUBKEY prefix s n (ky, vy) El Hne) as HR. cbn [fst] in HR, Hky.
    cbn [fst option_map fmap option_fmap]. rewrite IH; [by rewrite HR|by right|].
    rewrite HR, length_drop. fold R. lia.
  - by rewrite (drop_ge R n) by lia.
Qed.

(** The paged loop runs its body once per member, in order. *)
Lemma for_members_ok {A} d ctx k (w : Z) (body : A -> bytes -> M DB A) a :
  wf_db d -> short ctx k -> is_u64 w = true -> (forall a x, readonly (body a x)) ->
  for_members ctx k w body a d = mfold body a (member_list d ctx k w) d.
Proof.
  intros H Hk Hw Hro. unfold for_members, with_state. rewrite members_loop_ok; [done..|by left|].
  pose proof (entries_length d CF_SUBKEY (sub_key ctx k w [])).
  change (remaining d CF_SUBKEY ?p []) with (entries d CF_SUBKEY p). lia.
Qed.

(** *** Membership tests *)

(** A live set found under the key, with the version of its members. *)
Definition live_set d ctx (kw : bytes * Z) X : Prop := members d ctx kw.1 kw.2 X.

Lemma member_exists_run d ctx k (w : Z) X x :
  wf_db d -> members d ctx k w X ->
  unwrap_or false (member_exists ctx k w x) d = (Ok (bool_decide (x ∈ X)), d).
Proof.
  intros H Hf. unfold unwrap_or, member_exists. erewrite bind_Ok by eauto with kv.
  cbn [mret M_ret]. specialize (Hf x). destruct (db_get d CF_SUBKEY (sub_key ctx k w x)) eqn:E.
  - rewrite bool_decide_true; [done|]. apply Hf. eauto.
  - rewrite bool_decide_false; [done|]. by intros []%Hf.
Qed.

Lemma in_all_run d ctx others Xs x :
  wf_db d -> Forall2 (live_set d ctx) others Xs ->
  in_all ctx x others d = (Ok (bool_decide (Forall (fun X => x ∈ X) Xs)), d).
Proof.
  intros H. induction 1 as [|[k w] X others Xs HX _ IH]; cbn [in_all].
  - by rewrite bool_decide_true.
  - erewrite bind_Ok by (by eapply member_exists_run). cbv beta.
    destruct (bool_decide_reflect (x ∈ X)); cbv iota.
    + rewrite IH. do 2 f_equal. apply bool_decide_ext. rewrite Forall_cons. naive_solver.
    + rewrite bool_decide_false; [done|]. by rewrite Forall_cons; intros [].
Qed.

Lemma in_any_run d ctx others Xs x :
  wf_db d -> Forall2 (live_set d ctx) others Xs ->
  in_any ctx x others d = (Ok (bool_decide (Exists (fun X => x ∈ X) Xs)), d).
Proof.
  intros H. induction 1 as [|[k w] X others Xs HX _ IH]; cbn [in_any].
  - rewrite bool_decide_false; [done|]. by intros ?%Exists_nil.
  - erewrite bind_Ok by (by eapply member_exists_run). cbv beta.
    destruct (bool_decide_reflect (x ∈ X)); cbv iota.
    + rewrite bool_decide_true; [done|]. rewrite Exists_cons. by left.
    + rewrite IH. do 2 f_equal. apply bool_decide_ext. rewrite Exists_cons. naive_solver.
Qed.

Lemma ro_unwrap_or {A} (a : A) (m : M DB A) : readonly m -> readonly (unwrap_or a m).
Proof. intros Hm d. specialize (Hm d). unfold unwrap_or. by destruct (m d) as [[]]. Qed.

Lemma ro_member_exists ctx k w x : readonly (member_exists ctx k w x : M DB _).
Proof. unfold member_exists. ro. Qed.

Lemma ro_in_all ctx x others : readonly (in_all ctx x others : M DB _).
Proof.
  induction others as [|[k w] others IH]; [done|]. cbn [in_all].
  apply readonly_bind; [apply ro_unwrap_or, ro_member_exists|]. by intros [].
Qed.

Lemma ro_in_any ctx x others : readonly (in_any ctx x others : M DB _).
Proof.
  induction others as [|[k w] others IH]; [done|]. cbn [in_any].
  apply readonly_bind; [apply ro_unwrap_or, ro_member_exists|]. by intros [].
Qed.

(** A loop that keeps the members that pass a test. *)
Lemma keep_fold d (body : list RespValue -> bytes -> M DB (list RespValue)) (P : bytes -> bool) l :
  (forall r x, body r x d = (Ok (if P x then r ++ [bulk x] else r), d)) -> forall acc,
  mfold body (map bulk acc) l d = (Ok (map bulk (acc ++ filter (fun x => P x = true) l)), d).
Proof.
  intros Hb. induction l as [|x l IH]; intros acc; [by rewrite app_nil_r|]. cbn [mfold].
  rewrite (bind_Ok _ _ _ _ _ (Hb _ x)), filter_cons. destruct (P x) eqn:E.
  - rewrite decide_True by done. change [bulk x] with (map bulk [x]). rewrite <- map_app, IH.
    by rewrite <- app_assoc.
  - by rewrite decide_False by done.
Qed.

(** *** SUNION *)

Lemma sunion_member_run d seen r x :
  sunion_member (seen, r) x d
  = if SET_UNION_RESULT_LIMIT <=? Z.of_nat (length seen)
    then (Err (Command (bs "SUNION result exceeds memory limit")), d)
    else (Ok (if decide (x ∈ seen) then (seen, r) else (seen ++ [x], r ++ [bulk x])), d).
Proof. unfold sunion_member, hs_insert. by case_goal; [|case_decide]. Qed.

Lemma sunion_fold d l : forall seen,
  Z.of_nat (length (seen ++ fresh_of seen l)) < SET_UNION_RESULT_LIMIT ->
  mfold sunion_member (seen, map bulk seen) l d
  = (Ok (seen ++ fresh_of seen l, map bulk (seen ++ fresh_of seen l)), d).
Proof.
  induction l as [|x l IH]; intros seen Hl; [by rewrite app_nil_r|].
  cbn [mfold fresh_of] in *.
  erewrite bind_Ok by (rewrite sunion_member_run, (proj2 (Z.leb_gt _ _)) by
    (rewrite length_app in Hl; lia); reflexivity).
  case_decide; [by apply IH|].
  change [bulk x] with (map bulk [x]). rewrite <- map_app, IH by by rewrite <- app_assoc.
  by rewrite <- app_assoc.
Qed.

Lemma sunion_fold_limit d l : forall seen r,
  Z.of_nat (length seen) <= SET_UNION_RESULT_LIMIT ->
  SET_UNION_RESULT_LIMIT < Z.of_nat (length (seen ++ fresh_of seen l)) ->
  mfold sunion_member (seen, r) l d
  = (Err (Command (bs "SUNION result exceeds memory limit")), d).
Proof.
  induction l as [|x l IH]; intros seen r Hs Hl; [rewrite app_nil_r in Hl; lia|].
  cbn [mfold fresh_of] in *. pose proof (sunion_member_run d seen r x) as Hx.
  destruct (SET_UNION_RESULT_LIMIT <=? Z.of_nat (length seen)) eqn:E;
    [by rewrite (bind_Err _ _ _ _ _ Hx)|]. rewrite (bind_Ok _ _ _ _ _ Hx). zbool.
  case_decide; apply IH; try done.
  - rewrite length_app. simpl. lia.
  - by rewrite <- app_assoc.
Qed.

(** *** The sets of several keys *)

(** The keys of [ks] represent the sets [Xs]. *)
Definition sets_repr d ctx (ks : list bytes) (Xs : list (gset bytes)) : Prop :=
  Forall2 (fun k X => short ctx k /\ exists E, set_repr E d ctx k X) ks Xs.

Definition live_meta d ctx (km : bytes * Metadata) X : Prop :=
  short ctx km.1 /\ is_u64 (md_version km.2) = true
  /\ members d ctx km.1 (md_version km.2) X.

Lemma read_set_cases d ctx k X :
  wf_db d -> (exists E, set_repr E d ctx k X) -> short ctx k ->
  (read_set_metadata ctx k d = (Ok None, d) /\ X = ∅)
  \/ exists meta, read_set_metadata ctx k d = (Ok (Some meta), d) /\ live_meta d ctx (k, meta) X.
Proof.
  intros H [E Hr] Hk. destruct (read_set_metadata_run E d ctx k X H Hr) as ([meta|] & Ho & Hs).
  - right. exists meta. split; [done|]. destruct Hs as (_ & (Hg & _) & Hf).
    split; [done|]. split; [by eapply good_meta_version|done].
  - left. by destruct Hs as [-> _].
Qed.

Lemma collect_metas_run d ctx ks Xs : forall acc,
  wf_db d -> sets_repr d ctx ks Xs ->
  exists o, collect_metas ctx acc ks d = (Ok o, d)
    /\ match o with
       | None => ∅ ∈ Xs
       | Some l => exists l', l = acc ++ l' /\ Forall2 (live_meta d ctx) l' Xs
       end.
Proof.
  intros acc H HF. revert acc.
  induction HF as [|k X ks Xs [Hk HX] _ IH]; intros acc; cbn [collect_metas].
  - exists (Some acc). split; [done|]. exists []. by rewrite app_nil_r.
  - destruct (read_set_cases d ctx k X H HX Hk) as [[Ho ->]|(meta & Ho & Hl)];
      rewrite (bind_Ok _ _ _ _ _ Ho).
    + exists None. split; [done|]. by left.
    + destruct (IH (acc ++ [(k, meta)])) as (o & Hc & Hs). exists o. split; [done|].
      destruct o as [l|]; [|by right]. destruct Hs as (l' & -> & Hl').
      exists ((k, meta) :: l'). split; [by rewrite <- app_assoc|by constructor].
Qed.

Lemma collect_others_run d ctx ks Xs : forall acc,
  wf_db d -> sets_repr d ctx ks Xs ->
  exists l Ys, collect_others ctx acc ks d = (Ok (acc ++ l), d)
    /\ Forall2 (live_set d ctx) l Ys
    /\ forall x, Exists (fun X => x ∈ X) Ys <-> Exists (fun X => x ∈ X) Xs.
Proof.
  intros acc H HF. revert acc.
  induction HF as [|k X ks Xs [Hk HX] _ IH]; intros acc; cbn [collect_others].
  - exists [], []. by rewrite app_nil_r.
  - destruct (read_set_cases d ctx k X H HX Hk) as [[Ho ->]|(meta & Ho & Hl)];
      (erewrite bind_Ok by (unfold unwrap_or; rewrite Ho; reflexivity)).
    + destruct (IH acc) as (l & Ys & Hc & Hl & Hx). exists l, Ys. split; [done|]. split; [done|].
      intros x. rewrite Exists_cons, Hx. set_solver.
    + destruct (IH (acc ++ [(k, md_version meta)])) as (l & Ys & Hc & Hl' & Hx).
      exists ((k, md_version meta) :: l), (X :: Ys).
      split; [by rewrite Hc, <- app_assoc|]. split; [constructor; [apply Hl|done]|].
      intros x. rewrite !Exists_cons, Hx. done.
Qed.

Lemma sort_by_size_perm l : sort_by_size l ≡ₚ l.
Proof.
  assert (forall (x : bytes * Metadata) l, insert_by_size x l ≡ₚ x :: l) as Hi.
  { clear. intros x l. induction l as [|y l IH]; [done|]. cbn [insert_by_size].
    case_goal; [done|]. rewrite IH. apply Permutation_swap. }
  unfold sort_by_size. induction l as [|x l IH]; [done|]. cbn [fold_right]. by rewrite Hi, IH.
Qed.

(** A reply that lists the elements with property [P], each once. *)
Definition lists (l : list bytes) (P : bytes -> Prop) : Prop :=
  NoDup l /\ forall x, x ∈ l <-> P x.

Lemma lists_filter d ctx k (w : Z) X (P : bytes -> bool) (Q : bytes -> Prop) :
  members d ctx k w X -> (forall x, Q x <-> x ∈ X /\ P x = true) ->
  lists (filter (fun x => P x = true) (member_list d ctx k w)) Q.
Proof.
  intros Hf HQ. split; [apply NoDup_filter, member_list_NoDup|]. intros x.
  rewrite list_elem_of_filter, (member_list_elem d ctx k w X), HQ by done. tauto.
Qed.

Lemma lists_none (P : bytes -> Prop) : (forall x, ~ P x) -> lists [] P.
Proof. intros HP. split; [constructor|]. intros x. split; [by intros ?%elem_of_nil|by intros ?%HP]. Qed.

Lemma sinter_run d ctx ks Xs :
  wf_db d -> sets_repr d ctx ks Xs -> ks <> [] ->
  exists l, sinter ctx ks d = (Ok (Array (map bulk l)), d)
    /\ lists l (fun x => Forall (fun X => x ∈ X) Xs).
Proof.
  intros H HF Hne. unfold sinter.
  erewrite bind_Ok by (apply expect_min_arg_count_ok; destruct ks; [done|simpl; lia]).
  destruct (collect_metas_run d ctx ks Xs [] H HF) as (o & Hc & Hs).
  rewrite (bind_Ok _ _ _ _ _ Hc). destruct o as [l|].
  2:{ exists []. split; [done|]. apply lists_none. intros x Hx.
      rewrite Forall_forall in Hx. by apply Hx in Hs. }
  destruct Hs as (l' & -> & Hl). rewrite app_nil_l.
  destruct (Permutation_Forall2 (symmetry (sort_by_size_perm l')) Hl) as (Ys & HY & Hs).
  assert (ks <> [] -> sort_by_size l' <> []) as Hn.
  { intros _ E. rewrite E in Hs. inversion Hs; subst.
    apply Permutation_nil_r in HY. subst. by inversion HF; subst. }
  destruct (sort_by_size l') as [|[bk bm] others]; [by apply Hn in Hne|]. clear Hn.
  inversion Hs as [|? Y ? Ys' (Hk & Hw & Hf) Ho]; subst. cbn [fst snd] in *.
  assert (Forall2 (live_set d ctx) (map (fun x : bytes * Metadata => (x.1, md_version x.2)) others) Ys') as Ho'.
  { clear -Ho. induction Ho as [|? ? ? ? (_ & _ & ?)]; constructor; done. }
  cbv zeta. erewrite bind_Ok.
  2:{ rewrite for_members_ok; [|done|done|done|].
      - apply (keep_fold d _ (fun x => bool_decide (Forall (fun X => x ∈ X) Ys')) _) with (acc := []).
        intros r x. by erewrite bind_Ok by (by apply (in_all_run d ctx _ Ys')).
      - intros r x. apply readonly_bind; [apply ro_in_all|done]. }
  eexists. split; [done|]. rewrite app_nil_l. apply (lists_filter d ctx bk _ Y); [done|].
  intros x. rewrite bool_decide_eq_true, HY, Forall_cons. done.
Qed.

Lemma sdiff_run d ctx k X ks Xs :
  wf_db d -> sets_repr d ctx (k :: ks) (X :: Xs) ->
  exists l, sdiff ctx (k :: ks) d = (Ok (Array (map bulk l)), d)
    /\ lists l (fun x => x ∈ X /\ Forall (fun Y => x ∉ Y) Xs).
Proof.
  intros H HF. inversion HF as [|? ? ? ? [Hk HX] HFs]; subst. unfold sdiff.
  erewrite bind_Ok by (apply expect_min_arg_count_ok; simpl; lia). mrun.
  destruct (read_set_cases d ctx k X H HX Hk) as [[Ho ->]|(meta & Ho & _ & Hw & Hf)];
    rewrite (bind_Ok _ _ _ _ _ Ho).
  { exists []. split; [done|]. apply lists_none. set_solver. }
  cbn [fst snd] in *. change (drop 1 (k :: ks)) with ks.
  destruct (collect_others_run d ctx ks Xs [] H HFs) as (l & Ys & Hc & Hl & Hx).
  rewrite (bind_Ok _ _ _ _ _ Hc), app_nil_l. erewrite bind_Ok.
  2:{ rewrite for_members_ok; [|done|done|done|].
      - apply (keep_fold d _ (fun x => negb (bool_decide (Exists (fun X => x ∈ X) Ys))) _)
          with (acc := []).
        intros r x. erewrite bind_Ok by (by apply (in_any_run d ctx _ Ys)).
        by destruct (bool_decide _).
      - intros r x. apply readonly_bind; [apply ro_in_any|done]. }
  eexists. split; [done|]. rewrite app_nil_l. apply (lists_filter d ctx k _ X); [done|].
  intros x. rewrite negb_true_iff, bool_decide_eq_false, Hx.
  rewrite <- Forall_Exists_neg. done.
Qed.

(** The members of all the sets, in the order SUNION visits them. *)
Lemma sunion_visits d ctx ks Xs :
  wf_db d -> sets_repr d ctx ks Xs ->
  exists l, (forall st, mfold (fun st user_key =>
      m ← read_set_metadata ctx user_key;
      match m with
      | None => mret st
      | Some meta => for_members ctx user_key (md_version meta) sunion_member st
      end) st ks d = mfold sunion_member st l d)
    /\ forall x, x ∈ l <-> Exists (fun X => x ∈ X) Xs.
Proof.
  intros H. assert (forall st x, readonly (sunion_member st x : M DB _)) as Hro.
  { intros [seen r] x d'. rewrite sunion_member_run. by case_goal. }
  induction 1 as [|k X ks Xs [Hk HX] _ IH].
  { exists []. split; [done|]. intros x. rewrite Exists_nil. set_solver. }
  destruct IH as (l & Hm & Hx).
  destruct (read_set_cases d ctx k X H HX Hk) as [[Ho ->]|(meta & Ho & _ & Hw & Hf)].
  - exists l. split; [|intros x; rewrite Exists_cons, Hx; set_solver].
    intros st. cbn [mfold]. erewrite bind_Ok by (by rewrite (bind_Ok _ _ _ _ _ Ho)). apply Hm.
  - cbn [fst snd] in *. exists (member_list d ctx k (md_version meta) ++ l). split.
    + intros st. rewrite mfold_app. cbn [mfold]. unfold mbind, M_bind. rewrite Ho.
      rewrite for_members_ok by done.
      pose proof (readonly_mfold sunion_member st (member_list d ctx k (md_version meta))
        ltac:(intros; apply Hro) d) as Hd.
      destruct (mfold _ st (member_list _ _ _ _) d) as [[st'|e| |] d'] eqn:Er; [|done..].
      simpl in Hd. subst d'. apply Hm.
    + intros x. rewrite elem_of_app, Exists_cons, Hx, (member_list_elem d ctx k _ X); done.
Qed.

Lemma sunion_run d ctx (ks : list bytes) (Xs : list (gset bytes)) (U : gset bytes) :
  wf_db d -> sets_repr d ctx ks Xs -> ks <> [] ->
  (forall x, x ∈ U <-> Exists (fun X => x ∈ X) Xs) ->
  (Z.of_nat (size U) < SET_UNION_RESULT_LIMIT ->
   exists l, sunion ctx ks d = (Ok (Array (map bulk l)), d) /\ lists l (fun x => x ∈ U))
  /\ (SET_UNION_RESULT_LIMIT < Z.of_nat (size U) ->
      sunion ctx ks d = (Err (Command (bs "SUNION result exceeds memory limit")), d)).
Proof.
  intros H HF Hne HU. unfold sunion.
  destruct (sunion_visits d ctx ks Xs H HF) as (l & Hm & Hx).
  assert (lists (fresh_of [] l) (fun x => x ∈ U)) as HL.
  { split; [apply fresh_of_NoDup|]. intros x. rewrite fresh_of_elem, HU, Hx. set_solver. }
  assert (length (fresh_of [] l) = size U) as Hs by (apply length_set_of; apply HL).
  erewrite (bind_Ok (expect_min_arg_count _ _ _))
    by (apply expect_min_arg_count_ok; destruct ks; [done|simpl; lia]).
  split; intros Hlim.
  - exists (fresh_of [] l). split; [|done].
    pose proof (sunion_fold d l [] ltac:(rewrite app_nil_l; lia)) as HR.
    rewrite <- Hm in HR. by rewrite (bind_Ok _ _ _ _ _ HR).
  - erewrite bind_Err; [done|]. rewrite Hm. apply sunion_fold_limit; [done|].
    rewrite app_nil_l. lia.
Qed.

Lemma collect_members_ok ctx k (w : Z) (l : list kv) : forall acc,
  short ctx k -> is_u64 w = true ->
  collect_members ctx k w acc (map (fun x : kv => (sub_key ctx k w x.1, x.2)) l)
  = acc ++ fresh_of acc l.*1.
Proof.
  induction l as [|[x v] l IH]; intros acc Hk Hw; [by rewrite app_nil_r|].
  cbn [map fmap list_fmap collect_members fst snd fresh_of].
  rewrite parse_sub_key, bool_decide_true, Z.eqb_refl by done. change (true && true) with true.
  cbv iota zeta. rewrite IH by done. unfold hs_insert. case_decide; [done|].
  cbn [snd]. by rewrite <- app_assoc.
Qed.

End SetIteration.

(** ** Properties *)

Section SetProperties.
Context {DB : Type} {RDB : RocksDB DB}.
Implicit Types (d : DB) (ctx : CommandContext) (k x : bytes) (X : gset bytes).

Lemma set_meta_resize E meta X Y :
  set_meta E meta X -> Z.of_nat (size Y) <= u64_max ->
  set_meta E (set_size (Z.of_nat (size Y)) meta) Y.
Proof.
  intros (Hg & He & Hs) HY. split; [|done]. apply good_meta_set_size; [done|].
  unfold is_u64, u64_max in *. lia.
Qed.

(** The write that ends SADD and SREM. *)
Lemma finish_write d ctx k (b : WriteBatch) meta (n : Z) :
  wf_db d ->
  (_ ← (batch ← batch_put b CF_METADATA (meta_key ctx k) (encode_metadata meta); write batch);
   mret (Integer n)) d
  = (Ok (Integer n), db_write d (b ++ [PutCf CF_METADATA (meta_key ctx k) (encode_metadata meta)])).
Proof.
  intros H. erewrite bind_Ok; [done|]. by erewrite bind_Ok by eauto with kv.
Qed.

(** SADD from the metadata it starts with. *)
Lemma sadd_run E d ctx ctx' k X l o :
  let p := match o with
           | Some m => (m, false) | None => (metadata_new DSet (new_version ctx), true) end in
  wf_db d -> read_set_metadata ctx k d = (Ok o, d) -> set_meta E p.1 X -> members d ctx k (md_version p.1) X ->
  (p.2 = false -> composite_at d ctx k DSet p.1) -> l <> [] ->
  Z.of_nat (size X) + Z.of_nat (length l) <= i64_max ->
  namespace ctx' = namespace ctx -> unexpired E ctx' ->
  exists d' n, sadd ctx (k :: l) d
             = (Ok (Integer (Z.of_nat (size ((list_to_set l : gset bytes) ∖ X)))), d')
    /\ set_at E d' ctx' k (set_size n p.1) (X ∪ list_to_set l) /\ only_version d d' ctx k (md_version p.1).
Proof.
  intros p H Ho Hm Hf Hc Hne Hmax Hns Hx. unfold i64_max in Hmax.
  unfold sadd. erewrite bind_Ok by (apply expect_min_arg_count_ok; destruct l; [done|simpl; lia]).
  mrun. rewrite (bind_Ok _ _ _ _ _ Ho). fold p. destruct p as [meta is_new]. cbn [fst snd] in *.
  change (drop 1 (k :: l)) with l. pose proof (added_of_bounds X l) as Hb.
  rewrite (bind_Ok _ _ _ _ _ (sadd_fold d ctx k meta X l [] [] 0 H Hf ltac:(lia)
    ltac:(unfold i64_max; lia))). cbv beta iota. rewrite Z.add_0_l, app_nil_l.
  pose proof (length_added_of X l) as Hl. rewrite Hl in *.
  assert (size (X ∪ list_to_set l) = size X + size ((list_to_set l : gset bytes) ∖ X))%nat as HU.
  { rewrite <- size_union by set_solver. f_equal. apply set_eq. intros x.
    destruct (decide (x ∈ X)); set_solver. }
  set (n := Z.of_nat (size (list_to_set l ∖ X))) in *.
  destruct ((0 <? n) || is_new) eqn:Ew; cbv zeta.
  - rewrite wrap_u64_id by (apply is_u64_spec; lia). destruct Hm as (Hg & He & Hsz).
    rewrite Z.min_r by (unfold u64_max; lia).
    replace (md_size meta + n) with (Z.of_nat (size (X ∪ list_to_set l))) by lia.
    rewrite finish_write by done. eexists _, _. split; [done|]. split.
    + apply set_at_written; [done|done|apply (set_meta_resize E meta X); [done|unfold u64_max; lia]|].
      intros x. cbn [set_size md_version]. rewrite put_members_effect.
      case_decide as Hin; rewrite added_of_elem in Hin.
      * split; [set_solver|eauto].
      * rewrite (Hf x). destruct (decide (x ∈ X)); set_solver.
    + apply (only_version_write d ctx k (md_version meta)); [done|by eapply good_meta_version|].
      apply Forall_app. split; [apply put_members_ops|]. constructor; [by left|done].
  - apply orb_false_iff in Ew as [Hn ->]. zbool. mrun. exists d, (md_size meta). split; [done|].
    split; [|by apply only_version_refl].
    assert (X ∪ list_to_set l = X) as ->.
    { assert ((list_to_set l : gset bytes) ∖ X = ∅) as HE by (apply leibniz_equiv, size_empty_iff; lia).
      apply set_eq. intros x. destruct (decide (x ∈ X)); set_solver. }
    assert (set_size (md_size meta) meta = meta) as -> by by destruct meta.
    split; [by eapply composite_namespace, Hc|]. split; [done|].
    split; [done|by eapply members_namespace].
Qed.

(** C7: SADD refines the union of the set the key represents with the given
    members, repeated ones included: it replies how many were not in the set,
    the key then represents the union, its size included, and no other key's
    metadata or subkeys change. *)
Theorem sadd_refines E d ctx ctx' k X l :
  wf_db d -> set_repr E d ctx k X -> l <> [] ->
  Z.of_nat (size X) + Z.of_nat (length l) <= i64_max ->
  namespace ctx' = namespace ctx -> unexpired E ctx' ->
  exists d', sadd ctx (k :: l) d
             = (Ok (Integer (Z.of_nat (size ((list_to_set l : gset bytes) ∖ X)))), d')
    /\ set_repr E d' ctx' k (X ∪ list_to_set l) /\ only_key d d' ctx k.
Proof.
  intros H Hr Hne Hmax Hns Hx. destruct (read_set_metadata_run E d ctx k X H Hr) as (o & Ho & Hs).
  pose (p := match o with
             | Some m => (m, false) | None => (metadata_new DSet (new_version ctx), true) end).
  assert (set_meta E p.1 X /\ members d ctx k (md_version p.1) X
          /\ (p.2 = false -> composite_at d ctx k DSet p.1)) as (Hm & Hf & Hc).
  { destruct o as [meta|]; [naive_solver|]. destruct Hs as (-> & -> & Hf & _).
    split; [|naive_solver]. split; [apply good_meta_new|done]. }
  destruct (sadd_run E d ctx ctx' k X l o) as (d' & n & R & Ha & Hv); [done..|].
  exists d'. split; [done|]. split; [right; by eexists|apply Hv].
Qed.

(** SREM on an existing set. *)
Lemma srem_run E d ctx ctx' k X l meta :
  wf_db d -> read_set_metadata ctx k d = (Ok (Some meta), d) -> composite_at d ctx k DSet meta -> set_meta E meta X ->
  members d ctx k (md_version meta) X -> l <> [] -> Z.of_nat (length l) <= i64_max ->
  namespace ctx' = namespace ctx -> unexpired E ctx' ->
  exists d' n, srem ctx (k :: l) d
             = (Ok (Integer (Z.of_nat (size ((list_to_set l : gset bytes) ∩ X)))), d')
    /\ set_at E d' ctx' k (set_size n meta) (X ∖ list_to_set l) /\ only_version d d' ctx k (md_version meta).
Proof.
  intros H Ho Hc Hm Hf Hne Hmax Hns Hx. unfold i64_max in Hmax.
  unfold srem. erewrite bind_Ok by (apply expect_min_arg_count_ok; destruct l; [done|simpl; lia]).
  mrun. rewrite (bind_Ok _ _ _ _ _ Ho).
  change (drop 1 (k :: l)) with l.
  pose proof (removed_of_bounds X l) as Hb.
  rewrite (bind_Ok _ _ _ _ _ (srem_fold d ctx k meta X l [] [] 0 H Hf ltac:(lia)
    ltac:(unfold i64_max; lia))). cbv beta iota. rewrite Z.add_0_l, app_nil_l.
  pose proof (length_removed_of X l) as Hl. rewrite Hl in *.
  assert (size X = size (X ∖ list_to_set l) + size ((list_to_set l : gset bytes) ∩ X))%nat as HU.
  { rewrite <- size_union by set_solver. f_equal. apply set_eq. intros x.
    destruct (decide (x ∈ l)); set_solver. }
  set (n := Z.of_nat (size (list_to_set l ∩ X))) in *.
  assert (Z.of_nat (size X) <= u64_max) as Hsz.
  { destruct Hm as (Hg%good_meta_size & _ & <-). apply is_u64_spec in Hg. unfold u64_max. lia. }
  destruct (0 <? n) eqn:Ew; zbool; cbv zeta.
  - rewrite wrap_u64_id by (apply is_u64_spec; lia).
    replace (Z.max 0 (md_size meta - n)) with (Z.of_nat (size (X ∖ list_to_set l)))
      by (destruct Hm as (_ & _ & ->); lia).
    rewrite finish_write by done. eexists _, _. split; [done|]. split.
    + apply set_at_written; [done|done|by apply (set_meta_resize E meta X); [|lia]|].
      intros x. cbn [set_size md_version]. rewrite del_members_effect.
      case_decide as Hin; rewrite removed_of_elem in Hin.
      * split; [by intros []|set_solver].
      * rewrite (Hf x). set_solver.
    + apply (only_version_write d ctx k (md_version meta)); [done|by eapply good_meta_version, Hm|].
      apply Forall_app. split; [apply del_members_ops|]. constructor; [by left|done].
  - mrun. exists d, (md_size meta). split; [done|]. split; [|by apply only_version_refl].
    assert (X ∖ list_to_set l = X) as ->.
    { assert ((list_to_set l : gset bytes) ∩ X = ∅) as HE by (apply leibniz_equiv, size_empty_iff; lia).
      apply set_eq. intros x. destruct (decide (x ∈ l)); set_solver. }
    assert (set_size (md_size meta) meta = meta) as -> by by destruct meta.
    split; [by eapply composite_namespace, Hc|]. split; [done|].
    split; [done|by eapply members_namespace].
Qed.

(** SREM refines the removal of the given members, repeated ones included:
    it replies how many were in the set, and the key then represents the
    difference. *)
Theorem srem_refines E d ctx ctx' k X l :
  wf_db d -> set_repr E d ctx k X -> l <> [] ->
  Z.of_nat (length l) <= i64_max -> later ctx ctx' -> unexpired E ctx' ->
  members d ctx' k (new_version ctx') ∅ ->
  exists d', srem ctx (k :: l) d
             = (Ok (Integer (Z.of_nat (size ((list_to_set l : gset bytes) ∩ X)))), d')
    /\ set_repr E d' ctx' k (X ∖ list_to_set l) /\ only_key d d' ctx k.
Proof.
  intros H Hr Hne Hmax Hlt Hx Hfresh. pose proof Hlt as [Hns _].
  destruct (read_set_metadata_run E d ctx k X H Hr) as (o & Ho & Hs). destruct o as [meta|].
  { destruct Hs as (Hc & Hm & Hf).
    destruct (srem_run E d ctx ctx' k X l meta) as (d' & n & R & Ha & Hv); [done..|].
    exists d'. split; [done|]. split; [right; by eexists|apply Hv]. }
  unfold srem. erewrite bind_Ok by (apply expect_min_arg_count_ok; destruct l; [done|simpl; lia]).
  mrun. rewrite (bind_Ok _ _ _ _ _ Ho).
  destruct Hs as (-> & -> & Hf & Ha). exists d. rewrite intersection_empty_r_L, size_empty.
  split; [done|]. split; [left|by apply only_key_refl].
  split; [set_solver|]. split; [done|]. split; [done|by eapply absent_later].
Qed.

Lemma sismember_run E d ctx k X x :
  wf_db d -> set_repr E d ctx k X ->
  sismember ctx [k; x] d = (Ok (Integer (if decide (x ∈ X) then 1 else 0)), d).
Proof.
  intros H Hr. destruct (read_set_metadata_run E d ctx k X H Hr) as (o & Ho & Hs). unfold sismember.
  do 2 mrun. rewrite (bind_Ok _ _ _ _ _ Ho). destruct o as [meta|].
  - destruct Hs as (_ & _ & Hf). mrun. erewrite bind_Ok by eauto with kv. specialize (Hf x).
    destruct (db_get d CF_SUBKEY (sub_key ctx k (md_version meta) x)) eqn:Eg.
    + by rewrite decide_True by (apply Hf; eauto).
    + by rewrite decide_False by (intros [? ?]%Hf; done).
  - destruct Hs as [-> _]. by rewrite decide_False by set_solver.
Qed.

Lemma scard_run E d ctx k X :
  wf_db d -> set_repr E d ctx k X -> Z.of_nat (size X) <= i64_max ->
  scard ctx [k] d = (Ok (Integer (Z.of_nat (size X))), d).
Proof.
  intros H Hr Hmax. destruct (read_set_metadata_run E d ctx k X H Hr) as (o & Ho & Hs). unfold scard.
  do 2 mrun. rewrite (bind_Ok _ _ _ _ _ Ho). destruct o as [meta|].
  - destruct Hs as (_ & (_ & _ & ->) & _). unfold i64_max in Hmax.
    by rewrite wrap_i64_id by (apply is_i64_spec; lia).
  - by destruct Hs as [-> _].
Qed.

(** On a key that represents the set [X], SISMEMBER and SCARD answer from
    the set, and SMEMBERS lists every member once, in the order the hash table
    iterates. *)
Theorem set_reads E d ctx k X x (hash_order : list bytes -> list bytes) :
  wf_db d -> short ctx k -> set_repr E d ctx k X -> Z.of_nat (size X) <= i64_max ->
  hashset_overflow (Z.of_nat (size X)) = false -> (forall l, hash_order l ≡ₚ l) ->
  sismember ctx [k; x] d = (Ok (Integer (if decide (x ∈ X) then 1 else 0)), d)
  /\ scard ctx [k] d = (Ok (Integer (Z.of_nat (size X))), d)
  /\ exists l, smembers ctx hash_order [k] d = (Ok (Array (map bulk l)), d)
       /\ lists l (fun x => x ∈ X).
Proof.
  intros H Hk Hr Hmax Hcap Hord.
  destruct (read_set_metadata_run E d ctx k X H Hr) as (o & Ho & Hs).
  split; [by eapply sismember_run|]. split; [by eapply scard_run|]. unfold smembers.
  do 2 mrun. rewrite (bind_Ok _ _ _ _ _ Ho). destruct o as [meta|].
  - destruct Hs as (_ & (Hg & _ & Hsz) & Hf). unfold load_members.
      eexists. split.
    * erewrite bind_Ok; [done|].
        erewrite bind_Ok by (apply prefix_scan_ok, H; auto with kv).
        rewrite Hsz, Hcap, sub_items_entries, collect_members_ok;
          [done|done|by eapply good_meta_version].
    * rewrite app_nil_l, fresh_of_id by apply member_list_NoDup. split.
        -- rewrite Hord. apply member_list_NoDup.
        -- intros y. rewrite Hord. by apply (member_list_elem d ctx k (md_version meta)).
  - destruct Hs as [-> _]. exists []. split; [done|]. apply lists_none. set_solver.
Qed.

(** C28: SINTER, SDIFF and SUNION compute the intersection, difference and union
    of the sets their keys represent, whatever the sizes of the pages in which
    they read them, and list each element once; SUNION fails with the limit
    error, and nothing else, when the union has more than a million members. *)
Theorem set_algebra d ctx k (ks : list bytes) X (Xs : list (gset bytes)) (U : gset bytes) :
  wf_db d -> sets_repr d ctx (k :: ks) (X :: Xs) ->
  (forall x, x ∈ U <-> Exists (fun Y => x ∈ Y) (X :: Xs)) ->
  (exists l, sinter ctx (k :: ks) d = (Ok (Array (map bulk l)), d)
     /\ lists l (fun x => Forall (fun Y => x ∈ Y) (X :: Xs)))
  /\ (exists l, sdiff ctx (k :: ks) d = (Ok (Array (map bulk l)), d)
     /\ lists l (fun x => x ∈ X /\ Forall (fun Y => x ∉ Y) Xs))
  /\ (Z.of_nat (size U) < SET_UNION_RESULT_LIMIT ->
      exists l, sunion ctx (k :: ks) d = (Ok (Array (map bulk l)), d) /\ lists l (fun x => x ∈ U))
  /\ (SET_UNION_RESULT_LIMIT < Z.of_nat (size U) ->
      sunion ctx (k :: ks) d = (Err (Command (bs "SUNION result exceeds memory limit")), d)).
Proof.
  intros H HF HU. split; [by apply sinter_run|]. split; [by apply sdiff_run|].
  by apply (sunion_run d ctx (k :: ks) (X :: Xs)).
Qed.

End SetProperties.

(** ** Witnesses *)

Definition set_ab : gset bytes := {[bs "a"; bs "b"]}.

Definition demo_smeta : Metadata := set_size 2 (metadata_new DSet (new_version ctx0)).

(** A database that holds the set of [a] and [b] under [s]. *)
Definition db_s : MemDB :=
  db_write db0 (put_members ctx0 (bs "s") (md_version demo_smeta) [bs "a"; bs "b"]
    ++ [PutCf CF_METADATA (meta_key ctx0 (bs "s")) (encode_metadata demo_smeta)]).

Lemma db_s_wf : wf_db db_s.
Proof. apply wf_write, mem_wf. Qed.

Lemma db0_set_repr k : set_repr 0 db0 ctx0 k ∅.
Proof.
  left. split; [done|]. split; [done|]. split; [|by left].
  intros x. split; [by intros []|set_solver].
Qed.

Lemma db_s_repr : set_repr 0 db_s ctx0 (bs "s") set_ab.
Proof.
  right. eexists. apply set_at_written; [done|done| |].
  - split; [apply good_meta_set_size; [apply good_meta_new|done]|done].
  - intros x. rewrite put_members_effect. unfold set_ab. case_decide as Hx.
    + split; [set_solver|eauto].
    + split; [by intros []|set_solver].
Qed.

Lemma db_s_sets : sets_repr db_s ctx0 [bs "s"; bs "s"] [set_ab; set_ab].
Proof.
  repeat constructor; try (cbn; lia); exists 0; apply db_s_repr.
Qed.

Lemma sadd_refines_witness :
  exists d', sadd ctx0 [bs "s"; bs "c"; bs "a"; bs "c"] db_s
             = (Ok (Integer (Z.of_nat (size
                 ((list_to_set [bs "c"; bs "a"; bs "c"] : gset bytes) ∖ set_ab)))), d')
    /\ set_repr 0 d' ctx0 (bs "s") (set_ab ∪ list_to_set [bs "c"; bs "a"; bs "c"])
    /\ only_key db_s d' ctx0 (bs "s").
Proof.
  apply (sadd_refines 0 db_s ctx0 ctx0 (bs "s") set_ab [bs "c"; bs "a"; bs "c"]);
    [apply db_s_wf|apply db_s_repr|done|vm_compute; discriminate|done|done].
Defined.

Lemma srem_refines_witness :
  exists d', srem ctx0 [bs "s"; bs "a"; bs "a"] db_s
             = (Ok (Integer (Z.of_nat (size
                 ((list_to_set [bs "a"; bs "a"] : gset bytes) ∩ set_ab)))), d')
    /\ set_repr 0 d' (mkContext [] 1001 9 true 40) (bs "s") (set_ab ∖ list_to_set [bs "a"; bs "a"])
    /\ only_key db_s d' ctx0 (bs "s").
Proof.
  apply (srem_refines 0 db_s ctx0 (mkContext [] 1001 9 true 40) (bs "s") set_ab [bs "a"; bs "a"]);
    [apply db_s_wf|apply db_s_repr|done|vm_compute; discriminate
    |split; [done|vm_compute; discriminate]|done|].
  intros x. unfold db_s. rewrite db_get_write, batch_effect_app, batch_effect_other_cf by done.
  rewrite batch_effect_frame; [split; [by intros []|set_solver]|].
  apply (Forall_impl _ _ _ (put_members_ops ctx0 (bs "s") (md_version demo_smeta) _)).
  intros o [Ho|(cf & f & _ & Ho)] E; rewrite Ho in E; [by apply (f_equal fst) in E|].
  apply (f_equal snd) in E. revert E. apply (sub_key_ne ctx0);
    [apply short0; simpl; lia|apply short0; simpl; lia|done|done|right; vm_compute; discriminate].
Defined.

Lemma set_reads_witness :
  sismember ctx0 [bs "s"; bs "c"] db_s
    = (Ok (Integer (if decide (bs "c" ∈ set_ab) then 1 else 0)), db_s)
  /\ scard ctx0 [bs "s"] db_s = (Ok (Integer (Z.of_nat (size set_ab))), db_s)
  /\ exists l, smembers ctx0 (fun l => rev l) [bs "s"] db_s = (Ok (Array (map bulk l)), db_s)
       /\ lists l (fun x => x ∈ set_ab).
Proof.
  apply (set_reads 0 db_s ctx0 (bs "s") set_ab (bs "c"));
    [apply db_s_wf|apply short0; simpl; lia|apply db_s_repr|vm_compute; discriminate|done|].
  intros l. symmetry. apply Permutation_rev.
Defined.

Lemma set_algebra_witness :
  (exists l, sinter ctx0 [bs "s"; bs "s"] db_s = (Ok (Array (map bulk l)), db_s)
     /\ lists l (fun x => Forall (fun Y => x ∈ Y) [set_ab; set_ab]))
  /\ (exists l, sdiff ctx0 [bs "s"; bs "s"] db_s = (Ok (Array (map bulk l)), db_s)
     /\ lists l (fun x => x ∈ set_ab /\ Forall (fun Y => x ∉ Y) [set_ab]))
  /\ (Z.of_nat (size set_ab) < SET_UNION_RESULT_LIMIT ->
      exists l, sunion ctx0 [bs "s"; bs "s"] db_s = (Ok (Array (map bulk l)), db_s)
        /\ lists l (fun x => x ∈ set_ab))
  /\ (SET_UNION_RESULT_LIMIT < Z.of_nat (size set_ab) ->
      sunion ctx0 [bs "s"; bs "s"] db_s
      = (Err (Command (bs "SUNION result exceeds memory limit")), db_s)).
Proof.
  apply (set_algebra db_s ctx0 (bs "s") [bs "s"] set_ab [set_ab] set_ab);
    [apply db_s_wf|apply db_s_sets|].
  intros x. rewrite !Exists_cons, Exists_nil. tauto.
Defined.

(** SDIFF ignores a key of another type, which SINTER refuses. *)
Example sdiff_ignores_wrong_type :
  let d := db_write db_s [PutCf CF_METADATA (meta_key ctx0 (bs "t")) [Byte.x01]] in
  fst (sinter ctx0 [bs "s"; bs "t"] d) = Err wrong_type_error
  /\ fst (sdiff ctx0 [bs "s"; bs "t"] d) = Ok (Array [bulk (bs "a"); bulk (bs "b")]).
Proof. vm_compute. done. Qed.
