(* ===== verification/BitmapCmd.v ===== *)
(** * Bitmap commands (src/cmd/bitmap.rs)

    SETBIT, GETBIT, BITCOUNT and BITOP on bitmaps stored in fragments of 1024
    bytes. A key represents a size in bytes and a natural number whose binary
    digits are the bits; the commands refine [Z.setbit], [Z.testbit], a count
    of digits and [Z.land], [Z.lor], [Z.lxor] and the complement. *)

From S2P Require Import Prelude Bytes Text Error Types Encoding Backend Storage Protocol Context.
From S2P Require Import Keyspace.

Local Open Scope Z_scope.

Definition FRAGMENT_BYTES : Z := 1024.
Definition FRAGMENT_BITS : Z := FRAGMENT_BYTES * 8.

(** [b.count_ones()]. *)
Definition count_ones (b : byte) : Z :=
  fold_right Z.add 0 (map (fun i => Z.b2z (Z.testbit (byte_to_Z b) (Z.of_nat i))) (seq 0 8)).

(** [b | (1 << i)], [b & !(1 << i)], [!b] and the binary operations of [u8]. *)
Definition byte_set (b : byte) (i : Z) : byte := byte_of_Z (Z.lor (byte_to_Z b) (Z.shiftl 1 i)).
Definition byte_clear (b : byte) (i : Z) : byte :=
  byte_of_Z (Z.land (byte_to_Z b) (Z.lxor 255 (Z.shiftl 1 i))).
Definition byte_not (b : byte) : byte := byte_of_Z (Z.lxor 255 (byte_to_Z b)).

(** [(b >> i) & 1]. *)
Definition byte_bit (b : byte) (i : Z) : Z := Z.land (Z.shiftr (byte_to_Z b) i) 1.

(** [v.resize(n, 0)] for a vector that is not longer. *)
Definition resize (v : bytes) (n : nat) : bytes := v ++ replicate (n - length v) Byte.x00.

Inductive BitOp := And | Or | Xor | Not.

#[export] Instance BitOp_eq_dec : EqDecision BitOp.
Proof. solve_decision. Defined.

Section BitmapCommands.
Context {DB : Type} {RDB : RocksDB DB}.
Variable ctx : CommandContext.

Definition read_bitmap_meta (user_key : bytes) : M DB (option Metadata) :=
  m ← get_meta ctx user_key;
  match m with
  | None => mret None
  | Some v => lift (check_typed_meta DBitmap "invalid bitmap metadata" ctx v)
  end.

Definition get_or_create_metadata (user_key : bytes) : M DB Metadata :=
  m ← read_bitmap_meta user_key;
  match m with
  | Some meta => mret meta
  | None => mret (metadata_new DBitmap (new_version ctx))
  end.

Definition read_fragment (meta : Metadata) (user_key : bytes) (index : Z) : M DB bytes :=
  v ← Storage.get CF_SUBKEY (sub_key ctx user_key (md_version meta) (be_bytes 8 index));
  match v with
  | Some v => mret v
  | None => mret []
  end.

Definition parse_offset (data : bytes) : M DB Z :=
  match parse_text parse_u64 data with
  | Some z => mret z
  | None => throw (Command (bs "bit offset is not an integer or out of range"))
  end.

Definition parse_bit (data : bytes) : M DB Z :=
  if bool_decide (data = bs "0") then mret 0
  else if bool_decide (data = bs "1") then mret 1
  else throw (Command (bs "bit is not an integer or out of range")).

Definition normalize_index (idx size : Z) : M DB Z :=
  idx ← (if idx <? 0 then arith_i64 (checks ctx) (size + idx) else mret idx);
  let idx := if idx <? 0 then 0 else idx in
  idx ← (if size <=? idx then arith_i64 (checks ctx) (size - 1) else mret idx);
  mret (wrap_u64 idx).

Definition setbit (args : list bytes) : M DB RespValue :=
  _ ← expect_arg_count "SETBIT" args 3;
  user_key ← index args 0;
  a1 ← index args 1;
  offset ← parse_offset a1;
  a2 ← index args 2;
  value ← parse_bit a2;
  meta ← get_or_create_metadata user_key;
  let idx := offset / FRAGMENT_BITS in
  let frag_off := Z.to_nat (offset mod FRAGMENT_BITS / 8) in
  let bit_off := offset mod 8 in
  frag ← read_fragment meta user_key idx;
  let frag := if (length frag <=? frag_off)%nat then resize frag (S frag_off) else frag in
  b ← index frag frag_off;
  let old_bit := byte_bit b bit_off in
  let b := if value =? 1 then byte_set b bit_off else byte_clear b bit_off in
  let frag := <[frag_off := b]> frag in
  let byte_pos := offset / 8 + 1 in
  let meta := if md_size meta <? byte_pos then set_size byte_pos meta else meta in
  batch ← batch_put [] CF_METADATA (meta_key ctx user_key) (encode_metadata meta);
  batch ← batch_put batch CF_SUBKEY (sub_key ctx user_key (md_version meta) (be_bytes 8 idx)) frag;
  _ ← write batch;
  mret (Integer old_bit).

Definition getbit (args : list bytes) : M DB RespValue :=
  _ ← expect_arg_count "GETBIT" args 2;
  user_key ← index args 0;
  a1 ← index args 1;
  offset ← parse_offset a1;
  m ← read_bitmap_meta user_key;
  match m with
  | None => mret (Integer 0)
  | Some meta =>
      let idx := offset / FRAGMENT_BITS in
      let frag_off := Z.to_nat (offset mod FRAGMENT_BITS / 8) in
      let bit_off := offset mod 8 in
      frag ← read_fragment meta user_key idx;
      if (length frag <=? frag_off)%nat then mret (Integer 0)
      else b ← index frag frag_off; mret (Integer (byte_bit b bit_off))
  end.

(** One fragment of BITCOUNT. [frag_idx] is at most [end / FRAGMENT_BYTES], so
    neither product nor difference leaves [usize]. *)
Definition bitcount_fragment (meta : Metadata) (user_key : bytes) (start end_ : Z)
    (count frag_idx : Z) : M DB Z :=
  frag ← read_fragment meta user_key frag_idx;
  match frag with
  | [] => mret count
  | _ =>
      let frag_start_byte := frag_idx * FRAGMENT_BYTES in
      let local_start := Z.max 0 (start - frag_start_byte) in
      let local_end := Z.min (end_ - frag_start_byte) (FRAGMENT_BYTES - 1) in
      let local_end := Z.min local_end (blen frag - 1) in
      if local_end <? local_start then mret count
      else
        let part := take (Z.to_nat (local_end - local_start + 1)) (drop (Z.to_nat local_start) frag) in
        arith_u64 (checks ctx) (count + fold_right Z.add 0 (map count_ones part))
  end.

Definition bitcount (args : list bytes) : M DB RespValue :=
  if negb (Nat.eqb (length args) 1) && negb (Nat.eqb (length args) 3)
  then throw (WrongArgCount (bs "BITCOUNT"))
  else
    user_key ← index args 0;
    '(start, end_) ← (if Nat.eqb (length args) 1 then mret (0, -1)
                      else a1 ← index args 1; s ← arg_i64 a1;
                           a2 ← index args 2; e ← arg_i64 a2; mret (s, e));
    m ← read_bitmap_meta user_key;
    match m with
    | None => mret (Integer 0)
    | Some meta =>
        let size := wrap_i64 (md_size meta) in
        if size =? 0 then mret (Integer 0)
        else
          start ← normalize_index start size;
          end_ ← normalize_index end_ size;
          if end_ <? start then mret (Integer 0)
          else
            let start_frag := start / FRAGMENT_BYTES in
            let end_frag := end_ / FRAGMENT_BYTES in
            count ← mfold (bitcount_fragment meta user_key start end_) 0
                      (seqZ start_frag (end_frag - start_frag + 1));
            mret (Integer (wrap_i64 count))
    end.

Definition parse_operation (data : bytes) : M DB BitOp :=
  if eq_ignore_ascii_case data (bs "AND") then mret And
  else if eq_ignore_ascii_case data (bs "OR") then mret Or
  else if eq_ignore_ascii_case data (bs "XOR") then mret Xor
  else if eq_ignore_ascii_case data (bs "NOT") then mret Not
  else throw (Command (bs "syntax error")).

(** [frag[j]], or 0 past the end of the fragment. *)
Definition byte_or_zero (frag : bytes) (j : nat) : byte := default Byte.x00 (frag !! j).

(** [result[j] op b]; NOT is not combined with a second source. *)
Definition byte_op (op : BitOp) (a b : byte) : byte :=
  match op with
  | And => byte_of_Z (Z.land (byte_to_Z a) (byte_to_Z b))
  | Or => byte_of_Z (Z.lor (byte_to_Z a) (byte_to_Z b))
  | Xor => byte_of_Z (Z.lxor (byte_to_Z a) (byte_to_Z b))
  | Not => a
  end.

(** One source of AND, OR and XOR. *)
Definition combine_source (op : BitOp) (frag_idx : Z) (frag_len : nat)
    (st : bool * bytes) (src : bytes * option Metadata) : M DB (bool * bytes) :=
  let '(first, result) := st in
  frag ← match src.2 with
         | Some m => read_fragment m src.1 frag_idx
         | None => mret []
         end;
  if (first : bool) then mret (false, map (byte_or_zero frag) (seq 0 frag_len))
  else mret (false, imap (fun j r => byte_op op r (byte_or_zero frag j)) result).

(** One fragment of the destination. *)
Definition bitop_fragment (op : BitOp) (dest_key : bytes) (dest_version : Z)
    (srcs : list (bytes * option Metadata)) (max_size : Z)
    (batch : WriteBatch) (frag_idx : Z) : M DB WriteBatch :=
  let frag_start_byte := frag_idx * FRAGMENT_BYTES in
  let frag_len := Z.to_nat (Z.min FRAGMENT_BYTES (Z.max 0 (max_size - frag_start_byte))) in
  if Nat.eqb frag_len 0 then mret batch
  else
    result ← match op with
             | Not =>
                 src ← index srcs 0;
                 match src.2 with
                 | None => panic
                 | Some src_meta =>
                     frag ← read_fragment src_meta src.1 frag_idx;
                     mret (map (fun i => match frag !! i with
                                         | Some b => byte_not b
                                         | None => Byte.xff
                                         end) (seq 0 frag_len))
                 end
             | _ =>
                 '(_, result) ← mfold (combine_source op frag_idx frag_len)
                                  (true, replicate frag_len Byte.x00) srcs;
                 mret result
             end;
    batch_put batch CF_SUBKEY (sub_key ctx dest_key dest_version (be_bytes 8 frag_idx)) result.

(** The metadata of the sources and the largest of their sizes. *)
Definition collect_source (st : list (bytes * option Metadata) * Z) (key : bytes)
  : M DB (list (bytes * option Metadata) * Z) :=
  let '(srcs, max_size) := st in
  m ← read_bitmap_meta key;
  match m with
  | Some m => mret (srcs ++ [(key, Some m)], if max_size <? md_size m then md_size m else max_size)
  | None => mret (srcs ++ [(key, None)], max_size)
  end.

Definition bitop (args : list bytes) : M DB RespValue :=
  _ ← expect_min_arg_count "BITOP" args 3;
  a0 ← index args 0;
  op ← parse_operation a0;
  dest_key ← index args 1;
  let src_keys := drop 2 args in
  if bool_decide (op = Not) && negb (Nat.eqb (length src_keys) 1)
  then throw (Command (bs "BITOP NOT must be called with a single source key"))
  else
    '(srcs, max_size) ← mfold collect_source ([], 0) src_keys;
    let dest_version := new_version ctx in
    let dest_meta := set_size max_size (metadata_new DBitmap dest_version) in
    batch ← batch_put [] CF_METADATA (meta_key ctx dest_key) (encode_metadata dest_meta);
    if max_size =? 0 then _ ← write batch; mret (Integer 0)
    else
      let max_frag_idx := (max_size - 1) / FRAGMENT_BYTES in
      batch ← mfold (bitop_fragment op dest_key dest_version srcs max_size) batch
                (seqZ 0 (max_frag_idx + 1));
      _ ← write batch;
      mret (Integer (wrap_i64 max_size)).

End BitmapCommands.

Example bitmap_session :
  fst ((a ← setbit ctx0 [bs "b"; bs "7"; bs "1"];
        b ← setbit ctx0 [bs "b"; bs "7"; bs "1"];
        c ← setbit (mkContext [] 2000 1 true 40) [bs "c"; bs "9000"; bs "1"];
        e ← getbit ctx0 [bs "c"; bs "9000"];
        f ← bitcount ctx0 [bs "c"];
        g ← bitop (mkContext [] 3000 1 true 40) [bs "xor"; bs "d"; bs "b"; bs "c"];
        h ← bitcount ctx0 [bs "d"; bs "0"; bs "-1"];
        i ← bitop (mkContext [] 4000 1 true 40) [bs "NOT"; bs "n"; bs "b"];
        j ← bitcount ctx0 [bs "n"];
        mret [a; b; c; e; f; g; h; i; j]) db0)
  = Ok (map Integer [0; 1; 0; 1; 1; 1126; 2; 1; 7]).
Proof. vm_compute. reflexivity. Qed.

(** ** Bits of bytes and fragments *)

Lemma byte_testbit_of_Z z i : 0 <= i < 8 -> Z.testbit (byte_to_Z (byte_of_Z z)) i = Z.testbit z i.
Proof. intros Hi. rewrite byte_to_of_Z. apply Z.mod_pow2_bits_low. lia. Qed.

Lemma byte_testbit_high b i : 8 <= i -> Z.testbit (byte_to_Z b) i = false.
Proof.
  intros Hi. pose proof (byte_to_Z_range b). rewrite <- (Z.mod_small (byte_to_Z b) (2 ^ 8)) by lia.
  by apply Z.mod_pow2_bits_high.
Qed.

Lemma byte_bit_testbit b i : 0 <= i -> byte_bit b i = Z.b2z (Z.testbit (byte_to_Z b) i).
Proof.
  intros Hi. unfold byte_bit. rewrite Z.shiftr_div_pow2, Z.testbit_spec' by done.
  by rewrite (Z.land_ones _ 1).
Qed.

Lemma shiftl_1_testbit i j : 0 <= i -> 0 <= j -> Z.testbit (Z.shiftl 1 i) j = (i =? j).
Proof. intros Hi Hj. rewrite Z.shiftl_1_l. by apply Z.pow2_bits_eqb. Qed.

Lemma testbit_255 j : 0 <= j < 8 -> Z.testbit 255 j = true.
Proof. intros Hj. change 255 with (Z.ones 8). apply Z.ones_spec_low. lia. Qed.

Lemma byte_set_bit b i j :
  0 <= i < 8 -> 0 <= j < 8 ->
  Z.testbit (byte_to_Z (byte_set b i)) j = (i =? j) || Z.testbit (byte_to_Z b) j.
Proof.
  intros Hi Hj. unfold byte_set.
  rewrite byte_testbit_of_Z, Z.lor_spec, shiftl_1_testbit by lia. apply orb_comm.
Qed.

Lemma byte_clear_bit b i j :
  0 <= i < 8 -> 0 <= j < 8 ->
  Z.testbit (byte_to_Z (byte_clear b i)) j = Z.testbit (byte_to_Z b) j && negb (i =? j).
Proof.
  intros Hi Hj. unfold byte_clear.
  rewrite byte_testbit_of_Z, Z.land_spec, Z.lxor_spec, shiftl_1_testbit, testbit_255 by lia.
  by destruct (i =? j).
Qed.

Lemma byte_not_bit b j : 0 <= j < 8 ->
  Z.testbit (byte_to_Z (byte_not b)) j = negb (Z.testbit (byte_to_Z b) j).
Proof.
  intros Hj. unfold byte_not. rewrite byte_testbit_of_Z, Z.lxor_spec, testbit_255 by lia. done.
Qed.

Definition bool_op (op : BitOp) (a b : bool) : bool :=
  match op with And => a && b | Or => a || b | Xor => xorb a b | Not => a end.

(** The operation on whole bitmaps. *)
Definition number_op (op : BitOp) (a b : Z) : Z :=
  match op with And => Z.land a b | Or => Z.lor a b | Xor => Z.lxor a b | Not => a end.

Lemma byte_op_bit op a b j : 0 <= j < 8 ->
  Z.testbit (byte_to_Z (byte_op op a b)) j
  = bool_op op (Z.testbit (byte_to_Z a) j) (Z.testbit (byte_to_Z b) j).
Proof.
  intros Hj. destruct op; simpl; rewrite ?byte_testbit_of_Z by lia;
    [apply Z.land_spec|apply Z.lor_spec|apply Z.lxor_spec|done].
Qed.

Lemma number_op_bit op a b o :
  Z.testbit (number_op op a b) o = bool_op op (Z.testbit a o) (Z.testbit b o).
Proof. destruct op; [apply Z.land_spec|apply Z.lor_spec|apply Z.lxor_spec|done]. Qed.

(** Bit [j] of a fragment; bytes past its end are zero. *)
Definition frag_bit (frag : bytes) (j : Z) : bool :=
  Z.testbit (byte_to_Z (byte_or_zero frag (Z.to_nat (j / 8)))) (j mod 8).

Lemma frag_bit_nil j : frag_bit [] j = false.
Proof. unfold frag_bit, byte_or_zero. simpl. apply Z.bits_0. Qed.

Lemma byte_or_zero_resize frag n j : byte_or_zero (resize frag n) j = byte_or_zero frag j.
Proof.
  unfold byte_or_zero, resize. rewrite lookup_app. destruct (frag !! j); [done|].
  destruct (replicate _ _ !! _) as [b|] eqn:E; [|done]. by apply lookup_replicate in E as [-> _].
Qed.

Lemma byte_or_zero_insert frag p b j :
  (p < length frag)%nat ->
  byte_or_zero (<[p:=b]> frag) j = if decide (p = j) then b else byte_or_zero frag j.
Proof.
  intros Hp. unfold byte_or_zero. case_decide; subst.
  - by rewrite list_lookup_insert_eq.
  - by rewrite list_lookup_insert_ne.
Qed.

Lemma byte_or_zero_map (g : nat -> byte) n j :
  byte_or_zero (map g (seq 0 n)) j = if decide (j < n)%nat then g j else Byte.x00.
Proof.
  unfold byte_or_zero. change (map g (seq 0 n)) with (g <$> seq 0 n). rewrite list_lookup_fmap.
  case_decide as Hj.
  - by rewrite lookup_seq_lt.
  - by rewrite lookup_seq_ge by lia.
Qed.

(** Offsets as fragment, byte and bit. *)
Lemma offset_split o : 0 <= o ->
  o mod FRAGMENT_BITS mod 8 = o mod 8 /\ 0 <= o mod FRAGMENT_BITS / 8 < FRAGMENT_BYTES
  /\ o mod FRAGMENT_BITS / 8 = (o / 8) mod FRAGMENT_BYTES
  /\ o / FRAGMENT_BITS = o / 8 / FRAGMENT_BYTES.
Proof. unfold FRAGMENT_BITS, FRAGMENT_BYTES. intros Ho. Z.to_euclidean_division_equations. lia. Qed.

Lemma offset_decomp o : 0 <= o ->
  o = 8192 * (o / FRAGMENT_BITS) + 8 * (o mod FRAGMENT_BITS / 8) + o mod 8
  /\ 0 <= o mod 8 < 8 /\ 0 <= o mod FRAGMENT_BITS / 8 < 1024 /\ 0 <= o / FRAGMENT_BITS.
Proof. unfold FRAGMENT_BITS, FRAGMENT_BYTES. intros Ho. Z.to_euclidean_division_equations. lia. Qed.

Lemma offset_ext o o' : 0 <= o -> 0 <= o' ->
  o / FRAGMENT_BITS = o' / FRAGMENT_BITS ->
  o mod FRAGMENT_BITS / 8 = o' mod FRAGMENT_BITS / 8 -> o mod 8 = o' mod 8 -> o = o'.
Proof. unfold FRAGMENT_BITS, FRAGMENT_BYTES. intros Ho Ho'. Z.to_euclidean_division_equations. lia. Qed.

(** *** Counting digits *)

(** The sum of [g] over the [len] numbers from [lo] on. *)
Definition total (g : Z -> Z) (lo len : Z) : Z := fold_right Z.add 0 (map g (seqZ lo len)).

(** The ones among the [len] digits of [B] from [lo] on, and in its byte [i]. *)
Definition popcount (B lo len : Z) : Z := total (fun o => Z.b2z (Z.testbit B o)) lo len.
Definition weight (B i : Z) : Z :=
  fold_right Z.add 0 (map (fun j => Z.b2z (Z.testbit B (8 * i + Z.of_nat j))) (seq 0 8)).

Lemma sum_app (l1 l2 : list Z) :
  fold_right Z.add 0 (l1 ++ l2) = fold_right Z.add 0 l1 + fold_right Z.add 0 l2.
Proof. induction l1 as [|x l1 IH]; simpl; [done|]. rewrite IH. lia. Qed.

Lemma total_app g lo a b : 0 <= a -> 0 <= b ->
  total g lo (a + b) = total g lo a + total g (lo + a) b.
Proof. intros Ha Hb. unfold total. by rewrite seqZ_app, map_app, sum_app. Qed.

Lemma total_none g lo len : len <= 0 -> total g lo len = 0.
Proof. intros Hl. unfold total. by rewrite seqZ_nil. Qed.

Lemma total_ext g h lo len :
  (forall i, lo <= i < lo + len -> g i = h i) -> total g lo len = total h lo len.
Proof.
  intros Hg. unfold total. f_equal. apply map_ext_in. intros i Hi%list_elem_of_In%elem_of_seqZ. auto.
Qed.

Lemma total_bounds g lo len m : (forall i, 0 <= g i <= m) -> 0 <= len -> 0 <= total g lo len <= m * len.
Proof.
  intros Hg. revert len. apply natlike_ind; [unfold total; simpl; lia|]. intros len Hl IH.
  unfold Z.succ. rewrite total_app by lia. unfold total at 2 4. rewrite seqZ_cons by lia.
  rewrite seqZ_nil by lia. simpl. specialize (Hg (lo + len)). lia.
Qed.

Lemma count_ones_bounds b : 0 <= count_ones b <= 8.
Proof. destruct b; vm_compute; split; discriminate. Qed.

Lemma weight_bounds B i : 0 <= weight B i <= 8.
Proof. unfold weight. simpl. repeat destruct (Z.testbit B _); simpl; lia. Qed.

Lemma popcount_byte B i : popcount B (8 * i) 8 = weight B i.
Proof.
  unfold popcount, total, weight. replace (seqZ (8 * i) 8) with
    (map (fun j => 8 * i + Z.of_nat j) (seq 0 8)); [by rewrite map_map|].
  unfold seqZ. change (Z.to_nat 8) with 8%nat. apply map_ext. intros j. lia.
Qed.

Lemma popcount_bytes B lo len : 0 <= len -> popcount B (8 * lo) (8 * len) = total (weight B) lo len.
Proof.
  revert len. apply natlike_ind; [done|]. intros len Hl IH. unfold Z.succ.
  rewrite total_app, Z.mul_add_distr_l by lia. unfold popcount in *. rewrite total_app by lia.
  rewrite IH. f_equal. rewrite <- Z.mul_add_distr_l. fold (popcount B (8 * (lo + len)) (8 * 1)).
  rewrite popcount_byte. unfold total. rewrite seqZ_cons, seqZ_nil by lia. simpl. lia.
Qed.

(** The ones in a slice of a fragment; missing bytes have none. *)
Lemma part_sum frag p m :
  fold_right Z.add 0 (map count_ones (take m (drop p frag)))
  = total (fun j => count_ones (byte_or_zero frag (Z.to_nat j))) (Z.of_nat p) (Z.of_nat m).
Proof.
  revert p. induction m as [|m IH]; intros p; [done|].
  unfold total. rewrite seqZ_cons by lia. cbn [map fold_right].
  replace (Z.pred (Z.of_nat (S m))) with (Z.of_nat m) by lia.
  replace (Z.succ (Z.of_nat p)) with (Z.of_nat (S p)) by lia.
  fold (total (fun j => count_ones (byte_or_zero frag (Z.to_nat j))) (Z.of_nat (S p)) (Z.of_nat m)).
  rewrite <- IH, Nat2Z.id. unfold byte_or_zero. destruct (frag !! p) as [b|] eqn:Eb.
  - rewrite (drop_S _ _ _ Eb). done.
  - apply lookup_ge_None in Eb. rewrite !drop_ge by lia. by rewrite !take_nil.
Qed.

(** Cutting a slice at the end of the fragment changes nothing. *)
Lemma part_cut (frag : bytes) (p e : Z) : 0 <= p -> 0 <= e ->
  let e' := Z.min e (blen frag - 1) in
  (if e' <? p then 0
   else fold_right Z.add 0 (map count_ones
          (take (Z.to_nat (e' - p + 1)) (drop (Z.to_nat p) frag))))
  = total (fun j => count_ones (byte_or_zero frag (Z.to_nat j))) p (e - p + 1).
Proof.
  intros Hp He e'. destruct (Z.le_gt_cases (e - p + 1) 0) as [Hn|Hn].
  { rewrite total_none by done. rewrite (proj2 (Z.ltb_lt _ _)) by lia. done. }
  replace p with (Z.of_nat (Z.to_nat p)) at 4 by lia.
  replace (e - p + 1) with (Z.of_nat (Z.to_nat (e - p + 1))) by lia. rewrite <- part_sum.
  unfold e', blen in *. destruct (Z.ltb_spec (Z.min e (Z.of_nat (length frag) - 1)) p).
  - rewrite drop_ge by lia. by rewrite take_nil.
  - destruct (Z.min_spec e (Z.of_nat (length frag) - 1)) as [[? ->]|[? ->]]; [done|].
    rewrite !take_ge by (rewrite length_drop; lia). done.
Qed.

(** ** Representation *)

Section BitmapFacts.
Context {DB : Type} {RDB : RocksDB DB}.
Implicit Types (d : DB) (ctx : CommandContext) (k : bytes) (meta : Metadata).

Definition fragment d ctx k (w f : Z) : bytes :=
  default [] (db_get d CF_SUBKEY (sub_key ctx k w (be_bytes 8 f))).

Definition bit_at d ctx k (w o : Z) : bool :=
  frag_bit (fragment d ctx k w (o / FRAGMENT_BITS)) (o mod FRAGMENT_BITS).

(** The stored bits at version [w] are the binary digits of [B]. *)
Definition bits d ctx k (w B : Z) : Prop :=
  forall o, 0 <= o < 2 ^ 64 -> bit_at d ctx k w o = Z.testbit B o.

(** A number of [n] bytes; offsets are 64-bit numbers. *)
Definition sized (n B : Z) : Prop := 0 <= n <= 2 ^ 61 /\ 0 <= B < 2 ^ (8 * n).

Definition bitmap_meta (E : Z) meta (n : Z) : Prop :=
  good_meta DBitmap meta /\ md_expire meta = E /\ md_size meta = n.

(** The key holds the metadata [meta] of the bitmap. *)
Definition bitmap_at (E : Z) d ctx k (meta : Metadata) (n B : Z) : Prop :=
  composite_at d ctx k DBitmap meta /\ unexpired E ctx
  /\ bitmap_meta E meta n /\ bits d ctx k (md_version meta) B.

(** The key represents the bitmap of [n] bytes with the digits of [B] and the
    expiry [E]; an absent or expired key the empty bitmap, provided no
    fragments are left under the version a write would choose. *)
Definition bitmap_repr (E : Z) d ctx k (n B : Z) : Prop :=
  sized n B /\
  ((n = 0 /\ E = 0 /\ bits d ctx k (new_version ctx) 0 /\ absent d ctx k DBitmap)
   \/ exists meta, bitmap_at E d ctx k meta n B).

Lemma sized_0 B : sized 0 B -> B = 0.
Proof. intros [_ HB]. simpl in HB. lia. Qed.

Lemma sized_high n B o : sized n B -> 8 * n <= o -> Z.testbit B o = false.
Proof.
  intros [Hn HB] Ho. rewrite <- (Z.mod_small B (2 ^ (8 * n))) by done.
  apply Z.mod_pow2_bits_high. lia.
Qed.

Lemma sized_intro n B : 0 <= n <= 2 ^ 61 -> 0 <= B ->
  (forall o, 8 * n <= o -> Z.testbit B o = false) -> sized n B.
Proof.
  intros Hn HB Hb. split; [done|]. split; [done|].
  destruct (Z.lt_ge_cases B (2 ^ (8 * n))) as [?|Hge]; [done|].
  assert (0 < B) by (pose proof (Z.pow_pos_nonneg 2 (8 * n)); lia).
  pose proof (Z.log2_le_pow2 B (8 * n) ltac:(lia)) as [Hl _]. specialize (Hl Hge).
  pose proof (Z.bit_log2 B ltac:(lia)) as Ht. rewrite Hb in Ht by done. done.
Qed.

Lemma read_bitmap_meta_run E d ctx k n B :
  wf_db d -> bitmap_repr E d ctx k n B ->
  exists o, read_bitmap_meta ctx k d = (Ok o, d)
    /\ match o with
       | None => n = 0 /\ B = 0 /\ E = 0 /\ bits d ctx k (new_version ctx) 0
       | Some meta => composite_at d ctx k DBitmap meta /\ bitmap_meta E meta n
                      /\ bits d ctx k (md_version meta) B
       end.
Proof.
  intros H [Hs Hr].
  destruct (load_typed d ctx k DBitmap "invalid bitmap metadata" H) as [Hn Ho]; [done|].
  destruct Hr as [(-> & -> & Hb & Ha)|(meta & Hc & Hx & Hm & Hb)].
  - exists None. split; [by apply Hn|]. by rewrite (sized_0 B).
  - exists (Some meta). split; [|done]. apply (Ho meta E); [done|apply Hm|done].
Qed.

Lemma get_or_create_run E d ctx k n B :
  wf_db d -> bitmap_repr E d ctx k n B ->
  exists meta, get_or_create_metadata ctx k d = (Ok meta, d)
    /\ bitmap_meta E meta n /\ bits d ctx k (md_version meta) B.
Proof.
  intros H Hr. destruct (read_bitmap_meta_run E d ctx k n B H Hr) as (o & Ho & Hs).
  unfold get_or_create_metadata. rewrite (bind_Ok _ _ _ _ _ Ho). destruct o as [meta|].
  - exists meta. naive_solver.
  - destruct Hs as (-> & -> & -> & Hb). eexists. split; [done|]. split; [|done].
    split; [apply good_meta_new|done].
Qed.

Lemma read_fragment_run d ctx meta k f :
  wf_db d -> read_fragment ctx meta k f d = (Ok (fragment d ctx k (md_version meta) f), d).
Proof.
  intros H. unfold read_fragment, fragment. erewrite bind_Ok by eauto with kv.
  by destruct (db_get d CF_SUBKEY _).
Qed.

Lemma parse_offset_run o d : is_u64 o = true -> parse_offset (show_Z o) d = (Ok o, d).
Proof.
  intros Ho. unfold parse_offset, parse_text. rewrite is_ascii_valid by apply show_Z_ascii.
  by rewrite parse_u64_show.
Qed.

Definition bit_arg (v : bool) : bytes := if v then bs "1" else bs "0".

Lemma parse_bit_run v d : parse_bit (bit_arg v) d = (Ok (Z.b2z v), d).
Proof. by destruct v. Qed.

(** *** SETBIT *)

(** The fragment of SETBIT once it reaches the byte. *)
Definition grown (frag : bytes) (p : nat) : bytes :=
  if (length frag <=? p)%nat then resize frag (S p) else frag.

Lemma grown_length frag p : (p < length (grown frag p))%nat.
Proof.
  unfold grown. destruct (length frag <=? p)%nat eqn:E; [|by apply Nat.leb_gt in E].
  apply Nat.leb_le in E. unfold resize. rewrite length_app, length_replicate. lia.
Qed.

Lemma grown_byte frag p j : byte_or_zero (grown frag p) j = byte_or_zero frag j.
Proof. unfold grown. case_goal; [apply byte_or_zero_resize|done]. Qed.

Definition new_byte (v : bool) (b : byte) (i : Z) : byte :=
  if v then byte_set b i else byte_clear b i.

Definition set_bit (v : bool) (B o : Z) : Z := if v then Z.setbit B o else Z.clearbit B o.

Definition set_fragment (v : bool) (frag : bytes) (o : Z) : bytes :=
  let p := Z.to_nat (o mod FRAGMENT_BITS / 8) in
  <[p := new_byte v (byte_or_zero frag p) (o mod 8)]> (grown frag p).

Lemma set_bit_spec v B o o' : 0 <= o -> 0 <= o' ->
  Z.testbit (set_bit v B o) o' = if decide (o = o') then v else Z.testbit B o'.
Proof.
  intros Ho Ho'. destruct v; simpl.
  - rewrite Z.setbit_eqb by done. case_decide; [by subst; rewrite Z.eqb_refl|].
    by rewrite (proj2 (Z.eqb_neq _ _)).
  - rewrite Z.clearbit_eqb. case_decide; [subst; rewrite Z.eqb_refl; apply andb_false_r|].
    rewrite (proj2 (Z.eqb_neq _ _)) by done. apply andb_true_r.
Qed.

(** SETBIT changes one bit of the fragment. *)
Lemma set_fragment_bit v frag o o' : 0 <= o -> 0 <= o' ->
  o / FRAGMENT_BITS = o' / FRAGMENT_BITS ->
  frag_bit (set_fragment v frag o) (o' mod FRAGMENT_BITS)
  = if decide (o = o') then v else frag_bit frag (o' mod FRAGMENT_BITS).
Proof.
  intros Ho Ho' Hf. unfold frag_bit, set_fragment.
  destruct (offset_split o Ho) as (_ & Hp & _), (offset_split o' Ho') as (E8 & Hp' & _).
  rewrite E8, byte_or_zero_insert by apply grown_length. rewrite grown_byte.
  pose proof (Z.mod_pos_bound o 8 ltac:(lia)). pose proof (Z.mod_pos_bound o' 8 ltac:(lia)).
  destruct (decide (Z.to_nat _ = Z.to_nat _)) as [Hb|Hb].
  - assert (o mod 8 = o' mod 8 <-> o = o') as Heq.
    { split; [|by intros ->]. intros. apply offset_ext; [done..|lia|done]. }
    rewrite Hb. destruct v; simpl; rewrite ?byte_set_bit, ?byte_clear_bit by lia;
      destruct (decide (o = o')) as [->|Hne]; rewrite ?Z.eqb_refl; simpl; rewrite ?andb_false_r; try done;
      rewrite (proj2 (Z.eqb_neq _ _)) by tauto; by rewrite ?andb_true_r.
  - rewrite decide_False by (by intros ->). done.
Qed.

Lemma sized_set_bit v n B o :
  sized n B -> 0 <= o < 2 ^ 64 -> sized (Z.max n (o / 8 + 1)) (set_bit v B o).
Proof.
  intros Hs Ho. assert (o / 8 + 1 <= 2 ^ 61) by (Z.to_euclidean_division_equations; lia).
  pose proof Hs as [Hn HB]. apply sized_intro.
  - assert (0 <= o / 8) by (apply Z.div_pos; lia). lia.
  - destruct v; simpl.
    + unfold Z.setbit. apply Z.lor_nonneg. split; [lia|]. apply Z.shiftl_nonneg. lia.
    + unfold Z.clearbit. apply Z.ldiff_nonneg. lia.
  - intros o' Ho'. rewrite set_bit_spec by lia. rewrite decide_False.
    + apply (sized_high n); [done|lia].
    + intros ->. Z.to_euclidean_division_equations. lia.
Qed.

Lemma fragment_index_inj o o' : 0 <= o < 2 ^ 64 -> 0 <= o' < 2 ^ 64 ->
  be_bytes 8 (o / FRAGMENT_BITS) = be_bytes 8 (o' / FRAGMENT_BITS) ->
  o / FRAGMENT_BITS = o' / FRAGMENT_BITS.
Proof.
  intros Ho Ho' E. apply (be_bytes_inj 8); [..|done]; unfold FRAGMENT_BITS, FRAGMENT_BYTES;
    Z.to_euclidean_division_equations; lia.
Qed.

Lemma fragment_written d ctx ctx' k (w o : Z) (v frag : bytes) o' :
  namespace ctx' = namespace ctx -> 0 <= o < 2 ^ 64 -> 0 <= o' < 2 ^ 64 ->
  fragment (db_write d [PutCf CF_METADATA (meta_key ctx k) v;
                        PutCf CF_SUBKEY (sub_key ctx k w (be_bytes 8 (o / FRAGMENT_BITS))) frag])
    ctx' k w (o' / FRAGMENT_BITS)
  = if decide (o / FRAGMENT_BITS = o' / FRAGMENT_BITS) then frag
    else fragment d ctx k w (o' / FRAGMENT_BITS).
Proof.
  intros Hns Ho Ho'. unfold fragment, sub_key. rewrite Hns, db_get_write.
  cbn [batch_effect fold_left op_effect].
  rewrite (decide_False (P:=(CF_METADATA, _) = _)) by (by intros [=]).
  case_decide as E1; case_decide as E2; try done.
  - exfalso. apply E2. apply fragment_index_inj; [done..|].
    apply (f_equal snd) in E1. by apply subkey_inj in E1.
  - by rewrite E2 in E1.
Qed.

Lemma setbit_index frag o :
  index (grown frag (Z.to_nat (o mod FRAGMENT_BITS / 8))) (Z.to_nat (o mod FRAGMENT_BITS / 8))
  = (mret (byte_or_zero frag (Z.to_nat (o mod FRAGMENT_BITS / 8))) : M DB byte).
Proof.
  set (p := Z.to_nat _). unfold index. rewrite <- (grown_byte frag p p). unfold byte_or_zero.
  destruct (lookup_lt_is_Some_2 (grown frag p) p (grown_length frag p)) as [b ->]. done.
Qed.

Lemma setbit_run E d ctx k n B o v meta :
  wf_db d -> is_u64 o = true -> bitmap_meta E meta n ->
  bits d ctx k (md_version meta) B ->
  get_or_create_metadata ctx k d = (Ok meta, d) ->
  setbit ctx [k; show_Z o; bit_arg v] d
  = (Ok (Integer (Z.b2z (Z.testbit B o))),
     db_write d [PutCf CF_METADATA (meta_key ctx k)
                   (encode_metadata (set_size (Z.max n (o / 8 + 1)) meta));
                 PutCf CF_SUBKEY (sub_key ctx k (md_version meta) (be_bytes 8 (o / FRAGMENT_BITS)))
                   (set_fragment v (fragment d ctx k (md_version meta) (o / FRAGMENT_BITS)) o)]).
Proof.
  intros H Hu Hm Hb Hg. pose proof Hu as Ho%is_u64_spec. unfold setbit. do 3 mrun.
  erewrite bind_Ok by (by apply parse_offset_run). mrun.
  erewrite bind_Ok by apply parse_bit_run. rewrite (bind_Ok _ _ _ _ _ Hg). cbv zeta.
  erewrite bind_Ok by (by apply read_fragment_run).
  set (frag := fragment d ctx k (md_version meta) (o / FRAGMENT_BITS)).
  fold (grown frag (Z.to_nat (o mod FRAGMENT_BITS / 8))). rewrite setbit_index.
  erewrite bind_Ok by reflexivity.
  assert ((if md_size meta <? o / 8 + 1 then set_size (o / 8 + 1) meta else meta)
          = set_size (Z.max n (o / 8 + 1)) meta) as ->.
  { destruct Hm as (_ & _ & <-). destruct (Z.ltb_spec (md_size meta) (o / 8 + 1)).
    - by rewrite Z.max_r by lia.
    - rewrite Z.max_l by lia. by destruct meta. }
  erewrite bind_Ok by eauto with kv. erewrite bind_Ok by eauto with kv.
  erewrite bind_Ok by reflexivity. cbn [app set_size md_version].
  unfold mret, M_ret. do 4 f_equal.
  - pose proof (Z.mod_pos_bound o 8 ltac:(lia)).
    rewrite byte_bit_testbit, <- Hb by lia. unfold bit_at, frag_bit. fold frag.
    by rewrite (proj1 (offset_split o ltac:(lia))).
  - unfold set_fragment, new_byte. by destruct v.
Qed.

(** *** BITCOUNT *)

(** The ones of a stored byte. *)
Lemma stored_weight d ctx k (w B i : Z) :
  bits d ctx k w B -> 0 <= i < 2 ^ 61 ->
  count_ones (byte_or_zero (fragment d ctx k w (i / FRAGMENT_BYTES))
                (Z.to_nat (i mod FRAGMENT_BYTES))) = weight B i.
Proof.
  intros Hb Hi. unfold count_ones, weight. f_equal. apply map_ext_in.
  intros j Hj%list_elem_of_In%elem_of_seq. rewrite <- Hb by lia. unfold bit_at, frag_bit.
  destruct (offset_split (8 * i + Z.of_nat j) ltac:(lia)) as (E1 & _ & E2 & E3).
  assert ((8 * i + Z.of_nat j) / 8 = i) as E4 by (Z.to_euclidean_division_equations; lia).
  assert ((8 * i + Z.of_nat j) mod 8 = Z.of_nat j) as E5 by (Z.to_euclidean_division_equations; lia).
  by rewrite E1, E2, E3, E4, E5.
Qed.

(** The first byte of fragment [f] to count, and the byte after the last one
    of the fragments before [f]. *)
Definition frag_lo (start f : Z) : Z := Z.max start (f * FRAGMENT_BYTES).
Definition frag_hi (end_ f : Z) : Z := Z.min (end_ + 1) (f * FRAGMENT_BYTES).

Lemma bitcount_fragment_run d ctx k meta B start end_ c f :
  wf_db d -> bits d ctx k (md_version meta) B ->
  0 <= start -> 0 <= f -> f * FRAGMENT_BYTES <= end_ < 2 ^ 60 ->
  0 <= c -> c + 8 * FRAGMENT_BYTES <= u64_max ->
  bitcount_fragment ctx meta k start end_ c f d
  = (Ok (c + total (weight B) (frag_lo start f) (frag_hi end_ (f + 1) - frag_lo start f)), d).
Proof.
  intros H Hb Hs Hf He Hc Hmax. unfold bitcount_fragment.
  erewrite bind_Ok by (by apply read_fragment_run).
  set (frag := fragment d ctx k (md_version meta) f).
  set (p := Z.max 0 (start - f * FRAGMENT_BYTES)).
  set (e := Z.min (end_ - f * FRAGMENT_BYTES) (FRAGMENT_BYTES - 1)).
  assert (total (weight B) (frag_lo start f) (frag_hi end_ (f + 1) - frag_lo start f)
    = total (fun j => count_ones (byte_or_zero frag (Z.to_nat j))) p (e - p + 1)) as ->.
  { replace (frag_hi end_ (f + 1) - frag_lo start f) with (e - p + 1)
      by (unfold frag_hi, frag_lo, e, p, FRAGMENT_BYTES; lia).
    unfold total. replace (frag_lo start f) with (f * FRAGMENT_BYTES + p)
      by (unfold frag_lo, p; lia).
    rewrite <- (fmap_add_seqZ (f * FRAGMENT_BYTES) p). f_equal.
    change (Z.add (f * FRAGMENT_BYTES) <$> ?l) with (map (Z.add (f * FRAGMENT_BYTES)) l).
    rewrite map_map. apply map_ext_in. intros j Hj%list_elem_of_In%elem_of_seqZ.
    assert (0 <= j < FRAGMENT_BYTES /\ f * FRAGMENT_BYTES + j <= end_) as [Hj1 Hj2]
      by (unfold e, p in Hj; lia).
    rewrite <- (stored_weight d ctx k (md_version meta) B (f * FRAGMENT_BYTES + j))
      by (done || lia).
    rewrite Z.div_add_l, Z.div_small, Z.add_0_r by (unfold FRAGMENT_BYTES in *; lia).
    by rewrite Z.add_comm, Z.mod_add, Z.mod_small by (unfold FRAGMENT_BYTES in *; lia). }
  rewrite <- part_cut by (unfold p, e, FRAGMENT_BYTES in *; lia).
  destruct frag as [|b0 fr] eqn:Efr.
  { change (blen []) with 0. rewrite (proj2 (Z.ltb_lt _ _)) by (unfold p; lia).
    by rewrite Z.add_0_r. }
  rewrite <- Efr in *. fold p e. cbv zeta. case_goal; [by rewrite Z.add_0_r|].
  apply arith_u64_ok, is_u64_spec. rewrite part_sum. unfold u64_max, FRAGMENT_BYTES in *.
  assert (forall i, 0 <= count_ones (byte_or_zero frag (Z.to_nat i)) <= 8) as Hw.
  { intros i. apply count_ones_bounds. }
  zbool. pose proof (total_bounds _ p (Z.of_nat (Z.to_nat (Z.min e (blen frag - 1) - p + 1))) 8 Hw
    ltac:(lia)). rewrite Z2Nat.id by lia. lia.
Qed.

(** The byte range starts in fragment [start / FRAGMENT_BYTES] and ends in
    [end_ / FRAGMENT_BYTES]. *)
Lemma bitcount_fold d ctx k meta B start end_ (m : nat) : forall c f,
  wf_db d -> bits d ctx k (md_version meta) B ->
  0 <= start -> end_ < 2 ^ 60 -> start / FRAGMENT_BYTES <= f ->
  f + Z.of_nat m <= end_ / FRAGMENT_BYTES + 1 ->
  0 <= c -> c + 8 * FRAGMENT_BYTES * Z.of_nat m <= u64_max ->
  mfold (bitcount_fragment ctx meta k start end_) c (seqZ f (Z.of_nat m)) d
  = (Ok (c + total (weight B) (frag_lo start f)
           (frag_hi end_ (f + Z.of_nat m) - frag_lo start f)), d).
Proof.
  unfold FRAGMENT_BYTES. induction m as [|m IH]; intros c f H Hb Hs He Hf Hm Hc Hmax.
  - rewrite seqZ_nil by lia. cbn [mfold].
    rewrite total_none by (unfold frag_hi, frag_lo, FRAGMENT_BYTES; lia). by rewrite Z.add_0_r.
  - assert (f * 1024 <= end_ /\ start < (f + 1) * 1024 /\ 0 <= f) as (H1 & H2 & H3)
      by (Z.to_euclidean_division_equations; lia).
    rewrite seqZ_cons by lia. cbn [mfold]. unfold u64_max in Hmax.
    erewrite bind_Ok by (apply (bitcount_fragment_run d ctx k meta B);
      unfold FRAGMENT_BYTES, u64_max; (done || lia)).
    set (t := total (weight B) (frag_lo start f) (frag_hi end_ (f + 1) - frag_lo start f)).
    assert (0 <= t <= 8 * 1024) as Ht.
    { unfold t. destruct (Z.le_gt_cases (frag_hi end_ (f + 1) - frag_lo start f) 0);
        [rewrite total_none by done; lia|].
      pose proof (total_bounds (weight B) (frag_lo start f)
        (frag_hi end_ (f + 1) - frag_lo start f) 8 (weight_bounds B) ltac:(lia)).
      unfold frag_hi, frag_lo, FRAGMENT_BYTES in *. lia. }
    replace (Z.pred (Z.of_nat (S m))) with (Z.of_nat m) by lia. unfold Z.succ.
    rewrite IH; unfold u64_max; try (done || lia). f_equal. f_equal.
    rewrite <- Z.add_assoc. f_equal. unfold t. replace (f + Z.of_nat (S m)) with (f + 1 + Z.of_nat m) by lia.
    destruct m as [|m].
    + rewrite Z.add_0_r, (total_none _ (frag_lo start (f + 1))), Z.add_0_r; [done|].
      unfold frag_hi, frag_lo, FRAGMENT_BYTES. lia.
    + assert ((f + 1) * 1024 <= end_) by (Z.to_euclidean_division_equations; lia).
      replace (frag_lo start (f + 1)) with (frag_lo start f + (frag_hi end_ (f + 1) - frag_lo start f))
        by (unfold frag_hi, frag_lo, FRAGMENT_BYTES; lia).
      rewrite <- total_app by (unfold frag_hi, frag_lo, FRAGMENT_BYTES; lia). f_equal. lia.
Qed.

(** A byte index counted from the end if negative, clamped to the bitmap. *)
Definition clamp (n i : Z) : Z := Z.min (n - 1) (Z.max 0 (if i <? 0 then n + i else i)).

Lemma normalize_index_run d ctx n i :
  0 < n <= 2 ^ 61 -> is_i64 i = true -> normalize_index ctx i n d = (Ok (clamp n i), d).
Proof.
  intros Hn Hi%is_i64_spec. unfold normalize_index, clamp.
  destruct (Z.ltb_spec i 0); cbv iota.
  - erewrite bind_Ok by (apply arith_i64_ok, is_i64_spec; lia). cbv zeta.
    destruct (Z.ltb_spec (n + i) 0).
    + rewrite (proj2 (Z.leb_gt _ _)) by lia. mrun. rewrite wrap_u64_id by (apply is_u64_spec; lia).
      unfold mret, M_ret. do 2 f_equal. lia.
    + rewrite (proj2 (Z.leb_gt _ _)) by lia. mrun. rewrite wrap_u64_id by (apply is_u64_spec; lia).
      unfold mret, M_ret. do 2 f_equal. lia.
  - mrun. cbv zeta. rewrite (proj2 (Z.ltb_ge _ _)) by lia. destruct (Z.leb_spec n i).
    + erewrite bind_Ok by (apply arith_i64_ok, is_i64_spec; lia).
      rewrite wrap_u64_id by (apply is_u64_spec; lia). unfold mret, M_ret. do 2 f_equal. lia.
    + mrun. rewrite wrap_u64_id by (apply is_u64_spec; lia). unfold mret, M_ret. do 2 f_equal. lia.
Qed.

Lemma popcount_0 lo len : popcount 0 lo len = 0.
Proof.
  unfold popcount, total. induction (seqZ lo len) as [|o l IH]; [done|].
  cbn [map fold_right]. rewrite Z.bits_0, IH. done.
Qed.

(** The range loop of BITCOUNT. *)
Lemma bitcount_range d ctx k meta B s e :
  wf_db d -> bits d ctx k (md_version meta) B -> 0 <= s -> e < 2 ^ 60 - 1 -> s <= e ->
  mfold (bitcount_fragment ctx meta k s e) 0
    (seqZ (s / FRAGMENT_BYTES) (e / FRAGMENT_BYTES - s / FRAGMENT_BYTES + 1)) d
  = (Ok (popcount B (8 * s) (8 * (e - s + 1))), d).
Proof.
  intros H Hb Hs He Hse. set (m := e / FRAGMENT_BYTES - s / FRAGMENT_BYTES + 1).
  assert (0 < m) by (unfold m; pose proof (Z.div_le_mono s e FRAGMENT_BYTES eq_refl Hse); lia).
  replace m with (Z.of_nat (Z.to_nat m)) by lia.
  rewrite (bitcount_fold d ctx k meta B); [..|lia|].
  - rewrite popcount_bytes by lia. rewrite Z.add_0_l. do 3 f_equal;
      unfold frag_hi, frag_lo, m, FRAGMENT_BYTES in *; Z.to_euclidean_division_equations; lia.
  - done.
  - done.
  - done.
  - lia.
  - lia.
  - unfold m in *. lia.
  - unfold m, u64_max, FRAGMENT_BYTES in *. Z.to_euclidean_division_equations. lia.
Qed.

End BitmapFacts.

(** ** BITOP *)

Section BitOpFacts.
Context {DB : Type} {RDB : RocksDB DB}.
Variables (d : DB) (ctx : CommandContext).
Hypothesis Hwf : wf_db d.
Implicit Types (src : bytes * option Metadata) (op : BitOp).

Definition src_fragment src (f : Z) : bytes :=
  match src.2 with Some m => fragment d ctx src.1 (md_version m) f | None => [] end.

(** The source holds a bitmap of [nb.1] bytes with the digits of [nb.2]. *)
Definition source_ok src (nb : Z * Z) : Prop :=
  sized nb.1 nb.2 /\
  match src.2 with
  | Some m => md_size m = nb.1 /\ bits d ctx src.1 (md_version m) nb.2
  | None => nb = (0, 0)
  end.

Lemma source_bit src nb o : source_ok src nb -> 0 <= o < 2 ^ 64 ->
  Z.testbit (byte_to_Z (byte_or_zero (src_fragment src (o / FRAGMENT_BITS))
    (Z.to_nat (o mod FRAGMENT_BITS / 8)))) (o mod 8) = Z.testbit nb.2 o.
Proof.
  intros [_ Hs] Ho. destruct (offset_split o ltac:(lia)) as (E & _).
  unfold src_fragment. destruct (src.2) as [m|].
  - destruct Hs as [_ Hb]. rewrite <- Hb by done. unfold bit_at, frag_bit. by rewrite E.
  - subst nb. simpl. by rewrite !Z.bits_0.
Qed.

Definition max_size (nbs : list (Z * Z)) (n : Z) : Z := fold_left (fun n nb => Z.max n nb.1) nbs n.

Lemma max_size_ge nbs n : n <= max_size nbs n /\ Forall (fun nb => nb.1 <= max_size nbs n) nbs.
Proof.
  revert n. induction nbs as [|nb nbs IH]; intros n; [split; [done|constructor]|].
  simpl. destruct (IH (Z.max n nb.1)) as [H1 H2]. split; [lia|]. constructor; [lia|done].
Qed.

Lemma max_size_le nbs n m :
  n <= m -> Forall (fun nb => nb.1 <= m) nbs -> max_size nbs n <= m.
Proof.
  intros Hn HF. revert n Hn. induction HF as [|nb nbs Hb _ IH]; intros n Hn; simpl; [done|].
  apply IH. lia.
Qed.

Lemma collect_sources_run ks nbs : forall acc n,
  Forall2 (fun k nb => exists E, bitmap_repr E d ctx k nb.1 nb.2) ks nbs -> 0 <= n ->
  exists srcs, mfold (collect_source ctx) (acc, n) ks d = (Ok (acc ++ srcs, max_size nbs n), d)
    /\ Forall2 source_ok srcs nbs.
Proof.
  intros acc n HF. revert acc n.
  induction HF as [|k [m B] ks nbs [E Hr] _ IH]; intros acc n Hn.
  { exists []. by rewrite app_nil_r. }
  cbn [mfold fst snd] in *. pose proof Hr as [Hsz _].
  destruct (read_bitmap_meta_run E d ctx k m B Hwf Hr) as (o & Ho & Hs).
  destruct o as [meta|].
  - destruct Hs as (_ & (_ & _ & Hsm) & Hb).
    destruct (IH (acc ++ [(k, Some meta)]) (Z.max n m)) as (srcs & Hc & HF'); [lia|].
    exists ((k, Some meta) :: srcs). split; [|by constructor].
    erewrite bind_Ok by (unfold collect_source; rewrite (bind_Ok _ _ _ _ _ Ho); reflexivity).
    assert ((if n <? md_size meta then md_size meta else n) = Z.max n m) as ->.
    { rewrite Hsm. destruct (Z.ltb_spec n m); lia. }
    rewrite Hc. by rewrite <- app_assoc.
  - destruct Hs as (-> & -> & _). destruct (IH (acc ++ [(k, None)]) n) as (srcs & Hc & HF'); [done|].
    exists ((k, None) :: srcs). split; [|by constructor].
    erewrite bind_Ok by (unfold collect_source; rewrite (bind_Ok _ _ _ _ _ Ho); reflexivity).
    rewrite Hc, <- app_assoc. simpl. by rewrite Z.max_l by done.
Qed.

(** Byte [j] of fragment [f] of the combination of the sources. *)
Definition combined op src (srcs : list (bytes * option Metadata)) (f : Z) (j : nat) : byte :=
  fold_left (fun a s => byte_op op a (byte_or_zero (src_fragment s f) j)) srcs
    (byte_or_zero (src_fragment src f) j).

Lemma src_fragment_run src f :
  (match src.2 with Some m => read_fragment ctx m src.1 f | None => mret [] end : M DB bytes) d
  = (Ok (src_fragment src f), d).
Proof. unfold src_fragment. destruct (src.2); [by apply read_fragment_run|done]. Qed.

Lemma imap_map_seq {A B} (h : nat -> A -> B) (g : nat -> A) n :
  imap h (map g (seq 0 n)) = map (fun j => h j (g j)) (seq 0 n).
Proof.
  change (map ?f (seq 0 n)) with (f <$> seq 0 n). apply list_eq. intros i.
  rewrite list_lookup_imap, !list_lookup_fmap. destruct (decide (i < n)%nat).
  - by rewrite lookup_seq_lt.
  - by rewrite lookup_seq_ge by lia.
Qed.

Lemma combine_rest op f len srcs : forall g,
  mfold (combine_source ctx op f len) (false, map g (seq 0 len)) srcs d
  = (Ok (false, map (fun j => fold_left (fun a s => byte_op op a (byte_or_zero (src_fragment s f) j))
                               srcs (g j)) (seq 0 len)), d).
Proof.
  induction srcs as [|s srcs IH]; intros g; [done|]. cbn [mfold].
  erewrite bind_Ok by (unfold combine_source; erewrite bind_Ok by apply src_fragment_run; reflexivity).
  rewrite imap_map_seq. by rewrite IH.
Qed.

Lemma combine_run op f len src srcs r :
  mfold (combine_source ctx op f len) (true, r) (src :: srcs) d
  = (Ok (false, map (combined op src srcs f) (seq 0 len)), d).
Proof.
  cbn [mfold].
  erewrite bind_Ok by (unfold combine_source; erewrite bind_Ok by apply src_fragment_run; reflexivity).
  by rewrite combine_rest.
Qed.

(** The result as a number: [n] bytes, the digits of the sources [Bs]. *)
Definition op_result op (n B : Z) (Bs : list Z) : Z :=
  match op with
  | Not => Z.lxor (Z.ones (8 * n)) B
  | _ => fold_left (number_op op) Bs B
  end.

(** The byte BITOP writes. *)
Definition dest_byte op src srcs (f : Z) (j : nat) : byte :=
  match op with
  | Not => byte_not (byte_or_zero (src_fragment src f) j)
  | _ => combined op src srcs f j
  end.

Lemma combined_bit op src srcs nb nbs o :
  source_ok src nb -> Forall2 source_ok srcs nbs -> 0 <= o < 2 ^ 64 ->
  Z.testbit (byte_to_Z (combined op src srcs (o / FRAGMENT_BITS)
    (Z.to_nat (o mod FRAGMENT_BITS / 8)))) (o mod 8)
  = Z.testbit (fold_left (number_op op) (map snd nbs) nb.2) o.
Proof.
  intros Hs HF Ho. unfold combined. pose proof (source_bit src nb o Hs Ho) as Hb.
  pose proof (Z.mod_pos_bound o 8 ltac:(lia)).
  generalize dependent (byte_or_zero (src_fragment src (o / FRAGMENT_BITS))
    (Z.to_nat (o mod FRAGMENT_BITS / 8))). generalize (nb.2). clear Hs.
  induction HF as [|s sb srcs nbs Hsb _ IH]; intros B b Hb; [done|]. cbn [fold_left map].
  apply IH. rewrite byte_op_bit, number_op_bit by lia. by rewrite Hb, (source_bit s sb).
Qed.

Lemma dest_bit op src srcs nb nbs n o :
  source_ok src nb -> Forall2 source_ok srcs nbs -> 0 <= o < 8 * n -> n <= 2 ^ 61 ->
  Z.testbit (byte_to_Z (dest_byte op src srcs (o / FRAGMENT_BITS)
    (Z.to_nat (o mod FRAGMENT_BITS / 8)))) (o mod 8)
  = Z.testbit (op_result op n nb.2 (map snd nbs)) o.
Proof.
  intros Hs HF Ho Hn. pose proof (Z.mod_pos_bound o 8 ltac:(lia)).
  destruct op; try (apply combined_bit; (done || lia)). cbn [dest_byte op_result].
  rewrite byte_not_bit, Z.lxor_spec, Z.ones_spec_low by lia.
  change (xorb true ?y) with (negb y). f_equal. apply source_bit; [done|lia].
Qed.

(** The bytes of fragment [f] of a bitmap of [n] bytes. *)
Definition frag_len (n f : Z) : nat :=
  Z.to_nat (Z.min FRAGMENT_BYTES (Z.max 0 (n - f * FRAGMENT_BYTES))).

Definition dest_put dest (w : Z) op src srcs (n f : Z) : write_op :=
  PutCf CF_SUBKEY (sub_key ctx dest w (be_bytes 8 f))
    (map (dest_byte op src srcs f) (seq 0 (frag_len n f))).

Lemma bitop_fragment_run op dest (w : Z) src srcs n b f :
  (op = Not -> src.2 <> None) -> 0 <= f -> f * FRAGMENT_BYTES < n ->
  bitop_fragment ctx op dest w (src :: srcs) n b f d
  = (Ok (b ++ [dest_put dest w op src srcs n f]), d).
Proof.
  intros Hnot Hf Hn. unfold bitop_fragment. fold (frag_len n f).
  replace (frag_len n f =? 0)%nat with false
    by (symmetry; apply Nat.eqb_neq; unfold frag_len, FRAGMENT_BYTES in *; lia).
  unfold dest_put, dest_byte. destruct op.
  4:{ erewrite bind_Ok; [eauto with kv|]. mrun. destruct (src.2) as [m|] eqn:Em; [|by destruct Hnot].
      erewrite bind_Ok by (by apply read_fragment_run). unfold mret, M_ret. do 2 f_equal.
      apply map_ext. intros i. unfold src_fragment, byte_or_zero. rewrite Em.
      by destruct (_ !! i). }
  all: erewrite bind_Ok by (by rewrite (bind_Ok _ _ _ _ _ (combine_run _ f _ src srcs _)));
    eauto with kv.
Qed.

Lemma bitop_fold op dest (w : Z) src srcs n fs : forall b,
  (op = Not -> src.2 <> None) -> Forall (fun f => 0 <= f /\ f * FRAGMENT_BYTES < n) fs ->
  mfold (bitop_fragment ctx op dest w (src :: srcs) n) b fs d
  = (Ok (b ++ map (dest_put dest w op src srcs n) fs), d).
Proof.
  intros b Hnot HF. revert b. induction HF as [|f fs [Hf Hn] _ IH]; intros b; cbn [mfold map].
  - by rewrite app_nil_r.
  - rewrite (bind_Ok _ _ _ _ _ (bitop_fragment_run op dest w src srcs n b f Hnot Hf Hn)), IH.
    by rewrite <- app_assoc.
Qed.

Lemma dest_puts_effect dest (w : Z) op src srcs n fs f c :
  Forall (fun f => 0 <= f < 2 ^ 64) fs -> 0 <= f < 2 ^ 64 ->
  batch_effect CF_SUBKEY (sub_key ctx dest w (be_bytes 8 f)) (map (dest_put dest w op src srcs n) fs) c
  = if decide (f ∈ fs) then Some (map (dest_byte op src srcs f) (seq 0 (frag_len n f))) else c.
Proof.
  clear Hwf. intros HF Hf. revert c. induction HF as [|g fs Hg _ IH]; intros c; [done|].
  cbn [map]. change (batch_effect _ ?k (?o :: ?b) c) with
    (batch_effect CF_SUBKEY k b (op_effect CF_SUBKEY k o c)). rewrite IH.
  destruct (decide (f = g)) as [->|Hne].
  - rewrite (decide_True (P:=g ∈ g :: fs)) by by left. unfold dest_put. cbn [op_effect].
    rewrite (decide_True (P:=(_, _) = _)) by done. by case_decide.
  - rewrite op_effect_ne; [repeat case_decide; set_solver|].
    intros [= E%sub_key_inj]. apply Hne. symmetry.
    apply (be_bytes_inj 8); [simpl; lia..|done].
Qed.

Lemma number_op_nonneg op a b : 0 <= a -> 0 <= b -> 0 <= number_op op a b.
Proof.
  intros Ha Hb. destruct op; simpl; [apply Z.land_nonneg|apply Z.lor_nonneg|apply Z.lxor_nonneg|];
    tauto.
Qed.

Lemma op_result_sized op n src srcs nb nbs :
  source_ok src nb -> Forall2 source_ok srcs nbs -> n = max_size nbs nb.1 ->
  sized n (op_result op n nb.2 (map snd nbs)).
Proof.
  intros [Hs _] HF ->.
  destruct (max_size_ge nbs nb.1) as [Hm HM].
  assert (Forall (fun nb => sized nb.1 nb.2) nbs) as Hsz
    by (clear -HF; induction HF as [|? ? ? ? []]; by constructor).
  assert (max_size nbs nb.1 <= 2 ^ 61) as Hle.
  { apply max_size_le; [apply Hs|]. apply (Forall_impl _ _ _ Hsz). intros ? [? _]; lia. }
  set (n := max_size nbs nb.1) in *. destruct Hs as [Hn HB].
  assert (forall o, 8 * n <= o -> Z.testbit nb.2 o = false) as Hh.
  { intros o Ho. apply (sized_high nb.1); [done|lia]. }
  assert (0 <= fold_left (number_op op) (map snd nbs) nb.2
          /\ forall o, 8 * n <= o -> Z.testbit (fold_left (number_op op) (map snd nbs) nb.2) o = false) as [H0 H1].
  { assert (0 <= nb.2) as HB0 by lia. revert HB0 Hh. clear -HM Hsz.
    generalize (nb.2). revert HM. generalize n. clear n. intros n HM.
    induction Hsz as [|[m B'] nbs Hm Hsz IH]; intros B HB Hh; [done|]. cbn [map fold_left snd].
    apply Forall_cons in HM as [Hmn HM]. simpl in *. apply IH; [done|apply number_op_nonneg; [done|]|].
    - apply Hm.
    - intros o Ho. rewrite number_op_bit, Hh, (sized_high m) by (done || lia). by destruct op. }
  destruct op; try (apply sized_intro; (done || lia)). cbn [op_result]. apply sized_intro.
  - lia.
  - apply Z.lxor_nonneg. rewrite Z.ones_equiv. pose proof (Z.pow_pos_nonneg 2 (8 * n)). lia.
  - intros o Ho. rewrite Z.lxor_spec, Z.ones_spec_high, Hh by lia. done.
Qed.

Definition op_name op : bytes :=
  match op with And => bs "AND" | Or => bs "OR" | Xor => bs "XOR" | Not => bs "NOT" end.

(** The batch BITOP writes. *)
Definition bitop_batch op dest src srcs (n : Z) : WriteBatch :=
  [PutCf CF_METADATA (meta_key ctx dest)
     (encode_metadata (set_size n (metadata_new DBitmap (new_version ctx))))]
  ++ map (dest_put dest (new_version ctx) op src srcs n)
       (seqZ 0 (if n =? 0 then 0 else (n - 1) / FRAGMENT_BYTES + 1)).

Lemma bitop_run op dest ks k nb nbs :
  Forall2 (fun k nb => exists E, bitmap_repr E d ctx k nb.1 nb.2) (k :: ks) (nb :: nbs) ->
  (op = Not -> ks = []) ->
  exists src srcs, source_ok src nb /\ Forall2 source_ok srcs nbs
    /\ bitop ctx (op_name op :: dest :: k :: ks) d
       = (Ok (Integer (max_size nbs nb.1)), db_write d (bitop_batch op dest src srcs (max_size nbs nb.1))).
Proof.
  intros HF Hnot. destruct (collect_sources_run (k :: ks) (nb :: nbs) [] 0 HF ltac:(done))
    as (srcs0 & Hc & HS). inversion HS as [|src ? srcs ? Hs HSs]; subst. clear HS.
  exists src, srcs. split; [done|]. split; [done|].
  pose proof (op_result_sized And _ src srcs nb nbs Hs HSs eq_refl) as [Hn _].
  assert (max_size (nb :: nbs) 0 = max_size nbs nb.1) as Em.
  { simpl. destruct Hs as [[? _] _]. by rewrite Z.max_r by lia. }
  rewrite Em in Hc. set (n := max_size nbs nb.1) in *.
  unfold bitop. erewrite bind_Ok by (apply expect_min_arg_count_ok; simpl; lia). mrun.
  rewrite (bind_Ok _ _ _ op d) by (by destruct op). mrun. change (drop 2 (_ :: _ :: ?l)) with l.
  replace (bool_decide (op = Not) && negb (length (k :: ks) =? 1)%nat) with false.
  2:{ case_bool_decide as Eop; [|done]. by rewrite Hnot. }
  rewrite (bind_Ok _ _ _ _ _ Hc). cbv beta iota zeta. rewrite app_nil_l.
  erewrite bind_Ok by eauto with kv. rewrite app_nil_l. unfold bitop_batch.
  destruct (Z.eqb_spec n 0) as [E0|Hne].
  { rewrite E0. by mrun. }
  erewrite bind_Ok.
  2:{ apply bitop_fold.
      - intros ->. specialize (Hnot eq_refl). subst ks. destruct Hs as [_ Hs].
        destruct (src.2); [done|]. subst nb. inversion HF as [|? ? ? ? _ HF2]; subst.
        by inversion HF2; subst.
      - apply Forall_forall. intros f Hf%elem_of_seqZ. unfold FRAGMENT_BYTES in *.
        Z.to_euclidean_division_equations; lia. }
  erewrite bind_Ok by reflexivity. rewrite wrap_i64_id by (apply is_i64_spec; lia). done.
Qed.

End BitOpFacts.

(** ** Properties *)

Section BitmapProperties.
Context {DB : Type} {RDB : RocksDB DB}.
Implicit Types (d : DB) (ctx : CommandContext) (k : bytes).

(** SETBIT from the metadata it starts with. *)
Lemma setbit_at E d ctx ctx' k n B o (v : bool) meta :
  wf_db d -> sized n B -> get_or_create_metadata ctx k d = (Ok meta, d) -> bitmap_meta E meta n ->
  bits d ctx k (md_version meta) B -> is_u64 o = true ->
  namespace ctx' = namespace ctx -> unexpired E ctx' ->
  exists d', setbit ctx [k; show_Z o; bit_arg v] d = (Ok (Integer (Z.b2z (Z.testbit B o))), d')
    /\ sized (Z.max n (o / 8 + 1)) (if v then Z.setbit B o else Z.clearbit B o)
    /\ bitmap_at E d' ctx' k (set_size (Z.max n (o / 8 + 1)) meta) (Z.max n (o / 8 + 1))
         (if v then Z.setbit B o else Z.clearbit B o)
    /\ only_version d d' ctx k (md_version meta).
Proof.
  intros H Hsz0 Hg Hm Hb Hu Hns Hx. pose proof Hu as Ho%is_u64_spec.
  pose proof (sized_set_bit v n B o Hsz0 Ho) as Hsz.
  rewrite (setbit_run E d ctx k n B o v meta) by done. eexists. split; [done|]. split; [done|]. split.
  - assert (bitmap_meta E (set_size (Z.max n (o / 8 + 1)) meta) (Z.max n (o / 8 + 1))) as Hm'.
    { destruct Hm as (Hgm & He & _). split; [|done]. apply good_meta_set_size; [done|].
      apply is_u64_spec. destruct Hsz as [? _]. lia. }
    split; [|split; [done|split; [done|]]].
    + eapply composite_written; [|done|apply Hm']. unfold meta_key. rewrite Hns, db_get_write.
      cbn [batch_effect fold_left op_effect].
      rewrite (decide_False (P:=(CF_SUBKEY, _) = _)) by (by intros [=]). by rewrite decide_True.
    + intros o' Ho'. unfold bit_at. cbn [set_size md_version]. rewrite fragment_written by done.
      change (if v then _ else _) with (set_bit v B o). rewrite set_bit_spec by lia.
      case_decide as Ef.
      * rewrite set_fragment_bit by lia. case_decide; [done|]. rewrite <- Hb by done.
        unfold bit_at. by rewrite Ef.
      * rewrite decide_False by (by intros ->). by apply Hb.
  - apply (only_version_write d ctx k (md_version meta)); [done|by eapply good_meta_version, Hm|].
    constructor; [by left|]. constructor; [|done]. right. by eexists CF_SUBKEY, _.
Qed.

(** SETBIT refines setting one binary digit: it replies the old bit, the
    key then represents the number with the digit set or cleared and at least
    as many bytes as the offset needs, and no other key's metadata or subkeys
    change. *)
Theorem setbit_refines E d ctx ctx' k n B o (v : bool) :
  wf_db d -> bitmap_repr E d ctx k n B -> is_u64 o = true ->
  namespace ctx' = namespace ctx -> unexpired E ctx' ->
  exists d', setbit ctx [k; show_Z o; bit_arg v] d = (Ok (Integer (Z.b2z (Z.testbit B o))), d')
    /\ bitmap_repr E d' ctx' k (Z.max n (o / 8 + 1)) (if v then Z.setbit B o else Z.clearbit B o)
    /\ only_key d d' ctx k.
Proof.
  intros H Hr Hu Hns Hx. destruct (get_or_create_run E d ctx k n B H Hr) as (meta & Hg & Hm & Hb).
  destruct (setbit_at E d ctx ctx' k n B o v meta) as (d' & R & Hs & Ha & Hv); [done|apply Hr|done..|].
  exists d'. split; [done|]. split; [split; [done|right; by eexists]|apply Hv].
Qed.

Lemma getbit_run E d ctx k n B o :
  wf_db d -> bitmap_repr E d ctx k n B -> is_u64 o = true ->
  getbit ctx [k; show_Z o] d = (Ok (Integer (Z.b2z (Z.testbit B o))), d).
Proof.
  intros H Hr Hu. pose proof Hu as Ho%is_u64_spec.
  destruct (read_bitmap_meta_run E d ctx k n B H Hr) as (m & Hm & Hs).
  unfold getbit. do 3 mrun. erewrite bind_Ok by (by apply parse_offset_run).
  rewrite (bind_Ok _ _ _ _ _ Hm). destruct m as [meta|].
  2:{ destruct Hs as (_ & -> & _). by rewrite Z.bits_0. }
  destruct Hs as (_ & _ & Hb). cbv zeta. erewrite bind_Ok by (by apply read_fragment_run).
  rewrite <- Hb by done. unfold bit_at, frag_bit, byte_or_zero.
  rewrite (proj1 (offset_split o ltac:(lia))).
  set (frag := fragment d ctx k (md_version meta) (o / FRAGMENT_BITS)).
  set (p := Z.to_nat (o mod FRAGMENT_BITS / 8)).
  destruct (length frag <=? p)%nat eqn:El.
  - apply Nat.leb_le in El. rewrite lookup_ge_None_2 by done. simpl default.
    by rewrite Z.bits_0.
  - apply Nat.leb_gt in El. destruct (lookup_lt_is_Some_2 frag p El) as [b Eb].
    erewrite bind_Ok by (apply index_ok, Eb). rewrite Eb. simpl default.
    pose proof (Z.mod_pos_bound o 8 ltac:(lia)). by rewrite byte_bit_testbit by lia.
Qed.

(** BITCOUNT after its arguments are read. *)
Definition bitcount_body ctx k (s e : Z) : M DB RespValue :=
  m ← read_bitmap_meta ctx k;
  match m with
  | None => mret (Integer 0)
  | Some meta =>
      let size := wrap_i64 (md_size meta) in
      if size =? 0 then mret (Integer 0)
      else
        start ← normalize_index ctx s size;
        end_ ← normalize_index ctx e size;
        if end_ <? start then mret (Integer 0)
        else
          let start_frag := start / FRAGMENT_BYTES in
          let end_frag := end_ / FRAGMENT_BYTES in
          count ← mfold (bitcount_fragment ctx meta k start end_) 0
                    (seqZ start_frag (end_frag - start_frag + 1));
          mret (Integer (wrap_i64 count))
  end.

Lemma bitcount_body_run E d ctx k n B s e :
  wf_db d -> bitmap_repr E d ctx k n B -> n < 2 ^ 60 -> is_i64 s = true -> is_i64 e = true ->
  bitcount_body ctx k s e d
  = (Ok (Integer (popcount B (8 * clamp n s) (8 * (clamp n e - clamp n s + 1)))), d).
Proof.
  intros H Hr Hn Hs He. pose proof Hr as [Hsz _].
  destruct (read_bitmap_meta_run E d ctx k n B H Hr) as (m & Hm & Hms).
  unfold bitcount_body. rewrite (bind_Ok _ _ _ _ _ Hm). destruct m as [meta|].
  2:{ destruct Hms as (_ & -> & _). by rewrite popcount_0. }
  destruct Hms as (_ & (_ & _ & ->) & Hb). destruct Hsz as [Hn0 HB].
  rewrite wrap_i64_id by (apply is_i64_spec; lia). cbv zeta. destruct (Z.eqb_spec n 0) as [->|Hne].
  { rewrite (sized_0 B) by done. by rewrite popcount_0. }
  erewrite bind_Ok by (apply normalize_index_run; [lia|done]).
  erewrite bind_Ok by (apply normalize_index_run; [lia|done]).
  assert (0 <= clamp n s < n /\ 0 <= clamp n e < n) as [Hcs Hce].
  { unfold clamp. destruct (s <? 0), (e <? 0); lia. }
  destruct (Z.ltb_spec (clamp n e) (clamp n s)).
  { unfold popcount. by rewrite total_none by lia. }
  erewrite bind_Ok by (apply (bitcount_range d ctx k meta B); (done || lia)).
  assert (forall x, 0 <= Z.b2z (Z.testbit B x) <= 1) as Hb1 by (intros x; destruct (Z.testbit B x); simpl; lia).
  pose proof (total_bounds _ (8 * clamp n s) (8 * (clamp n e - clamp n s + 1)) 1 Hb1 ltac:(lia)).
  rewrite wrap_i64_id; [done|]. apply is_i64_spec. unfold popcount. lia.
Qed.

(** GETBIT replies the binary digit at the offset and BITCOUNT the number
    of ones, in the whole bitmap or in the byte range after both ends are
    clamped to the bitmap; both only read. *)
Theorem bitmap_reads E d ctx k n B o s e :
  wf_db d -> bitmap_repr E d ctx k n B -> n < 2 ^ 60 -> is_u64 o = true ->
  is_i64 s = true -> is_i64 e = true ->
  getbit ctx [k; show_Z o] d = (Ok (Integer (Z.b2z (Z.testbit B o))), d)
  /\ bitcount ctx [k] d = (Ok (Integer (popcount B 0 (8 * n))), d)
  /\ bitcount ctx [k; show_Z s; show_Z e] d
     = (Ok (Integer (popcount B (8 * clamp n s) (8 * (clamp n e - clamp n s + 1)))), d).
Proof.
  intros H Hr Hn Ho Hs He. split; [by apply (getbit_run E d ctx k n)|].
  pose proof Hr as [[Hn0 HB] _]. split.
  - change (bitcount ctx [k] d) with (bitcount_body ctx k 0 (-1) d).
    rewrite (bitcount_body_run E d ctx k n B) by done.
    destruct (Z.eq_dec n 0) as [->|Hne]; [by rewrite (sized_0 B), !popcount_0 by done|].
    do 3 f_equal. unfold clamp. simpl. f_equal; lia.
  - rewrite <- (bitcount_body_run E d ctx k n B) by done. unfold bitcount.
    change (negb _ && _) with false. cbv iota. mrun. change (length _ =? 1)%nat with false.
    cbv iota. rewrite (bind_Ok _ _ _ (s, e) d); [done|]. mrun.
    erewrite bind_Ok by (unfold arg_i64; by rewrite parse_text_show_i64). mrun.
    by erewrite bind_Ok by (unfold arg_i64; by rewrite parse_text_show_i64).
Qed.

(** The bits of the destination after BITOP. *)
Lemma bitop_bits d ctx op dest src srcs nb nbs n :
  source_ok d ctx src nb -> Forall2 (source_ok d ctx) srcs nbs -> n = max_size nbs nb.1 ->
  bits d ctx dest (new_version ctx) 0 ->
  bits (db_write d (bitop_batch d ctx op dest src srcs n)) ctx dest (new_version ctx)
    (op_result op n nb.2 (map snd nbs)).
Proof.
  intros Hs HF En Hfresh o Ho.
  pose proof (op_result_sized d ctx op n src srcs nb nbs Hs HF En) as Hsz.
  pose proof Hsz as [Hn _]. unfold bit_at, fragment. rewrite db_get_write. unfold bitop_batch.
  rewrite batch_effect_app, batch_effect_other_cf by done.
  set (m := if n =? 0 then 0 else (n - 1) / FRAGMENT_BYTES + 1).
  assert (forall f, f < m -> f * FRAGMENT_BYTES < n) as Hm.
  { intros f Hf. unfold m, FRAGMENT_BYTES in *. destruct (Z.eqb_spec n 0); [lia|].
    Z.to_euclidean_division_equations; lia. }
  assert (forall f, 0 <= f -> m <= f -> n <= f * FRAGMENT_BYTES) as Hm'.
  { intros f Hf0 Hf. unfold m, FRAGMENT_BYTES in *. destruct (Z.eqb_spec n 0); [lia|].
    Z.to_euclidean_division_equations; lia. }
  assert (0 <= o / FRAGMENT_BITS < 2 ^ 64) as Hf
    by (unfold FRAGMENT_BITS, FRAGMENT_BYTES; Z.to_euclidean_division_equations; lia).
  rewrite dest_puts_effect; [|apply Forall_forall; intros f [Hf1 Hf2]%elem_of_seqZ|done].
  2:{ specialize (Hm f ltac:(lia)). unfold FRAGMENT_BYTES in *. lia. }
  destruct (offset_split o ltac:(lia)) as (E8 & _).
  pose proof (offset_decomp o ltac:(lia)) as (Eo & Hr & Hj & Hf0).
  case_decide as Hin; rewrite elem_of_seqZ in Hin; cbn [from_option id].
  - unfold frag_bit. rewrite E8, byte_or_zero_map. case_decide as Hlt; unfold frag_len in Hlt.
    + apply dest_bit; [done..| |lia]. unfold FRAGMENT_BYTES in Hlt. lia.
    + etransitivity; [apply Z.bits_0|]. symmetry. apply (sized_high n); [done|].
      unfold FRAGMENT_BYTES in Hlt. lia.
  - fold (fragment d ctx dest (new_version ctx) (o / FRAGMENT_BITS)).
    fold (bit_at d ctx dest (new_version ctx) o). rewrite Hfresh by done.
    specialize (Hm' (o / FRAGMENT_BITS) ltac:(lia) ltac:(lia)). unfold FRAGMENT_BYTES in Hm'.
    rewrite Z.bits_0, (sized_high n); [done|done|lia].
Qed.

(** C25: BITOP refines the bitwise operations on numbers: it replies the size of
    the largest source, and the destination then represents the conjunction,
    disjunction or exclusive or of the sources, or the complement of the one
    source within its bytes; the destination does not expire, and no other key
    is touched. *)
Theorem bitop_refines d ctx ctx' op dest k (ks : list bytes) nb (nbs : list (Z * Z)) :
  wf_db d ->
  Forall2 (fun k nb => exists E, bitmap_repr E d ctx k nb.1 nb.2) (k :: ks) (nb :: nbs) ->
  (op = Not -> ks = []) -> bits d ctx dest (new_version ctx) 0 ->
  namespace ctx' = namespace ctx ->
  let n := max_size nbs nb.1 in
  exists d', bitop ctx (op_name op :: dest :: k :: ks) d = (Ok (Integer n), d')
    /\ bitmap_repr 0 d' ctx' dest n
         match op with
         | And => fold_left Z.land (map snd nbs) nb.2
         | Or => fold_left Z.lor (map snd nbs) nb.2
         | Xor => fold_left Z.lxor (map snd nbs) nb.2
         | Not => Z.lxor (Z.ones (8 * n)) nb.2
         end
    /\ only_key d d' ctx dest.
Proof.
  intros H HF Hnot Hfresh Hns n.
  destruct (bitop_run d ctx H op dest ks k nb nbs HF Hnot) as (src & srcs & Hs & HS & R).
  fold n in R. eexists. split; [exact R|].
  pose proof (op_result_sized d ctx op n src srcs nb nbs Hs HS eq_refl) as Hsz.
  set (meta := set_size n (metadata_new DBitmap (new_version ctx))).
  assert (good_meta DBitmap meta) as Hg.
  { apply good_meta_set_size; [apply good_meta_new|]. apply is_u64_spec.
    destruct Hsz as [? _]. lia. }
  replace (match op with And => _ | Or => _ | Xor => _ | Not => _ end)
    with (op_result op n nb.2 (map snd nbs)) by by destruct op.
  split.
  - split; [done|]. right. exists meta. split; [|split; [done|split; [done|]]].
    + eapply composite_written; [|done|done]. unfold meta_key. rewrite Hns, db_get_write.
      unfold bitop_batch. rewrite batch_effect_app.
      unfold meta_key. rewrite batch_effect_put, batch_effect_frame; [done|].
      apply Forall_map, Forall_true. intros f [=].
    + intros o Ho. unfold bit_at, fragment, sub_key. rewrite Hns.
      fold (fragment (db_write d (bitop_batch d ctx op dest src srcs n)) ctx dest
        (md_version meta) (o / FRAGMENT_BITS)). by apply bitop_bits.
  - apply (only_key_write d ctx dest (new_version ctx)); [done|apply new_version_u64|].
    apply Forall_app. split; [constructor; [by left|done]|].
    apply Forall_map, Forall_true. intros f. right. by eexists CF_SUBKEY, _.
Qed.

End BitmapProperties.

(** ** Witnesses *)

(** A database with the 2-byte bitmap 0x0305 under [b]. *)
Definition demo_bmeta : Metadata := set_size 2 (metadata_new DBitmap (new_version ctx0)).

Definition db_b : MemDB :=
  db_write db0 [PutCf CF_METADATA (meta_key ctx0 (bs "b")) (encode_metadata demo_bmeta);
                PutCf CF_SUBKEY (sub_key ctx0 (bs "b") (md_version demo_bmeta) (be_bytes 8 0))
                  [Byte.x05; Byte.x03]].

Lemma db_b_wf : wf_db db_b.
Proof. apply wf_write, mem_wf. Qed.

Lemma db_b_repr : bitmap_repr 0 db_b ctx0 (bs "b") 2 773.
Proof.
  split; [split; simpl; lia|]. right. exists demo_bmeta. split; [|split; [done|split]].
  - eexists. split; [by vm_compute|]. by split; vm_compute.
  - split; [|done]. apply good_meta_set_size; [apply good_meta_new|done].
  - intros o Ho. unfold bit_at.
    pose proof (fragment_written db0 ctx0 ctx0 (bs "b") (md_version demo_bmeta) 0
      (encode_metadata demo_bmeta) [Byte.x05; Byte.x03] o eq_refl ltac:(lia) Ho) as E.
    change (0 / FRAGMENT_BITS) with 0 in E. unfold db_b. rewrite E. clear E.
    destruct (offset_split o ltac:(lia)) as (E8 & _).
    pose proof (offset_decomp o ltac:(lia)) as (Eo & Hr & Hj & Hf0).
    assert (16 <= o -> Z.testbit 773 o = false) as Hhigh.
    { intros Hge. apply (sized_high 2); [split; simpl; lia|lia]. }
    case_decide as Hf; [|by unfold fragment; simpl; rewrite frag_bit_nil, Hhigh by lia].
    unfold frag_bit, byte_or_zero. rewrite E8. destruct (Z.lt_ge_cases o 16) as [Hlt|Hge].
    + assert (o ∈ seqZ 0 16) as Hin by (apply elem_of_seqZ; lia). clear -Hin.
      revert o Hin. apply Forall_forall. change (seqZ 0 16) with
        [0; 1; 2; 3; 4; 5; 6; 7; 8; 9; 10; 11; 12; 13; 14; 15]. repeat constructor.
    + rewrite Hhigh by done. rewrite lookup_ge_None_2; [apply Z.bits_0|]. simpl length. lia.
Qed.

Lemma setbit_refines_witness :
  exists d', setbit ctx0 [bs "b"; show_Z 9000; bit_arg true] db_b
             = (Ok (Integer (Z.b2z (Z.testbit 773 9000))), d')
    /\ bitmap_repr 0 d' ctx0 (bs "b") (Z.max 2 (9000 / 8 + 1)) (Z.setbit 773 9000)
    /\ only_key db_b d' ctx0 (bs "b").
Proof.
  apply (setbit_refines 0 db_b ctx0 ctx0 (bs "b") 2 773 9000 true);
    [apply db_b_wf|apply db_b_repr|done..].
Defined.

Lemma bitmap_reads_witness :
  getbit ctx0 [bs "b"; show_Z 8] db_b = (Ok (Integer (Z.b2z (Z.testbit 773 8))), db_b)
  /\ bitcount ctx0 [bs "b"] db_b = (Ok (Integer (popcount 773 0 (8 * 2))), db_b)
  /\ bitcount ctx0 [bs "b"; show_Z (-1); show_Z (-1)] db_b
     = (Ok (Integer (popcount 773 (8 * clamp 2 (-1)) (8 * (clamp 2 (-1) - clamp 2 (-1) + 1)))), db_b).
Proof.
  apply (bitmap_reads 0 db_b ctx0 (bs "b") 2 773 8 (-1) (-1));
    [apply db_b_wf|apply db_b_repr|done..].
Defined.

Lemma bitop_refines_witness :
  exists d', bitop ctx0 [op_name Not; bs "d"; bs "b"] db_b = (Ok (Integer 2), d')
    /\ bitmap_repr 0 d' ctx0 (bs "d") 2 (Z.lxor (Z.ones (8 * 2)) 773)
    /\ only_key db_b d' ctx0 (bs "d").
Proof.
  apply (bitop_refines db_b ctx0 ctx0 Not (bs "d") (bs "b") [] (2, 773) []);
    [apply db_b_wf| |done| |done].
  - constructor; [|constructor]. exists 0. apply db_b_repr.
  - intros o Ho. unfold bit_at, fragment, db_b. rewrite db_get_write, batch_effect_frame.
    + cbn. by rewrite frag_bit_nil, Z.bits_0.
    + constructor; [intros [=]|]. constructor; [|constructor]. intros E.
      apply (f_equal snd) in E. revert E. apply (sub_key_ne ctx0);
        [apply short0; simpl; lia|apply short0; simpl; lia|done|done|by left].
Defined.

(** A byte range past the end of the bitmap is clamped to its last byte. *)
Example bitcount_past_the_end :
  bitcount ctx0 [bs "b"; bs "100"; bs "200"] db_b = (Ok (Integer 2), db_b).
Proof. vm_compute. reflexivity. Qed.
