(* ===== verification/Score.v ===== *)
(** * Scores of sorted sets (src/cmd/zset.rs)

    The 8-byte image of a score, chosen so that the order of the images is the
    order of the numbers, and the text of scores in arguments and replies. *)

From Stdlib Require Import SpecFloat.
From S2P Require Import Prelude Bytes Text Error Float Protocol.

Local Open Scope Z_scope.

(** [b ^ mask]. *)
Definition byte_xor (mask : Z) (b : byte) : byte := byte_of_Z (Z.lxor (byte_to_Z b) mask).

(** [bytes[0] ^= 0x80]. *)
Definition flip_first (l : bytes) : bytes :=
  match l with b :: rest => byte_xor 0x80 b :: rest | [] => [] end.

Definition encode_score (score : f64) : bytes :=
  let bits := score in
  let bytes := be_bytes 8 bits in
  if Z.land bits (Z.shiftl 1 63) =? 0 then flip_first bytes
  else map (byte_xor 0xFF) bytes.

Definition decode_score (bytes : bytes) : f64 :=
  let first := match bytes with b :: _ => byte_to_Z b | [] => 0 end in
  let bits_bytes := if negb (Z.land first 0x80 =? 0) then flip_first bytes
                    else map (byte_xor 0xFF) bytes in
  from_be bits_bytes.

Definition parse_score (s : bytes) : outcome f64 :=
  if negb (utf8_valid s) then Err NotInteger
  else
    let lower := to_ascii_lowercase s in
    score ← (if bool_decide (lower = bs "inf") || bool_decide (lower = bs "+inf")
             then Ok f64_infinity
             else if bool_decide (lower = bs "-inf") then Ok f64_neg_infinity
             else ok_or (parse_f64 s) NotInteger);
    if is_nan score then Err NotInteger else Ok score.

Definition format_score (score : f64) : bytes :=
  if f64_is_integral score && is_finite score then show_integral score else show_f64 score.

Example score_texts :
  (fun t => (fun x => format_score x) <$> parse_score (bs t))
    <$> ["1"; "-2.50"; "1e3"; "+INF"; "-inf"; "nan"; "x"; "0.1"; "-0"]%string
  = [Ok (bs "1"); Ok (bs "-2.5"); Ok (bs "1000"); Ok (bs "inf"); Ok (bs "-inf");
     Err NotInteger; Err NotInteger; Ok (bs "0.1"); Ok (bs "-0")].
Proof. vm_compute. reflexivity. Qed.

Example score_images :
  (fun x => decode_score (encode_score x)) <$> [0; 2 ^ 63; f64_infinity; f64_neg_infinity; 1]
  = [0; 2 ^ 63; f64_infinity; f64_neg_infinity; 1].
Proof. vm_compute. reflexivity. Qed.

(** ** Images as numbers *)

(** The number whose big-endian image [encode_score] writes. *)
Definition rank (x : f64) : Z := if f64_neg x then 2 ^ 64 - 1 - x else x + 2 ^ 63.

Lemma xor_ff b : byte_to_Z (byte_xor 0xFF b) = 255 - byte_to_Z b.
Proof. by destruct b. Qed.

Lemma xor_80 b :
  byte_to_Z (byte_xor 0x80 b) = if 128 <=? byte_to_Z b then byte_to_Z b - 128 else byte_to_Z b + 128.
Proof. by destruct b. Qed.

Lemma from_be_flip l :
  from_be (map (byte_xor 0xFF) l) = 2 ^ (8 * Z.of_nat (length l)) - 1 - from_be l.
Proof.
  induction l as [|b l IH]; [done|]. cbn [map]. rewrite !from_be_cons, IH, xor_ff, length_map.
  cbn [length]. rewrite pow8_S. lia.
Qed.

Lemma from_be_flip_first b l :
  from_be (flip_first (b :: l))
  = if 128 <=? byte_to_Z b then from_be (b :: l) - 128 * 2 ^ (8 * Z.of_nat (length l))
    else from_be (b :: l) + 128 * 2 ^ (8 * Z.of_nat (length l)).
Proof. cbn [flip_first]. rewrite !from_be_cons, xor_80. case_goal; lia. Qed.

Lemma sign_test x : is_u64 x = true -> (Z.land x (Z.shiftl 1 63) =? 0) = negb (f64_neg x).
Proof.
  intros Hx%is_u64_spec. unfold f64_neg, sign_bit.
  assert (Z.land x (Z.shiftl 1 63) = if Z.testbit x 63 then 2 ^ 63 else 0) as ->.
  { rewrite Z.shiftl_1_l. apply Z.bits_inj'. intros n Hn. rewrite Z.land_spec, Z.pow2_bits_eqb by lia.
    destruct (Z.eqb_spec 63 n) as [<-|Hne].
    - rewrite andb_true_r. destruct (Z.testbit x 63) eqn:E; [|by rewrite Z.bits_0].
      by rewrite Z.pow2_bits_true by lia.
    - rewrite andb_false_r. destruct (Z.testbit x 63); [|by rewrite Z.bits_0].
      by rewrite Z.pow2_bits_false. }
  pose proof (Z.testbit_spec' x 63 ltac:(lia)) as Ht.
  destruct (Z.leb_spec (2 ^ 63) x) as [Hge|Hlt].
  - assert (x / 2 ^ 63 = 1) as E by (symmetry; apply (Z.div_unique x (2 ^ 63) 1 (x - 2 ^ 63)); lia).
    rewrite E in Ht. by destruct (Z.testbit x 63).
  - rewrite Z.div_small in Ht by lia. by destruct (Z.testbit x 63).
Qed.

Lemma be_bytes_8_cons x : exists b l, be_bytes 8 x = b :: l /\ length l = 7%nat.
Proof. by eexists _, _. Qed.

Lemma length_flip_first l : length (flip_first l) = length l.
Proof. by destruct l. Qed.

Lemma length_encode_score x : length (encode_score x) = 8%nat.
Proof.
  unfold encode_score. cbv zeta. case_goal; rewrite ?length_flip_first, ?length_map, ?length_be_bytes; done.
Qed.

Lemma encode_score_rank x : is_u64 x = true -> encode_score x = be_bytes 8 (rank x).
Proof.
  intros Hu. pose proof Hu as Hx%is_u64_spec.
  rewrite <- (be_bytes_from 8 (encode_score x)) by apply length_encode_score. f_equal.
  unfold encode_score, rank. cbv zeta. rewrite (sign_test x Hu).
  pose proof (u64_be_roundtrip x Hu) as Hr. unfold f64_neg, sign_bit in *.
  destruct (Z.leb_spec (2 ^ 63) x) as [Hn|Hp]; cbn [negb].
  - rewrite from_be_flip, Hr, length_be_bytes. done.
  - destruct (be_bytes_8_cons x) as (b & l & E & Hl). rewrite E in *.
    rewrite from_be_flip_first, Hl, Hr.
    pose proof (from_be_bound l) as Hb. rewrite from_be_cons in Hr. rewrite Hl in *.
    change (2 ^ (8 * Z.of_nat 7)) with (2 ^ 56) in *.
    rewrite (proj2 (Z.leb_gt _ _)); [done|]. pose proof (byte_to_Z_range b). lia.
Qed.

Lemma rank_range x : is_u64 x = true -> 0 <= rank x < 2 ^ 64.
Proof.
  intros Hx%is_u64_spec. unfold rank, f64_neg, sign_bit. destruct (Z.leb_spec (2 ^ 63) x); lia.
Qed.

Lemma rank_inj x y : is_u64 x = true -> is_u64 y = true -> rank x = rank y -> x = y.
Proof.
  intros Hx%is_u64_spec Hy%is_u64_spec. unfold rank, f64_neg, sign_bit.
  destruct (Z.leb_spec (2 ^ 63) x), (Z.leb_spec (2 ^ 63) y); lia.
Qed.

(** A score is read back from its image. *)
Lemma decode_encode_score x : is_u64 x = true -> decode_score (encode_score x) = x.
Proof.
  intros Hu. pose proof Hu as Hx%is_u64_spec. pose proof (rank_range x Hu) as Hr.
  rewrite (encode_score_rank x Hu). pose proof (u64_be_roundtrip (rank x) ltac:(by apply is_u64_spec)) as Hb.
  destruct (be_bytes_8_cons (rank x)) as (b & l & E & Hl). unfold decode_score. rewrite E in *.
  assert (negb (Z.land (byte_to_Z b) 0x80 =? 0) = (128 <=? byte_to_Z b)) as -> by by destruct b.
  pose proof (from_be_bound l) as Hlb. pose proof Hb as Hb'. rewrite from_be_cons in Hb'. rewrite Hl in *.
  change (2 ^ (8 * Z.of_nat 7)) with (2 ^ 56) in *. pose proof (byte_to_Z_range b).
  unfold rank, f64_neg, sign_bit in *. destruct (Z.leb_spec 128 (byte_to_Z b)).
  - rewrite from_be_flip_first, (proj2 (Z.leb_le _ _)), Hb, Hl by done.
    change (2 ^ (8 * Z.of_nat 7)) with (2 ^ 56). destruct (Z.leb_spec (2 ^ 63) x); lia.
  - rewrite from_be_flip, Hb. cbn [length]. rewrite Hl. change (2 ^ (8 * Z.of_nat 8)) with (2 ^ 64).
    destruct (Z.leb_spec (2 ^ 63) x); lia.
Qed.

(** ** The order of the numbers *)

(** A bit pattern as a signed magnitude: both zeros are 0. *)
Definition sval (x : f64) : Z := if f64_neg x then - f64_abs x else f64_abs x.

Definition magnitude (m : positive) (e : Z) : Z := (e + 1074) * 2 ^ 52 + Zpos m.

Definition normal_form (m : positive) (e : Z) : Prop :=
  -1074 <= e /\ Zpos m < 2 ^ 53 /\ (e = -1074 \/ 2 ^ 52 <= Zpos m).

Lemma f64_decode_cases x :
  is_u64 x = true -> is_nan x = false ->
  let a := f64_abs x in
  (a = f64_infinity /\ f64_decode x = S754_infinity (f64_neg x))
  \/ (a = 0 /\ f64_decode x = S754_zero (f64_neg x))
  \/ (0 < a < f64_infinity /\ exists m e,
        f64_decode x = S754_finite (f64_neg x) m e /\ magnitude m e = a /\ normal_form m e).
Proof.
  intros Hx Hn a. unfold f64_decode. rewrite Hn. fold a. unfold is_nan in Hn. fold a in Hn.
  apply Z.ltb_ge in Hn. unfold f64_infinity in *.
  assert (0 <= a) as Ha by (apply Z.mod_pos_bound; done).
  pose proof (Z.div_mod a (2 ^ 52) ltac:(done)) as Hd.
  pose proof (Z.mod_pos_bound a (2 ^ 52) ltac:(done)) as Hm.
  set (ex := a / 2 ^ 52) in *. set (mx := a mod 2 ^ 52) in *.
  assert (0 <= ex <= 2047) as Hex by lia. unfold magnitude, normal_form.
  destruct (Z.eqb_spec ex 2047) as [E|Hne]; [left; split; [lia|done]|right].
  destruct (Z.eqb_spec ex 0) as [E0|Hn0].
  - destruct mx as [|m|m] eqn:Em; [left; split; [lia|done]|right|lia].
    split; [lia|]. exists m, (-1074). split; [done|]. lia.
  - right. split; [lia|]. destruct (mx + 2 ^ 52) as [|m|m] eqn:Em; [lia| |lia].
    exists m, (ex - 1075). split; [done|]. lia.
Qed.

Lemma magnitude_cmp m1 e1 m2 e2 :
  normal_form m1 e1 -> normal_form m2 e2 ->
  (match Z.compare e1 e2 with Lt => Lt | Gt => Gt | Eq => Pos.compare m1 m2 end)
  = (magnitude m1 e1 ?= magnitude m2 e2).
Proof.
  unfold normal_form, magnitude. intros H1 H2. destruct (Z.compare_spec e1 e2) as [->|Hlt|Hgt].
  - change (m1 ?= m2)%positive with (Zpos m1 ?= Zpos m2). symmetry. apply Zcompare_plus_compat.
  - symmetry. apply Z.compare_lt_iff. lia.
  - symmetry. apply Z.compare_gt_iff. lia.
Qed.

(** Comparing two numbers compares their signed magnitudes. *)
Lemma f64_partial_cmp_sval x y :
  is_u64 x = true -> is_u64 y = true -> is_nan x = false -> is_nan y = false ->
  f64_partial_cmp x y = Some (sval x ?= sval y).
Proof.
  intros Hx Hy Nx Ny. unfold f64_partial_cmp, sval.
  destruct (f64_decode_cases x Hx Nx) as [[Ax ->]|[[Ax ->]|(Ax & m1 & e1 & -> & Mx & Fx)]];
  destruct (f64_decode_cases y Hy Ny) as [[Ay ->]|[[Ay ->]|(Ay & m2 & e2 & -> & My & Fy)]];
  rewrite ?Ax, ?Ay; unfold f64_infinity in *.
  all: try (destruct (f64_neg x), (f64_neg y); cbn [SFcompare];
    f_equal; symmetry; (apply Z.compare_eq_iff || apply Z.compare_lt_iff || apply Z.compare_gt_iff); lia).
  rewrite <- Mx, <- My. pose proof (magnitude_cmp m1 e1 m2 e2 Fx Fy) as Hm.
  assert (0 < magnitude m1 e1 /\ 0 < magnitude m2 e2) as [P1 P2]
    by (unfold normal_form, magnitude in *; lia).
  destruct (f64_neg x), (f64_neg y); cbn [SFcompare]; f_equal.
  - rewrite Z.compare_opp, (Z.compare_antisym (magnitude m1 e1)), <- Hm.
    by destruct (Z.compare e1 e2).
  - symmetry. apply Z.compare_lt_iff. lia.
  - symmetry. apply Z.compare_gt_iff. lia.
  - exact Hm.
Qed.

(** A score a client can store: a 64-bit pattern that is not a NaN. *)
Definition number (x : f64) : Prop := is_u64 x = true /\ is_nan x = false.

Lemma f64_ltb_sval x y : number x -> number y -> f64_ltb x y = (sval x <? sval y).
Proof.
  intros [Hx Nx] [Hy Ny]. pose proof (f64_partial_cmp_sval x y Hx Hy Nx Ny) as Hc.
  unfold f64_partial_cmp in Hc. unfold f64_ltb, SFltb. rewrite Hc. done.
Qed.

Lemma f64_leb_sval x y : number x -> number y -> f64_leb x y = (sval x <=? sval y).
Proof.
  intros [Hx Nx] [Hy Ny]. pose proof (f64_partial_cmp_sval x y Hx Hy Nx Ny) as Hc.
  unfold f64_partial_cmp in Hc. unfold f64_leb, SFleb, Z.leb. rewrite Hc.
  by destruct (sval x ?= sval y).
Qed.

Lemma f64_eqb_sval x y : number x -> number y -> f64_eqb x y = (sval x =? sval y).
Proof.
  intros [Hx Nx] [Hy Ny]. pose proof (f64_partial_cmp_sval x y Hx Hy Nx Ny) as Hc.
  unfold f64_partial_cmp in Hc. unfold f64_eqb, SFeqb. rewrite Hc, Z.eqb_compare.
  by destruct (sval x ?= sval y).
Qed.

Lemma f64_abs_split x : is_u64 x = true ->
  x = (if f64_neg x then 2 ^ 63 else 0) + f64_abs x /\ 0 <= f64_abs x < 2 ^ 63.
Proof.
  intros Hx%is_u64_spec. unfold f64_neg, f64_abs, sign_bit. destruct (Z.leb_spec (2 ^ 63) x).
  - rewrite <- (Z.mod_unique x (2 ^ 63) 1 (x - 2 ^ 63)) by lia. lia.
  - rewrite Z.mod_small by lia. lia.
Qed.

(** The images order the numbers, and the negative zero before the positive. *)
Lemma rank_lt_sval x y : is_u64 x = true -> is_u64 y = true ->
  rank x < rank y <-> sval x < sval y \/ (x = 2 ^ 63 /\ y = 0).
Proof.
  intros Hx Hy. destruct (f64_abs_split x Hx) as [Ex Ax], (f64_abs_split y Hy) as [Ey Ay].
  unfold rank, sval. destruct (f64_neg x), (f64_neg y); lia.
Qed.

Lemma encode_score_lt x y : is_u64 x = true -> is_u64 y = true ->
  bytes_lt (encode_score x) (encode_score y) <-> rank x < rank y.
Proof.
  intros Hx Hy. rewrite !encode_score_rank by done.
  apply be_bytes_lt; by apply rank_range.
Qed.

Lemma encode_score_inj x y : is_u64 x = true -> is_u64 y = true ->
  encode_score x = encode_score y -> x = y.
Proof. intros Hx Hy E. by rewrite <- (decode_encode_score x Hx), E, decode_encode_score. Qed.

Lemma number_infinity : number f64_infinity.
Proof. done. Qed.

(** ** Properties *)

(** C36: scores are read back from their images, and the byte order of the
    images is the numeric order: a smaller number has a smaller image, and a
    smaller image is never that of a larger number. The infinities are the
    least and the greatest image, below eight bytes 0xFF, where the reverse
    scans start. *)
Theorem score_image_ordered x y :
  number x -> number y ->
  decode_score (encode_score x) = x
  /\ (f64_ltb x y = true -> bytes_lt (encode_score x) (encode_score y))
  /\ (bytes_lt (encode_score x) (encode_score y) -> f64_leb x y = true)
  /\ bytes_le (encode_score f64_neg_infinity) (encode_score x)
  /\ bytes_le (encode_score x) (encode_score f64_infinity)
  /\ bytes_lt (encode_score x) (replicate 8 Byte.xff).
Proof.
  intros Nx Ny. pose proof Nx as [Hx Fx]. pose proof Ny as [Hy Fy].
  assert (- f64_infinity <= sval x <= f64_infinity) as Hs.
  { unfold is_nan in Fx. apply Z.ltb_ge in Fx. destruct (f64_abs_split x Hx) as [_ ?].
    unfold sval. destruct (f64_neg x); lia. }
  assert (bytes_le (encode_score x) (encode_score f64_infinity)) as Hle.
  { apply bytes_not_lt_le. rewrite encode_score_lt, rank_lt_sval by done.
    change (sval f64_infinity) with f64_infinity. unfold f64_infinity in *. lia. }
  split; [by apply decode_encode_score|]. split; [|split; [|split; [|split; [done|]]]].
  - rewrite f64_ltb_sval, Z.ltb_lt, encode_score_lt, rank_lt_sval by done. auto.
  - rewrite encode_score_lt, rank_lt_sval, f64_leb_sval, Z.leb_le by done.
    intros [?|[-> ->]]; [lia|done].
  - apply bytes_not_lt_le. rewrite encode_score_lt, rank_lt_sval by done.
    change (sval f64_neg_infinity) with (- f64_infinity). unfold f64_infinity, f64_neg_infinity in *. lia.
  - apply (bytes_le_lt_trans _ (encode_score f64_infinity)); [done|]. by vm_compute.
Qed.

Lemma score_image_ordered_witness :
  decode_score (encode_score (2 ^ 63)) = 2 ^ 63
  /\ (f64_ltb (2 ^ 63) 1 = true -> bytes_lt (encode_score (2 ^ 63)) (encode_score 1))
  /\ (bytes_lt (encode_score (2 ^ 63)) (encode_score 1) -> f64_leb (2 ^ 63) 1 = true)
  /\ bytes_le (encode_score f64_neg_infinity) (encode_score (2 ^ 63))
  /\ bytes_le (encode_score (2 ^ 63)) (encode_score f64_infinity)
  /\ bytes_lt (encode_score (2 ^ 63)) (replicate 8 Byte.xff).
Proof. apply (score_image_ordered (2 ^ 63) 1); done. Defined.
