(* ===== verification/ZSetCmd.v ===== *)
(** * Sorted set commands (src/cmd/zset.rs)

    The commands on sorted sets, which keep two indexes of each set: from
    member to score in the family [subkey] and from (score, member) in the
    family [zset_score], whose key order is the order of the set. *)

From S2P Require Import Prelude Bytes Text Error Types Encoding Backend Storage Float Protocol.
From S2P Require Import Context Keyspace Paging Score.

Local Open Scope Z_scope.

Definition ZSET_PAGE_SIZE : Z := 1024.

(** Size of an [(f64, Vec<u8>)]. *)
Definition SCORED_SIZE : Z := 32.

Abbreviation scored := (f64 * bytes)%type.

(** ** ZADD options *)

Record ZaddFlags := mkFlags { nx : bool; xx : bool; gt : bool; lt : bool; ch : bool; incr : bool }.

Definition no_flags : ZaddFlags := mkFlags false false false false false false.

(** The option loop: the flags and the number of options. *)
Fixpoint zadd_flags_loop (flags : ZaddFlags) (i : nat) (args : list bytes) : ZaddFlags * nat :=
  match args with
  | [] => (flags, i)
  | a :: rest =>
      let upper := to_ascii_uppercase a in
      let '(mkFlags n x g l c r) := flags in
      if bool_decide (upper = bs "NX") then zadd_flags_loop (mkFlags true x g l c r) (S i) rest
      else if bool_decide (upper = bs "XX") then zadd_flags_loop (mkFlags n true g l c r) (S i) rest
      else if bool_decide (upper = bs "GT") then zadd_flags_loop (mkFlags n x true l c r) (S i) rest
      else if bool_decide (upper = bs "LT") then zadd_flags_loop (mkFlags n x g true c r) (S i) rest
      else if bool_decide (upper = bs "CH") then zadd_flags_loop (mkFlags n x g l true r) (S i) rest
      else if bool_decide (upper = bs "INCR") then zadd_flags_loop (mkFlags n x g l c true) (S i) rest
      else (flags, i)
  end.

Definition parse_zadd_flags (args : list bytes) : outcome (ZaddFlags * nat) :=
  let '(flags, i) := zadd_flags_loop no_flags 0 args in
  if nx flags && xx flags
  then Err (Command (bs "XX and NX options at the same time are not compatible"))
  else if gt flags && lt flags
  then Err (Command (bs "GT, LT, and/or NX options at the same time are not compatible"))
  else if nx flags && (gt flags || lt flags)
  then Err (Command (bs "GT, LT, and/or NX options at the same time are not compatible"))
  else Ok (flags, i).

(** [updates.insert(member, score)] on the entries inserted so far. *)
Fixpoint hm_insert (member : bytes) (score : f64) (updates : list (bytes * f64))
  : list (bytes * f64) :=
  match updates with
  | [] => [(member, score)]
  | (m, s) :: rest =>
      if decide (m = member) then (m, score) :: rest else (m, s) :: hm_insert member score rest
  end.

Record Limit := mkLimit { offset : Z; count : Z }.

Section ZSetCommands.
Context {DB : Type} {RDB : RocksDB DB}.
Variable ctx : CommandContext.
(** The order in which a [HashMap] with these entries is iterated. *)
Variable hash_order : list (bytes * f64) -> list (bytes * f64).

Definition check_meta (v : bytes) : outcome (option Metadata) :=
  match v with
  | [] => Ok None
  | b :: _ =>
      data_type ← ok_or (from_code (Z.land (byte_to_Z b) 0x0F)) (Protocol (bs "invalid data type"));
      if bool_decide (data_type = DString) then Err wrong_type_error
      else
        meta ← ok_or (decode_metadata v) (Protocol (bs "invalid metadata encoding"));
        if is_expired meta (now_ms ctx) then Ok None else Ok (Some meta)
  end.

Definition load_meta (user_key : bytes) : M DB (option Metadata) :=
  m ← get_meta ctx user_key;
  match m with
  | Some v => lift (check_meta v)
  | None => mret None
  end.

Definition ensure_zset_meta (user_key : bytes) : M DB Metadata :=
  m ← load_meta user_key;
  match m with
  | Some meta =>
      if negb (bool_decide (data_type meta = Some DZSet)) then throw wrong_type_error else mret meta
  | None => mret (metadata_new DZSet (new_version ctx))
  end.

Definition read_zset_meta (user_key : bytes) : M DB (option Metadata) :=
  m ← load_meta user_key;
  match m with
  | Some meta =>
      if negb (bool_decide (data_type meta = Some DZSet)) then throw wrong_type_error
      else mret (Some meta)
  | None => mret None
  end.

Definition member_subkey (user_key : bytes) (version : Z) (member : bytes) : bytes :=
  sub_key ctx user_key version member.

Definition score_subkey (user_key : bytes) (version : Z) (score : f64) (member : bytes) : bytes :=
  sub_key ctx user_key version (encode_score score ++ member).

Definition score_seek_key (user_key : bytes) (version : Z) (score : f64) : bytes :=
  score_subkey user_key version score [].

Definition parse_score_subkey (key : bytes) : option scored :=
  match ctx_parse_subkey ctx key with
  | Some (_, _, sub) =>
      if (length sub <? 8)%nat then None else Some (decode_score (take 8 sub), drop 8 sub)
  | None => None
  end.

(** [parse_score_subkey(..).ok_or_else(..)?]. *)
Definition scored_item (item : kv) : outcome scored :=
  ok_or (parse_score_subkey item.1) (Protocol (bs "invalid zset score subkey")).

Fixpoint scored_items (pairs : list scored) (items : list kv) : outcome (list scored) :=
  match items with
  | [] => Ok pairs
  | x :: rest => p ← scored_item x; scored_items (pairs ++ [p]) rest
  end.

Definition iter_score_page (user_key : bytes) (version : Z) (start_key : bytes)
  : M DB (list scored * option bytes) :=
  '(items, next_key) ←
    prefix_scan_page CF_ZSET_SCORE (sub_key ctx user_key version []) start_key ZSET_PAGE_SIZE;
  pairs ← lift (scored_items [] items);
  mret (pairs, next_key).

Definition iter_score_page_reverse (user_key : bytes) (version : Z) (start_key : bytes)
  : M DB (list scored * option bytes) :=
  '(items, next_key) ←
    prefix_scan_page_reverse CF_ZSET_SCORE (sub_key ctx user_key version []) start_key
      ZSET_PAGE_SIZE;
  pairs ← lift (scored_items [] items);
  mret (pairs, next_key).

(** Every round but the last yields an item of the index. *)
Definition score_loop {A X} (user_key : bytes) (version : Z)
    (page : bytes -> M DB (list X * option bytes))
    (body : A -> X -> outcome (ctrl A)) (start_key : bytes) (a : A) : M DB A :=
  with_state (fun d =>
    page_loop_from (S (length (db_seek d CF_ZSET_SCORE (sub_key ctx user_key version []))))
      page body start_key a).

(** [decode_score(bytes[..8].try_into()?)]. *)
Definition stored_score (bytes : bytes) : M DB f64 :=
  if (length bytes <? 8)%nat then panic else mret (decode_score (take 8 bytes)).

(** ZADD with the option INCR. *)
Definition zadd_incr (user_key : bytes) (flags : ZaddFlags) (meta : Metadata) (score_arg member : bytes)
  : M DB RespValue :=
  let version := md_version meta in
  score ← lift (parse_score score_arg);
  let mkey := member_subkey user_key version member in
  existing ← Storage.get CF_SUBKEY mkey;
  if nx flags && bool_decide (is_Some existing) then mret (BulkString None)
  else if xx flags && negb (bool_decide (is_Some existing)) then mret (BulkString None)
  else
    match existing with
    | Some old_bytes =>
        old_score ← stored_score old_bytes;
        let new_score := f64_add old_score score in
        if negb (is_finite new_score)
        then throw (Command (bs "increment would produce NaN or Infinity"))
        else if gt flags && f64_leb new_score old_score then mret (BulkString None)
        else if lt flags && f64_leb old_score new_score then mret (BulkString None)
        else
          batch ← batch_delete [] CF_ZSET_SCORE (score_subkey user_key version old_score member);
          batch ← batch_put batch CF_SUBKEY mkey (encode_score new_score);
          batch ← batch_put batch CF_ZSET_SCORE (score_subkey user_key version new_score member) [];
          batch ← batch_put batch CF_METADATA (meta_key ctx user_key) (encode_metadata meta);
          _ ← write batch;
          mret (bulk (format_score new_score))
    | None =>
        batch ← batch_put [] CF_SUBKEY mkey (encode_score score);
        batch ← batch_put batch CF_ZSET_SCORE (score_subkey user_key version score member) [];
        size ← arith_u64 (checks ctx) (md_size meta + 1);
        batch ← batch_put batch CF_METADATA (meta_key ctx user_key)
                  (encode_metadata (set_size size meta));
        _ ← write batch;
        mret (bulk (format_score score))
    end.

(** The writes that give [member] its score. *)
Definition put_score (user_key : bytes) (version : Z) (batch : WriteBatch) (member : bytes) (score : f64)
  : M DB WriteBatch :=
  batch ← batch_put batch CF_SUBKEY (member_subkey user_key version member) (encode_score score);
  batch_put batch CF_ZSET_SCORE (score_subkey user_key version score member) [].

(** One update of ZADD: the metadata, the batch and the two counters. *)
Definition zadd_update (user_key : bytes) (flags : ZaddFlags)
    (st : Metadata * WriteBatch * Z * Z) (update : bytes * f64)
  : M DB (Metadata * WriteBatch * Z * Z) :=
  let '(meta, batch, added, changed) := st in
  let '(member, score) := update in
  let version := md_version meta in
  existing ← Storage.get CF_SUBKEY (member_subkey user_key version member);
  match existing with
  | Some old_bytes =>
      old_score ← stored_score old_bytes;
      if nx flags then mret st
      else if gt flags && f64_leb score old_score then mret st
      else if lt flags && f64_leb old_score score then mret st
      else if f64_eqb old_score score then mret st
      else
        batch ← batch_delete batch CF_ZSET_SCORE (score_subkey user_key version old_score member);
        changed ← arith_i64 (checks ctx) (changed + 1);
        batch ← put_score user_key version batch member score;
        mret (meta, batch, added, changed)
  | None =>
      if xx flags then mret st
      else
        added ← arith_i64 (checks ctx) (added + 1);
        changed ← arith_i64 (checks ctx) (changed + 1);
        size ← arith_u64 (checks ctx) (md_size meta + 1);
        batch ← put_score user_key version batch member score;
        mret (set_size size meta, batch, added, changed)
  end.

(** The scores of the command, the last one of every member. *)
Fixpoint collect_updates (updates : list (bytes * f64)) (l : list (bytes * bytes))
  : outcome (list (bytes * f64)) :=
  match l with
  | [] => Ok updates
  | (s, m) :: rest => score ← parse_score s; collect_updates (hm_insert m score updates) rest
  end.

Definition zadd (args : list bytes) : M DB RespValue :=
  _ ← expect_min_arg_count "ZADD" args 3;
  user_key ← index args 0;
  '(flags, opt_count) ← lift (parse_zadd_flags (drop 1 args));
  let pair_args := drop (1 + opt_count) args in
  if bool_decide (pair_args = []) || negb (Nat.eqb (length pair_args mod 2) 0)
  then throw (WrongArgCount (bs "ZADD"))
  else if incr flags && negb (Nat.eqb (length pair_args) 2)
  then throw (Command (bs "INCR option supports a single increment-element pair"))
  else
    meta ← ensure_zset_meta user_key;
    if incr flags then
      score_arg ← index pair_args 0;
      member ← index pair_args 1;
      zadd_incr user_key flags meta score_arg member
    else
      updates ← lift (collect_updates [] (pairs pair_args));
      '(meta, batch, added, changed) ←
        mfold (zadd_update user_key flags) (meta, [], 0, 0) (hash_order updates);
      batch ← batch_put batch CF_METADATA (meta_key ctx user_key) (encode_metadata meta);
      _ ← write batch;
      mret (Integer (if ch flags then changed else added)).

(** ** Ranges by rank *)

Definition normalize_index (idx len : Z) : M DB Z :=
  if idx <? 0 then s ← arith_i64 (checks ctx) (len + idx); mret (Z.max s 0) else mret idx.

Definition rank_range (len start stop : Z) : M DB (Z * Z) :=
  s ← normalize_index start len;
  e ← normalize_index stop len;
  if (e <? s) || (len <=? s) then mret (0, 0)
  else let e := Z.min e (len - 1) in mret (s, e - s + 1).

(** The page of [collect_rank_range_items], ZRANK and ZREVRANK: the reverse
    scan starts above every score. *)
Definition rank_page (user_key : bytes) (version : Z) (reverse : bool) (current_key : bytes)
  : M DB Page :=
  let prefix := sub_key ctx user_key version [] in
  if reverse then
    if bool_decide (current_key = []) then
      prefix_scan_page_reverse CF_ZSET_SCORE prefix (prefix ++ replicate 8 Byte.xff) ZSET_PAGE_SIZE
    else prefix_scan_page_reverse CF_ZSET_SCORE prefix current_key ZSET_PAGE_SIZE
  else prefix_scan_page CF_ZSET_SCORE prefix current_key ZSET_PAGE_SIZE.

Definition collect_item (start_rank count : Z) (st : list scored * Z) (item : kv)
  : outcome (ctrl (list scored * Z)) :=
  let '(result, skipped) := st in
  p ← scored_item item;
  if skipped <? start_rank then Ok (Continue (result, skipped + 1))
  else
    let result := result ++ [p] in
    if count <=? Z.of_nat (length result) then Ok (Break (result, skipped))
    else Ok (Continue (result, skipped)).

Definition collect_rank_range_items (user_key : bytes) (version start_rank count : Z) (reverse : bool)
  : M DB (list scored) :=
  if count =? 0 then mret []
  else if capacity_overflow SCORED_SIZE count then panic
  else
    '(result, _) ← score_loop user_key version (rank_page user_key version reverse)
                     (collect_item start_rank count) [] ([], 0);
    mret result.

(** The replies for an item. *)
Definition scored_replies (with_scores : bool) (p : scored) : list RespValue :=
  if with_scores then [bulk p.2; bulk (format_score p.1)] else [bulk p.2].

(** ZRANGE and ZREVRANGE. *)
Definition zrange_gen (name : string) (reverse : bool) (args : list bytes) : M DB RespValue :=
  if negb (Nat.eqb (length args) 3) && negb (Nat.eqb (length args) 4)
  then throw (WrongArgCount (bs name))
  else
    with_scores ← (if Nat.eqb (length args) 4
                   then a3 ← index args 3;
                        if eq_ignore_ascii_case a3 (bs "WITHSCORES") then mret true
                        else throw (Command (bs "syntax error"))
                   else mret false);
    user_key ← index args 0;
    m ← read_zset_meta user_key;
    match m with
    | None => mret (Array [])
    | Some meta =>
        a1 ← index args 1;
        start ← arg_i64 a1;
        a2 ← index args 2;
        stop ← arg_i64 a2;
        '(start_rank, count) ← rank_range (wrap_i64 (md_size meta)) start stop;
        items ← collect_rank_range_items user_key (md_version meta) start_rank count reverse;
        mret (Array (concat (map (scored_replies with_scores) items)))
    end.

Definition zrange : list bytes -> M DB RespValue := zrange_gen "ZRANGE" false.
Definition zrevrange : list bytes -> M DB RespValue := zrange_gen "ZREVRANGE" true.

(** ** Ranges by score *)

Definition parse_usize (s : bytes) : outcome Z := ok_or (parse_text parse_u64 s) NotInteger.

Fixpoint zrangebyscore_options (with_scores : bool) (limit : Limit) (args : list bytes)
  : outcome (bool * Limit) :=
  match args with
  | [] => Ok (with_scores, limit)
  | arg :: rest =>
      if eq_ignore_ascii_case arg (bs "WITHSCORES") then zrangebyscore_options true limit rest
      else if eq_ignore_ascii_case arg (bs "LIMIT") then
        match rest with
        | a1 :: a2 :: rest' =>
            o ← parse_usize a1;
            c ← parse_usize a2;
            zrangebyscore_options with_scores (mkLimit o c) rest'
        | _ => Err (Command (bs "syntax error"))
        end
      else Err (Command (bs "syntax error"))
  end.

Definition parse_zrangebyscore_options (args : list bytes) : outcome (bool * Limit) :=
  zrangebyscore_options false (mkLimit 0 0) args.

(** The counters and the reply so far. *)
Record byscore_state := mkByScore { result : list RespValue; seen : Z; matched : Z }.

(** An item in the range, after the tests on its score. *)
Definition byscore_take (with_scores : bool) (limit : Limit) (st : byscore_state) (p : scored)
  : ctrl byscore_state :=
  let seen' := seen st + 1 in
  if seen' <=? offset limit then Continue (mkByScore (result st) seen' (matched st))
  else
    let result' := result st ++ scored_replies with_scores p in
    let matched' := matched st + 1 in
    if (0 <? count limit) && (count limit <=? matched')
    then Break (mkByScore result' seen' matched')
    else Continue (mkByScore result' seen' matched').

Definition byscore_item (max : f64) (with_scores : bool) (limit : Limit) (st : byscore_state)
    (p : scored) : outcome (ctrl byscore_state) :=
  if f64_ltb max p.1 then Ok (Break st) else Ok (byscore_take with_scores limit st p).

Definition revbyscore_item (max min : f64) (with_scores : bool) (limit : Limit) (st : byscore_state)
    (p : scored) : outcome (ctrl byscore_state) :=
  if f64_ltb max p.1 then Ok (Continue st)
  else if f64_ltb p.1 min then Ok (Break st)
  else Ok (byscore_take with_scores limit st p).

Definition zrangebyscore (args : list bytes) : M DB RespValue :=
  if (length args <? 3)%nat then throw (WrongArgCount (bs "ZRANGEBYSCORE"))
  else
    user_key ← index args 0;
    m ← read_zset_meta user_key;
    match m with
    | None => mret (Array [])
    | Some meta =>
        a1 ← index args 1;
        min ← lift (parse_score a1);
        a2 ← index args 2;
        max ← lift (parse_score a2);
        '(with_scores, limit) ← lift (parse_zrangebyscore_options (drop 3 args));
        st ← score_loop user_key (md_version meta) (iter_score_page user_key (md_version meta))
               (byscore_item max with_scores limit)
               (score_seek_key user_key (md_version meta) min) (mkByScore [] 0 0);
        mret (Array (result st))
    end.

Definition zrevrangebyscore (args : list bytes) : M DB RespValue :=
  if (length args <? 3)%nat then throw (WrongArgCount (bs "ZREVRANGEBYSCORE"))
  else
    user_key ← index args 0;
    m ← read_zset_meta user_key;
    match m with
    | None => mret (Array [])
    | Some meta =>
        a1 ← index args 1;
        max ← lift (parse_score a1);
        a2 ← index args 2;
        min ← lift (parse_score a2);
        '(with_scores, limit) ← lift (parse_zrangebyscore_options (drop 3 args));
        st ← score_loop user_key (md_version meta)
               (iter_score_page_reverse user_key (md_version meta))
               (revbyscore_item max min with_scores limit) [] (mkByScore [] 0 0);
        mret (Array (result st))
    end.

(** ** Single members *)

(** One member of ZREM. *)
Definition zrem_member (user_key : bytes) (st : Metadata * WriteBatch * Z) (member : bytes)
  : M DB (Metadata * WriteBatch * Z) :=
  let '(meta, batch, removed) := st in
  let version := md_version meta in
  let mkey := member_subkey user_key version member in
  v ← Storage.get CF_SUBKEY mkey;
  match v with
  | None => mret st
  | Some old_bytes =>
      old_score ← stored_score old_bytes;
      batch ← batch_delete batch CF_SUBKEY mkey;
      batch ← batch_delete batch CF_ZSET_SCORE (score_subkey user_key version old_score member);
      removed ← arith_i64 (checks ctx) (removed + 1);
      mret (set_size (Z.max 0 (md_size meta - 1)) meta, batch, removed)
  end.

Definition zrem (args : list bytes) : M DB RespValue :=
  _ ← expect_min_arg_count "ZREM" args 2;
  user_key ← index args 0;
  m ← read_zset_meta user_key;
  match m with
  | None => mret (Integer 0)
  | Some meta =>
      '(meta, batch, removed) ← mfold (zrem_member user_key) (meta, [], 0) (drop 1 args);
      _ ← (if 0 <? removed then
             batch ← batch_put batch CF_METADATA (meta_key ctx user_key) (encode_metadata meta);
             write batch
           else mret tt);
      mret (Integer removed)
  end.

(** The item loop of ZRANK and ZREVRANK: the rank reached, and whether the
    member was found. *)
Definition rank_item (target_score : f64) (target : bytes) (st : Z * bool) (item : kv)
  : outcome (ctrl (Z * bool)) :=
  let '(rank, found) := st in
  p ← scored_item item;
  if f64_eqb p.1 target_score && bool_decide (p.2 = target) then Ok (Break (rank, true))
  else Ok (Continue (rank + 1, found)).

(** ZRANK and ZREVRANK. *)
Definition zrank_gen (name : string) (reverse : bool) (args : list bytes) : M DB RespValue :=
  _ ← expect_arg_count name args 2;
  user_key ← index args 0;
  m ← read_zset_meta user_key;
  match m with
  | None => mret (BulkString None)
  | Some meta =>
      target ← index args 1;
      v ← Storage.get CF_SUBKEY (member_subkey user_key (md_version meta) target);
      match v with
      | None => mret (BulkString None)
      | Some bytes =>
          target_score ← stored_score bytes;
          '(rank, found) ← score_loop user_key (md_version meta)
                             (rank_page user_key (md_version meta) reverse)
                             (rank_item target_score target) [] (0, false);
          mret (if (found : bool) then Integer rank else BulkString None)
      end
  end.

Definition zrank : list bytes -> M DB RespValue := zrank_gen "ZRANK" false.
Definition zrevrank : list bytes -> M DB RespValue := zrank_gen "ZREVRANK" true.

Definition zscore (args : list bytes) : M DB RespValue :=
  _ ← expect_arg_count "ZSCORE" args 2;
  user_key ← index args 0;
  m ← read_zset_meta user_key;
  match m with
  | None => mret (BulkString None)
  | Some meta =>
      member ← index args 1;
      v ← Storage.get CF_SUBKEY (member_subkey user_key (md_version meta) member);
      match v with
      | Some bytes => score ← stored_score bytes; mret (bulk (format_score score))
      | None => mret (BulkString None)
      end
  end.

Definition zcard (args : list bytes) : M DB RespValue :=
  _ ← expect_arg_count "ZCARD" args 1;
  user_key ← index args 0;
  m ← read_zset_meta user_key;
  match m with
  | None => mret (Integer 0)
  | Some meta => mret (Integer (wrap_i64 (md_size meta)))
  end.

Definition zincrby (args : list bytes) : M DB RespValue :=
  _ ← expect_arg_count "ZINCRBY" args 3;
  user_key ← index args 0;
  a1 ← index args 1;
  increment ← lift (parse_score a1);
  member ← index args 2;
  meta ← ensure_zset_meta user_key;
  let version := md_version meta in
  v ← Storage.get CF_SUBKEY (member_subkey user_key version member);
  '(meta, batch, new_score) ←
    match v with
    | Some old_bytes =>
        old_score ← stored_score old_bytes;
        let new_score := f64_add old_score increment in
        if negb (is_finite new_score)
        then throw (Command (bs "increment would produce NaN or Infinity"))
        else
          batch ← batch_delete [] CF_ZSET_SCORE (score_subkey user_key version old_score member);
          mret (meta, batch, new_score)
    | None =>
        size ← arith_u64 (checks ctx) (md_size meta + 1);
        mret (set_size size meta, [], increment)
    end;
  batch ← put_score user_key version batch member new_score;
  batch ← batch_put batch CF_METADATA (meta_key ctx user_key) (encode_metadata meta);
  _ ← write batch;
  mret (bulk (format_score new_score)).

End ZSetCommands.

Example zset_session :
  let id := fun l : list (bytes * f64) => l in
  fst ((a ← zadd ctx0 id [bs "z"; bs "2"; bs "b"; bs "1"; bs "a"; bs "3"; bs "b"];
        b ← zadd ctx0 id [bs "z"; bs "GT"; bs "CH"; bs "2"; bs "b"; bs "-0.5"; bs "c"];
        c ← zrange ctx0 [bs "z"; bs "0"; bs "-1"; bs "WITHSCORES"];
        e ← zrevrange ctx0 [bs "z"; bs "0"; bs "1"];
        f ← zrangebyscore ctx0 [bs "z"; bs "0"; bs "+inf"; bs "LIMIT"; bs "1"; bs "5"];
        g ← zrevrangebyscore ctx0 [bs "z"; bs "2.5"; bs "-inf"];
        h ← zrank ctx0 [bs "z"; bs "b"];
        i ← zrevrank ctx0 [bs "z"; bs "b"];
        j ← zincrby ctx0 [bs "z"; bs "0.25"; bs "a"];
        k ← zrem ctx0 [bs "z"; bs "c"; bs "x"];
        l ← zcard ctx0 [bs "z"];
        m ← zscore ctx0 [bs "z"; bs "a"];
        mret [a; b; c; e; f; g; h; i; j; k; l; m]) db0)
  = Ok [Integer 2; Integer 1;
        Array (map bulk [bs "c"; bs "-0.5"; bs "a"; bs "1"; bs "b"; bs "3"]);
        Array (map bulk [bs "b"; bs "a"]); Array (map bulk [bs "b"]);
        Array (map bulk [bs "a"; bs "c"]); Integer 2; Integer 0; bulk (bs "1.25");
        Integer 1; Integer 2; bulk (bs "1.25")].
Proof. vm_compute. reflexivity. Qed.
