(* ===== verification/ZSetIndex.v ===== *)
(** * The two indexes of a sorted set

    The representation of a sorted set as a finite map from members to scores,
    how batches of index operations change it, and the score index as the list
    of the set in order, forwards and backwards, read page by page. *)

From S2P Require Import Prelude Bytes Text Error Types Encoding Backend Storage Float Protocol.
From S2P Require Import Context Keyspace Paging Score ZSetCmd.

Local Open Scope Z_scope.

(** ** Pages of a reverse scan *)

Section Reverse.
Context {DB : Type} {RDB : RocksDB DB}.
Implicit Types (d : DB) (prefix s : bytes).

(** The items below [s] a reverse scan has ahead of it. *)
Definition remaining_rev d cf prefix s : list kv :=
  reverse (filter (fun x => bytes_ltb x.1 s = true) (entries d cf prefix)).

Lemma sorted_gt_ext (l1 l2 : list kv) :
  StronglySorted key_gt l1 -> StronglySorted key_gt l2 ->
  (forall x, x ∈ l1 <-> x ∈ l2) -> l1 = l2.
Proof.
  intros H1 H2 Hx. rewrite <- (reverse_involutive l1), <- (reverse_involutive l2). f_equal.
  assert (forall l : list kv, StronglySorted key_gt l -> StronglySorted key_lt (reverse l)) as Hr.
  { clear. induction 1 as [|x l HS IH Hx]; [constructor|]. rewrite reverse_cons.
    assert (Forall (fun y => key_lt y x) (reverse l)) as Hf.
    { rewrite Forall_forall in Hx |- *. intros y. rewrite elem_of_reverse. apply Hx. }
    revert IH Hf. generalize (reverse l). clear. intros l HS HF.
    induction HS as [|y l HS IH Hy]; simpl; [repeat constructor|].
    apply Forall_cons in HF as [Hyx HF]. constructor; [by apply IH|].
    apply Forall_app. split; [done|]. by constructor. }
  apply sorted_ext; [by apply Hr|by apply Hr|]. intros x. by rewrite !elem_of_reverse.
Qed.

Lemma sorted_gt_take_prefix prefix (l : list kv) :
  StronglySorted key_gt l -> StronglySorted key_gt (take_prefix prefix l).
Proof.
  assert (forall P x, Forall P x -> Forall P (take_prefix prefix x)) as HF.
  { intros P. induction 1 as [|[k v] x Hx _ IH]; simpl; [constructor|].
    destruct (starts_with prefix k); simpl; by constructor. }
  induction 1 as [|[k v] l _ IH Hl]; simpl; [constructor|].
  destruct (starts_with prefix k); simpl; constructor; auto.
Qed.

(** Going down from a key of the prefix, the keys of the prefix come first. *)
Lemma take_prefix_complete_rev prefix (l : list kv) s k v :
  StronglySorted key_gt l -> Forall (fun x => bytes_le x.1 s) l -> starts_with prefix s = true ->
  (k, v) ∈ l -> starts_with prefix k = true -> (k, v) ∈ take_prefix prefix l.
Proof.
  intros HS HF Hs Hin Hk. induction HS as [|[k' v'] l HS IH Hl]; [by apply elem_of_nil in Hin|].
  apply Forall_cons in HF as [Hle HF]. simpl in *. apply elem_of_cons in Hin as [E|Hin].
  - simplify_eq. rewrite Hk. by left.
  - rewrite Forall_forall in Hl. pose proof (Hl _ Hin) as Hlt. unfold key_gt in Hlt. simpl in Hlt.
    rewrite (starts_with_convex prefix k' s); [right; auto|done| |done].
    apply starts_with_spec in Hk as [t ->]. etransitivity; [apply bytes_le_app|].
    apply bytes_le_lteq. by left.
Qed.

(** The items after the start key itself is skipped. *)
Definition skip_start s (items : list kv) : list kv :=
  match items with
  | (k, v) :: rest => if bool_decide (k = s) then rest else (k, v) :: rest
  | [] => []
  end.

Lemma seek_below d cf prefix s :
  starts_with prefix s = true ->
  take_prefix prefix (skip_start s (db_seek_for_prev d cf s)) = remaining_rev d cf prefix s.
Proof.
  intros Hs. pose proof (db_seek_for_prev_sorted d cf s) as HS.
  pose proof (db_seek_for_prev_elem d cf s) as HE.
  assert (StronglySorted key_gt (skip_start s (db_seek_for_prev d cf s))
    /\ forall k v, (k, v) ∈ skip_start s (db_seek_for_prev d cf s)
         <-> db_get d cf k = Some v /\ bytes_lt k s) as [HS' HE'].
  { unfold skip_start. destruct (db_seek_for_prev d cf s) as [|[k0 v0] rest].
    - split; [constructor|]. intros k v. rewrite elem_of_nil. split; [done|]. intros [Hg Hlt].
      apply (elem_of_nil (k, v)), HE. split; [done|]. apply bytes_le_lteq. by left.
    - apply StronglySorted_inv in HS as [HSr Hr]. rewrite Forall_forall in Hr. case_bool_decide as Hk.
      + subst k0. split; [done|]. intros k v. split.
        * intros Hin. split; [by apply (HE k v); right|]. apply (Hr _ Hin).
        * intros [Hg Hlt]. assert ((k, v) ∈ (s, v0) :: rest) as [E|?]%elem_of_cons; [|simplify_eq|done].
          { apply HE. split; [done|]. apply bytes_le_lteq. by left. }
          by apply bytes_lt_irrefl in Hlt.
      + split; [constructor; [done|by apply Forall_forall]|]. intros k v. rewrite HE.
        split; intros [Hg Hle]; (split; [done|]); [|apply bytes_le_lteq; by left].
        apply bytes_le_lteq in Hle as [?| ->]; [done|]. exfalso.
        assert ((s, v) ∈ (k0, v0) :: rest) as [E|Hin]%elem_of_cons by (by apply HE); [by simplify_eq|].
        pose proof (Hr _ Hin) as Hlt. unfold key_gt in Hlt. simpl in Hlt.
        assert (bytes_le k0 s) as Hle0 by (apply (HE k0 v0); by left).
        apply (bytes_lt_irrefl s). by eapply bytes_lt_le_trans. }
  apply sorted_gt_ext.
  - by apply sorted_gt_take_prefix.
  - apply StronglySorted_reverse, sorted_filter, entries_sorted.
  - intros [k v]. unfold remaining_rev. rewrite elem_of_reverse, list_elem_of_filter, entries_elem, bytes_ltb_spec.
    cbn [fst]. split.
    + intros Hin. apply take_prefix_sound in Hin as [Hin Hp]. apply HE' in Hin as [Hg Hlt]. done.
    + intros (Hlt & Hg & Hp). apply (take_prefix_complete_rev prefix _ s); [done| |done| |done].
      * apply Forall_forall. intros [k' v'] [_ ?]%HE'. apply bytes_le_lteq. by left.
      * by apply HE'.
Qed.

Lemma remaining_rev_sorted d cf prefix s : StronglySorted key_gt (remaining_rev d cf prefix s).
Proof. apply StronglySorted_reverse, sorted_filter, entries_sorted. Qed.

Lemma remaining_rev_elem d cf prefix s (x : kv) :
  x ∈ remaining_rev d cf prefix s <-> x ∈ entries d cf prefix /\ bytes_lt x.1 s.
Proof.
  unfold remaining_rev. rewrite elem_of_reverse, list_elem_of_filter, bytes_ltb_spec. tauto.
Qed.

Lemma remaining_rev_top d cf prefix top :
  (forall x, x ∈ entries d cf prefix -> bytes_lt x.1 top) ->
  remaining_rev d cf prefix top = reverse (entries d cf prefix).
Proof.
  intros Ht. unfold remaining_rev. f_equal. apply filter_all. intros x Hx. by apply bytes_ltb_spec, Ht.
Qed.

Lemma prefix_scan_page_reverse_ok d cf prefix s limit :
  db_has_cf d cf = true -> capacity_overflow KV_SIZE limit = false ->
  starts_with prefix s = true -> s <> [] ->
  prefix_scan_page_reverse cf prefix s limit d
  = (let R := remaining_rev d cf prefix s in
     let r := take (page_size limit) R in
     (Ok (r, if (page_size limit <? length R)%nat then fst <$> last r else None), d)).
Proof.
  intros Hcf Hcap Hs Hne. unfold prefix_scan_page_reverse, mbind, M_bind, cf_handle.
  rewrite Hcf, Hcap. unfold gets. rewrite bool_decide_false by done. cbv iota zeta.
  rewrite page_of_skip, page_of_spec. by rewrite <- seek_below.
Qed.

(** Without a start key the scan begins eight bytes 0xFF above the prefix. *)
Lemma prefix_scan_page_reverse_top d cf prefix limit :
  db_has_cf d cf = true -> capacity_overflow KV_SIZE limit = false -> prefix <> [] ->
  (forall x, x ∈ entries d cf prefix -> bytes_lt x.1 (prefix ++ replicate 8 Byte.xff)) ->
  prefix_scan_page_reverse cf prefix [] limit d
  = prefix_scan_page_reverse cf prefix (prefix ++ replicate 8 Byte.xff) limit d.
Proof.
  intros Hcf Hcap Hne Ht. set (top := prefix ++ replicate 8 Byte.xff) in *.
  rewrite (prefix_scan_page_reverse_ok d cf prefix top); [|done|done|apply starts_with_app|].
  2:{ unfold top. by destruct prefix. }
  unfold prefix_scan_page_reverse, mbind, M_bind, cf_handle.
  rewrite Hcf, Hcap. unfold gets. rewrite bool_decide_true by done. cbv iota zeta. fold top.
  rewrite page_of_skip, page_of_spec. rewrite <- seek_below by apply starts_with_app.
  assert (take_prefix prefix (skip_start [] (db_seek_for_prev d cf top))
          = take_prefix prefix (skip_start top (db_seek_for_prev d cf top))) as E.
  2:{ unfold skip_start in E at 1. by rewrite E. }
  pose proof (db_seek_for_prev_elem d cf top) as HE. pose proof (db_seek_for_prev_sorted d cf top) as HS.
  unfold skip_start. destruct (db_seek_for_prev d cf top) as [|[k v] rest]; [done|].
  rewrite (bool_decide_false (k = top)).
  2:{ intros ->. apply (bytes_lt_irrefl top). apply (Ht (top, v)), entries_elem.
      split; [|apply starts_with_app]. apply (HE top v). by left. }
  case_bool_decide as Hk; [|done]. subst k. destruct rest as [|[k' v'] rest].
  - simpl. by destruct prefix.
  - apply StronglySorted_inv in HS as [_ Hr]. apply Forall_cons in Hr as [Hlt _].
    unfold key_gt in Hlt. simpl in Hlt. by destruct k'.
Qed.

Lemma sorted_gt_after_take (l : list kv) n x :
  StronglySorted key_gt l -> last (take n l) = Some x ->
  filter (fun y => bytes_ltb y.1 x.1 = true) l = drop n l.
Proof.
  intros HS Hx. rewrite <- (take_drop n l) at 1. rewrite filter_app.
  pose proof (take_drop n l) as E. rewrite <- E in HS. clear E.
  revert HS Hx. generalize (take n l), (drop n l). clear. intros l1 l2 HS Hx.
  assert (forall y, y ∈ l2 -> key_gt x y) as H2.
  { intros y Hy. apply last_Some_elem_of in Hx. revert HS Hx. clear -Hy.
    induction l1 as [|z l1 IH]; simpl; intros HS Hx; [by apply elem_of_nil in Hx|].
    apply StronglySorted_inv in HS as [HS HF]. apply elem_of_cons in Hx as [->|Hx]; [|by apply IH].
    rewrite Forall_forall in HF. apply HF. apply elem_of_app. by right. }
  assert (forall y, y ∈ l1 -> ~ bytes_lt y.1 x.1) as H1.
  { intros y Hy Hlt. assert (y = x \/ key_gt y x) as [->|Hg].
    { revert HS Hx Hy. clear. induction l1 as [|z l1 IH]; intros HS Hx Hy; [by apply elem_of_nil in Hy|].
      apply StronglySorted_inv in HS as [HS HF]. rewrite Forall_forall in HF. rewrite last_cons in Hx.
      apply elem_of_cons in Hy as [->|Hy].
      - destruct (last l1) as [u|] eqn:El; [|left; by simplify_eq]. right. simplify_eq.
        apply HF, elem_of_app. left. by apply last_Some_elem_of.
      - destruct (last l1) as [u|] eqn:El; [|by apply last_None in El; subst; apply elem_of_nil in Hy].
        apply IH; [done|by simplify_eq|done]. }
    - by apply bytes_lt_irrefl in Hlt.
    - unfold key_gt in Hg. apply (bytes_lt_irrefl x.1). by eapply bytes_lt_trans. }
  rewrite (filter_none _ l1), (filter_all _ l2); [done|..]; intros y Hy.
  - by apply bytes_ltb_spec, H2.
  - rewrite bytes_ltb_spec. by apply H1.
Qed.

Lemma remaining_rev_next d cf prefix s n x :
  last (take n (remaining_rev d cf prefix s)) = Some x ->
  remaining_rev d cf prefix x.1 = drop n (remaining_rev d cf prefix s).
Proof.
  intros Hx. rewrite <- (sorted_gt_after_take _ n x) by (done || apply remaining_rev_sorted).
  assert (x ∈ remaining_rev d cf prefix s) as Hin.
  { apply last_Some_elem_of, elem_of_take in Hx as (i & Hi & _). apply list_elem_of_lookup. eauto. }
  apply remaining_rev_elem in Hin as [_ Hlt].
  apply sorted_gt_ext; [apply remaining_rev_sorted| |].
  - assert (forall l : list kv, StronglySorted key_gt l ->
      StronglySorted key_gt (filter (fun y => bytes_ltb y.1 x.1 = true) l)) as Hf.
    { clear. induction 1 as [|y l _ IH Hl]; [constructor|]. rewrite filter_cons. case_decide; [|done].
      constructor; [done|]. apply Forall_forall. intros z [_ Hz]%list_elem_of_filter.
      rewrite Forall_forall in Hl. by apply Hl. }
    apply Hf, remaining_rev_sorted.
  - intros y. rewrite list_elem_of_filter, !remaining_rev_elem, bytes_ltb_spec.
    split; [|tauto]. intros [? ?]. split; [done|]. split; [done|]. by eapply bytes_lt_trans.
Qed.

End Reverse.

Section Index.
Context {DB : Type} {RDB : RocksDB DB}.
Implicit Types (d : DB) (ctx : CommandContext) (k x : bytes) (s : f64) (m : gmap bytes f64).

(** The indexes at version [w] hold the map [m]. *)
Definition indexed d ctx k (w : Z) m : Prop :=
  (forall x, db_get d CF_SUBKEY (sub_key ctx k w x) = encode_score <$> m !! x)
  /\ (forall sub, is_Some (db_get d CF_ZSET_SCORE (sub_key ctx k w sub))
        <-> exists x s, m !! x = Some s /\ sub = encode_score s ++ x)
  /\ forall x s, m !! x = Some s -> number s.

Lemma image_app_inj s t x y : number s -> number t ->
  encode_score s ++ x = encode_score t ++ y -> s = t /\ x = y.
Proof.
  intros [Hs _] [Ht _] E. apply app_inj_1 in E as [E ->]; [|by rewrite !length_encode_score].
  split; [|done]. by apply encode_score_inj.
Qed.

(** *** Changing a score and removing a member *)

(** The database after a batch. *)
Definition after d d' (b : WriteBatch) : Prop :=
  forall cf key, db_get d' cf key = batch_effect cf key b (db_get d cf key).

Definition drop_old ctx k (w : Z) x (old : option f64) : WriteBatch :=
  match old with
  | Some o => [DeleteCf CF_ZSET_SCORE (sub_key ctx k w (encode_score o ++ x))]
  | None => []
  end.

Definition set_score ctx k (w : Z) x s : WriteBatch :=
  [PutCf CF_SUBKEY (sub_key ctx k w x) (encode_score s);
   PutCf CF_ZSET_SCORE (sub_key ctx k w (encode_score s ++ x)) []].

Definition remove_score ctx k (w : Z) x s : WriteBatch :=
  [DeleteCf CF_SUBKEY (sub_key ctx k w x);
   DeleteCf CF_ZSET_SCORE (sub_key ctx k w (encode_score s ++ x))].

Lemma sub_key_eqb ctx (cf : cf_name) k (w : Z) f g :
  (cf, sub_key ctx k w f) = (cf, sub_key ctx k w g) <-> f = g.
Proof. split; [|by intros ->]. intros E. apply (f_equal snd) in E. by apply sub_key_inj in E. Qed.

Lemma put_effect ctx (cf cf' : cf_name) k (w : Z) f g v c :
  op_effect cf (sub_key ctx k w f) (PutCf cf' (sub_key ctx k w g) v) c
  = if decide (cf' = cf /\ g = f) then Some v else c.
Proof.
  cbn [op_effect]. destruct (decide (cf' = cf)) as [->|Hne].
  - destruct (decide (g = f)) as [->|Hne].
    + by rewrite !decide_True.
    + rewrite !decide_False; [done|by intros []|by rewrite sub_key_eqb].
  - rewrite !decide_False; [done|by intros []|by intros [=]].
Qed.

Lemma delete_effect ctx (cf cf' : cf_name) k (w : Z) f g c :
  op_effect cf (sub_key ctx k w f) (DeleteCf cf' (sub_key ctx k w g)) c
  = if decide (cf' = cf /\ g = f) then None else c.
Proof.
  cbn [op_effect]. destruct (decide (cf' = cf)) as [->|Hne].
  - destruct (decide (g = f)) as [->|Hne].
    + by rewrite !decide_True.
    + rewrite !decide_False; [done|by intros []|by rewrite sub_key_eqb].
  - rewrite !decide_False; [done|by intros []|by intros [=]].
Qed.

Lemma drop_old_subkey ctx k (w : Z) x old y c :
  batch_effect CF_SUBKEY (sub_key ctx k w y) (drop_old ctx k w x old) c = c.
Proof.
  destruct old as [o|]; [|done]. cbn [drop_old]. change (batch_effect ?cf ?k [?o] c) with (op_effect cf k o c).
  rewrite delete_effect. rewrite decide_False; [done|]. by intros [[=]].
Qed.

Lemma drop_old_score ctx k (w : Z) x old sub c :
  batch_effect CF_ZSET_SCORE (sub_key ctx k w sub) (drop_old ctx k w x old) c
  = if decide ((fun o => encode_score o ++ x) <$> old = Some sub) then None else c.
Proof.
  destruct old as [o|]; [|done]. cbn [drop_old]. change (batch_effect ?cf ?k [?o] c) with (op_effect cf k o c).
  rewrite delete_effect. cbn [fmap option_fmap option_map].
  destruct (decide (encode_score o ++ x = sub)) as [->|Hne].
  - by rewrite !decide_True.
  - rewrite !decide_False; [done|by intros [=]|by intros []].
Qed.

(** Giving a member a score keeps the indexes consistent. *)
Lemma indexed_set d d' ctx k (w : Z) m x s :
  indexed d ctx k w m -> number s ->
  after d d' (drop_old ctx k w x (m !! x) ++ set_score ctx k w x s) ->
  indexed d' ctx k w (<[x:=s]> m).
Proof.
  intros (H1 & H2 & H3) Hs Ha. split; [|split].
  - intros y. rewrite Ha, batch_effect_app, drop_old_subkey.
    unfold set_score. change (batch_effect ?cf ?k [?o; ?p] ?c) with (op_effect cf k p (op_effect cf k o c)).
    rewrite !put_effect, (decide_False (P:=CF_ZSET_SCORE = _ /\ _)) by (by intros [[=]]).
    destruct (decide (x = y)) as [->|Hne].
    + rewrite decide_True by done. by rewrite lookup_insert_eq.
    + rewrite decide_False by (by intros []). by rewrite lookup_insert_ne.
  - intros sub. rewrite Ha, batch_effect_app, drop_old_score.
    unfold set_score. change (batch_effect ?cf ?k [?o; ?p] ?c) with (op_effect cf k p (op_effect cf k o c)).
    rewrite !put_effect, (decide_False (P:=CF_SUBKEY = _ /\ _)) by (by intros [[=]]).
    destruct (decide (encode_score s ++ x = sub)) as [<-|Hne].
    { rewrite decide_True by done. split; [|eauto]. intros _. exists x, s.
      by rewrite lookup_insert_eq. }
    rewrite decide_False by (by intros []). case_decide as Ho.
    + destruct (m !! x) as [o|] eqn:Eo; [|done]. cbn in Ho. simplify_eq. split; [by intros []|].
      intros (y & t & Hy & E). destruct (decide (x = y)) as [->|Hxy].
      * rewrite lookup_insert_eq in Hy. by simplify_eq.
      * rewrite lookup_insert_ne in Hy by done.
        apply image_app_inj in E as [-> ->]; [done|by eapply H3|by eapply H3].
    + rewrite H2. split; intros (y & t & Hy & ->).
      * destruct (decide (x = y)) as [->|Hxy]; [by rewrite Hy in Ho|].
        exists y, t. by rewrite lookup_insert_ne.
      * destruct (decide (x = y)) as [->|Hxy].
        -- rewrite lookup_insert_eq in Hy. by simplify_eq.
        -- rewrite lookup_insert_ne in Hy by done. eauto.
  - intros y t. destruct (decide (x = y)) as [->|Hxy].
    + rewrite lookup_insert_eq. by intros [= <-].
    + rewrite lookup_insert_ne by done. eauto.
Qed.

(** Removing a member keeps them consistent. *)
Lemma indexed_remove d d' ctx k (w : Z) m x s :
  indexed d ctx k w m -> m !! x = Some s ->
  after d d' (remove_score ctx k w x s) -> indexed d' ctx k w (base.delete x m).
Proof.
  intros (H1 & H2 & H3) Hx Ha. split; [|split].
  - intros y. rewrite Ha. unfold remove_score.
    change (batch_effect ?cf ?k [?o; ?p] ?c) with (op_effect cf k p (op_effect cf k o c)).
    rewrite !delete_effect, (decide_False (P:=CF_ZSET_SCORE = _ /\ _)) by (by intros [[=]]).
    destruct (decide (x = y)) as [->|Hne].
    + rewrite decide_True by done. by rewrite lookup_delete_eq.
    + rewrite decide_False by (by intros []). by rewrite lookup_delete_ne.
  - intros sub. rewrite Ha. unfold remove_score.
    change (batch_effect ?cf ?k [?o; ?p] ?c) with (op_effect cf k p (op_effect cf k o c)).
    rewrite !delete_effect, (decide_False (P:=CF_SUBKEY = _ /\ _)) by (by intros [[=]]).
    destruct (decide (encode_score s ++ x = sub)) as [<-|Hne].
    + rewrite decide_True by done. split; [by intros []|]. intros (y & t & Hy & E).
      apply lookup_delete_Some in Hy as [Hxy Hy].
      apply image_app_inj in E as [_ ->]; [done|by eapply H3|by eapply H3].
    + rewrite decide_False by (by intros []). rewrite H2. split; intros (y & t & Hy & ->).
      * exists y, t. split; [|done]. apply lookup_delete_Some. split; [|done].
        intros ->. by simplify_eq.
      * apply lookup_delete_Some in Hy as [_ Hy]. eauto.
  - intros y t [_ Hy]%lookup_delete_Some. eauto.
Qed.

(** ** Reading the score index *)

Definition unscore (sub : bytes) : scored := (decode_score (take 8 sub), drop 8 sub).

Definition score_of ctx k (w : Z) (item : kv) : scored := unscore (strip ctx k w item).1.

(** The set in the order of its score index. *)
Definition zlist d ctx k (w : Z) : list scored :=
  map (score_of ctx k w) (entries d CF_ZSET_SCORE (sub_key ctx k w [])).

(** Lower scores first, equal scores by member. *)
Definition before (p q : scored) : Prop :=
  rank p.1 < rank q.1 \/ (p.1 = q.1 /\ bytes_lt p.2 q.2).

(** [l] lists the sorted set [m] in order. *)
Definition zlisting m (l : list scored) : Prop :=
  StronglySorted before l /\ forall s x, (s, x) ∈ l <-> m !! x = Some s.

Lemma unscore_image s x : is_u64 s = true -> unscore (encode_score s ++ x) = (s, x).
Proof.
  intros Hs. unfold unscore. rewrite take_app_length' by by rewrite length_encode_score.
  rewrite drop_app_length' by by rewrite length_encode_score. by rewrite decode_encode_score.
Qed.

Lemma image_order s t x y : number s -> number t ->
  bytes_lt (encode_score s ++ x) (encode_score t ++ y) -> before (s, x) (t, y).
Proof.
  intros [Hs _] [Ht _]. unfold bytes_lt, before. cbn [fst snd].
  rewrite bytes_cmp_app_eqlen by by rewrite !length_encode_score.
  destruct (bytes_cmp (encode_score s) (encode_score t)) eqn:E; intros H; [right|left|done].
  - apply bytes_cmp_eq in E. split; [by apply encode_score_inj|done].
  - by apply encode_score_lt.
Qed.

Section Reading.
Context {d : DB} {ctx : CommandContext} {k : bytes} {w : Z} {m : gmap bytes f64}.
Hypotheses (Hwf : wf_db d) (Hk : short ctx k) (Hw : is_u64 w = true)
  (Hidx : indexed d ctx k w m).
Let prefix := sub_key ctx k w [].

(** Every item of the index is a score and its member. *)
Lemma entry_shape (item : kv) :
  item ∈ entries d CF_ZSET_SCORE prefix ->
  exists s x, m !! x = Some s /\ number s /\ item.1 = sub_key ctx k w (encode_score s ++ x)
    /\ score_of ctx k w item = (s, x).
Proof.
  destruct item as [key v]. intros [Hg Hp]%entries_elem. destruct Hidx as (_ & H2 & H3).
  pose proof (strip_sub_key ctx k w (key, v) Hp) as Es. cbn [fst] in Es.
  destruct (proj1 (H2 (strip ctx k w (key, v)).1)) as (x & s & Hx & E); [rewrite Es; eauto|].
  exists s, x. split; [done|]. pose proof (H3 x s Hx) as Hn. split; [done|].
  unfold score_of. rewrite E in *. split; [done|]. apply unscore_image, Hn.
Qed.

Lemma scored_item_ok item :
  item ∈ entries d CF_ZSET_SCORE prefix -> scored_item ctx item = Ok (score_of ctx k w item).
Proof.
  intros Hin. destruct (entry_shape item Hin) as (s & x & _ & [Hs _] & E & ->).
  unfold scored_item, parse_score_subkey. rewrite E, parse_sub_key by done.
  rewrite (proj2 (Nat.ltb_ge _ _)) by (rewrite length_app, length_encode_score; lia).
  fold (unscore (encode_score s ++ x)). by rewrite unscore_image.
Qed.

Lemma scored_items_ok acc items :
  (forall i, i ∈ items -> i ∈ entries d CF_ZSET_SCORE prefix) ->
  scored_items ctx acc items = Ok (acc ++ map (score_of ctx k w) items).
Proof.
  revert acc. induction items as [|i items IH]; intros acc Hin; simpl; [by rewrite app_nil_r|].
  rewrite scored_item_ok by (apply Hin; by left). cbn [mbind outcome_bind].
  rewrite IH by (intros j Hj; apply Hin; by right). by rewrite <- app_assoc.
Qed.

Lemma entries_below_top (item : kv) :
  item ∈ entries d CF_ZSET_SCORE prefix -> bytes_lt item.1 (prefix ++ replicate 8 Byte.xff).
Proof.
  intros Hin. destruct (entry_shape item Hin) as (s & x & _ & Hn & E & _).
  rewrite E, sub_key_app. unfold prefix, bytes_lt. rewrite bytes_cmp_app.
  rewrite <- (app_nil_r (replicate 8 Byte.xff)), bytes_cmp_app_eqlen
    by by rewrite length_encode_score.
  assert (bytes_cmp (encode_score s) (replicate 8 Byte.xff) = Lt) as ->; [|done].
  destruct Hn as [Hs Hnan]. rewrite encode_score_rank by done.
  replace (replicate 8 Byte.xff) with (be_bytes 8 (2 ^ 64 - 1)) by by vm_compute.
  apply be_bytes_lt; [by apply Score.rank_range|done|]. unfold rank. destruct (f64_abs_split s Hs) as [Es Ha].
  unfold is_nan in Hnan. apply Z.ltb_ge in Hnan. unfold f64_infinity in Hnan.
  destruct (f64_neg s); lia.
Qed.

Lemma zlist_listing : zlisting m (zlist d ctx k w).
Proof.
  split.
  - unfold zlist. pose proof (entries_sorted d CF_ZSET_SCORE prefix) as HS. fold prefix.
    pose proof entry_shape as Hsh. revert HS Hsh.
    generalize (entries d CF_ZSET_SCORE prefix). clear. intros l HS Hsh.
    induction HS as [|i l HS IH Hi]; [constructor|]. cbn [map]. constructor.
    + apply IH. intros j Hj. apply Hsh. by right.
    + apply Forall_map. rewrite Forall_forall in *. intros j Hj. specialize (Hi j Hj).
      destruct (Hsh i ltac:(by left)) as (s & x & _ & Ns & Ei & ->).
      destruct (Hsh j ltac:(by right)) as (t & y & _ & Nt & Ej & ->).
      apply image_order; [done..|]. unfold key_lt, bytes_lt in Hi.
      rewrite Ei, Ej, (sub_key_app _ _ _ (encode_score s ++ x)), (sub_key_app _ _ _ (encode_score t ++ y)),
        bytes_cmp_app in Hi. exact Hi.
  - intros s x. unfold zlist. fold prefix. rewrite list_elem_of_fmap. split.
    + intros (i & E & Hi). destruct (entry_shape i Hi) as (t & y & Hy & _ & _ & E2).
      rewrite E2 in E. by simplify_eq.
    + intros Hx. destruct Hidx as (_ & H2 & H3).
      destruct (proj2 (H2 (encode_score s ++ x))) as [v Hv]; [eauto|].
      exists (sub_key ctx k w (encode_score s ++ x), v).
      assert ((sub_key ctx k w (encode_score s ++ x), v) ∈ entries d CF_ZSET_SCORE prefix) as Hin.
      { apply entries_elem. split; [done|]. rewrite sub_key_app. apply starts_with_app. }
      split; [|done]. destruct (entry_shape _ Hin) as (t & y & Hy & Nt & E & ->). cbn [fst] in E.
      apply sub_key_inj, image_app_inj in E as [-> ->]; [done|by eapply H3|done].
Qed.

Lemma prefix_ne : prefix <> [].
Proof. apply subkey_nonempty. Qed.

Let n := page_size ZSET_PAGE_SIZE.

Lemma page_pos : (0 < n)%nat.
Proof. unfold n, page_size. lia. Qed.

(** What is left when a scan continues at [s]. *)
Definition left_backward (s : bytes) (l : list kv) : Prop :=
  (s = [] /\ l = reverse (entries d CF_ZSET_SCORE prefix))
  \/ (s <> [] /\ starts_with prefix s = true /\ l = remaining_rev d CF_ZSET_SCORE prefix s).

Lemma score_page (s : bytes) l :
  left_forward d CF_ZSET_SCORE prefix s l ->
  exists nxt, prefix_scan_page CF_ZSET_SCORE prefix s ZSET_PAGE_SIZE d = (Ok (take n l, nxt), d)
    /\ if (n <? length l)%nat then exists q, nxt = Some q /\ left_forward d CF_ZSET_SCORE prefix q (drop n l)
       else nxt = None.
Proof. apply forward_page; [done|auto with kv|apply prefix_ne|done|apply page_pos]. Qed.

Lemma remaining_rev_page (s : bytes) :
  starts_with prefix s = true -> s <> [] ->
  exists nxt, prefix_scan_page_reverse CF_ZSET_SCORE prefix s ZSET_PAGE_SIZE d
              = (Ok (take n (remaining_rev d CF_ZSET_SCORE prefix s), nxt), d)
    /\ if (n <? length (remaining_rev d CF_ZSET_SCORE prefix s))%nat
       then exists q, nxt = Some q
              /\ left_backward q (drop n (remaining_rev d CF_ZSET_SCORE prefix s))
       else nxt = None.
Proof.
  intros Hs Hne. rewrite prefix_scan_page_reverse_ok; [|apply Hwf; auto with kv|done..]. cbv zeta.
  fold n. eexists. split; [done|].
  destruct (n <? length _)%nat eqn:En; [|done]. apply Nat.ltb_lt in En.
  destruct (take_last_elem n (remaining_rev d CF_ZSET_SCORE prefix s)) as (y & El & Hy);
    [apply page_pos|by intros E; rewrite E in En; simpl in En; lia|].
  apply remaining_rev_elem in Hy as [Hy _]. destruct y as [key v].
  apply entries_elem in Hy as [_ Hy]. rewrite El. exists key. split; [done|]. right.
  split; [|split; [done|symmetry; apply (remaining_rev_next _ _ _ s n (key, v) El)]].
  intros ->. apply prefix_ne. by destruct prefix.
Qed.

Let top := prefix ++ replicate 8 Byte.xff.

Lemma top_ne : top <> [].
Proof. unfold top. pose proof prefix_ne. by destruct prefix. Qed.

Lemma remaining_rev_from_top :
  remaining_rev d CF_ZSET_SCORE prefix top = reverse (entries d CF_ZSET_SCORE prefix).
Proof. apply remaining_rev_top. apply entries_below_top. Qed.

Lemma backward_page (s : bytes) l :
  left_backward s l ->
  exists nxt, (if bool_decide (s = [])
               then prefix_scan_page_reverse CF_ZSET_SCORE prefix top ZSET_PAGE_SIZE
               else prefix_scan_page_reverse CF_ZSET_SCORE prefix s ZSET_PAGE_SIZE) d
              = (Ok (take n l, nxt), d)
    /\ if (n <? length l)%nat then exists q, nxt = Some q /\ left_backward q (drop n l)
       else nxt = None.
Proof.
  intros [[-> ->]|(Hne & Hs & ->)].
  - rewrite bool_decide_true, <- remaining_rev_from_top by done.
    apply remaining_rev_page; [apply starts_with_app|apply top_ne].
  - rewrite bool_decide_false by done. by apply remaining_rev_page.
Qed.

Lemma reverse_scan_page (s : bytes) l :
  left_backward s l ->
  exists nxt, prefix_scan_page_reverse CF_ZSET_SCORE prefix s ZSET_PAGE_SIZE d
              = (Ok (take n l, nxt), d)
    /\ if (n <? length l)%nat then exists q, nxt = Some q /\ left_backward q (drop n l)
       else nxt = None.
Proof.
  intros Hl. destruct (backward_page s l Hl) as (nxt & E & Hn). exists nxt. split; [|done].
  rewrite <- E. case_bool_decide as Es; [subst s|done].
  apply prefix_scan_page_reverse_top; [apply Hwf; auto with kv|done|apply prefix_ne|].
  apply entries_below_top.
Qed.

Lemma loop_fuel (l : list kv) :
  (length l <= length (entries d CF_ZSET_SCORE prefix))%nat ->
  (length l < S (length (db_seek d CF_ZSET_SCORE prefix)))%nat.
Proof. pose proof (entries_length d CF_ZSET_SCORE prefix). lia. Qed.

(** The loops of ZRANGE and ZRANK, and of their reverse forms. *)
Lemma rank_loop_ok {A} (body : A -> kv -> outcome (ctrl A)) (reverse : bool) a :
  score_loop ctx k w (rank_page ctx k w reverse) body [] a d
  = (ctrl_value <$> for_each body a
       (if reverse then list.reverse (entries d CF_ZSET_SCORE prefix)
        else entries d CF_ZSET_SCORE prefix), d).
Proof.
  unfold score_loop, with_state. destruct reverse.
  - apply (page_loop_from_ok d _ body n left_backward page_pos).
    + intros s l Hl. unfold rank_page. cbv zeta. fold prefix top.
      destruct (backward_page s l Hl) as (nxt & E & Hn). exists nxt. split; [|done].
      by case_bool_decide.
    + by left.
    + apply loop_fuel. by rewrite length_reverse.
  - apply (page_loop_from_ok d _ body n (left_forward d CF_ZSET_SCORE prefix) page_pos).
    + intros s l Hl. apply (score_page s l Hl).
    + split; [by left|done].
    + by apply loop_fuel.
Qed.

(** The loops of ZRANGEBYSCORE, from a key of the prefix on, and of
    ZREVRANGEBYSCORE. *)
Lemma byscore_loop_ok {A} (body : A -> scored -> outcome (ctrl A)) (s0 : bytes) a :
  starts_with prefix s0 = true -> s0 <> [] ->
  score_loop ctx k w (iter_score_page ctx k w) body s0 a d
  = (ctrl_value <$> for_each body a
       (map (score_of ctx k w) (remaining d CF_ZSET_SCORE prefix s0)), d).
Proof.
  intros Hs Hne. unfold score_loop, with_state.
  apply (page_loop_from_ok d _ body n
    (fun (s : bytes) L => exists l, left_forward d CF_ZSET_SCORE prefix s l /\ L = map (score_of ctx k w) l) page_pos).
  - intros s L (l & Hl & ->). destruct (score_page s l Hl) as (nxt & E & Hn). exists nxt. split.
    + unfold iter_score_page. fold prefix. rewrite (bind_Ok _ _ _ _ _ E). cbv beta iota.
      rewrite scored_items_ok; [by rewrite app_nil_l, firstn_map|].
      intros i (j & Hj & _)%elem_of_take. destruct Hl as [_ ->].
      apply (remaining_elem d CF_ZSET_SCORE prefix s), list_elem_of_lookup. eauto.
    + rewrite length_map. destruct (n <? length l)%nat; [|done].
      destruct Hn as (q & -> & Hq). exists q. split; [done|]. exists (drop n l).
      by rewrite skipn_map.
  - eexists. split; [|done]. split; [by right|done].
  - rewrite length_map. apply loop_fuel. unfold remaining. rewrite bool_decide_false by done.
    apply length_filter.
Qed.

Lemma revbyscore_loop_ok {A} (body : A -> scored -> outcome (ctrl A)) a :
  score_loop ctx k w (iter_score_page_reverse ctx k w) body [] a d
  = (ctrl_value <$> for_each body a (reverse (zlist d ctx k w)), d).
Proof.
  unfold score_loop, with_state.
  apply (page_loop_from_ok d _ body n
    (fun (s : bytes) L => exists l, left_backward s l /\ L = map (score_of ctx k w) l) page_pos).
  - intros s L (l & Hl & ->). destruct (reverse_scan_page s l Hl) as (nxt & E & Hn). exists nxt. split.
    + unfold iter_score_page_reverse. fold prefix. rewrite (bind_Ok _ _ _ _ _ E). cbv beta iota.
      rewrite scored_items_ok; [by rewrite app_nil_l, firstn_map|].
      intros i (j & Hj & _)%elem_of_take. destruct Hl as [[_ ->]|(_ & _ & ->)].
      * apply elem_of_reverse, list_elem_of_lookup. eauto.
      * apply (remaining_rev_elem d CF_ZSET_SCORE prefix s), list_elem_of_lookup. eauto.
    + rewrite length_map. destruct (n <? length l)%nat; [|done].
      destruct Hn as (q & -> & Hq). exists q. split; [done|]. exists (drop n l).
      by rewrite skipn_map.
  - eexists. split; [by left|]. unfold zlist. fold prefix. symmetry. apply (fmap_reverse (score_of ctx k w)).
  - unfold zlist. rewrite length_reverse, length_map. by apply loop_fuel.
Qed.

End Reading.

End Index.
