(* ===== verification/ZSetProps.v ===== *)
(** * Properties of the sorted set commands

    Refinement of the sorted set commands to a finite map from members to
    scores: ZADD, ZINCRBY and ZREM change the map and keep both indexes
    consistent; the reading commands answer from its ordered listing. *)

From S2P Require Import Prelude Bytes Text Error Types Encoding Backend Storage Float Protocol.
From S2P Require Import Context Keyspace Paging Score ZSetCmd ZSetIndex.

Local Open Scope Z_scope.

(** ** Sorted lists *)

Lemma sorted_split {X} (R : X -> X -> Prop) l1 x l2 y :
  StronglySorted R (l1 ++ x :: l2) -> y ∈ l2 -> R x y.
Proof.
  induction l1 as [|z l1 IH]; simpl; intros HS Hy; apply StronglySorted_inv in HS as [HS HF];
    [|by apply IH]. rewrite Forall_forall in HF. by apply HF.
Qed.

Lemma sorted_reverse {X} (R : X -> X -> Prop) l :
  StronglySorted R l -> StronglySorted (fun x y => R y x) (list.reverse l).
Proof.
  induction 1 as [|x l HS IH Hx]; [constructor|]. rewrite reverse_cons.
  assert (Forall (fun y => R x y) (list.reverse l)) as Hf.
  { rewrite Forall_forall in Hx |- *. intros y. rewrite elem_of_reverse. apply Hx. }
  revert IH Hf. generalize (list.reverse l). clear. intros l HS HF.
  induction HS as [|y l HS IH Hy]; simpl; [repeat constructor|].
  apply Forall_cons in HF as [Hyx HF]. constructor; [by apply IH|].
  apply Forall_app. split; [done|]. by constructor.
Qed.

Lemma filter_map_filter {X Y} (f : X -> Y) (P : Y -> bool) (Q : X -> Prop)
    `{!forall x, Decision (Q x)} l :
  (forall x, x ∈ l -> P (f x) = true -> Q x) ->
  filter (fun y => P y = true) (map f (filter Q l)) = filter (fun y => P y = true) (map f l).
Proof.
  induction l as [|x l IH]; intros HQ; [done|]. rewrite filter_cons.
  assert (filter (fun y => P y = true) (map f (filter Q l)) = filter (fun y => P y = true) (map f l))
    as IH' by (apply IH; intros y Hy; apply HQ; by right).
  case_decide as Hx; cbn [map]; rewrite !filter_cons, IH'; [done|].
  rewrite decide_False; [done|]. intros HP. apply Hx, HQ; [by left|done].
Qed.

(** ** Item loops *)

Lemma collect_item_run ctx sr c res sk i p :
  scored_item ctx i = Ok p ->
  collect_item ctx sr c (res, sk) i
  = Ok (if sk <? sr then Continue (res, sk + 1)
        else if c <=? Z.of_nat (length (res ++ [p])) then Break (res ++ [p], sk)
        else Continue (res ++ [p], sk)).
Proof. intros E. unfold collect_item. rewrite E. simpl. by repeat case_goal. Qed.

Lemma rank_item_run ctx s x r i p :
  scored_item ctx i = Ok p ->
  rank_item ctx s x (r, false) i
  = Ok (if f64_eqb p.1 s && bool_decide (p.2 = x) then Break (r, true) else Continue (r + 1, false)).
Proof. intros E. unfold rank_item. rewrite E. simpl. by case_goal. Qed.

Lemma collect_fold ctx (f : kv -> scored) (sr c : Z) items :
  0 < c -> (forall i, i ∈ items -> scored_item ctx i = Ok (f i)) ->
  forall res sk, Z.of_nat (length res) < c -> 0 <= sk <= sr -> (res <> [] -> sk = sr) ->
  exists sk', ctrl_value <$> for_each (collect_item ctx sr c) (res, sk) items
    = Ok (res ++ take (Z.to_nat c - length res) (drop (Z.to_nat (sr - sk)) (map f items)), sk').
Proof.
  intros Hc. induction items as [|i items IH]; intros Hf res sk Hl Hs Hr.
  { exists sk. simpl. by rewrite drop_nil, take_nil, app_nil_r. }
  cbn [for_each map]. rewrite (collect_item_run _ _ _ _ _ _ (f i)) by (apply Hf; by left).
  cbn [mbind outcome_bind].
  destruct (Z.ltb_spec sk sr).
  - assert (res = []) as -> by (destruct res; [done|]; specialize (Hr ltac:(done)); lia).
    cbn [outcome_bind mbind]. destruct (IH ltac:(intros j Hj; apply Hf; by right) [] (sk + 1)) as [sk' E];
      [done|lia|done|]. exists sk'. rewrite E.
    replace (Z.to_nat (sr - sk)) with (S (Z.to_nat (sr - (sk + 1)))) by lia. done.
  - replace (Z.to_nat (sr - sk)) with 0%nat by lia. rewrite drop_0. rewrite length_app. cbn [length].
    replace (Z.to_nat c - length res)%nat with (S (Z.to_nat c - length res - 1)) by lia. cbn [take].
    destruct (Z.leb_spec c (Z.of_nat (length res + 1))).
    + exists sk. cbn [mbind outcome_bind fmap]. simpl.
      replace (Z.to_nat c - length res - 1)%nat with 0%nat by lia. by rewrite take_0.
    + cbn [mbind outcome_bind]. destruct (IH ltac:(intros j Hj; apply Hf; by right) (res ++ [f i]) sk)
        as [sk' E]; [rewrite length_app; simpl; lia|lia|intros _; lia|].
      exists sk'. rewrite E. replace (Z.to_nat (sr - sk)) with 0%nat by lia. rewrite drop_0.
      rewrite length_app. cbn [length]. rewrite <- app_assoc. simpl.
      by replace (Z.to_nat c - (length res + 1))%nat with (Z.to_nat c - length res - 1)%nat by lia.
Qed.

Lemma rank_fold ctx (f : kv -> scored) s x items :
  f64_eqb s s = true -> (forall i, i ∈ items -> scored_item ctx i = Ok (f i)) ->
  forall (j : nat) r, map f items !! j = Some (s, x) ->
  (forall i p, (i < j)%nat -> map f items !! i = Some p -> p.2 <> x) ->
  for_each (rank_item ctx s x) (r, false) items = Ok (Break (r + Z.of_nat j, true)).
Proof.
  intros Hs. induction items as [|i items IH]; intros Hf j r Hj Hne; [done|].
  cbn [for_each map]. rewrite (rank_item_run _ _ _ _ _ (f i)) by (apply Hf; by left).
  cbn [mbind outcome_bind].
  destruct j as [|j].
  - simpl in Hj. injection Hj as Hj. rewrite Hj. cbn [fst snd]. rewrite Hs, bool_decide_true by done.
    by rewrite Z.add_0_r.
  - specialize (Hne 0%nat (f i) ltac:(lia) eq_refl) as Hi.
    rewrite (bool_decide_false (_ = x)) by done. rewrite andb_false_r. cbn [mbind outcome_bind].
    rewrite (IH ltac:(intros i' Hi'; apply Hf; by right) j (r + 1)); [by replace (r + 1 + Z.of_nat j) with (r + Z.of_nat (S j)) by lia|done|].
    intros i' p Hlt Hp. apply (Hne (S i') p); [lia|done].
Qed.

(** The options of the ranges by score. *)
Inductive range_opt := WithScores | LimitTo (skip most : Z).

#[global] Instance range_opt_eq_dec : EqDecision range_opt.
Proof. solve_decision. Defined.

(** How they are spelled: words in any case, numbers in decimal. *)
Inductive range_spells : list range_opt -> list bytes -> Prop :=
  | range_spells_nil : range_spells [] []
  | range_spells_scores w l ws :
      to_ascii_uppercase w = bs "WITHSCORES" -> range_spells l ws -> range_spells (WithScores :: l) (w :: ws)
  | range_spells_limit w i n l ws :
      to_ascii_uppercase w = bs "LIMIT" -> is_u64 i = true -> is_u64 n = true -> range_spells l ws ->
      range_spells (LimitTo i n :: l) (w :: show_Z i :: show_Z n :: ws).

(** The limit asked for; the last one wins, [limit] when there is none. *)
Fixpoint asked_limit (limit : Limit) (l : list range_opt) : Limit :=
  match l with
  | [] => limit
  | LimitTo i n :: l => asked_limit {| offset := i; count := n |} l
  | WithScores :: l => asked_limit limit l
  end.

Lemma ignore_case_upper w v : to_ascii_uppercase w = v -> eq_ignore_ascii_case w v = true.
Proof.
  intros <-. apply bool_decide_eq_true. unfold to_ascii_lowercase, to_ascii_uppercase. rewrite map_map.
  apply map_ext. by intros [].
Qed.

Lemma parse_text_show_u64 z : is_u64 z = true -> parse_text parse_u64 (show_Z z) = Some z.
Proof.
  intros H. unfold parse_text. rewrite is_ascii_valid by apply show_Z_ascii. by apply parse_u64_show.
Qed.

Lemma range_options_spelled l ws : forall b limit,
  range_spells l ws ->
  zrangebyscore_options b limit ws = Ok (b || bool_decide (WithScores ∈ l), asked_limit limit l).
Proof.
  intros b limit H. revert b limit.
  induction H as [|w l ws Hw _ IH|w i n l ws Hw Hi Hn _ IH]; intros b limit; cbn [zrangebyscore_options].
  - by rewrite orb_false_r.
  - rewrite (ignore_case_upper _ _ Hw), IH, (bool_decide_true (WithScores ∈ _ :: _)) by by left.
    by rewrite orb_true_r.
  - pose proof (ignore_case_upper _ _ Hw) as Hc. unfold eq_ignore_ascii_case in *.
    apply bool_decide_eq_true in Hc. rewrite Hc. rewrite bool_decide_false, bool_decide_true by done.
    unfold parse_usize. rewrite !parse_text_show_u64 by done. cbn [mbind outcome_bind ok_or]. rewrite IH.
    by rewrite (bool_decide_ext (WithScores ∈ LimitTo i n :: l) (WithScores ∈ l)) by set_solver.
Qed.

Lemma asked_limit_offset l ws limit : range_spells l ws -> 0 <= offset limit -> 0 <= offset (asked_limit limit l).
Proof.
  intros H. revert limit. induction H as [| |w i n l ws _ Hi _ _ IH]; intros limit Ho; cbn; auto.
  apply IH. cbn. apply is_u64_spec in Hi. lia.
Qed.

(** The window of LIMIT: skip [offset], then at most [count], or all if 0. *)
Definition window (limit : Limit) {A} (l : list A) : list A :=
  let l' := drop (Z.to_nat (offset limit)) l in
  if 0 <? count limit then take (Z.to_nat (count limit)) l' else l'.

Lemma take_loop ws limit l : forall st,
  0 <= offset limit -> 0 <= seen st -> 0 <= matched st ->
  (0 < count limit -> matched st < count limit) ->
  exists st', ctrl_value <$> for_each (fun st p => Ok (byscore_take ws limit st p)) st l = Ok st'
    /\ result st' = result st ++ concat (map (scored_replies ws)
         (let l' := drop (Z.to_nat (offset limit - seen st)) l in
          if 0 <? count limit then take (Z.to_nat (count limit - matched st)) l' else l')).
Proof.
  induction l as [|p l IH]; intros st Ho Hs Hm Hc.
  { exists st. split; [done|]. rewrite drop_nil. cbv zeta. case_goal; rewrite ?take_nil; by rewrite app_nil_r. }
  cbn [for_each mbind outcome_bind]. unfold byscore_take at 1.
  destruct (Z.leb_spec (seen st + 1) (offset limit)).
  - destruct (IH (mkByScore (result st) (seen st + 1) (matched st))) as (st' & E & R);
      cbn [seen matched result]; [lia..|done|]. exists st'. split; [done|]. rewrite R. cbn [result seen matched].
    replace (Z.to_nat (offset limit - seen st)) with (S (Z.to_nat (offset limit - (seen st + 1)))) by lia.
    done.
  - replace (Z.to_nat (offset limit - seen st)) with 0%nat by lia. rewrite drop_0.
    destruct ((0 <? count limit) && (count limit <=? matched st + 1)) eqn:Eb.
    + apply andb_true_iff in Eb as [E1 E2]. zbool. eexists. split; [done|].
      cbn [ctrl_value result]. rewrite (proj2 (Z.ltb_lt _ _)) by done.
      replace (Z.to_nat (count limit - matched st)) with 1%nat by lia. cbn [take map concat].
      by rewrite take_0, app_nil_r.
    + destruct (IH (mkByScore (result st ++ scored_replies ws p) (seen st + 1) (matched st + 1)))
        as (st' & E & R); cbn [seen matched result]; [lia..| |].
      { intros H0. rewrite (proj2 (Z.ltb_lt _ _)) in Eb by done. simpl in Eb. zbool. lia. }
      exists st'. split; [done|]. rewrite R. cbn [result seen matched].
      replace (Z.to_nat (offset limit - (seen st + 1))) with 0%nat by lia. rewrite drop_0.
      rewrite <- app_assoc. f_equal. destruct (Z.ltb_spec 0 (count limit)); [|done].
      apply andb_false_iff in Eb. rewrite Z.leb_gt in Eb.
      replace (Z.to_nat (count limit - matched st)) with (S (Z.to_nat (count limit - (matched st + 1))))
        by (destruct Eb; [zbool; lia|lia]). done.
Qed.

(** ** Representation *)

Section ZSetFacts.
Context {DB : Type} {RDB : RocksDB DB}.
Implicit Types (d : DB) (ctx : CommandContext) (k x : bytes) (s : f64) (m : gmap bytes f64).

Definition zset_meta (E : Z) (meta : Metadata) m : Prop :=
  good_meta DZSet meta /\ md_expire meta = E /\ md_size meta = Z.of_nat (size m).

(** The key holds the metadata [meta] of the sorted set [m]. *)
Definition zset_at (E : Z) d ctx k (meta : Metadata) m : Prop :=
  composite_at d ctx k DZSet meta /\ unexpired E ctx
  /\ zset_meta E meta m /\ indexed d ctx k (md_version meta) m.

(** The key represents the sorted set [m] with expiry [E]; an absent or
    expired key the empty one, provided no subkeys are left under the version
    a write would choose. *)
Definition zset_repr (E : Z) d ctx k m : Prop :=
  (m = ∅ /\ E = 0 /\ indexed d ctx k (new_version ctx) ∅ /\ absent d ctx k DZSet)
  \/ exists meta, zset_at E d ctx k meta m.

Lemma check_meta_run ctx v meta :
  decode_metadata v = Some meta -> data_type meta = Some DZSet ->
  check_meta ctx v = Ok (if is_expired meta (now_ms ctx) then None else Some meta).
Proof.
  intros Hd Ht. destruct (decode_nonempty v meta DZSet Hd Ht) as (b & r & -> & Hb).
  unfold check_meta. change (Z.land (byte_to_Z b) 0x0F) with (type_code b). rewrite Hb.
  change (from_code (code DZSet)) with (Some DZSet). rewrite Hd. cbn [mbind outcome_bind ok_or].
  rewrite bool_decide_false by done. by case_goal.
Qed.

Lemma load_meta_run E d ctx k m :
  wf_db d -> zset_repr E d ctx k m ->
  exists o, load_meta ctx k d = (Ok o, d)
    /\ match o with
       | None => m = ∅ /\ E = 0 /\ indexed d ctx k (new_version ctx) ∅ /\ absent d ctx k DZSet
       | Some meta => composite_at d ctx k DZSet meta /\ zset_meta E meta m
                      /\ indexed d ctx k (md_version meta) m
       end.
Proof.
  intros H Hr. unfold load_meta. rewrite (bind_Ok _ _ _ _ _ (get_meta_run d ctx k H)).
  destruct Hr as [(-> & -> & Hi & Ha)|(meta & Hc & Hx & Hm & Hi)].
  - exists None. split; [|done]. destruct Ha as [Hn|(meta & (v & Hv & Hd & Ht) & Hx)]; [by rewrite Hn|].
    rewrite Hv. unfold lift. by rewrite (check_meta_run ctx v meta), Hx.
  - exists (Some meta). split; [|done]. destruct Hc as (v & Hv & Hd & Ht). rewrite Hv. unfold lift.
    rewrite (check_meta_run ctx v meta) by done. by rewrite (unexpired_meta meta E) by (done || apply Hm).
Qed.

Lemma read_zset_meta_run E d ctx k m :
  wf_db d -> zset_repr E d ctx k m ->
  exists o, read_zset_meta ctx k d = (Ok o, d)
    /\ match o with
       | None => m = ∅ /\ E = 0 /\ indexed d ctx k (new_version ctx) ∅ /\ absent d ctx k DZSet
       | Some meta => composite_at d ctx k DZSet meta /\ zset_meta E meta m
                      /\ indexed d ctx k (md_version meta) m
       end.
Proof.
  intros H Hr. destruct (load_meta_run E d ctx k m H Hr) as (o & Ho & Hs). exists o. split; [|done].
  unfold read_zset_meta. rewrite (bind_Ok _ _ _ _ _ Ho). destruct o as [meta|]; [|done].
  destruct Hs as (_ & ((Ht & _) & _) & _). by rewrite bool_decide_true.
Qed.

Lemma ensure_zset_meta_run E d ctx k m :
  wf_db d -> zset_repr E d ctx k m ->
  exists meta, ensure_zset_meta ctx k d = (Ok meta, d)
    /\ zset_meta E meta m /\ indexed d ctx k (md_version meta) m.
Proof.
  intros H Hr. destruct (load_meta_run E d ctx k m H Hr) as (o & Ho & Hs).
  unfold ensure_zset_meta. rewrite (bind_Ok _ _ _ _ _ Ho). destruct o as [meta|].
  - destruct Hs as (_ & Hm & Hi). exists meta. pose proof Hm as ((Ht & _) & _).
    by rewrite bool_decide_true.
  - destruct Hs as (-> & -> & Hi & _). eexists. split; [done|]. split; [|done].
    split; [apply good_meta_new|done].
Qed.

Lemma stored_score_run d s : is_u64 s = true -> stored_score (encode_score s) d = (Ok s, d).
Proof.
  intros Hs. unfold stored_score. rewrite length_encode_score. simpl.
  by rewrite take_ge, decode_encode_score by (done || by rewrite length_encode_score).
Qed.

(** *** Ranks and ranges *)

Lemma zlisting_members m l : zlisting m l -> NoDup l.*2.
Proof.
  intros [HS HE]. assert (NoDup l) as Hn.
  { clear HE. induction HS as [|p l HS IH Hp]; constructor; [|done]. intros Hin.
    rewrite Forall_forall in Hp. destruct (Hp p Hin) as [?|[_ Hlt]]; [lia|].
    by apply bytes_lt_irrefl in Hlt. }
  assert (forall p q, p ∈ l -> q ∈ l -> p.2 = q.2 -> p = q) as Hi.
  { intros [s x] [t y] Hp%HE Hq%HE. simpl. intros ->. by simplify_eq. }
  clear HS HE. induction Hn as [|p l Hp Hn IH]; [constructor|]. cbn. constructor.
  - intros (q & E & Hq)%list_elem_of_fmap. apply Hp. rewrite (Hi p q); [done|by left|by right|done].
  - apply IH. intros a b Ha Hb. apply Hi; by right.
Qed.

Lemma zlisting_size m l : zlisting m l -> length l = size m.
Proof.
  intros Hl. pose proof (zlisting_members m l Hl) as Hn. destruct Hl as [_ HE].
  rewrite <- (length_fmap snd l), <- (size_list_to_set (C:=gset bytes)) by done.
  rewrite <- (size_dom m). f_equal. apply set_eq. intros x.
  rewrite elem_of_list_to_set, elem_of_dom, list_elem_of_fmap. split.
  - intros ([s y] & -> & Hin%HE). eauto.
  - intros [s Hs]. exists (s, x). split; [done|]. by apply HE.
Qed.

(** The elements from rank [start] to [stop]; negative ranks count from the end
    and are clamped to the first element. *)
Definition clamp_rank (n i : Z) : Z := if i <? 0 then Z.max (n + i) 0 else i.

Definition rank_slice {A} (l : list A) (start stop : Z) : list A :=
  let n := Z.of_nat (length l) in
  let s := clamp_rank n start in
  let e := Z.min (clamp_rank n stop) (n - 1) in
  take (Z.to_nat (e - s + 1)) (drop (Z.to_nat s) l).

Lemma clamp_rank_nonneg n i : 0 <= clamp_rank n i.
Proof. unfold clamp_rank. destruct (Z.ltb_spec i 0); lia. Qed.

Lemma normalize_rank_run d ctx n i :
  0 <= n < 2 ^ 62 -> is_i64 i = true -> normalize_index ctx i n d = (Ok (clamp_rank n i), d).
Proof.
  intros Hn Hi%is_i64_spec. unfold normalize_index, clamp_rank. destruct (Z.ltb_spec i 0); [|done].
  by erewrite bind_Ok by (apply arith_i64_ok, is_i64_spec; lia).
Qed.

Lemma rank_range_run d ctx n start stop :
  0 <= n < 2 ^ 62 -> is_i64 start = true -> is_i64 stop = true ->
  exists s c, rank_range ctx n start stop d = (Ok (s, c), d) /\ 0 <= s /\ 0 <= c <= n
    /\ forall A (l : list A), Z.of_nat (length l) = n ->
         take (Z.to_nat c) (drop (Z.to_nat s) l) = rank_slice l start stop.
Proof.
  intros Hn Hst Hsp. unfold rank_range.
  rewrite (bind_Ok _ _ _ _ _ (normalize_rank_run d ctx n start Hn Hst)).
  rewrite (bind_Ok _ _ _ _ _ (normalize_rank_run d ctx n stop Hn Hsp)).
  pose proof (clamp_rank_nonneg n start) as Hs. unfold rank_slice.
  destruct ((clamp_rank n stop <? clamp_rank n start) || (n <=? clamp_rank n start)) eqn:Eb.
  - exists 0, 0. split; [done|]. split; [done|]. split; [lia|]. intros A l Hl. rewrite Hl. cbv zeta.
    apply orb_true_iff in Eb. rewrite Z.ltb_lt, Z.leb_le in Eb.
    replace (Z.to_nat (_ - clamp_rank n start + 1)) with 0%nat by lia. by rewrite !take_0.
  - apply orb_false_iff in Eb as [E1 E2]. zbool. eexists _, _. split; [done|]. split; [done|].
    split; [lia|]. intros A l Hl. by rewrite Hl.
Qed.

Section Loaded.
Context {d : DB} {ctx : CommandContext} {k : bytes} {meta : Metadata} {E : Z} {m : gmap bytes f64}.
Hypotheses (Hwf : wf_db d) (Hk : short ctx k) (Hm : zset_meta E meta m)
  (Hidx : indexed d ctx k (md_version meta) m) (Hsize : Z.of_nat (size m) < 2 ^ 58).
Let L := zlist d ctx k (md_version meta).

Lemma loaded_version : is_u64 (md_version meta) = true.
Proof. by eapply good_meta_version, Hm. Qed.

Lemma loaded_listing : zlisting m L.
Proof. exact (zlist_listing Hidx). Qed.

Lemma loaded_length : Z.of_nat (length L) = Z.of_nat (size m).
Proof. by rewrite (zlisting_size m L loaded_listing). Qed.

(** The items a rank scan visits, and the listing it stands for. *)
Definition visited (reverse : bool) : list kv :=
  let l := entries d CF_ZSET_SCORE (sub_key ctx k (md_version meta) []) in
  if reverse then list.reverse l else l.

Definition listed (reverse : bool) : list scored := if reverse then list.reverse L else L.

Lemma visited_scores reverse : map (score_of ctx k (md_version meta)) (visited reverse) = listed reverse.
Proof. destruct reverse; [|done]. apply (fmap_reverse (score_of ctx k (md_version meta))). Qed.

Lemma visited_ok reverse i :
  i ∈ visited reverse -> scored_item ctx i = Ok (score_of ctx k (md_version meta) i).
Proof.
  intros Hi. apply (scored_item_ok Hk loaded_version Hidx). destruct reverse; [|done].
  by apply elem_of_reverse.
Qed.

Lemma collect_rank_range_run reverse s c :
  0 <= s -> 0 <= c <= Z.of_nat (size m) ->
  collect_rank_range_items ctx k (md_version meta) s c reverse d
  = (Ok (take (Z.to_nat c) (drop (Z.to_nat s) (listed reverse))), d).
Proof.
  intros Hs Hc. unfold collect_rank_range_items. destruct (Z.eqb_spec c 0) as [->|Hne]; [done|].
  replace (capacity_overflow SCORED_SIZE c) with false.
  2:{ symmetry. apply Z.ltb_ge. unfold SCORED_SIZE, i64_max. lia. }
  destruct (collect_fold ctx (score_of ctx k (md_version meta)) s c (visited reverse) ltac:(lia)
    (visited_ok reverse) [] 0) as [sk Ef]; [simpl; lia|lia|done|].
  rewrite (bind_Ok _ _ _ (take (Z.to_nat c) (drop (Z.to_nat s) (listed reverse)), sk) d); [done|].
  rewrite (rank_loop_ok Hwf Hidx). fold (visited reverse). rewrite Ef.
  by rewrite Z.sub_0_r, Nat.sub_0_r, app_nil_l, visited_scores.
Qed.

(** The position of a member in the listing is found. *)
Lemma rank_loop_run reverse s x (j : nat) :
  listed reverse !! j = Some (s, x) ->
  score_loop ctx k (md_version meta) (rank_page ctx k (md_version meta) reverse) (rank_item ctx s x)
    [] (0, false) d = (Ok (Z.of_nat j, true), d).
Proof.
  intros Hj. rewrite (rank_loop_ok Hwf Hidx). fold (visited reverse).
  assert ((s, x) ∈ L) as Hin.
  { apply list_elem_of_lookup_2 in Hj. destruct reverse; [|done]. by apply elem_of_reverse. }
  destruct loaded_listing as [HS HE]. apply HE in Hin.
  assert (number s) as Hn by (destruct Hidx as (_ & _ & H3); by eapply H3).
  rewrite (rank_fold ctx (score_of ctx k (md_version meta)) s x (visited reverse)) with (j := j);
    [done| |apply visited_ok|by rewrite visited_scores|].
  - by rewrite f64_eqb_sval, Z.eqb_refl.
  - rewrite visited_scores. intros i [t y] Hlt Hi. simpl. intros ->.
    assert (NoDup (listed reverse).*2) as Hnd.
    { pose proof (zlisting_members m L loaded_listing) as Hn2. destruct reverse; [|done].
      unfold listed. rewrite fmap_reverse. by rewrite reverse_Permutation. }
    rewrite NoDup_alt in Hnd. specialize (Hnd i j x).
    rewrite !list_lookup_fmap, Hi, Hj in Hnd. specialize (Hnd eq_refl eq_refl). lia.
Qed.

(** *** Score ranges *)

(** The items with a score from [min] to [max]. *)
Definition in_range (min max : f64) (p : scored) : bool := f64_leb min p.1 && f64_leb p.1 max.

Lemma listed_number (p : scored) : p ∈ L -> number p.1.
Proof.
  destruct p as [s x]. intros Hp. destruct loaded_listing as [_ HE]. apply HE in Hp.
  destruct Hidx as (_ & _ & H3). by eapply H3.
Qed.

Lemma before_le (p q : scored) : number p.1 -> number q.1 -> before p q -> sval p.1 <= sval q.1.
Proof.
  intros [Hp _] [Hq _] [Hr|[Eq _]]; [|by rewrite Eq].
  apply rank_lt_sval in Hr as [?|[E1 E2]]; [lia| |done|done]. by rewrite E1, E2.
Qed.

(** What a reply of ZREVRANGEBYSCORE lists. *)
Lemma revbyscore_run min max ws limit :
  number min -> number max -> 0 <= offset limit ->
  exists st, score_loop ctx k (md_version meta) (iter_score_page_reverse ctx k (md_version meta))
      (revbyscore_item max min ws limit) [] (mkByScore [] 0 0) d = (Ok st, d)
    /\ result st = concat (map (scored_replies ws)
         (window limit (filter (fun p => in_range min max p = true) (list.reverse L)))).
Proof.
  intros Nmin Nmax Ho.
  rewrite (revbyscore_loop_ok Hwf Hk loaded_version Hidx). fold L.
  assert (forall p, p ∈ list.reverse L -> number p.1) as HN
    by (intros p Hp; apply listed_number; by apply elem_of_reverse).
  rewrite (range_loop _ (fun st p => Ok (byscore_take ws limit st p)) (in_range min max)).
  - destruct (take_loop ws limit (filter (fun p => in_range min max p = true) (list.reverse L))
      (mkByScore [] 0 0)) as (st & E1 & R); [done|done|done|done|].
    exists st. rewrite E1. split; [done|]. rewrite R. cbn [result seen matched app].
    unfold window. by rewrite !Z.sub_0_r.
  - intros a p Hp. unfold in_range, revbyscore_item. specialize (HN p Hp).
    rewrite !f64_leb_sval, !f64_ltb_sval, andb_true_iff, !Z.leb_le by done. intros [H1 H2].
    by rewrite !(proj2 (Z.ltb_ge _ _)) by lia.
  - intros a p Hp. unfold in_range, revbyscore_item. specialize (HN p Hp).
    rewrite !f64_leb_sval, !f64_ltb_sval, andb_false_iff, !Z.leb_gt by done. intros Hr.
    destruct (Z.ltb_spec (sval max) (sval p.1)); [by left|].
    rewrite (proj2 (Z.ltb_lt _ _)) by lia. by right.
  - intros a l1 p l2 El Hr Hb q Hq. destruct loaded_listing as [HS _].
    apply sorted_reverse in HS. rewrite El in HS. apply (sorted_split _ l1 p l2 q HS) in Hq as Hpq.
    assert (number p.1 /\ number q.1) as [Np Nq].
    { split; apply HN; rewrite El, elem_of_app, elem_of_cons; tauto. }
    apply before_le in Hpq; [|done..]. revert Hb. unfold revbyscore_item, in_range.
    rewrite !f64_leb_sval, !f64_ltb_sval by done.
    destruct (Z.ltb_spec (sval max) (sval p.1)); [done|].
    destruct (Z.ltb_spec (sval p.1) (sval min)); [|].
    + intros _. apply andb_false_iff. left. apply Z.leb_gt. lia.
    + unfold in_range in Hr. rewrite !f64_leb_sval, andb_false_iff, !Z.leb_gt in Hr by done. lia.
Qed.

(** The start key of ZRANGEBYSCORE is below every item in the range, but for
    the empty member at [min] and a negative zero when [min] is zero. *)
Lemma seek_below_range min max (i : kv) :
  number min -> (forall s, m !! [] = Some s -> s <> min) ->
  (min = 0 -> forall x, m !! x <> Some (2 ^ 63)) ->
  i ∈ entries d CF_ZSET_SCORE (sub_key ctx k (md_version meta) []) ->
  in_range min max (score_of ctx k (md_version meta) i) = true ->
  bytes_ltb (score_seek_key ctx k (md_version meta) min) i.1 = true.
Proof.
  intros Nmin Hempty Hzero Hi. destruct (entry_shape Hidx i Hi) as (s & x & Hx & Ns & Ei & ->).
  unfold in_range. cbn [fst]. intros [Hge _]%andb_true_iff. rewrite f64_leb_sval, Z.leb_le in Hge by done.
  apply bytes_ltb_spec. rewrite Ei. unfold score_seek_key, score_subkey, bytes_lt.
  rewrite !(sub_key_app _ _ _ (_ ++ _)), bytes_cmp_app, bytes_cmp_app_eqlen
    by by rewrite !length_encode_score.
  pose proof Nmin as [Umin _]. pose proof Ns as [Us _].
  destruct (Z.lt_total (rank min) (rank s)) as [Hlt|[Heq|Hgt]].
  - apply encode_score_lt in Hlt; [|done..]. unfold bytes_lt in Hlt. by rewrite Hlt.
  - apply rank_inj in Heq; [|done..]. subst s. rewrite bytes_cmp_refl.
    destruct x; [|done]. by destruct (Hempty min).
  - apply rank_lt_sval in Hgt as [?|[-> ->]]; [lia| |done|done]. by destruct (Hzero eq_refl x).
Qed.

(** The items ahead of the start key are not below the range. *)
Lemma after_seek_above min (i : kv) :
  number min -> i ∈ remaining d CF_ZSET_SCORE (sub_key ctx k (md_version meta) [])
                      (score_seek_key ctx k (md_version meta) min) ->
  number (score_of ctx k (md_version meta) i).1
  /\ sval min <= sval (score_of ctx k (md_version meta) i).1.
Proof.
  intros Nmin Hi. unfold remaining in Hi. rewrite bool_decide_false in Hi.
  2:{ unfold score_seek_key, score_subkey. rewrite sub_key_app.
      pose proof (subkey_nonempty ctx k (md_version meta)). by destruct (sub_key _ _ _ []). }
  unfold entries_after in Hi. apply list_elem_of_filter in Hi as [Hlt Hi].
  destruct (entry_shape Hidx i Hi) as (s & x & Hx & Ns & Ei & ->). cbn [fst]. split; [done|].
  apply bytes_ltb_spec in Hlt. rewrite Ei in Hlt. unfold score_seek_key, score_subkey, bytes_lt in Hlt.
  rewrite !(sub_key_app _ _ _ (_ ++ _)), bytes_cmp_app in Hlt.
  apply (before_le (min, []) (s, x)); [done|done|]. by apply image_order.
Qed.

Lemma sorted_map_filter {A C} (R : relation C) (f : A -> C) (P : A -> Prop) `{forall x : A, Decision (P x)} l :
  StronglySorted R (map f l) -> StronglySorted R (map f (filter P l)).
Proof.
  induction l as [|x l IH]; [done|]. cbn [map]. intros [HS HF]%StronglySorted_inv.
  rewrite filter_cons. case_decide; [|by apply IH]. cbn [map]. constructor; [by apply IH|].
  rewrite Forall_forall in *. intros y (z & -> & [_ Hz]%list_elem_of_filter)%list_elem_of_fmap.
  apply HF, list_elem_of_fmap. eauto.
Qed.

(** What a reply of ZRANGEBYSCORE lists. *)
Lemma byscore_run min max ws limit :
  number min -> number max -> 0 <= offset limit ->
  (forall s, m !! [] = Some s -> s <> min) -> (min = 0 -> forall x, m !! x <> Some (2 ^ 63)) ->
  exists st, score_loop ctx k (md_version meta) (iter_score_page ctx k (md_version meta))
      (byscore_item max ws limit) (score_seek_key ctx k (md_version meta) min) (mkByScore [] 0 0) d
      = (Ok st, d)
    /\ result st = concat (map (scored_replies ws)
         (window limit (filter (fun p => in_range min max p = true) L))).
Proof.
  intros Nmin Nmax Ho Hempty Hzero. set (s0 := score_seek_key ctx k (md_version meta) min).
  assert (starts_with (sub_key ctx k (md_version meta) []) s0 = true) as Hp
    by (unfold s0, score_seek_key, score_subkey; rewrite (sub_key_app _ _ _ (_ ++ _)); apply starts_with_app).
  assert (s0 <> []) as Hne.
  { intros E0. rewrite E0 in Hp. apply (subkey_nonempty ctx k (md_version meta)).
    by destruct (sub_key _ _ _ []). }
  rewrite (byscore_loop_ok Hwf Hk loaded_version Hidx) by done.
  set (R := remaining d CF_ZSET_SCORE (sub_key ctx k (md_version meta) []) s0).
  assert (forall p, p ∈ map (score_of ctx k (md_version meta)) R ->
    number p.1 /\ sval min <= sval p.1) as HN.
  { intros p (i & -> & Hi)%list_elem_of_fmap. by apply after_seek_above. }
  assert (filter (fun p => in_range min max p = true) (map (score_of ctx k (md_version meta)) R)
    = filter (fun p => in_range min max p = true) L) as EL.
  { unfold R, remaining. rewrite bool_decide_false by done.
    apply (filter_map_filter (score_of ctx k (md_version meta)) (in_range min max)).
    intros i Hi. by apply seek_below_range. }
  rewrite (range_loop _ (fun st p => Ok (byscore_take ws limit st p)) (in_range min max)).
  - rewrite EL. destruct (take_loop ws limit (filter (fun p => in_range min max p = true) L)
      (mkByScore [] 0 0)) as (st & E1 & Rr); [done|done|done|done|].
    exists st. rewrite E1. split; [done|]. rewrite Rr. cbn [result seen matched app].
    unfold window. by rewrite !Z.sub_0_r.
  - intros a p Hin. destruct (HN p Hin) as [Np _]. unfold in_range, byscore_item.
    rewrite !f64_leb_sval, !f64_ltb_sval, andb_true_iff, !Z.leb_le by done. intros [H1 H2].
    by rewrite !(proj2 (Z.ltb_ge _ _)) by lia.
  - intros a p Hin. destruct (HN p Hin) as [Np Hge]. unfold in_range, byscore_item.
    rewrite !f64_leb_sval, !f64_ltb_sval, andb_false_iff, !Z.leb_gt by done. intros Hr.
    right. by rewrite (proj2 (Z.ltb_lt _ _)) by lia.
  - intros a l1 p l2 El Hr Hb q Hq.
    assert (StronglySorted before (map (score_of ctx k (md_version meta)) R)) as HS.
    { destruct loaded_listing as [HS _]. unfold R, remaining. rewrite bool_decide_false by done.
      by apply sorted_map_filter. }
    rewrite El in HS. apply (sorted_split _ l1 p l2 q HS) in Hq as Hpq.
    assert ((number p.1 /\ sval min <= sval p.1) /\ (number q.1 /\ sval min <= sval q.1))
      as [[Np Hp1] [Nq Hq1]].
    { split; apply HN; rewrite El, elem_of_app, elem_of_cons; tauto. }
    apply before_le in Hpq; [|done..]. unfold in_range in *.
    rewrite !f64_leb_sval, andb_false_iff, !Z.leb_gt in * by done. right. lia.
Qed.

End Loaded.

End ZSetFacts.

(** ** Properties *)

Section ZSetReads.
Context {DB : Type} {RDB : RocksDB DB}.
Implicit Types (d : DB) (ctx : CommandContext) (k x : bytes) (s : f64) (m : gmap bytes f64).

Lemma lift_run {A} d (o : outcome A) a : o = Ok a -> lift o d = (Ok a, d).
Proof. by intros ->. Qed.

Definition ws_args (ws : bool) : list bytes := if ws then [bs "WITHSCORES"] else [].

Lemma arg_i64_run d z : is_i64 z = true -> arg_i64 (show_Z z) d = (Ok z, d).
Proof. intros Hz. unfold arg_i64. by rewrite parse_text_show_i64. Qed.

Lemma rank_slice_nil {A} start stop : rank_slice (@nil A) start stop = [].
Proof. unfold rank_slice. cbv zeta. by rewrite drop_nil, take_nil. Qed.

Lemma zlisting_empty : zlisting ∅ [].
Proof. split; [constructor|]. intros s x. rewrite lookup_empty. split; [by intros ?%elem_of_nil|done]. Qed.

(** The listing of a represented set, with its metadata if it exists. *)
Lemma zset_loaded E d ctx k m :
  wf_db d -> short ctx k -> zset_repr E d ctx k m ->
  exists L, zlisting m L /\
    ((read_zset_meta ctx k d = (Ok None, d) /\ m = ∅ /\ L = [])
     \/ exists meta, read_zset_meta ctx k d = (Ok (Some meta), d) /\ zset_meta E meta m
          /\ indexed d ctx k (md_version meta) m /\ L = zlist d ctx k (md_version meta)).
Proof.
  intros H Hk Hr. destruct (read_zset_meta_run E d ctx k m H Hr) as ([meta|] & Ho & Hs).
  - destruct Hs as (_ & Hm & Hi). exists (zlist d ctx k (md_version meta)).
    split; [exact (zlist_listing Hi)|]. right. by exists meta.
  - destruct Hs as [-> _]. exists []. split; [apply zlisting_empty|]. by left.
Qed.

Lemma zrange_gen_run E d ctx k m L name reverse start stop ws :
  wf_db d -> short ctx k -> Z.of_nat (size m) < 2 ^ 58 -> is_i64 start = true -> is_i64 stop = true ->
  zlisting m L ->
  ((read_zset_meta ctx k d = (Ok None, d) /\ m = ∅ /\ L = [])
   \/ exists meta, read_zset_meta ctx k d = (Ok (Some meta), d) /\ zset_meta E meta m
        /\ indexed d ctx k (md_version meta) m /\ L = zlist d ctx k (md_version meta)) ->
  zrange_gen ctx name reverse ([k; show_Z start; show_Z stop] ++ ws_args ws) d
  = (Ok (Array (concat (map (scored_replies ws)
       (rank_slice (if reverse then list.reverse L else L) start stop)))), d).
Proof.
  intros H Hk Hsz Hst Hsp HL Hc. unfold zrange_gen.
  assert (exists rest, [k; show_Z start; show_Z stop] ++ ws_args ws = k :: show_Z start :: show_Z stop :: rest
    /\ rest = ws_args ws) as (rest & -> & Er) by eauto.
  replace (negb _ && negb _) with false by (rewrite Er; by destruct ws).
  rewrite (bind_Ok _ _ _ ws d) by (rewrite Er; by destruct ws). mrun.
  destruct Hc as [(Ho & -> & ->)|(meta & Ho & Hm & Hi & ->)]; rewrite (bind_Ok _ _ _ _ _ Ho).
  { replace (if reverse then list.reverse [] else []) with (@nil scored) by by destruct reverse.
    by rewrite rank_slice_nil. }
  mrun. rewrite (bind_Ok _ _ _ _ _ (arg_i64_run d start Hst)). mrun.
  rewrite (bind_Ok _ _ _ _ _ (arg_i64_run d stop Hsp)).
  pose proof Hm as (_ & _ & ->). rewrite wrap_i64_id by (apply is_i64_spec; lia).
  destruct (rank_range_run d ctx (Z.of_nat (size m)) start stop) as (s & c & Hr & Hs & Hc & Hslice);
    [lia|done|done|]. rewrite (bind_Ok _ _ _ _ _ Hr). cbv beta iota.
  rewrite (bind_Ok _ _ _ _ _ (collect_rank_range_run H Hk Hm Hi Hsz reverse s c Hs Hc)).
  unfold mret, M_ret. do 5 f_equal. apply Hslice.
  rewrite <- (zlisting_size m _ HL). unfold listed. destruct reverse; by rewrite ?length_reverse.
Qed.

Lemma zrank_gen_run E d ctx k m meta name (reverse : bool) x s (i : nat) :
  wf_db d -> short ctx k -> read_zset_meta ctx k d = (Ok (Some meta), d) -> zset_meta E meta m ->
  indexed d ctx k (md_version meta) m ->
  (if reverse then list.reverse (zlist d ctx k (md_version meta))
   else zlist d ctx k (md_version meta)) !! i = Some (s, x) -> m !! x = Some s ->
  zrank_gen ctx name reverse [k; x] d = (Ok (Integer (Z.of_nat i)), d).
Proof.
  intros H Hk Ho Hm Hi Hx Hs. unfold zrank_gen. do 2 mrun. rewrite (bind_Ok _ _ _ _ _ Ho). mrun.
  erewrite bind_Ok by eauto with kv. pose proof Hi as (H1 & _ & H3). unfold member_subkey.
  rewrite H1, Hs. cbn [fmap option_fmap option_map].
  destruct (H3 x s Hs) as [Hu _]. rewrite (bind_Ok _ _ _ _ _ (stored_score_run d s Hu)).
  by rewrite (bind_Ok _ _ _ _ _ (rank_loop_run H Hk Hm Hi reverse s x i Hx)).
Qed.

Lemma zrank_gen_absent E d ctx k m name reverse x :
  wf_db d -> zset_repr E d ctx k m -> m !! x = None ->
  zrank_gen ctx name reverse [k; x] d = (Ok nil_reply, d).
Proof.
  intros H Hr Hx. destruct (read_zset_meta_run E d ctx k m H Hr) as ([meta|] & Ho & Hs);
    unfold zrank_gen; do 2 mrun; rewrite (bind_Ok _ _ _ _ _ Ho); [|done].
  mrun. erewrite bind_Ok by eauto with kv. destruct Hs as (_ & _ & H1 & _). unfold member_subkey.
  by rewrite H1, Hx.
Qed.

Lemma reverse_index {A} (l : list A) (i : nat) (x : A) :
  l !! i = Some x -> list.reverse l !! (length l - S i)%nat = Some x.
Proof.
  intros Hi. rewrite reverse_lookup by (apply lookup_lt_Some in Hi; lia).
  apply lookup_lt_Some in Hi as Hl. rewrite <- Hi. f_equal. lia.
Qed.

Lemma zscore_run E d ctx k m x :
  wf_db d -> zset_repr E d ctx k m -> zscore ctx [k; x] d = (Ok (BulkString (format_score <$> m !! x)), d).
Proof.
  intros H Hr. destruct (read_zset_meta_run E d ctx k m H Hr) as ([meta|] & Ho & Hs); unfold zscore; do 2 mrun;
    rewrite (bind_Ok _ _ _ _ _ Ho); [|by destruct Hs as [-> _]].
  mrun. erewrite bind_Ok by eauto with kv. destruct Hs as (_ & _ & H1 & _ & H3). unfold member_subkey.
  rewrite H1. destruct (m !! x) as [s|] eqn:Ex; [|done]. cbn [fmap option_fmap option_map].
  destruct (H3 x s Ex) as [Hu _]. by rewrite (bind_Ok _ _ _ _ _ (stored_score_run d s Hu)).
Qed.

Lemma zcard_run E d ctx k m :
  wf_db d -> zset_repr E d ctx k m -> Z.of_nat (size m) <= i64_max ->
  zcard ctx [k] d = (Ok (Integer (Z.of_nat (size m))), d).
Proof.
  intros H Hr Hsz. destruct (read_zset_meta_run E d ctx k m H Hr) as ([meta|] & Ho & Hs); unfold zcard; do 2 mrun;
    rewrite (bind_Ok _ _ _ _ _ Ho); [|by destruct Hs as [-> _]].
  destruct Hs as (_ & (_ & _ & Hms) & _). unfold i64_max in Hsz. by rewrite Hms, wrap_i64_id by (apply is_i64_spec; lia).
Qed.

(** C29: on a key that represents the sorted set [m], the reading commands
    answer from its listing [L], ordered by score and then by member: ZSCORE
    and ZCARD from the map, ZRANGE and ZREVRANGE the elements between two
    ranks of [L] or of its reverse, ZRANK and ZREVRANK the position of a
    member in them, and nil for an absent member. *)
Theorem zset_reads E d ctx k m x start stop (ws : bool) :
  wf_db d -> short ctx k -> zset_repr E d ctx k m -> Z.of_nat (size m) < 2 ^ 58 ->
  is_i64 start = true -> is_i64 stop = true ->
  exists L, zlisting m L
  /\ zscore ctx [k; x] d = (Ok (BulkString (format_score <$> m !! x)), d)
  /\ zcard ctx [k] d = (Ok (Integer (Z.of_nat (size m))), d)
  /\ zrange ctx ([k; show_Z start; show_Z stop] ++ ws_args ws) d
     = (Ok (Array (concat (map (scored_replies ws) (rank_slice L start stop)))), d)
  /\ zrevrange ctx ([k; show_Z start; show_Z stop] ++ ws_args ws) d
     = (Ok (Array (concat (map (scored_replies ws) (rank_slice (reverse L) start stop)))), d)
  /\ (forall i s, L !! i = Some (s, x) ->
      zrank ctx [k; x] d = (Ok (Integer (Z.of_nat i)), d)
      /\ zrevrank ctx [k; x] d = (Ok (Integer (Z.of_nat (length L - S i))), d))
  /\ (m !! x = None -> zrank ctx [k; x] d = (Ok nil_reply, d)
      /\ zrevrank ctx [k; x] d = (Ok nil_reply, d)).
Proof.
  intros H Hk Hr Hsz Hst Hsp. destruct (zset_loaded E d ctx k m H Hk Hr) as (L & HL & Hc).
  exists L. split; [done|]. split; [|split; [|split; [|split; [|split]]]].
  - by eapply zscore_run.
  - eapply zcard_run; [done|done|unfold i64_max; lia].
  - by apply (zrange_gen_run E d ctx k m L "ZRANGE" false).
  - by apply (zrange_gen_run E d ctx k m L "ZREVRANGE" true).
  - intros i s Hi. assert (m !! x = Some s) as Hs by (apply HL, list_elem_of_lookup; eauto).
    destruct Hc as [(_ & -> & ->)|(meta & Ho & Hm & Hidx & ->)]; [done|].
    split; (eapply zrank_gen_run; [done..| |done]); cbv iota; [done|by apply reverse_index].
  - intros Hx. split; by eapply zrank_gen_absent.
Qed.

(** C30: ZRANGEBYSCORE and ZREVRANGEBYSCORE list the elements with a score
    between the bounds, in the order of the set or in reverse. LIMIT skips as
    many elements as its first number and keeps at most its second, or all if
    that is 0; the last LIMIT counts. With WITHSCORES each element is followed
    by its score. Options come in any order and case. For ZRANGEBYSCORE the
    empty string must not be a member at the lower bound, nor a negative zero
    a score when the lower bound is zero. *)
Theorem zset_by_score E d ctx k m a_min a_max min max l opts :
  wf_db d -> short ctx k -> zset_repr E d ctx k m ->
  parse_score a_min = Ok min -> parse_score a_max = Ok max -> number min -> number max ->
  range_spells l opts ->
  let ws := bool_decide (WithScores ∈ l) in
  let limit := asked_limit {| offset := 0; count := 0 |} l in
  exists L, zlisting m L
  /\ ((forall s, m !! [] = Some s -> s <> min) -> (min = 0 -> forall x, m !! x <> Some (2 ^ 63)) ->
      zrangebyscore ctx (k :: a_min :: a_max :: opts) d
      = (Ok (Array (concat (map (scored_replies ws)
           (window limit (filter (fun p => in_range min max p = true) L))))), d))
  /\ zrevrangebyscore ctx (k :: a_max :: a_min :: opts) d
     = (Ok (Array (concat (map (scored_replies ws)
          (window limit (filter (fun p => in_range min max p = true) (reverse L)))))), d).
Proof.
  intros H Hk Hr Emin Emax Nmin Nmax Hs ws limit.
  pose proof (range_options_spelled l opts false (mkLimit 0 0) Hs) as Eo. fold (parse_zrangebyscore_options opts) in Eo.
  cbn [orb] in Eo. fold ws limit in Eo.
  assert (0 <= offset limit) as Ho by (by eapply asked_limit_offset).
  destruct (zset_loaded E d ctx k m H Hk Hr) as (L & HL & Hc).
  assert (window limit (@nil scored) = []) as Hw.
  { unfold window. cbv zeta. rewrite drop_nil. case_goal; [apply take_nil|done]. }
  exists L. split; [done|]. split.
  - intros He Hz. unfold zrangebyscore. change ((_ <? 3)%nat) with false. cbv iota. mrun.
    destruct Hc as [(Hm & -> & ->)|(meta & Hm & Hmm & Hi & ->)]; rewrite (bind_Ok _ _ _ _ _ Hm).
    { by rewrite filter_nil, Hw. }
    mrun. rewrite (bind_Ok _ _ _ _ _ (lift_run d _ _ Emin)). mrun.
    rewrite (bind_Ok _ _ _ _ _ (lift_run d _ _ Emax)).
    change (drop 3 (k :: a_min :: a_max :: opts)) with opts. rewrite (bind_Ok _ _ _ _ _ (lift_run d _ _ Eo)).
    destruct (byscore_run H Hk Hmm Hi min max ws limit Nmin Nmax Ho He Hz) as (st & Hst & R).
    rewrite (bind_Ok _ _ _ _ _ Hst). by rewrite R.
  - unfold zrevrangebyscore. change ((_ <? 3)%nat) with false. cbv iota. mrun.
    destruct Hc as [(Hm & -> & ->)|(meta & Hm & Hmm & Hi & ->)]; rewrite (bind_Ok _ _ _ _ _ Hm).
    { by rewrite reverse_nil, filter_nil, Hw. }
    mrun. rewrite (bind_Ok _ _ _ _ _ (lift_run d _ _ Emax)). mrun.
    rewrite (bind_Ok _ _ _ _ _ (lift_run d _ _ Emin)).
    change (drop 3 (k :: a_max :: a_min :: opts)) with opts. rewrite (bind_Ok _ _ _ _ _ (lift_run d _ _ Eo)).
    destruct (revbyscore_run H Hk Hmm Hi min max ws limit Nmin Nmax Ho) as (st & Hst & R).
    rewrite (bind_Ok _ _ _ _ _ Hst). by rewrite R.
Qed.

End ZSetReads.
