(* ===== verification/ZSetWrites.v ===== *)
(** * Writes to sorted sets

    Refinement of ZADD, ZINCRBY and ZREM to updates of the finite map from
    members to scores a key represents. *)

From S2P Require Import Prelude Bytes Text Error Types Encoding Backend Storage Float Protocol.
From S2P Require Import Context Keyspace Paging Score ZSetCmd ZSetIndex ZSetProps.

Local Open Scope Z_scope.

(** ** Updates as a map *)

(** Whether ZADD stores a new score, by its options and the old score. *)
Definition accepts (flags : ZaddFlags) (old : option f64) (new : f64) : bool :=
  match old with
  | Some o => negb (nx flags) && negb (gt flags && f64_leb new o)
              && negb (lt flags && f64_leb o new) && negb (f64_eqb o new)
  | None => negb (xx flags)
  end.

(** The options of ZADD and their names. *)
Inductive zadd_opt := AddNX | AddXX | AddGT | AddLT | AddCH | AddINCR.

#[global] Instance zadd_opt_eq_dec : EqDecision zadd_opt.
Proof. solve_decision. Defined.

Definition zadd_opt_name (o : zadd_opt) : bytes :=
  match o with
  | AddNX => bs "NX" | AddXX => bs "XX" | AddGT => bs "GT" | AddLT => bs "LT" | AddCH => bs "CH"
  | AddINCR => bs "INCR"
  end.

(** The words spell the options, in any case. *)
Definition zadd_spells (O : list zadd_opt) (ws : list bytes) : Prop :=
  Forall2 (fun o w => to_ascii_uppercase w = zadd_opt_name o) O ws.

Abbreviation asks O o := (bool_decide (o ∈ O)).

Definition flags_of (O : list zadd_opt) : ZaddFlags :=
  {| nx := asks O AddNX; xx := asks O AddXX; gt := asks O AddGT; lt := asks O AddLT;
     ch := asks O AddCH; incr := asks O AddINCR |}.

(** NX excludes XX, GT and LT, and these two exclude each other. *)
Definition compatible (O : list zadd_opt) : Prop :=
  (AddNX ∈ O -> AddXX ∉ O /\ AddGT ∉ O /\ AddLT ∉ O) /\ (AddGT ∈ O -> AddLT ∉ O).

Definition join_flags (a b : ZaddFlags) : ZaddFlags :=
  mkFlags (nx a || nx b) (xx a || xx b) (gt a || gt b) (lt a || lt b) (ch a || ch b) (incr a || incr b).

(** The words that read [w] in upper case. *)
Fixpoint spellings (w : bytes) : list bytes :=
  match w with
  | [] => [[]]
  | c :: w => concat (map (fun l => [c :: l; ascii_lower c :: l]) (spellings w))
  end.

Lemma spellings_complete l : l ∈ spellings (to_ascii_uppercase l).
Proof.
  induction l as [|b l IH]; [by left|]. cbn [to_ascii_uppercase map spellings].
  apply list_elem_of_In, in_concat. eexists. split; [apply in_map, list_elem_of_In, IH|].
  assert (b = ascii_upper b \/ b = ascii_lower (ascii_upper b)) as [E|E] by (destruct b; vm_compute; auto).
  - left. by rewrite <- E.
  - right. left. by rewrite <- E.
Qed.

(** No word a score is read from is the name of an option. *)
Lemma score_no_option a s o : parse_score a = Ok s -> to_ascii_uppercase a <> zadd_opt_name o.
Proof.
  intros Hs E. pose proof (spellings_complete a) as Hin. rewrite E in Hin.
  assert (forallb (fun l => match parse_score l with Ok _ => false | _ => true end) (spellings (zadd_opt_name o)) = true)
    as Hall by (destruct o; vm_compute; reflexivity).
  rewrite forallb_forall in Hall. specialize (Hall a (proj1 (list_elem_of_In _ _) Hin)). by rewrite Hs in Hall.
Qed.

Lemma zadd_flags_stop flags i a rest :
  (forall o, to_ascii_uppercase a <> zadd_opt_name o) -> zadd_flags_loop flags i (a :: rest) = (flags, i).
Proof.
  intros H. pose proof (H AddNX). pose proof (H AddXX). pose proof (H AddGT). pose proof (H AddLT).
  pose proof (H AddCH). pose proof (H AddINCR). cbn [zadd_opt_name] in *.
  cbn [zadd_flags_loop]. cbv zeta. destruct flags. by repeat rewrite bool_decide_false by done.
Qed.

Lemma zadd_flags_spelled O ws rest : forall flags i,
  zadd_spells O ws ->
  zadd_flags_loop flags i (ws ++ rest) = zadd_flags_loop (join_flags flags (flags_of O)) (length ws + i) rest.
Proof.
  intros flags i H. revert flags i. induction H as [|o w O ws Hw H IH]; intros [n x g t c r] i.
  { unfold join_flags. cbn. by rewrite !orb_false_r. }
  cbn [app zadd_flags_loop length]. cbv zeta. rewrite Hw.
  assert (forall a b, asks (a :: O) b = bool_decide (b = a) || asks O b) as Hc.
  { intros a b. rewrite (bool_decide_ext (b ∈ a :: O) (b = a \/ b ∈ O)) by set_solver. by rewrite bool_decide_or. }
  replace (S (length ws) + i)%nat with (length ws + S i)%nat by lia.
  unfold flags_of. rewrite !Hc.
  destruct o; cbn [zadd_opt_name]; repeat (rewrite bool_decide_false by done); rewrite bool_decide_true by done;
    rewrite IH; unfold join_flags, flags_of; cbn -[bool_decide]; repeat (rewrite (bool_decide_false (_ = _)) by done);
    rewrite (bool_decide_true (_ = _)) by done; by rewrite ?orb_true_r.
Qed.

(** The flags of a command whose first score is the text [a]. *)
Lemma parse_zadd_flags_run O ws a s rest :
  zadd_spells O ws -> parse_score a = Ok s ->
  let conflict e := parse_zadd_flags (ws ++ a :: rest) = Err (Command (bs e)) in
  (AddNX ∈ O -> AddXX ∈ O -> conflict "XX and NX options at the same time are not compatible")
  /\ (~ (AddNX ∈ O /\ AddXX ∈ O) -> ~ compatible O ->
      conflict "GT, LT, and/or NX options at the same time are not compatible")
  /\ (compatible O -> parse_zadd_flags (ws ++ a :: rest) = Ok (flags_of O, length ws)).
Proof.
  intros H Hs. cbn zeta. unfold parse_zadd_flags, compatible.
  rewrite (zadd_flags_spelled O ws (a :: rest)) by done.
  rewrite zadd_flags_stop by (intros o; by eapply score_no_option). rewrite Nat.add_0_r.
  cbn -[bool_decide flags_of]. change (join_flags no_flags (flags_of O)) with (flags_of O).
  unfold flags_of. cbn -[bool_decide].
  repeat case_bool_decide; cbn; tauto.
Qed.

(** The last score given for every member. *)
Definition given (l : list scored) : gmap bytes f64 := foldl (fun U p => <[p.2:=p.1]> U) ∅ l.

(** The given scores ZADD stores in the set [m]. *)
Definition stored (flags : ZaddFlags) (m U : gmap bytes f64) : gmap bytes f64 :=
  filter (fun p => accepts flags (m !! p.1) p.2 = true) U.

Lemma parse_score_not_nan a s : parse_score a = Ok s -> is_nan s = false.
Proof.
  unfold parse_score. destruct (utf8_valid a); cbn [negb]; [|done]. cbv zeta.
  match goal with |- context [?o ≫= _] => destruct o as [t|e| |]; cbn [mbind outcome_bind]; try done end.
  destruct (is_nan t) eqn:Et; [done|]. by intros [= <-].
Qed.

Lemma hm_insert_fst x s l : (hm_insert x s l).*1 = if decide (x ∈ l.*1) then l.*1 else l.*1 ++ [x].
Proof.
  induction l as [|[y t] l IH]; [done|]. cbn [hm_insert]. destruct (decide (y = x)) as [->|Hne].
  - rewrite decide_True; [done|]. by left.
  - cbn. rewrite IH. repeat case_decide; try done; set_solver.
Qed.

Lemma hm_insert_NoDup x s l : NoDup l.*1 -> NoDup (hm_insert x s l).*1.
Proof.
  intros H. rewrite hm_insert_fst. case_decide as Hx; [done|]. apply NoDup_app.
  split; [done|]. split; [|apply NoDup_singleton]. intros y Hy ->%list_elem_of_singleton. done.
Qed.

Lemma hm_insert_map x s l :
  NoDup l.*1 -> list_to_map (hm_insert x s l) = <[x:=s]> (list_to_map l : gmap bytes f64).
Proof.
  induction l as [|[y t] l IH]; intros Hn; [done|]. cbn in Hn. apply NoDup_cons in Hn as [_ Hn].
  cbn [hm_insert]. destruct (decide (y = x)) as [->|Hne]; cbn [list_to_map foldr fst snd].
  - cbn. by rewrite insert_insert_eq.
  - cbn. rewrite IH by done. by apply insert_insert_ne.
Qed.

Lemma collect_updates_run (l : list (bytes * bytes)) (L : list scored) : forall acc,
  Forall2 (fun a p => parse_score a.1 = Ok p.1 /\ a.2 = p.2) l L -> NoDup acc.*1 ->
  exists u, collect_updates acc l = Ok u /\ NoDup u.*1
    /\ list_to_map u = foldl (fun U p => <[p.2:=p.1]> U) (list_to_map acc : gmap bytes f64) L.
Proof.
  intros acc HF. revert acc. induction HF as [|[a x] [s y] l L [Ha Hx] HF IH]; intros acc Hn; [eauto|].
  simpl in Ha, Hx. subst y. cbn [collect_updates]. rewrite Ha. cbn [mbind outcome_bind].
  destruct (IH (hm_insert x s acc) (hm_insert_NoDup _ _ _ Hn)) as (u & Hu & Nu & Eu).
  exists u. split; [done|]. split; [done|]. rewrite Eu, hm_insert_map by done. done.
Qed.

Lemma given_elem (l : list scored) x s : given l !! x = Some s -> (s, x) ∈ l.
Proof.
  unfold given. assert (forall U : gmap bytes f64,
    foldl (fun U p => <[p.2:=p.1]> U) U l !! x = Some s -> (s, x) ∈ l \/ U !! x = Some s) as Hg.
  { induction l as [|[t y] l IH]; intros U; [by right|]. cbn [foldl fst snd]. intros [?|HU]%IH.
    - left. by right.
    - destruct (decide (y = x)) as [->|Hne].
      + rewrite lookup_insert_eq in HU. simplify_eq. left. by left.
      + rewrite lookup_insert_ne in HU by done. by right. }
  intros [?|E]%Hg; [done|]. by rewrite lookup_empty in E.
Qed.

Section ZSetWrites.
Context {DB : Type} {RDB : RocksDB DB}.
Implicit Types (d : DB) (ctx : CommandContext) (k x : bytes) (s : f64) (m U : gmap bytes f64).

(** ** Batches *)

Lemma drop_old_ops ctx k (w : Z) x o : Forall (key_op ctx k w) (drop_old ctx k w x o).
Proof. destruct o as [s|]; [|done]. constructor; [|done]. right. by eexists CF_ZSET_SCORE, _. Qed.

Lemma set_score_ops ctx k (w : Z) x s : Forall (key_op ctx k w) (set_score ctx k w x s).
Proof.
  constructor; [right; by eexists CF_SUBKEY, _|]. constructor; [|done]. right. by eexists CF_ZSET_SCORE, _.
Qed.

Lemma remove_score_ops ctx k (w : Z) x s : Forall (key_op ctx k w) (remove_score ctx k w x s).
Proof.
  constructor; [right; by eexists CF_SUBKEY, _|]. constructor; [|done]. right. by eexists CF_ZSET_SCORE, _.
Qed.

Lemma after_extend d b1 b2 : after (db_write d b1) (db_write d (b1 ++ b2)) b2.
Proof. intros cf key. apply db_get_extend. Qed.

(** A batch that turns the indexes of [m] into those of [m']. *)
Definition turns d ctx k (w : Z) (b : WriteBatch) m' : Prop :=
  indexed (db_write d b) ctx k w m' /\ Forall (key_op ctx k w) b.

Lemma turns_nil d ctx k (w : Z) m : indexed d ctx k w m -> turns d ctx k w [] m.
Proof.
  intros Hi. split; [|done].
  assert (forall cf key, db_get (db_write d []) cf key = db_get d cf key) as Hg
    by (intros; by rewrite db_get_write).
  destruct Hi as (H1 & H2 & H3). split; [|split; [|done]]; intros; rewrite Hg; auto.
Qed.

Lemma turns_set d ctx k (w : Z) b m x s :
  turns d ctx k w b m -> number s ->
  turns d ctx k w (b ++ drop_old ctx k w x (m !! x) ++ set_score ctx k w x s) (<[x:=s]> m).
Proof.
  intros [Hi Ho] Hs. split.
  - eapply indexed_set; [done..|apply after_extend].
  - apply Forall_app. split; [done|]. apply Forall_app. split; [apply drop_old_ops|apply set_score_ops].
Qed.

Lemma turns_remove d ctx k (w : Z) b m x s :
  turns d ctx k w b m -> m !! x = Some s ->
  turns d ctx k w (b ++ remove_score ctx k w x s) (base.delete x m).
Proof.
  intros [Hi Ho] Hs. split.
  - eapply indexed_remove; [done..|apply after_extend].
  - apply Forall_app. split; [done|apply remove_score_ops].
Qed.

(** Storing the metadata ends a write: the key then holds [m']. *)
Lemma zset_written E d ctx ctx' k meta b m' :
  wf_db d -> namespace ctx' = namespace ctx -> unexpired E ctx' -> zset_meta E meta m' ->
  turns d ctx k (md_version meta) b m' ->
  let d' := db_write d (b ++ [PutCf CF_METADATA (meta_key ctx k) (encode_metadata meta)]) in
  zset_at E d' ctx' k meta m' /\ only_version d d' ctx k (md_version meta).
Proof.
  intros H Hns Hx Hm [(H1 & H2 & H3) Ho] d'. split.
  - split; [|split; [done|split; [done|]]].
    + eapply composite_written; [|done|apply Hm]. unfold meta_key in *. rewrite Hns. unfold d'.
      by rewrite db_get_write, batch_effect_app, batch_effect_put.
    + unfold indexed, sub_key, d' in *. rewrite Hns. split; [|split; [|done]]; intros y;
        rewrite db_get_extend, batch_effect_other_cf by done; auto.
  - apply (only_version_write d ctx k (md_version meta)); [done|by eapply good_meta_version, Hm|].
    apply Forall_app. split; [done|]. constructor; [by left|done].
Qed.

(** The same without the names of the metadata and the version. *)
Lemma zset_at_repr E d d' ctx ctx' k meta (w : Z) m :
  zset_at E d' ctx' k meta m /\ only_version d d' ctx k w -> zset_repr E d' ctx' k m /\ only_key d d' ctx k.
Proof. intros [Ha Hv]. split; [right; by eexists|apply Hv]. Qed.

Lemma put_score_run d ctx k (w : Z) b x s :
  wf_db d -> put_score ctx k w b x s d = (Ok (b ++ set_score ctx k w x s), d).
Proof.
  intros H. unfold put_score. erewrite bind_Ok by eauto with kv.
  rewrite batch_put_run by eauto with kv. by rewrite <- app_assoc.
Qed.

Lemma member_score_run d ctx k (w : Z) m x :
  wf_db d -> indexed d ctx k w m ->
  Storage.get CF_SUBKEY (member_subkey ctx k w x) d = (Ok (encode_score <$> m !! x), d).
Proof. intros H (H1 & _). rewrite get_run by eauto with kv. unfold member_subkey. by rewrite H1. Qed.

Lemma zset_meta_size E meta m m' :
  zset_meta E meta m -> Z.of_nat (size m') <= u64_max ->
  zset_meta E (set_size (Z.of_nat (size m')) meta) m'.
Proof.
  intros (Hg & He & Hs) Hm. split; [|done]. apply good_meta_set_size; [done|].
  unfold is_u64, u64_max in *. lia.
Qed.

(** ** ZADD *)

(** One update: [m] is the stored set, [m1] the set the batch leads to. *)
Lemma zadd_update_run E d ctx k flags meta b a c m m1 x s :
  wf_db d -> indexed d ctx k (md_version meta) m -> turns d ctx k (md_version meta) b m1 ->
  m1 !! x = m !! x -> number s -> zset_meta E meta m1 ->
  0 <= a < i64_max -> 0 <= c < i64_max -> Z.of_nat (size m1) < u64_max ->
  let m2 := if accepts flags (m !! x) s then <[x:=s]> m1 else m1 in
  exists b', zadd_update ctx k flags (meta, b, a, c) (x, s) d
    = (Ok (set_size (Z.of_nat (size m2)) meta, b', a + (Z.of_nat (size m2) - Z.of_nat (size m1)),
           if accepts flags (m !! x) s then c + 1 else c), d)
    /\ turns d ctx k (md_version meta) b' m2.
Proof.
  intros H Hi Ht Hx Hs Hm Ha Hc Hsz m2. unfold i64_max, u64_max in *.
  pose proof Hm as (_ & _ & Hms).
  assert (forall meta', meta' = set_size (md_size meta') meta' ) as Hid by by intros [].
  assert (set_size (Z.of_nat (size m1)) meta = meta) as Hsame by (rewrite <- Hms; by destruct meta).
  unfold zadd_update. rewrite (bind_Ok _ _ _ _ _ (member_score_run d ctx k _ m x H Hi)).
  pose proof (turns_set d ctx k (md_version meta) b m1 x s Ht Hs) as Hset. rewrite Hx in Hset.
  unfold m2, accepts. destruct (m !! x) as [o|] eqn:Eo; cbn [fmap option_fmap option_map].
  - assert (is_u64 o = true) as Hu by (destruct Hi as (_ & _ & H3); apply (H3 x o Eo)).
    assert (size (<[x:=s]> m1) = size m1) as Hsz'
      by (rewrite map_size_insert_Some; [done|by eexists]).
    rewrite (bind_Ok _ _ _ _ _ (stored_score_run d o Hu)).
    destruct (nx flags); [|destruct (gt flags && f64_leb s o); [|destruct (lt flags && f64_leb o s);
      [|destruct (f64_eqb o s)]]]; cbn [negb andb].
    1-4: exists b; rewrite Hsame, Z.sub_diag, Z.add_0_r; done.
    erewrite bind_Ok by eauto with kv.
    erewrite bind_Ok by (apply arith_i64_ok, is_i64_spec; lia).
    erewrite bind_Ok by by apply put_score_run.
    eexists. rewrite Hsz', Hsame, Z.sub_diag, Z.add_0_r. split; [done|].
    by rewrite <- app_assoc.
  - destruct (xx flags); cbn [negb].
    { exists b. rewrite Hsame, Z.sub_diag, Z.add_0_r. done. }
    assert (size (<[x:=s]> m1) = S (size m1)) as Hsz' by (by rewrite map_size_insert_None).
    erewrite bind_Ok by (apply arith_i64_ok, is_i64_spec; lia).
    erewrite bind_Ok by (apply arith_i64_ok, is_i64_spec; lia).
    erewrite bind_Ok by (apply arith_u64_ok, is_u64_spec; lia).
    erewrite bind_Ok by by apply put_score_run.
    eexists. split; [|done]. rewrite Hms, Hsz'. unfold mret, M_ret. repeat f_equal; lia.
Qed.

Lemma zadd_fold E d ctx k flags m l : forall meta b a c m1,
  wf_db d -> indexed d ctx k (md_version meta) m -> turns d ctx k (md_version meta) b m1 ->
  NoDup l.*1 -> (forall x, x ∈ l.*1 -> m1 !! x = m !! x) -> Forall (fun p => number p.2) l ->
  zset_meta E meta m1 -> 0 <= a -> 0 <= c ->
  Z.of_nat (size m1) + Z.of_nat (length l) <= i64_max ->
  a + Z.of_nat (length l) <= i64_max -> c + Z.of_nat (length l) <= i64_max ->
  let l' := filter (fun p => accepts flags (m !! p.1) p.2 = true) l in
  let m2 := list_to_map l' ∪ m1 in
  exists b', mfold (zadd_update ctx k flags) (meta, b, a, c) l d
    = (Ok (set_size (Z.of_nat (size m2)) meta, b', a + (Z.of_nat (size m2) - Z.of_nat (size m1)),
           c + Z.of_nat (length l')), d)
    /\ turns d ctx k (md_version meta) b' m2.
Proof.
  induction l as [|[x s] l IH]; intros meta b a c m1 H Hi Ht Hn Heq Hnum Hm Ha Hc Hsz Hal Hcl.
  { exists b. cbn. rewrite (left_id_L ∅ (∪)). split; [|done]. pose proof Hm as (_ & _ & <-).
    rewrite Z.sub_diag, !Z.add_0_r. by destruct meta. }
  unfold i64_max in *. cbn [length] in *. apply Forall_cons in Hnum as [Hs Hnum]. cbn [snd] in Hs.
  cbn in Hn. apply NoDup_cons in Hn as [Hxl Hn].
  destruct (zadd_update_run E d ctx k flags meta b a c m m1 x s) as (b1 & Hrun & Ht1);
    [done..|apply Heq; by left|done|done|unfold i64_max; lia|unfold i64_max; lia|unfold u64_max; lia|].
  cbn [mfold]. rewrite (bind_Ok _ _ _ _ _ Hrun). clear Hrun.
  rewrite filter_cons. cbn [fst snd].
  set (A := accepts flags (m !! x) s) in *.
  set (m2 := if A then <[x:=s]> m1 else m1) in *.
  assert (Z.of_nat (size m1) <= Z.of_nat (size m2) <= Z.of_nat (size m1) + 1) as Hm2.
  { unfold m2. destruct A; [|lia]. rewrite map_size_insert. destruct (m1 !! x); unfold id; lia. }
  destruct (IH (set_size (Z.of_nat (size m2)) meta) b1 (a + (Z.of_nat (size m2) - Z.of_nat (size m1)))
    (if A then c + 1 else c) m2) as (b2 & Hrun & Ht2); [done|done|done|done| |done| | | |..].
  { intros y Hy. unfold m2. destruct A; [|apply Heq; by right].
    rewrite lookup_insert_ne by (by intros ->). apply Heq. by right. }
  { apply (zset_meta_size E meta m1); [done|]. unfold u64_max. lia. }
  { lia. } { destruct A; lia. } { lia. } { lia. } { destruct A; lia. }
  exists b2. rewrite Hrun. cbn [set_size md_version] in *.
  assert (list_to_map (filter (fun p => accepts flags (m !! p.1) p.2 = true) l) ∪ m2
    = list_to_map (if decide (A = true)
        then (x, s) :: filter (fun p => accepts flags (m !! p.1) p.2 = true) l
        else filter (fun p => accepts flags (m !! p.1) p.2 = true) l) ∪ m1) as Em.
  { unfold m2. destruct A; [|done]. rewrite decide_True by done. cbn.
    rewrite <- insert_union_l. rewrite <- insert_union_r; [done|].
    apply not_elem_of_list_to_map. intros ([y t] & -> & [_ Hy]%list_elem_of_filter)%list_elem_of_fmap.
    apply Hxl, list_elem_of_fmap. by exists (y, t). }
  rewrite Em in *. split; [|done]. unfold set_size. cbn [md_flags md_expire md_version md_head md_tail].
  do 3 f_equal; [f_equal; lia|]. destruct A; [rewrite decide_True by done|done]. cbn [length]. lia.
Qed.

(** *** Sizes of the results *)

Lemma stored_size flags m U :
  (size (stored flags m U ∪ m) = size (stored flags m U ∖ m) + size m)%nat.
Proof.
  rewrite <- !(size_dom (D:=gset bytes)), dom_union_L, dom_difference_L.
  rewrite <- size_union by set_solver. f_equal. apply set_eq. intros x.
  destruct (decide (x ∈ dom m)); set_solver.
Qed.

Lemma stored_list flags m (u : list (bytes * f64)) :
  NoDup u.*1 ->
  let u' := filter (fun p => accepts flags (m !! p.1) p.2 = true) u in
  list_to_map u' = stored flags m (list_to_map u) /\ length u' = size (stored flags m (list_to_map u)).
Proof.
  intros Hn u'. assert (NoDup u'.*1) as Hn'.
  { by apply NoDup_fst_filter. }
  assert (list_to_map u' = stored flags m (list_to_map u)) as E.
  { unfold u', stored. apply map_eq. intros x. apply option_eq. intros s.
    rewrite map_lookup_filter_Some, <- !elem_of_list_to_map by done.
    unfold u'. rewrite list_elem_of_filter. simpl. tauto. }
  split; [done|]. rewrite <- E. by rewrite map_size_list_to_map by done.
Qed.

Lemma given_size l : (size (given l) <= length l)%nat.
Proof.
  unfold given. assert (forall U : gmap bytes f64,
    size (foldl (fun U p => <[p.2:=p.1]> U) U l) <= size U + length l)%nat as Hg.
  { induction l as [|[s x] l IH]; intros U; simpl; [lia|]. specialize (IH (<[x:=s]> U)).
    rewrite map_size_insert in IH. destruct (U !! x); unfold id in *; lia. }
  specialize (Hg ∅). by rewrite map_size_empty in Hg.
Qed.

(** ZADD from the metadata it starts with. *)
Lemma zadd_run E d ctx ctx' k m hash_order opts flags l (L : list scored) meta :
  wf_db d -> ensure_zset_meta ctx k d = (Ok meta, d) -> zset_meta E meta m -> indexed d ctx k (md_version meta) m ->
  namespace ctx' = namespace ctx -> unexpired E ctx' ->
  parse_zadd_flags (opts ++ flatten l) = Ok (flags, length opts) -> incr flags = false -> l <> [] ->
  Forall2 (fun a p => parse_score a.1 = Ok p.1 /\ a.2 = p.2) l L ->
  Forall (fun p => number p.1) L ->
  (forall u, hash_order u ≡ₚ u) ->
  Z.of_nat (size m) + Z.of_nat (length l) <= i64_max ->
  let W := stored flags m (given L) in
  exists d', zadd ctx hash_order (k :: opts ++ flatten l) d
             = (Ok (Integer (Z.of_nat (if ch flags then size W else size (W ∖ m)))), d')
    /\ zset_at E d' ctx' k (set_size (Z.of_nat (size (W ∪ m))) meta) (W ∪ m)
    /\ only_version d d' ctx k (md_version meta).
Proof.
  intros H Hmeta Hm Hi Hns Hx Hfl Hinc Hne HL Hnum Hperm Hmax W.
  destruct (collect_updates_run l L [] HL ltac:(constructor)) as (u & Hu & Nu & Eu).
  change (foldl _ (list_to_map [] : gmap bytes f64) L) with (given L) in Eu.
  assert (NoDup (hash_order u).*1) as Nh by by rewrite (Hperm u).
  assert (list_to_map (hash_order u) = given L) as Eh.
  { rewrite <- Eu. by apply list_to_map_proper. }
  assert (Forall (fun p => number p.2) (hash_order u)) as Hh.
  { apply Forall_forall. rewrite Forall_forall in Hnum. intros [x s] Hin. apply (elem_of_list_to_map _ x s Nh) in Hin.
    rewrite Eh in Hin. apply given_elem in Hin. by apply (Hnum (s, x)). }
  pose proof (given_size L) as Hg. rewrite <- Eh, map_size_list_to_map in Hg by done.
  apply Forall2_length in HL as Hl. unfold i64_max in Hmax.
  destruct (zadd_fold E d ctx k flags m (hash_order u) meta [] 0 0 m) as (b & Hrun & Ht);
    [done|done|by apply turns_nil|done|done|done|done|lia|lia|unfold i64_max; lia..|].
  destruct (stored_list flags m (hash_order u) Nh) as [El Es]. rewrite El, Es, Eh in *. fold W in Hrun, Ht, Es.
  rewrite !Z.add_0_l in Hrun.
  unfold zadd. erewrite bind_Ok by (apply expect_min_arg_count_ok; destruct l as [|[? ?] ?]; [done|];
    cbn [length]; rewrite length_app; cbn; lia).
  mrun. change (drop 1 (k :: opts ++ flatten l)) with (opts ++ flatten l).
  rewrite (bind_Ok _ _ _ (flags, length opts) d) by (by rewrite Hfl). cbv beta iota zeta.
  change (drop (1 + length opts) (k :: opts ++ flatten l)) with (drop (length opts) (opts ++ flatten l)).
  rewrite drop_app_length, pairs_flatten, length_flatten, Hinc.
  rewrite bool_decide_false by (by destruct l as [|[? ?] ?]).
  replace ((2 * length l) mod 2)%nat with 0%nat by (by rewrite Nat.mul_comm, Nat.Div0.mod_mul).
  cbn [orb negb Nat.eqb andb]. rewrite (bind_Ok _ _ _ _ _ Hmeta).
  rewrite (bind_Ok _ _ _ _ _ (lift_run d _ _ Hu)). rewrite (bind_Ok _ _ _ _ _ Hrun). cbv beta iota.
  erewrite bind_Ok by eauto with kv. cbv beta.
  pose proof (stored_size flags m (given L)) as Hsz. fold W in Hsz.
  assert (size W <= length l)%nat as HS by (rewrite <- Es; etransitivity; [apply length_filter|lia]).
  assert (size (W ∖ m) <= size W)%nat as HSm.
  { apply map_subseteq_size, map_subseteq_difference_l. done. }
  destruct (zset_written E d ctx ctx' k (set_size (Z.of_nat (size (W ∪ m))) meta) b (W ∪ m))
    as [Hz Ho]; [done|done|done| |done|].
  { apply (zset_meta_size E meta m); [done|]. unfold u64_max. lia. }
  eexists. split; [|by split]. unfold write, modify, mbind, M_bind. cbv beta iota.
  unfold mret, M_ret. do 3 f_equal. destruct (ch flags); lia.
Qed.

(** The score an increment gives a member. *)
Definition incremented m x (i : f64) : f64 :=
  match m !! x with Some o => f64_add o i | None => i end.

(** What ZADD with INCR does with a member of the score [old]: nothing
    ([Some None]) when the options exclude it, else it stores a score; [None]
    when the sum is not finite. *)
Definition incr_answer (O : list zadd_opt) (old : option f64) (i : f64) : option (option f64) :=
  match old with
  | None => Some (if asks O AddXX then None else Some i)
  | Some o =>
      if asks O AddNX then Some None
      else if negb (is_finite (f64_add o i)) then None
      else if (asks O AddGT && f64_leb (f64_add o i) o) || (asks O AddLT && f64_leb o (f64_add o i))
      then Some None else Some (Some (f64_add o i))
  end.

Lemma finite_number s : is_u64 s = true -> is_finite s = true -> number s.
Proof.
  intros Hu Hf. split; [done|]. unfold is_finite in Hf. unfold is_nan. apply Z.ltb_lt in Hf. apply Z.ltb_ge. lia.
Qed.

Lemma zadd_incr_run E d ctx ctx' k O m meta a i x :
  wf_db d -> zset_meta E meta m -> indexed d ctx k (md_version meta) m ->
  namespace ctx' = namespace ctx -> unexpired E ctx' -> parse_score a = Ok i ->
  is_u64 (incremented m x i) = true -> Z.of_nat (size m) < u64_max ->
  let reply := zadd_incr ctx k (flags_of O) meta a x d in
  match incr_answer O (m !! x) i with
  | None => reply = (Err (Command (bs "increment would produce NaN or Infinity")), d)
  | Some None => reply = (Ok nil_reply, d)
  | Some (Some s) => exists d', reply = (Ok (bulk (format_score s)), d')
      /\ zset_repr E d' ctx' k (<[x:=s]> m) /\ only_key d d' ctx k
  end.
Proof.
  intros H Hm Hi Hns Hx Ha Hu Hsz. cbn zeta. unfold u64_max in Hsz. pose proof Hm as (_ & _ & Hms).
  pose proof (turns_set d ctx k (md_version meta) [] m x (incremented m x i) (turns_nil _ _ _ _ _ Hi)) as Hset.
  unfold zadd_incr. rewrite (bind_Ok _ _ _ _ _ (lift_run d _ _ Ha)).
  rewrite (bind_Ok _ _ _ _ _ (member_score_run d ctx k _ m x H Hi)). unfold incr_answer, incremented in *.
  destruct (m !! x) as [o|] eqn:Eo; cbn [fmap option_fmap option_map drop_old nx xx gt lt flags_of] in *.
  - rewrite (bool_decide_true (is_Some (Some _))) by eauto. rewrite andb_true_r, andb_false_r.
    destruct (asks O AddNX); [done|].
    assert (is_u64 o = true) as Ho by (destruct Hi as (_ & _ & H3); apply (H3 x o Eo)).
    rewrite (bind_Ok _ _ _ _ _ (stored_score_run d o Ho)). cbv zeta.
    destruct (is_finite (f64_add o i)) eqn:Ef; cbn [negb]; [|done].
    destruct (asks O AddGT && f64_leb (f64_add o i) o); [done|].
    destruct (asks O AddLT && f64_leb o (f64_add o i)); [done|]. cbn [orb].
    do 4 (erewrite bind_Ok by eauto with kv). erewrite bind_Ok by eauto with kv.
    eexists. split; [done|]. eapply zset_at_repr.
    refine (zset_written E d ctx ctx' k meta _ _ H Hns Hx _ (Hset _)); [|by apply finite_number].
    destruct Hm as (? & ? & ?). split_and!; [done..|]. rewrite map_size_insert_Some; [done|by eexists].
  - rewrite (bool_decide_false (is_Some None)) by by intros []. rewrite andb_false_r, andb_true_r.
    destruct (asks O AddXX); [done|].
    do 2 (erewrite bind_Ok by eauto with kv).
    rewrite (bind_Ok _ _ _ (md_size meta + 1) d) by (apply arith_u64_ok, is_u64_spec; lia).
    do 2 (erewrite bind_Ok by eauto with kv).
    eexists. split; [done|]. eapply zset_at_repr.
    refine (zset_written E d ctx ctx' k (set_size (md_size meta + 1) meta) _ _ H Hns Hx _ (Hset _)).
    + replace (md_size meta + 1) with (Z.of_nat (size (<[x:=i]> m))) by (rewrite map_size_insert_None by done; lia).
      apply (zset_meta_size E meta m); [done|]. rewrite map_size_insert_None by done. unfold u64_max. lia.
    + split; [done|]. by eapply parse_score_not_nan.
Qed.

(** The arguments of ZADD after its options are read. *)
Lemma zadd_parsed d ctx k hash_order opts flags l :
  parse_zadd_flags (opts ++ flatten l) = Ok (flags, length opts) -> incr flags = true -> l <> [] ->
  zadd ctx hash_order (k :: opts ++ flatten l) d
  = match l with
    | [(a, x)] => (meta ← ensure_zset_meta ctx k; zadd_incr ctx k flags meta a x) d
    | _ => (Err (Command (bs "INCR option supports a single increment-element pair")), d)
    end.
Proof.
  intros Hfl Hinc Hne.
  unfold zadd. erewrite bind_Ok by (apply expect_min_arg_count_ok; destruct l as [|[? ?] ?]; [done|];
    cbn [length]; rewrite length_app; cbn; lia).
  mrun. change (drop 1 (k :: opts ++ flatten l)) with (opts ++ flatten l).
  rewrite (bind_Ok _ _ _ (flags, length opts) d) by (by rewrite Hfl). cbv beta iota zeta.
  change (drop (1 + length opts) (k :: opts ++ flatten l)) with (drop (length opts) (opts ++ flatten l)).
  rewrite drop_app_length, pairs_flatten, length_flatten, Hinc.
  rewrite bool_decide_false by (by destruct l as [|[? ?] ?]).
  replace ((2 * length l) mod 2)%nat with 0%nat by (by rewrite Nat.mul_comm, Nat.Div0.mod_mul).
  cbn [orb negb Nat.eqb andb]. destruct l as [|[a x] [|p l]]; [done|done|].
  cbn [length]. replace (2 * S (S (length l)) =? 2)%nat with false by (symmetry; apply Nat.eqb_neq; lia). done.
Qed.

(** C8: ZADD with any list of its options NX, XX, GT, LT, CH and INCR, in any
    case. NX together with XX, GT or LT, and GT together with LT, is an error
    without effect. Without INCR the command refines the update of the map of
    scores: of the given members, each with its last given score, a new one is
    stored unless XX was asked for, and an old one unless NX was, and then only
    if the score changes, with GT upwards and with LT downwards, in whichever
    order the hash table yields them. The reply counts the new members, or with
    CH all stored ones. With INCR there must be a single pair; its score is
    added to the member's, under the same conditions, and the reply is the new
    score, or nil if nothing is stored; a sum that is not finite is an error
    without effect. Both indexes and the size follow, and no other key is
    touched. *)
Theorem zadd_refines E d ctx ctx' k m hash_order O opts l (L : list scored) :
  wf_db d -> zset_repr E d ctx k m -> namespace ctx' = namespace ctx -> unexpired E ctx' ->
  zadd_spells O opts -> l <> [] ->
  Forall2 (fun a p => parse_score a.1 = Ok p.1 /\ a.2 = p.2) l L ->
  Forall (fun p => number p.1) L ->
  (forall u, hash_order u ≡ₚ u) ->
  Z.of_nat (size m) + Z.of_nat (length l) <= i64_max ->
  let reply := zadd ctx hash_order (k :: opts ++ flatten l) d in
  let error e := reply = (Err (Command (bs e)), d) in
  (AddNX ∈ O -> AddXX ∈ O -> error "XX and NX options at the same time are not compatible")
  /\ (~ (AddNX ∈ O /\ AddXX ∈ O) -> ~ compatible O ->
      error "GT, LT, and/or NX options at the same time are not compatible")
  /\ (compatible O -> AddINCR ∉ O ->
      let W := stored (flags_of O) m (given L) in
      exists d', reply = (Ok (Integer (Z.of_nat (if asks O AddCH then size W else size (W ∖ m)))), d')
        /\ zset_repr E d' ctx' k (W ∪ m) /\ only_key d d' ctx k)
  /\ (compatible O -> AddINCR ∈ O -> length l <> 1%nat ->
      error "INCR option supports a single increment-element pair")
  /\ (compatible O -> AddINCR ∈ O -> forall i x, L = [(i, x)] -> is_u64 (incremented m x i) = true ->
      match incr_answer O (m !! x) i with
      | None => error "increment would produce NaN or Infinity"
      | Some None => reply = (Ok nil_reply, d)
      | Some (Some s) => exists d', reply = (Ok (bulk (format_score s)), d')
          /\ zset_repr E d' ctx' k (<[x:=s]> m) /\ only_key d d' ctx k
      end).
Proof.
  intros H Hr Hns Hx Hs Hne HL Hnum Hperm Hmax. cbn zeta.
  destruct (ensure_zset_meta_run E d ctx k m H Hr) as (meta & Hmeta & Hm & Hi).
  assert (exists a s rest, flatten l = a :: rest /\ parse_score a = Ok s) as (a & s & rest & El & Hs0).
  { destruct HL as [|[a x] [s y] l L [Ha _] _]; [done|]. by exists a, s, (x :: flatten l). }
  pose proof (parse_zadd_flags_run O opts a s rest Hs Hs0) as (C1 & C2 & C3). rewrite <- El in C1, C2, C3.
  assert (forall e, parse_zadd_flags (opts ++ flatten l) = Err e ->
    zadd ctx hash_order (k :: opts ++ flatten l) d = (Err e, d)) as Hbad.
  { intros e He. unfold zadd. erewrite bind_Ok by (apply expect_min_arg_count_ok; destruct l as [|[? ?] ?]; [done|];
      cbn [length]; rewrite length_app; cbn; lia).
    mrun. apply bind_Err. change (drop 1 (k :: opts ++ flatten l)) with (opts ++ flatten l). by rewrite He. }
  split_and!; [by auto|by auto|intros Hc Hn|intros Hc Hn Hl|intros Hc Hn i x -> Hu].
  - destruct (zadd_run E d ctx ctx' k m hash_order opts (flags_of O) l L meta) as (d' & R & Ha);
      [done|done|done|done|done|done|by auto|by apply bool_decide_eq_false|done..|].
    exists d'. split; [exact R|by eapply zset_at_repr].
  - rewrite (zadd_parsed d ctx k hash_order opts (flags_of O)) by (try apply bool_decide_eq_true; auto).
    by destruct l as [|[? ?] [|? ?]].
  - rewrite (zadd_parsed d ctx k hash_order opts (flags_of O)) by (try apply bool_decide_eq_true; auto).
    destruct l as [|[b y] [|? ?]]; [done| |by apply Forall2_length in HL].
    apply Forall2_cons_1 in HL as [[Hb Hy] _]. cbn [fst snd] in Hb, Hy. subst y.
    rewrite (bind_Ok _ _ _ _ _ Hmeta). apply (zadd_incr_run E d ctx ctx' k O m meta b i x); try done.
    unfold i64_max, u64_max in *. cbn [length] in Hmax. lia.
Qed.

(** ** ZREM *)

Lemma zrem_member_run E d ctx k meta b r m m1 x :
  wf_db d -> indexed d ctx k (md_version meta) m -> turns d ctx k (md_version meta) b m1 ->
  m1 !! x = m !! x -> zset_meta E meta m1 -> 0 <= r < i64_max ->
  let m2 := base.delete x m1 in
  exists b', zrem_member ctx k (meta, b, r) x d
    = (Ok (set_size (Z.of_nat (size m2)) meta, b', r + (Z.of_nat (size m1) - Z.of_nat (size m2))), d)
    /\ turns d ctx k (md_version meta) b' m2.
Proof.
  intros H Hi Ht Hx Hm Hr m2. unfold i64_max in *. pose proof Hm as (_ & _ & Hms).
  unfold zrem_member. rewrite (bind_Ok _ _ _ _ _ (member_score_run d ctx k _ m x H Hi)).
  destruct (m !! x) as [o|] eqn:Eo; cbn [fmap option_fmap option_map].
  - assert (is_u64 o = true) as Hu by (destruct Hi as (_ & _ & H3); apply (H3 x o Eo)).
    assert (size m1 = 1 + size m2)%nat as Hsz.
    { unfold m2. pose proof (map_size_ne_0_lookup_2 m1 x ltac:(rewrite Hx; eauto)).
      rewrite map_size_delete, Hx. lia. }
    rewrite (bind_Ok _ _ _ _ _ (stored_score_run d o Hu)).
    erewrite bind_Ok by eauto with kv. erewrite bind_Ok by eauto with kv.
    erewrite bind_Ok by (apply arith_i64_ok, is_i64_spec; lia).
    eexists. split.
    + unfold mret, M_ret. rewrite Hms. repeat f_equal; lia.
    + rewrite <- app_assoc. by apply turns_remove.
  - assert (m2 = m1) as -> by by apply delete_id.
    exists b. split; [|done]. rewrite <- Hms, Z.sub_diag, Z.add_0_r. by destruct meta.
Qed.

Lemma zrem_fold E d ctx k m l : forall meta b r m1,
  wf_db d -> indexed d ctx k (md_version meta) m -> turns d ctx k (md_version meta) b m1 ->
  NoDup l -> (forall x, x ∈ l -> m1 !! x = m !! x) -> zset_meta E meta m1 ->
  0 <= r -> r + Z.of_nat (length l) <= i64_max ->
  let m2 := foldr base.delete m1 l in
  exists b', mfold (zrem_member ctx k) (meta, b, r) l d
    = (Ok (set_size (Z.of_nat (size m2)) meta, b', r + (Z.of_nat (size m1) - Z.of_nat (size m2))), d)
    /\ turns d ctx k (md_version meta) b' m2.
Proof.
  induction l as [|x l IH]; intros meta b r m1 H Hi Ht Hn Heq Hm Hr Hmax.
  { exists b. cbn. split; [|done]. pose proof Hm as (_ & _ & <-).
    rewrite Z.sub_diag, !Z.add_0_r. by destruct meta. }
  unfold i64_max in *. cbn [length] in *. apply NoDup_cons in Hn as [Hxl Hn].
  destruct (zrem_member_run E d ctx k meta b r m m1 x) as (b1 & Hrun & Ht1);
    [done..|apply Heq; by left|done|unfold i64_max; lia|].
  cbn [mfold]. rewrite (bind_Ok _ _ _ _ _ Hrun). clear Hrun. set (m2 := base.delete x m1) in *.
  assert (Z.of_nat (size m2) <= Z.of_nat (size m1) <= Z.of_nat (size m2) + 1) as Hm2.
  { unfold m2. rewrite map_size_delete. destruct (m1 !! x); unfold id; lia. }
  pose proof Hm as (Hg & _ & Hms). apply good_meta_size, is_u64_spec in Hg.
  destruct (IH (set_size (Z.of_nat (size m2)) meta) b1 (r + (Z.of_nat (size m1) - Z.of_nat (size m2))) m2)
    as (b2 & Hrun & Ht2); [done|done|done|done| | |lia|lia|].
  { intros y Hy. unfold m2. rewrite lookup_delete_ne by (by intros ->). apply Heq. by right. }
  { apply (zset_meta_size E meta m1); [done|]. unfold u64_max. lia. }
  exists b2. rewrite Hrun. cbn [set_size md_version foldr] in *.
  assert (foldr base.delete m2 l = base.delete x (foldr base.delete m1 l)) as Em.
  { unfold m2. clear. induction l as [|y l IH]; [done|]. cbn [foldr]. rewrite IH.
    apply delete_delete. }
  rewrite Em in *. split; [|done]. unfold set_size. cbn [md_flags md_expire md_version md_head md_tail].
  do 3 f_equal. lia.
Qed.

(** The set without the members of [l]. *)
Definition without (m : gmap bytes f64) (l : list bytes) : gmap bytes f64 := foldr base.delete m l.

Lemma without_size m l : (size (without m l) <= size m)%nat.
Proof.
  unfold without. induction l as [|x l IH]; [done|]. cbn [foldr]. rewrite map_size_delete.
  destruct (foldr _ m l !! x); unfold id; lia.
Qed.

(** ZREM on an existing set. *)
Lemma zrem_run E d ctx ctx' k m l meta :
  wf_db d -> read_zset_meta ctx k d = (Ok (Some meta), d) -> composite_at d ctx k DZSet meta ->
  zset_meta E meta m -> indexed d ctx k (md_version meta) m -> l <> [] -> NoDup l ->
  Z.of_nat (length l) <= i64_max -> namespace ctx' = namespace ctx -> unexpired E ctx' ->
  let m' := without m l in
  exists d', zrem ctx (k :: l) d = (Ok (Integer (Z.of_nat (size m - size m'))), d')
    /\ zset_at E d' ctx' k (set_size (Z.of_nat (size m')) meta) m' /\ only_version d d' ctx k (md_version meta).
Proof.
  intros H Ho Hc Hm Hi Hne Hn Hmax Hns Hx m'. pose proof (without_size m l) as Hle. fold m' in Hle.
  unfold zrem. erewrite bind_Ok by (apply expect_min_arg_count_ok; destruct l; [done|simpl; lia]).
  mrun. rewrite (bind_Ok _ _ _ _ _ Ho). change (drop 1 (k :: l)) with l.
  destruct (zrem_fold E d ctx k m l meta [] 0 m) as (b & Hrun & Ht);
    [done|done|by apply turns_nil|done|done|done|lia|unfold i64_max in *; lia|].
  change (foldr base.delete m l) with m' in Hrun, Ht. rewrite (bind_Ok _ _ _ _ _ Hrun). cbv beta iota. rewrite Z.add_0_l.
  replace (Z.of_nat (size m) - Z.of_nat (size m')) with (Z.of_nat (size m - size m')) by lia.
  destruct (0 <? Z.of_nat (size m - size m')) eqn:Ew; zbool.
  - erewrite bind_Ok by (by erewrite bind_Ok by eauto with kv).
    eexists. split; [done|].
    apply (zset_written E d ctx ctx' k (set_size (Z.of_nat (size m')) meta) b m'); [done..| |done].
    pose proof Hm as (Hg & _ & Hms). apply good_meta_size, is_u64_spec in Hg.
    apply (zset_meta_size E meta m); [done|]. unfold u64_max. lia.
  - mrun. exists d. split; [done|]. split; [|by apply only_version_refl].
    assert (m' = m) as ->.
    { apply map_subseteq_size_eq; [|lia]. unfold m', without. clear. induction l as [|x l IH]; [done|].
      cbn [foldr]. etransitivity; [apply delete_subseteq|done]. }
    assert (set_size (Z.of_nat (size m)) meta = meta) as -> by (destruct Hm as (_ & _ & <-); by destruct meta).
    split; [by eapply composite_namespace|]. split; [done|]. split; [done|].
    unfold indexed, sub_key in *. by rewrite Hns.
Qed.

(** ZREM of different members refines their removal from the map: the
    reply counts those that were in the set, the removed members leave both
    indexes, and no other key is touched. *)
Theorem zrem_refines E d ctx ctx' k m l :
  wf_db d -> zset_repr E d ctx k m -> l <> [] -> NoDup l ->
  Z.of_nat (length l) <= i64_max -> later ctx ctx' -> unexpired E ctx' ->
  indexed d ctx' k (new_version ctx') ∅ ->
  let m' := without m l in
  exists d', zrem ctx (k :: l) d = (Ok (Integer (Z.of_nat (size m - size m'))), d')
    /\ zset_repr E d' ctx' k m' /\ only_key d d' ctx k.
Proof.
  intros H Hr Hne Hn Hmax Hlt Hx Hfresh m'. pose proof Hlt as [Hns _].
  destruct (read_zset_meta_run E d ctx k m H Hr) as (o & Ho & Hs). destruct o as [meta|].
  { destruct Hs as (Hc & Hm & Hi). destruct (zrem_run E d ctx ctx' k m l meta) as (d' & R & Ha); [done..|].
    exists d'. split; [done|by eapply zset_at_repr]. }
  unfold zrem. erewrite bind_Ok by (apply expect_min_arg_count_ok; destruct l; [done|simpl; lia]).
  mrun. rewrite (bind_Ok _ _ _ _ _ Ho). destruct Hs as (-> & -> & Hf & Ha). exists d.
  assert (m' = ∅) as -> by (unfold m', without; clear; induction l as [|x l IH]; [done|]; cbn [foldr];
    by rewrite IH, delete_empty).
  split; [done|]. split; [left|by apply only_key_refl]. split; [done|]. split; [done|]. split; [done|by eapply absent_later].
Qed.

(** ** ZINCRBY *)

(** ZINCRBY gives a member the sum of its score and the increment, or the
    increment if it is new, and replies the new score; both indexes follow,
    and no other key is touched. If the sum is not finite the command fails
    and nothing is written. *)
Theorem zincrby_refines E d ctx ctx' k m x a i :
  wf_db d -> zset_repr E d ctx k m -> namespace ctx' = namespace ctx -> unexpired E ctx' ->
  parse_score a = Ok i -> is_u64 (incremented m x i) = true -> Z.of_nat (size m) < u64_max ->
  if is_finite (incremented m x i) || bool_decide (m !! x = None)
  then exists d', zincrby ctx [k; a; x] d = (Ok (bulk (format_score (incremented m x i))), d')
         /\ zset_repr E d' ctx' k (<[x:=incremented m x i]> m) /\ only_key d d' ctx k
  else zincrby ctx [k; a; x] d = (Err (Command (bs "increment would produce NaN or Infinity")), d).
Proof.
  intros H Hr Hns Hx Ha Hu Hsz. unfold u64_max in Hsz.
  destruct (ensure_zset_meta_run E d ctx k m H Hr) as (meta & Hmeta & Hm & Hi).
  pose proof Hm as (_ & _ & Hms).
  pose proof (parse_score_not_nan a i Ha) as Ni.
  pose proof (turns_set d ctx k (md_version meta) [] m x (incremented m x i) (turns_nil _ _ _ _ _ Hi)) as Hset.
  assert (zincrby ctx [k; a; x] d = (
    if is_finite (incremented m x i) || bool_decide (m !! x = None) then
    (Ok (bulk (format_score (incremented m x i))),
      db_write d (([] ++ drop_old ctx k (md_version meta) x (m !! x)
                   ++ set_score ctx k (md_version meta) x (incremented m x i))
        ++ [PutCf CF_METADATA (meta_key ctx k)
              (encode_metadata (set_size (Z.of_nat (size (<[x:=incremented m x i]> m))) meta))]))
    else (Err (Command (bs "increment would produce NaN or Infinity")), d))) as Hrun.
  { unfold zincrby. mrun. do 2 mrun. rewrite (bind_Ok _ _ _ _ _ (lift_run d _ _ Ha)). mrun.
    rewrite (bind_Ok _ _ _ _ _ Hmeta).
    rewrite (bind_Ok _ _ _ _ _ (member_score_run d ctx k _ m x H Hi)). unfold incremented in *.
    rewrite map_size_insert. destruct (m !! x) as [o|] eqn:Eo; cbn [fmap option_fmap option_map drop_old].
    - assert (is_u64 o = true) as Ho by (destruct Hi as (_ & _ & H3); apply (H3 x o Eo)).
      rewrite bool_decide_false, orb_false_r by done. unfold mbind at 1, M_bind at 1.
      rewrite (bind_Ok _ _ _ _ _ (stored_score_run d o Ho)).
      destruct (is_finite (f64_add o i)); cbn [negb]; [|done].
      rewrite (bind_Ok _ _ _ _ _ (batch_delete_run d [] CF_ZSET_SCORE _ H cf_zset_score_in)).
      unfold mret at 1, M_ret at 1. cbv beta iota.
      erewrite bind_Ok by by apply put_score_run. erewrite bind_Ok by eauto with kv.
      unfold id. replace (set_size (Z.of_nat (size m)) meta) with meta; [done|].
      rewrite <- Hms. by destruct meta.
    - rewrite bool_decide_true, orb_true_r by done. unfold mbind at 1, M_bind at 1.
      rewrite (bind_Ok _ _ _ (md_size meta + 1) d) by (apply arith_u64_ok, is_u64_spec; lia).
      unfold mret at 1, M_ret at 1. cbv beta iota.
      erewrite bind_Ok by by apply put_score_run. erewrite bind_Ok by eauto with kv.
      by replace (md_size meta + 1) with (Z.of_nat (S (size m))) by lia. }
  destruct (is_finite (incremented m x i) || bool_decide (m !! x = None)) eqn:Ef; [|done].
  eexists. split; [done|]. eapply zset_at_repr.
  apply (zset_written E d ctx ctx' k (set_size (Z.of_nat (size (<[x:=incremented m x i]> m))) meta));
    [done..| |].
  - apply (zset_meta_size E meta m); [done|]. rewrite map_size_insert. unfold u64_max.
    destruct (m !! x); unfold id; lia.
  - apply Hset. split; [done|]. apply orb_true_iff in Ef as [Hf|Hf].
    + unfold is_finite in Hf. unfold is_nan. apply Z.ltb_lt in Hf. apply Z.ltb_ge. lia.
    + unfold incremented. apply bool_decide_eq_true in Hf. by rewrite Hf.
Qed.

End ZSetWrites.

(** ** Witnesses *)

Definition f_one : f64 := 0x3FF0000000000000.
Definition f_two : f64 := 0x4000000000000000.

Definition zset_ab : gmap bytes f64 := <[bs "b":=f_two]> (<[bs "a":=f_one]> ∅).

Definition demo_zmeta : Metadata := set_size 2 (metadata_new DZSet (new_version ctx0)).

Definition zbatch : WriteBatch :=
  ([] ++ drop_old ctx0 (bs "z") (md_version demo_zmeta) (bs "a") ((∅ : gmap bytes f64) !! bs "a")
      ++ set_score ctx0 (bs "z") (md_version demo_zmeta) (bs "a") f_one)
  ++ drop_old ctx0 (bs "z") (md_version demo_zmeta) (bs "b")
       ((<[bs "a":=f_one]> ∅ : gmap bytes f64) !! bs "b")
  ++ set_score ctx0 (bs "z") (md_version demo_zmeta) (bs "b") f_two.

(** A database that holds [a] with score 1 and [b] with score 2 under [z]. *)
Definition db_z : MemDB :=
  db_write db0 (zbatch ++ [PutCf CF_METADATA (meta_key ctx0 (bs "z")) (encode_metadata demo_zmeta)]).

Lemma db_z_wf : wf_db db_z.
Proof. apply wf_write, mem_wf. Qed.

Lemma db0_indexed k (w : Z) : indexed db0 ctx0 k w ∅.
Proof.
  split; [done|]. split; [|by intros x s [=]].
  intros sub. split; [by intros []|]. by intros (x & s & [=] & _).
Qed.

Lemma zbatch_turns : turns db0 ctx0 (bs "z") (md_version demo_zmeta) zbatch zset_ab.
Proof. apply turns_set; [apply turns_set; [apply turns_nil, db0_indexed|done]|done]. Qed.

Lemma db_z_repr : zset_repr 0 db_z ctx0 (bs "z") zset_ab.
Proof.
  right. eexists. apply (zset_written 0 db0 ctx0 ctx0); [apply mem_wf|done|done| |apply zbatch_turns].
  split; [apply good_meta_set_size; [apply good_meta_new|done]|done].
Qed.

(** XX and LT leave out the new member and the larger score; INCR adds. *)
Lemma zadd_refines_witness :
  (exists d', zadd ctx0 (fun u => rev u) ([bs "z"] ++ [bs "xx"; bs "Lt"; bs "CH"]
                ++ flatten [(bs "1", bs "c"); (bs "2", bs "a"); (bs "1", bs "b")]) db_z
              = (Ok (Integer 1), d')
     /\ zset_repr 0 d' ctx0 (bs "z") (stored (mkFlags false true false true true false) zset_ab
          (given [(f_one, bs "c"); (f_two, bs "a"); (f_one, bs "b")]) ∪ zset_ab)
     /\ only_key db_z d' ctx0 (bs "z"))
  /\ exists d', zadd ctx0 (fun u => u) ([bs "z"] ++ [bs "incr"; bs "GT"] ++ flatten [(bs "1", bs "a")]) db_z
                = (Ok (bulk (bs "2")), d')
     /\ zset_repr 0 d' ctx0 (bs "z") (<[bs "a":=f_two]> zset_ab) /\ only_key db_z d' ctx0 (bs "z").
Proof.
  split.
  - refine (proj1 (proj2 (proj2 (zadd_refines 0 db_z ctx0 ctx0 (bs "z") zset_ab (fun u => rev u)
      [AddXX; AddLT; AddCH] [bs "xx"; bs "Lt"; bs "CH"] [(bs "1", bs "c"); (bs "2", bs "a"); (bs "1", bs "b")]
      [(f_one, bs "c"); (f_two, bs "a"); (f_one, bs "b")] db_z_wf db_z_repr eq_refl eq_refl _ _ _ _ _ _))) _ _).
    + repeat constructor.
    + discriminate.
    + repeat constructor.
    + repeat constructor.
    + intros u. symmetry. apply Permutation_rev.
    + vm_compute. discriminate.
    + split; intros; set_solver.
    + set_solver.
  - refine (proj2 (proj2 (proj2 (proj2 (zadd_refines 0 db_z ctx0 ctx0 (bs "z") zset_ab (fun u => u)
      [AddINCR; AddGT] [bs "incr"; bs "GT"] [(bs "1", bs "a")] [(f_one, bs "a")]
      db_z_wf db_z_repr eq_refl eq_refl _ _ _ _ _ _)))) _ _ f_one (bs "a") eq_refl eq_refl).
    + repeat constructor.
    + discriminate.
    + repeat constructor.
    + repeat constructor.
    + reflexivity.
    + vm_compute. discriminate.
    + split; intros; set_solver.
    + set_solver.
Defined.

Lemma zrem_refines_witness :
  let m' := without zset_ab [bs "a"; bs "x"] in
  exists d', zrem ctx0 [bs "z"; bs "a"; bs "x"] db_z = (Ok (Integer (Z.of_nat (size zset_ab - size m'))), d')
    /\ zset_repr 0 d' (mkContext [] 1001 9 true 40) (bs "z") m' /\ only_key db_z d' ctx0 (bs "z").
Proof.
  apply (zrem_refines 0 db_z ctx0 (mkContext [] 1001 9 true 40) (bs "z") zset_ab [bs "a"; bs "x"]);
    [apply db_z_wf|apply db_z_repr|done|apply (bool_decide_unpack _); done|vm_compute; discriminate
    |split; [done|vm_compute; discriminate]|done|].
  assert (forall cf f, cf <> CF_METADATA ->
    db_get db_z cf (sub_key (mkContext [] 1001 9 true 40) (bs "z") (new_version (mkContext [] 1001 9 true 40)) f)
    = None) as Hnone.
  { intros cf f Hcf. unfold db_z. rewrite db_get_write, batch_effect_app, batch_effect_other_cf by done.
    rewrite batch_effect_frame; [done|].
    apply (Forall_impl _ _ _ (proj2 zbatch_turns)).
    intros o [Ho|(cf' & f' & _ & Ho)] E; rewrite Ho in E; [by apply (f_equal fst) in E|].
    apply (f_equal snd) in E. revert E. apply (sub_key_ne ctx0);
      [apply short0; simpl; lia|apply short0; simpl; lia|done|done|right; vm_compute; discriminate]. }
  split; [intros x; by rewrite Hnone by done|]. split; [|by intros x s [=]].
  intros sub. rewrite Hnone by done. split; [by intros []|]. by intros (x & s & [=] & _).
Defined.

Lemma zincrby_refines_witness :
  exists d', zincrby ctx0 [bs "z"; bs "1"; bs "a"] db_z = (Ok (bulk (bs "2")), d')
    /\ zset_repr 0 d' ctx0 (bs "z") (<[bs "a":=f_two]> zset_ab) /\ only_key db_z d' ctx0 (bs "z").
Proof.
  apply (zincrby_refines 0 db_z ctx0 ctx0 (bs "z") zset_ab (bs "a") (bs "1") f_one);
    [apply db_z_wf|apply db_z_repr|done|done|done|done|done].
Defined.

Lemma zset_reads_witness :
  exists L, zlisting zset_ab L
  /\ zscore ctx0 [bs "z"; bs "b"] db_z = (Ok (BulkString (format_score <$> zset_ab !! bs "b")), db_z)
  /\ zrange ctx0 ([bs "z"; show_Z 0; show_Z (-1)] ++ ws_args true) db_z
     = (Ok (Array (concat (map (scored_replies true) (rank_slice L 0 (-1))))), db_z).
Proof.
  destruct (zset_reads 0 db_z ctx0 (bs "z") zset_ab (bs "b") 0 (-1) true) as (L & HL & H1 & _ & H3 & _);
    [apply db_z_wf|apply short0; simpl; lia|apply db_z_repr|done..|].
  exists L. exact (conj HL (conj H1 H3)).
Defined.

Lemma zset_by_score_witness :
  exists L, zlisting zset_ab L
  /\ zrangebyscore ctx0 [bs "z"; bs "1"; bs "+inf"; bs "Limit"; bs "0"; bs "1"; bs "withscores"] db_z
     = (Ok (Array (concat (map (scored_replies true)
          (window {| offset := 0; count := 1 |} (filter (fun p => in_range f_one f64_infinity p = true) L))))), db_z).
Proof.
  destruct (zset_by_score 0 db_z ctx0 (bs "z") zset_ab (bs "1") (bs "+inf") f_one f64_infinity
    [LimitTo 0 1; WithScores] [bs "Limit"; bs "0"; bs "1"; bs "withscores"]) as (L & HL & H1 & _);
    [apply db_z_wf|apply short0; simpl; lia|apply db_z_repr|done..| |].
  { apply (range_spells_limit (bs "Limit") 0 1); [reflexivity..|].
    apply range_spells_scores; [reflexivity|apply range_spells_nil]. }
  exists L. split; [exact HL|]. apply H1; [|by intros [=]]. by intros s [=].
Defined.

(** A range whose end lies before the first element yields the first element:
    the end is clamped to rank 0 (Redis replies with an empty list). *)
Example zrange_before_the_start :
  fst (zrange ctx0 [bs "z"; bs "0"; bs "-5"] db_z) = Ok (Array [bulk (bs "a")]).
Proof. vm_compute. reflexivity. Qed.

(** A member named by the empty string is missed at the lower bound of
    ZRANGEBYSCORE, since the scan starts after its score key. *)
Example empty_member_missed :
  fst ((_ ← zadd ctx0 (fun l => l) [bs "y"; bs "1"; []];
        a ← zrangebyscore ctx0 [bs "y"; bs "1"; bs "2"];
        b ← zrevrangebyscore ctx0 [bs "y"; bs "2"; bs "1"];
        mret [a; b]) db0)
  = Ok [Array []; Array [bulk []]].
Proof. vm_compute. reflexivity. Qed.

(** A member given twice to ZREM is counted twice. *)
Example zrem_duplicate_miscounts :
  fst (zrem ctx0 [bs "z"; bs "a"; bs "a"] db_z) = Ok (Integer 2).
Proof. vm_compute. reflexivity. Qed.
