(* ===== verification/StreamCmd.v ===== *)
(** * Stream commands (src/cmd/stream.rs)

    Streams of entries under increasing IDs: XADD, XLEN, XRANGE and XREAD. The
    entries are subkeys whose key is the big-endian image of the ID; the
    metadata, in an encoding of its own, carries the last ID. *)

From S2P Require Import Prelude Bytes Text Error Types Encoding Backend Storage Float Protocol.
From S2P Require Import Context Keyspace Paging.

Local Open Scope Z_scope.

Definition STREAM_PAGE_LIMIT : Z := 1000.

(** ** Metadata *)

Record StreamMeta := mkStreamMeta {
  sm_flags : byte; sm_expire : Z; sm_version : Z; sm_size : Z; sm_last_ms : Z; sm_last_seq : Z;
}.

Definition encode_stream_meta (flags : byte) (expire version size last_ms last_seq : Z) : bytes :=
  flags :: be_bytes 8 expire ++ be_bytes 8 version ++ be_bytes 8 size
    ++ be_bytes 8 last_ms ++ be_bytes 8 last_seq.

Definition decode_stream_meta (data : bytes) : option StreamMeta :=
  if blen data <? 1 + 8 + 8 + 8 + 8 + 8 then None
  else
    match data with
    | [] => None
    | flags :: _ =>
        Some (mkStreamMeta flags (i64_from_be (slice 1 9 data)) (from_be (slice 9 17 data))
                (from_be (slice 17 25 data)) (from_be (slice 25 33 data)) (from_be (slice 33 41 data)))
    end.

(** [StreamMeta::new], [StreamMeta::encode] and the [now_ms] of this module. *)
Definition stream_meta_new (version : Z) : StreamMeta :=
  mkStreamMeta (build_flags DStream) 0 version 0 0 0.

Definition sm_encode (m : StreamMeta) : bytes :=
  encode_stream_meta (sm_flags m) (sm_expire m) (sm_version m) (sm_size m) (sm_last_ms m) (sm_last_seq m).

Definition stream_now (ctx : CommandContext) : Z := wrap_u64 (clock ctx).

Definition sm_is_expired (ctx : CommandContext) (m : StreamMeta) : bool :=
  (0 <? sm_expire m) && (sm_expire m <=? wrap_i64 (stream_now ctx)).

(** ** Entry IDs *)

Record EntryId := mkId { id_ms : Z; id_seq : Z }.

#[export] Instance EntryId_eq_decision : EqDecision EntryId.
Proof. solve_decision. Defined.

(** The derived order. *)
Definition id_ltb (a b : EntryId) : bool :=
  (id_ms a <? id_ms b) || ((id_ms a =? id_ms b) && (id_seq a <? id_seq b)).

Definition id_encode (id : EntryId) : bytes := be_bytes 8 (id_ms id) ++ be_bytes 8 (id_seq id).

Definition format_id (id : EntryId) : bytes := show_Z (id_ms id) ++ [Byte.x2d] ++ show_Z (id_seq id).

Definition invalid_id : KvdbError := Command (bs "invalid stream ID").

(** [text.splitn(2, '-')] with two parts. *)
Fixpoint split_dash (l : bytes) : option (bytes * bytes) :=
  match l with
  | [] => None
  | b :: rest =>
      if decide (b = Byte.x2d) then Some ([], rest)
      else match split_dash rest with Some (x, y) => Some (b :: x, y) | None => None end
  end.

(** [EntryId::parse]. *)
Definition parse_id (s : bytes) : outcome (option EntryId) :=
  if negb (utf8_valid s) then Err invalid_id
  else if bool_decide (s = bs "-") then Ok (Some (mkId 0 0))
  else if bool_decide (s = bs "+") then Ok (Some (mkId u64_max u64_max))
  else
    match split_dash s with
    | None => Err invalid_id
    | Some (a, b) =>
        ms ← ok_or (parse_u64 a) invalid_id;
        seq ← ok_or (parse_u64 b) invalid_id;
        Ok (Some (mkId ms seq))
    end.

(** [EntryId::parse(s)?.ok_or_else(..)?]. *)
Definition parse_xread_id (s : bytes) : outcome EntryId :=
  o ← parse_id s; ok_or o invalid_id.

Definition parse_range_bound (s : bytes) : outcome EntryId :=
  if negb (utf8_valid s) then Err invalid_id
  else if bool_decide (s = bs "-") then Ok (mkId 0 0)
  else if bool_decide (s = bs "+") then Ok (mkId u64_max u64_max)
  else if bool_decide (last s = Some Byte.x2d) && (1 <? length s)%nat then
    ms ← ok_or (parse_u64 (take (length s - 1) s)) invalid_id;
    Ok (mkId ms 0)
  else o ← parse_id s; ok_or o invalid_id.

(** ** Fields *)

Abbreviation field := (bytes * bytes)%type.

(** One length-prefixed string. *)
Definition encode_str (s : bytes) : bytes := be_bytes 4 (wrap_u32 (blen s)) ++ s.

Definition encode_fields (fields : list field) : bytes :=
  concat (map (fun f => encode_str f.1 ++ encode_str f.2) fields).

(** The loop of [decode_fields] on the bytes from [pos] on: a round consumes
    eight bytes or more. *)
Fixpoint decode_fields_from (fuel : nat) (data : bytes) : option (list field) :=
  match data, fuel with
  | [], _ => Some []
  | _, O => None
  | _, S fuel' =>
      if blen data <? 4 then None
      else
        let k_len := from_be (take 4 data) in
        let data := drop 4 data in
        if blen data <? k_len + 4 then None
        else
          let k := take (Z.to_nat k_len) data in
          let data := drop (Z.to_nat k_len) data in
          let v_len := from_be (take 4 data) in
          let data := drop 4 data in
          if blen data <? v_len then None
          else
            let v := take (Z.to_nat v_len) data in
            match decode_fields_from fuel' (drop (Z.to_nat v_len) data) with
            | Some rest => Some ((k, v) :: rest)
            | None => None
            end
  end.

Definition decode_fields (data : bytes) : option (list field) :=
  decode_fields_from (length data) data.

(** ** Replies *)

Abbreviation entry := (EntryId * list field)%type.

Definition build_entry_resp (e : entry) : RespValue :=
  Array [bulk (format_id e.1); Array (concat (map (fun f => [bulk f.1; bulk f.2]) e.2))].

Section StreamCommands.
Context {DB : Type} {RDB : RocksDB DB}.
Variable ctx : CommandContext.

(** The checks of [read_stream_meta]: the stream encoding first, then the
    encoding the other types share. *)
Definition check_stream_meta (v : bytes) : outcome (option StreamMeta) :=
  match v with
  | [] => Err (Protocol (bs "empty metadata value"))
  | b :: _ =>
      if bool_decide (from_code (Z.land (byte_to_Z b) 0x0F) = Some DString) then Err wrong_type_error
      else
        match decode_stream_meta v with
        | Some m =>
            if negb (bool_decide (from_code (Z.land (byte_to_Z (sm_flags m)) 0x0F) = Some DStream))
            then Err wrong_type_error
            else if sm_is_expired ctx m then Ok None else Ok (Some m)
        | None =>
            meta ← ok_or (decode_metadata v) (Protocol (bs "invalid stream metadata encoding"));
            if negb (bool_decide (data_type meta = Some DStream)) then Err wrong_type_error
            else if is_expired meta (wrap_i64 (stream_now ctx)) then Ok None
            else Ok (Some (mkStreamMeta (md_flags meta) (md_expire meta) (md_version meta)
                             (md_size meta) 0 0))
        end
  end.

Definition read_stream_meta (user_key : bytes) : M DB (option StreamMeta) :=
  m ← get_meta ctx user_key;
  match m with
  | Some v => lift (check_stream_meta v)
  | None => mret None
  end.

(** [text.strip_suffix("-*")]. *)
Definition strip_star (s : bytes) : option bytes :=
  let n := (length s - 2)%nat in
  if bool_decide (drop n s = bs "-*") then Some (take n s) else None.

Definition generate_id (spec : bytes) (meta : StreamMeta) : M DB EntryId :=
  let last := mkId (sm_last_ms meta) (sm_last_seq meta) in
  let next (ms : Z) : M DB EntryId :=
    if sm_last_ms meta <? ms then mret (mkId ms 0)
    else seq ← arith_u64 (checks ctx) (sm_last_seq meta + 1); mret (mkId (sm_last_ms meta) seq) in
  if negb (utf8_valid spec) then throw invalid_id
  else if bool_decide (spec = bs "*") then next (stream_now ctx)
  else
    match strip_star spec with
    | Some prefix => ms ← lift (ok_or (parse_u64 prefix) invalid_id); next ms
    | None =>
        id ← lift (parse_xread_id spec);
        if (0 <? sm_size meta) && negb (id_ltb last id)
        then throw (Command (bs "The ID specified in XADD must be greater than 0-0"))
        else mret id
    end.

Definition xadd (args : list bytes) : M DB RespValue :=
  _ ← expect_min_arg_count "XADD" args 3;
  if negb (Nat.eqb ((length args - 2) mod 2) 0) then throw (WrongArgCount (bs "XADD"))
  else
    user_key ← index args 0;
    id_spec ← index args 1;
    m ← read_stream_meta user_key;
    let meta := match m with Some m => m | None => stream_meta_new (new_version ctx) end in
    let meta := if sm_is_expired ctx meta then stream_meta_new (new_version ctx) else meta in
    id ← generate_id id_spec meta;
    let fields := pairs (drop 2 args) in
    batch ← batch_put [] CF_SUBKEY (sub_key ctx user_key (sm_version meta) (id_encode id))
              (encode_fields fields);
    size ← arith_u64 (checks ctx) (sm_size meta + 1);
    let meta := mkStreamMeta (sm_flags meta) (sm_expire meta) (sm_version meta) size
                  (id_ms id) (id_seq id) in
    batch ← batch_put batch CF_METADATA (meta_key ctx user_key) (sm_encode meta);
    _ ← write batch;
    mret (bulk (format_id id)).

Definition xlen (args : list bytes) : M DB RespValue :=
  if negb (Nat.eqb (length args) 1) then throw (WrongArgCount (bs "XLEN"))
  else
    user_key ← index args 0;
    m ← read_stream_meta user_key;
    match m with
    | None => mret (Integer 0)
    | Some meta =>
        if sm_is_expired ctx meta then mret (Integer 0) else mret (Integer (wrap_i64 (sm_size meta)))
    end.

Definition entry_subkey_prefix (user_key : bytes) (version : Z) : bytes :=
  sub_key ctx user_key version [].

Definition parse_entry_id_from_subkey (key : bytes) : option EntryId :=
  match ctx_parse_subkey ctx key with
  | Some (_, _, sub) =>
      if (length sub <? 16)%nat then None
      else Some (mkId (from_be (take 8 sub)) (from_be (slice 8 16 sub)))
  | None => None
  end.

Definition entry_of_item (item : kv) : outcome entry :=
  id ← ok_or (parse_entry_id_from_subkey item.1) (Protocol (bs "invalid stream subkey encoding"));
  fields ← ok_or (decode_fields item.2) (Protocol (bs "invalid stream entry encoding"));
  Ok (id, fields).

Fixpoint entries_of_items (acc : list entry) (items : list kv) : outcome (list entry) :=
  match items with
  | [] => Ok acc
  | x :: rest => e ← entry_of_item x; entries_of_items (acc ++ [e]) rest
  end.

Definition iter_entries_page (user_key : bytes) (version : Z) (start_key : bytes)
  : M DB (list entry * option bytes) :=
  '(items, next_key) ← prefix_scan_page CF_SUBKEY (entry_subkey_prefix user_key version) start_key
                         STREAM_PAGE_LIMIT;
  entries ← lift (entries_of_items [] items);
  mret (entries, next_key).

(** The loop over the pages; every round but the last yields an entry. *)
Definition entry_loop {A} (user_key : bytes) (version : Z) (body : A -> entry -> outcome (ctrl A)) (a : A)
  : M DB A :=
  with_state (fun d =>
    page_loop_from (S (length (db_seek d CF_SUBKEY (entry_subkey_prefix user_key version))))
      (iter_entries_page user_key version) body [] a).

(** [*n -= 1] on a [usize]. *)
Definition decrement (n : Z) : outcome Z :=
  if 0 <? n then Ok (n - 1) else if checks ctx then Panic else Ok u64_max.

(** The entry loop of XRANGE: the reply so far and the entries still wanted. *)
Definition xrange_item (first last : EntryId) (st : list RespValue * option Z) (e : entry)
  : outcome (ctrl (list RespValue * option Z)) :=
  let '(result, remaining) := st in
  if id_ltb e.1 first then Ok (Continue st)
  else if id_ltb last e.1 then Ok (Break st)
  else
    let result := result ++ [build_entry_resp e] in
    match remaining with
    | None => Ok (Continue (result, None))
    | Some n =>
        n ← decrement n;
        if n =? 0 then Ok (Break (result, Some n)) else Ok (Continue (result, Some n))
    end.

Definition xrange_count (args : list bytes) : outcome (option Z) :=
  match args with
  | [_; _; _; opt; n] =>
      if negb (bool_decide (to_ascii_uppercase (from_utf8_lossy opt) = bs "COUNT"))
      then Err (Command (bs "syntax error"))
      else n ← ok_or (parse_text parse_u64 n) NotInteger; Ok (Some n)
  | _ => Ok None
  end.

Definition xrange (args : list bytes) : M DB RespValue :=
  if (length args <? 3)%nat || (5 <? length args)%nat then throw (WrongArgCount (bs "XRANGE"))
  else
    user_key ← index args 0;
    a1 ← index args 1;
    first ← lift (parse_range_bound a1);
    a2 ← index args 2;
    last ← lift (parse_range_bound a2);
    count ← lift (xrange_count args);
    m ← read_stream_meta user_key;
    match m with
    | None => mret (Array [])
    | Some meta =>
        if sm_is_expired ctx meta then mret (Array [])
        else
          '(result, _) ← entry_loop user_key (sm_version meta) (xrange_item first last) ([], count);
          mret (Array result)
    end.

(** The entry loop of XREAD. *)
Definition xread_item (start : EntryId) (entries : list RespValue) (e : entry)
  : outcome (ctrl (list RespValue)) :=
  if id_ltb start e.1 then Ok (Continue (entries ++ [build_entry_resp e])) else Ok (Continue entries).

Definition xread_stream (streams : list RespValue) (key_id : bytes * bytes) : M DB (list RespValue) :=
  let '(key, id_spec) := key_id in
  start ← lift (parse_xread_id id_spec);
  m ← read_stream_meta key;
  match m with
  | None => mret streams
  | Some meta =>
      if sm_is_expired ctx meta then mret streams
      else
        entries ← entry_loop key (sm_version meta) (xread_item start) [];
        if bool_decide (entries = []) then mret streams
        else mret (streams ++ [Array [bulk key; Array entries]])
  end.

Definition xread (args : list bytes) : M DB RespValue :=
  if (length args <? 3)%nat then throw (WrongArgCount (bs "XREAD"))
  else
    a0 ← index args 0;
    if negb (eq_ignore_ascii_case a0 (bs "STREAMS")) then throw (Command (bs "syntax error"))
    else
      let remaining := (length args - 1)%nat in
      if negb (Nat.eqb (remaining mod 2) 0) then throw (WrongArgCount (bs "XREAD"))
      else
        let num_streams := (remaining / 2)%nat in
        let keys := take num_streams (drop 1 args) in
        let ids := drop (1 + num_streams) args in
        streams ← mfold xread_stream [] (zip keys ids);
        mret (Array streams).

End StreamCommands.

Example stream_session :
  fst ((a ← xadd ctx0 [bs "s"; bs "5-1"; bs "f"; bs "v"];
        b ← xadd ctx0 [bs "s"; bs "5-*"; bs "g"; bs "w"];
        c ← xadd ctx0 [bs "s"; bs "*"; bs "h"; bs "x"];
        e ← xlen ctx0 [bs "s"];
        f ← xrange ctx0 [bs "s"; bs "5-2"; bs "+"; bs "count"; bs "1"];
        g ← xread ctx0 [bs "streams"; bs "s"; bs "t"; bs "5-2"; bs "0-0"];
        mret [a; b; c; e; f; g]) db0)
  = Ok [bulk (bs "5-1"); bulk (bs "5-2"); bulk (bs "1000-0"); Integer 3;
        Array [Array [bulk (bs "5-2"); Array [bulk (bs "g"); bulk (bs "w")]]];
        Array [Array [bulk (bs "s");
                 Array [Array [bulk (bs "1000-0"); Array [bulk (bs "h"); bulk (bs "x")]]]]]].
Proof. vm_compute. reflexivity. Qed.

Example stream_refuses_old_ids :
  fst ((_ ← xadd ctx0 [bs "s"; bs "5-1"; bs "f"; bs "v"];
        xadd ctx0 [bs "s"; bs "5-1"; bs "f"; bs "v"]) db0)
  = Err (Command (bs "The ID specified in XADD must be greater than 0-0")).
Proof. vm_compute. reflexivity. Qed.
