(* ===== verification/StreamProps.v ===== *)
(** * Properties of the stream commands

    The encodings of IDs, fields and metadata, and the refinement of XADD,
    XLEN, XRANGE and XREAD to an append-only list of entries under strictly
    increasing IDs. *)

From S2P Require Import Prelude Bytes Text Error Types Encoding Backend Storage Float Protocol.
From S2P Require Import Context Keyspace Paging StreamCmd.

Local Open Scope Z_scope.

(** ** IDs *)

Definition valid_id (id : EntryId) : Prop := is_u64 (id_ms id) = true /\ is_u64 (id_seq id) = true.

Definition id_lt (a b : EntryId) : Prop := id_ltb a b = true.

Lemma id_lt_spec a b :
  id_lt a b <-> id_ms a < id_ms b \/ (id_ms a = id_ms b /\ id_seq a < id_seq b).
Proof. unfold id_lt, id_ltb. rewrite orb_true_iff, andb_true_iff. lia. Qed.

Lemma id_not_lt a b :
  id_ltb a b = false <-> id_ms b < id_ms a \/ (id_ms a = id_ms b /\ id_seq b <= id_seq a).
Proof. rewrite <- not_true_iff_false. fold (id_lt a b). rewrite id_lt_spec. lia. Qed.

Lemma id_lt_trans a b c : id_lt a b -> id_lt b c -> id_lt a c.
Proof. rewrite !id_lt_spec. lia. Qed.

Lemma length_id_encode id : length (id_encode id) = 16%nat.
Proof. unfold id_encode. by rewrite length_app, !length_be_bytes. Qed.

(** The byte order of the images is the order of the IDs. *)
Lemma id_encode_lt a b :
  valid_id a -> valid_id b -> bytes_lt (id_encode a) (id_encode b) <-> id_lt a b.
Proof.
  intros [A1 A2] [B1 B2]. rewrite is_u64_spec in *. rewrite id_lt_spec.
  unfold bytes_lt, id_encode. rewrite bytes_cmp_app_eqlen by by rewrite !length_be_bytes.
  rewrite !bytes_cmp_from_be by by rewrite !length_be_bytes.
  rewrite !from_be_bytes. change (2 ^ (8 * Z.of_nat 8)) with (2 ^ 64). rewrite !Z.mod_small by lia.
  destruct (Z.compare_spec (id_ms a) (id_ms b)).
  - rewrite Z.compare_lt_iff. lia.
  - split; [lia|done].
  - split; [done|lia].
Qed.

Lemma id_encode_inj a b : valid_id a -> valid_id b -> id_encode a = id_encode b -> a = b.
Proof.
  intros [A1 A2] [B1 B2] E. apply app_prefix_inj in E as [E1 E2]; [|by rewrite !length_be_bytes].
  apply (f_equal from_be) in E1, E2. rewrite !u64_be_roundtrip in E1, E2 by done.
  destruct a, b; simpl in *; by subst.
Qed.

Lemma decode_id id : valid_id id ->
  mkId (from_be (take 8 (id_encode id))) (from_be (slice 8 16 (id_encode id))) = id.
Proof.
  intros [A1 A2]. unfold id_encode, slice. rewrite take_be, drop_be.
  rewrite take_ge by by rewrite length_be_bytes. rewrite !u64_be_roundtrip by done. by destruct id.
Qed.

(** *** Text of IDs *)

Lemma show_u64_digits z : is_u64 z = true -> forallb is_digit (show_Z z) = true.
Proof.
  intros Hz%is_u64_spec. unfold show_Z. rewrite (proj2 (Z.ltb_ge _ _)) by lia.
  apply show_nonneg_digits. lia.
Qed.

Lemma show_u64_cons z : is_u64 z = true -> exists b l, show_Z z = b :: l /\ is_digit b = true.
Proof.
  intros Hz. pose proof (show_u64_digits z Hz) as Hd. apply is_u64_spec in Hz.
  unfold show_Z in *. rewrite (proj2 (Z.ltb_ge z 0)) in * by lia.
  pose proof (show_nonneg_nonempty z). destruct (show_nonneg z) as [|b l]; [done|].
  apply andb_true_iff in Hd as [Hb _]. eauto.
Qed.

Lemma split_dash_digits a b :
  forallb is_digit a = true -> split_dash (a ++ Byte.x2d :: b) = Some (a, b).
Proof.
  induction a as [|c a IH]; simpl; [done|]. intros [Hc Ha]%andb_true_iff.
  destruct (is_digit_not_sign c Hc) as [_ Hne]. by rewrite decide_False, IH.
Qed.

Lemma ascii_digits l : forallb is_digit l = true -> is_ascii l = true.
Proof.
  unfold is_ascii. rewrite !forallb_forall. intros H b Hb. specialize (H b Hb).
  unfold is_digit, Text.between in H. lia.
Qed.

Lemma format_id_ascii id : valid_id id -> utf8_valid (format_id id) = true.
Proof.
  intros [H1 H2]. apply is_ascii_valid. unfold format_id. rewrite !is_ascii_app.
  rewrite (ascii_digits (show_Z (id_ms id))), (ascii_digits (show_Z (id_seq id)))
    by by apply show_u64_digits. done.
Qed.

(** An ID is read back from its text. *)
Lemma parse_format_id id : valid_id id -> parse_id (format_id id) = Ok (Some id).
Proof.
  intros Hv. pose proof Hv as [H1 H2]. unfold parse_id. rewrite format_id_ascii by done. cbn [negb].
  destruct (show_u64_cons _ H1) as (b & l & E & Hb). destruct (is_digit_not_sign b Hb) as [Hp Hm].
  assert (format_id id <> bs "-" /\ format_id id <> bs "+") as [N1 N2].
  { unfold format_id. rewrite E. split; cbn; intros [= ? _]; done. }
  rewrite !bool_decide_false by done. unfold format_id. cbn [app].
  rewrite split_dash_digits by by apply show_u64_digits.
  rewrite !parse_u64_show by done. cbn. by destruct id.
Qed.

Lemma last_digit l b : forallb is_digit (l ++ [b]) = true -> is_digit b = true.
Proof. rewrite forallb_app. by intros [_ [Hb _]%andb_true_iff]%andb_true_iff. Qed.

(** The text of an ID ends with a digit. *)
Lemma format_id_last id : valid_id id -> exists l b, format_id id = l ++ [b] /\ is_digit b = true.
Proof.
  intros [H1 H2]. unfold format_id. pose proof (show_u64_digits _ H2) as Hd.
  destruct (show_u64_cons _ H2) as (c & r & E & _).
  destruct (exists_last (l:=show_Z (id_seq id))) as (l & b & El); [by rewrite E|].
  rewrite El in *. exists (show_Z (id_ms id) ++ [Byte.x2d] ++ l), b. split; [by rewrite <- !app_assoc|].
  by eapply last_digit.
Qed.

Lemma format_id_not_star id : valid_id id -> strip_star (format_id id) = None.
Proof.
  intros Hv. destruct (format_id_last id Hv) as (l & b & -> & Hb). unfold strip_star.
  rewrite bool_decide_false; [done|]. intros E. rewrite length_app in E. cbn [length] in E.
  apply (f_equal last) in E. rewrite drop_app_le in E by lia. rewrite last_snoc in E.
  change (last (bs "-*")) with (Some Byte.x2a) in E. by simplify_eq.
Qed.

Lemma strip_star_app a : strip_star (a ++ bs "-*") = Some a.
Proof.
  unfold strip_star. rewrite length_app. change (length (bs "-*")) with 2%nat.
  replace (length a + 2 - 2)%nat with (length a) by lia.
  by rewrite drop_app_length, take_app_length, bool_decide_true.
Qed.

(** ** Fields *)

Definition short_field (f : field) : Prop := blen f.1 < 2 ^ 32 /\ blen f.2 < 2 ^ 32.

Lemma decode_encode_fields_from fs : forall fuel,
  Forall short_field fs -> (length fs <= fuel)%nat ->
  decode_fields_from fuel (encode_fields fs) = Some fs.
Proof.
  induction fs as [|[k v] fs IH]; intros fuel Hs Hf; [by destruct fuel|].
  apply Forall_cons in Hs as [[Hk Hv] Hs]. cbn [fst snd length] in *.
  destruct fuel as [|fuel]; [lia|].
  assert (encode_fields ((k, v) :: fs)
    = be_bytes 4 (wrap_u32 (blen k)) ++ k ++ be_bytes 4 (wrap_u32 (blen v)) ++ v ++ encode_fields fs) as ->.
  { unfold encode_fields, encode_str. cbn [map concat fst snd]. by rewrite <- !app_assoc. }
  cbn [decode_fields_from].
  destruct (be_bytes 4 (wrap_u32 (blen k)) ++ _) as [|c r] eqn:E.
  { apply (f_equal length) in E. rewrite length_app, length_be_bytes in E. simpl in E. lia. }
  rewrite <- E. clear E c r. autorewrite with kv. rewrite !len_prefix_roundtrip by done.
  pose proof (blen_nonneg k). pose proof (blen_nonneg v). pose proof (blen_nonneg (encode_fields fs)).
  rewrite !(proj2 (Z.ltb_ge _ _)) by lia. autorewrite with kv. rewrite !len_prefix_roundtrip by done.
  rewrite !(proj2 (Z.ltb_ge _ _)) by lia. autorewrite with kv. by rewrite IH by (done || lia).
Qed.

Lemma length_encode_fields fs : (length fs <= length (encode_fields fs))%nat.
Proof.
  induction fs as [|[k v] fs IH]; [done|]. unfold encode_fields, encode_str in *.
  cbn [map concat length]. rewrite !length_app, !length_be_bytes. lia.
Qed.

Lemma decode_encode_fields fs : Forall short_field fs -> decode_fields (encode_fields fs) = Some fs.
Proof. intros Hs. apply decode_encode_fields_from; [done|apply length_encode_fields]. Qed.

(** ** Metadata *)

(** Metadata of a stream with fields in range. *)
Definition good_stream (m : StreamMeta) : Prop :=
  type_code (sm_flags m) = code DStream /\ is_i64 (sm_expire m) = true
  /\ is_u64 (sm_version m) = true /\ is_u64 (sm_size m) = true
  /\ is_u64 (sm_last_ms m) = true /\ is_u64 (sm_last_seq m) = true.

Lemma decode_sm_encode m : good_stream m -> decode_stream_meta (sm_encode m) = Some m.
Proof.
  intros (_ & He & Hv & Hs & H1 & H2). unfold decode_stream_meta, sm_encode, encode_stream_meta.
  rewrite (proj2 (Z.ltb_ge _ _)) by (autorewrite with kv; lia).
  change (slice 1 9 _) with (be_bytes 8 (sm_expire m)).
  change (slice 9 17 _) with (be_bytes 8 (sm_version m)).
  change (slice 17 25 _) with (be_bytes 8 (sm_size m)).
  change (slice 25 33 _) with (be_bytes 8 (sm_last_ms m)).
  change (slice 33 41 _) with (be_bytes 8 (sm_last_seq m)).
  rewrite i64_be_roundtrip, !u64_be_roundtrip by done. by destruct m.
Qed.

(** The fields of an entry and the metadata of a stream survive their
    encodings, IDs survive their images and their texts, and the order of the
    images is the order of the IDs. *)
Theorem stream_encodings (id1 id2 : EntryId) (fs : list field) (m : StreamMeta) :
  valid_id id1 -> valid_id id2 -> Forall short_field fs -> good_stream m ->
  decode_fields (encode_fields fs) = Some fs
  /\ decode_stream_meta (sm_encode m) = Some m
  /\ parse_id (format_id id1) = Ok (Some id1)
  /\ (bytes_lt (id_encode id1) (id_encode id2) <-> id_lt id1 id2).
Proof.
  intros. split; [by apply decode_encode_fields|]. split; [by apply decode_sm_encode|].
  split; [by apply parse_format_id|by apply id_encode_lt].
Qed.

(** ** Representation *)

Definition entry_ok (e : entry) : Prop := valid_id e.1 /\ Forall short_field e.2.

(** The subkey and value of an entry. *)
Definition item_of (e : entry) : kv := (id_encode e.1, encode_fields e.2).

(** No entry has an ID above [last]. *)
Definition bounded (last : EntryId) (l : list entry) : Prop :=
  Forall (fun e => ~ id_lt last e.1) l.

Section Streams.
Context {DB : Type} {RDB : RocksDB DB}.
Implicit Types (d : DB) (ctx : CommandContext) (k : bytes) (l : list entry) (id : EntryId).

(** No stream under the key, or one that has expired. *)
Definition stream_absent d ctx k : Prop :=
  meta_at d ctx k = None
  \/ exists m, meta_at d ctx k = Some (sm_encode m) /\ good_stream m /\ sm_is_expired ctx m = true.

(** The key holds metadata [m] and the entries [l]. *)
Definition stream_held (E : Z) d ctx k (m : StreamMeta) l (last : EntryId) : Prop :=
  good_stream m /\ sm_expire m = E /\ sm_size m = Z.of_nat (length l)
  /\ last = mkId (sm_last_ms m) (sm_last_seq m)
  /\ sub_items d ctx CF_SUBKEY k (sm_version m) = map item_of l
  /\ Forall entry_ok l /\ bounded last l.

(** The key represents the entries [l], the last ID given being [last]. *)
Definition stream_repr (E : Z) d ctx k l (last : EntryId) : Prop :=
  (stream_absent d ctx k /\ stream_held E d ctx k (stream_meta_new (new_version ctx)) l last)
  \/ exists m, meta_at d ctx k = Some (sm_encode m) /\ unexpired E ctx /\ stream_held E d ctx k m l last.

Lemma stream_expired_now ctx m :
  sm_is_expired ctx m = (0 <? sm_expire m) && (sm_expire m <=? now_ms ctx).
Proof. unfold sm_is_expired, stream_now, now_ms. unfold wrap_u64. by rewrite wrap_i64_mod. Qed.

Lemma check_stream_meta_run ctx m :
  good_stream m -> check_stream_meta ctx (sm_encode m) = Ok (if sm_is_expired ctx m then None else Some m).
Proof.
  intros Hg. pose proof Hg as (Ht & _). unfold check_stream_meta.
  pose proof (decode_sm_encode m Hg) as Hd. destruct (sm_encode m) as [|b r] eqn:Eb; [done|].
  assert (b = sm_flags m) as -> by by injection Eb.
  change (Z.land (byte_to_Z (sm_flags m)) 0x0F) with (type_code (sm_flags m)). rewrite Ht.
  rewrite bool_decide_false by done. rewrite Hd.
  change (Z.land (byte_to_Z (sm_flags m)) 0x0F) with (type_code (sm_flags m)). rewrite Ht.
  rewrite bool_decide_true by done. cbn [negb]. by case_goal.
Qed.

(** What the commands find: the metadata, or a new one for an absent stream. *)
Lemma read_stream_meta_run E d ctx k l last :
  wf_db d -> stream_repr E d ctx k l last ->
  exists o, read_stream_meta ctx k d = (Ok o, d)
    /\ stream_held E d ctx k (default (stream_meta_new (new_version ctx)) o) l last
    /\ match o with
       | Some m => sm_is_expired ctx m = false /\ meta_at d ctx k = Some (sm_encode m)
       | None => stream_absent d ctx k
       end.
Proof.
  intros H Hr. unfold read_stream_meta. rewrite (bind_Ok _ _ _ _ _ (get_meta_run d ctx k H)).
  destruct Hr as [(Ha & Hh)|(m & Hv & Hx & Hh)].
  - exists None. split; [|done]. destruct Ha as [->|(m & -> & Hg & Hx)]; [done|].
    unfold lift. by rewrite (check_stream_meta_run ctx m Hg), Hx.
  - assert (sm_is_expired ctx m = false) as Hn.
    { rewrite stream_expired_now. destruct Hh as (_ & -> & _). apply Hx. }
    exists (Some m). split; [|by split]. rewrite Hv. unfold lift.
    rewrite (check_stream_meta_run ctx m) by apply Hh. by rewrite Hn.
Qed.

(** *** The entries in order *)

Lemma held_sorted E d ctx k m l last :
  stream_held E d ctx k m l last -> StronglySorted (fun a b : entry => id_lt a.1 b.1) l.
Proof.
  intros (_ & _ & _ & _ & Hs & Hok & _). pose proof (sub_items_sorted d ctx CF_SUBKEY k (sm_version m)) as HS.
  rewrite Hs in HS. clear Hs. induction l as [|e l IH]; [constructor|].
  cbn [map] in HS. apply StronglySorted_inv in HS as [HS HF]. apply Forall_cons in Hok as [He Hok].
  constructor; [by apply IH|]. rewrite Forall_forall in HF; rewrite Forall_forall in Hok; rewrite Forall_forall. intros e' He'.
  apply id_encode_lt; [apply He|by apply Hok|]. apply (HF (item_of e')), list_elem_of_fmap. eauto.
Qed.

(** Appending an entry above the last ID. *)
Lemma append_items d ctx k (w : Z) l id fs (b : WriteBatch) last :
  sub_items d ctx CF_SUBKEY k w = map item_of l -> Forall entry_ok l -> entry_ok (id, fs) ->
  (forall e, e ∈ l -> id_lt e.1 id) -> b = [PutCf CF_SUBKEY (sub_key ctx k w (id_encode id)) (encode_fields fs);
    PutCf CF_METADATA (meta_key ctx k) last] ->
  sub_items (db_write d b) ctx CF_SUBKEY k w = map item_of (l ++ [(id, fs)]).
Proof.
  intros Hs Hok He Hlt ->. apply sorted_ext; [apply sub_items_sorted| |].
  - rewrite map_app. pose proof (sub_items_sorted d ctx CF_SUBKEY k w) as HS. rewrite Hs in HS. clear Hs.
    induction l as [|e l IH]; [repeat constructor|]. cbn [map app] in *.
    apply StronglySorted_inv in HS as [HS HF]. apply Forall_cons in Hok as [He' Hok].
    constructor; [apply IH; [done| |done]; intros; apply Hlt; by right|].
    apply Forall_app. split; [done|]. constructor; [|done].
    apply id_encode_lt; [apply He'|apply He|]. apply Hlt. by left.
  - intros [f v]. rewrite sub_items_elem, db_get_write, map_app, elem_of_app. cbn [map].
    rewrite list_elem_of_singleton.
    cbn [batch_effect fold_left foldl op_effect].
    rewrite (decide_False (P:=(CF_METADATA, _) = _)) by (by intros [=]).
    destruct (decide ((CF_SUBKEY, sub_key ctx k w (id_encode id)) = (CF_SUBKEY, sub_key ctx k w f))) as [E|Hne].
    + apply (f_equal snd), sub_key_inj in E. subst f. split.
      * intros [= <-]. by right.
      * intros [Hin|E]; [|apply (f_equal snd) in E; cbn [snd item_of] in E; by subst].
        apply list_elem_of_fmap in Hin as ([id' fs'] & E & Hin).
        apply (f_equal fst) in E. change (id_encode id = id_encode id') in E.
        rewrite Forall_forall in Hok. apply id_encode_inj in E; [subst id'|apply He|by apply (Hok (id', fs'))].
        specialize (Hlt _ Hin). cbn [fst] in Hlt. rewrite id_lt_spec in Hlt. lia.
    + rewrite <- sub_items_elem, Hs. split; [by left|]. intros [?|E]; [done|].
      apply (f_equal fst) in E. cbn [fst item_of] in E. by subst.
Qed.

(** ** XADD *)

(** How the ID of a new entry is given: [*], [ms-*] or [ms-seq]. *)
Inductive id_spec := Auto | AutoSeq (ms : Z) | Explicit (id : EntryId).

Definition spec_text (s : id_spec) : bytes :=
  match s with
  | Auto => bs "*"
  | AutoSeq ms => show_Z ms ++ bs "-*"
  | Explicit id => format_id id
  end.

Definition spec_ok (s : id_spec) : Prop :=
  match s with Auto => True | AutoSeq ms => is_u64 ms = true | Explicit id => valid_id id end.

(** The ID for the millisecond [ms], after [last]. *)
Definition next_id (last : EntryId) (ms : Z) : EntryId :=
  if id_ms last <? ms then mkId ms 0 else mkId (id_ms last) (id_seq last + 1).

(** The ID of the new entry; an explicit ID must be above the last one. *)
Definition chosen ctx (s : id_spec) l (last : EntryId) : option EntryId :=
  match s with
  | Auto => Some (next_id last (stream_now ctx))
  | AutoSeq ms => Some (next_id last ms)
  | Explicit id => if bool_decide (l = []) || id_ltb last id then Some id else None
  end.

Definition old_id : KvdbError := Command (bs "The ID specified in XADD must be greater than 0-0").

Lemma next_id_run d ctx m last (ms : Z) :
  last = mkId (sm_last_ms m) (sm_last_seq m) -> is_u64 (sm_last_seq m + 1) = true ->
  (if sm_last_ms m <? ms then mret (mkId ms 0)
   else seq ← arith_u64 (checks ctx) (sm_last_seq m + 1); mret (mkId (sm_last_ms m) seq)) d
  = (Ok (next_id last ms), d).
Proof.
  intros -> Hs. unfold next_id. cbn [id_ms id_seq]. case_goal; [done|].
  by erewrite bind_Ok by by apply arith_u64_ok.
Qed.

Lemma generate_id_run E d ctx k m l last s :
  stream_held E d ctx k m l last -> spec_ok s -> id_seq last < u64_max ->
  generate_id ctx (spec_text s) m d
  = (match chosen ctx s l last with Some id => Ok id | None => Err old_id end, d).
Proof.
  intros (Hg & _ & Hsz & Hl & _) Hs Hseq. unfold u64_max in Hseq.
  assert (is_u64 (sm_last_seq m + 1) = true) as Hnext.
  { destruct Hg as (_ & _ & _ & _ & _ & Hq). rewrite Hl in Hseq. cbn [id_seq] in Hseq.
    rewrite is_u64_spec in *. lia. }
  unfold generate_id. destruct s as [|ms|id]; cbn [spec_text chosen spec_ok] in *.
  - cbv zeta. change (negb (utf8_valid (bs "*"))) with false. cbv iota.
    rewrite bool_decide_true by done. by apply next_id_run.
  - cbv zeta. rewrite is_ascii_valid.
    2:{ rewrite is_ascii_app. by rewrite ascii_digits by by apply show_u64_digits. }
    cbn [negb]. rewrite bool_decide_false.
    2:{ destruct (show_u64_cons ms Hs) as (b & r & -> & Hb). cbn. intros [= -> _]. done. }
    rewrite strip_star_app. rewrite parse_u64_show by done.
    rewrite (bind_Ok _ _ _ ms d) by done. by apply next_id_run.
  - cbv zeta. rewrite format_id_ascii by done. cbn [negb]. rewrite bool_decide_false.
    2:{ destruct Hs as [H1 _]. destruct (show_u64_cons _ H1) as (b & r & E' & Hb).
        unfold format_id. rewrite E'. cbn. intros [= -> _]. done. }
    rewrite format_id_not_star by done. unfold parse_xread_id. rewrite parse_format_id by done.
    rewrite (bind_Ok _ _ _ id d) by done. rewrite <- Hl.
    destruct l as [|e l]; cbn [length] in Hsz.
    + rewrite bool_decide_true, Hsz by done. done.
    + rewrite bool_decide_false by done. rewrite (proj2 (Z.ltb_lt _ _)) by lia. cbn [orb andb].
      by destruct (id_ltb last id).
Qed.

(** The chosen ID is above every ID of the stream. *)
Lemma chosen_above E d ctx k m l last s id :
  stream_held E d ctx k m l last -> spec_ok s -> id_seq last < u64_max ->
  chosen ctx s l last = Some id -> valid_id id /\ forall e, e ∈ l -> id_lt e.1 id.
Proof.
  intros (Hg & _ & _ & Hl & _ & _ & Hb) Hs Hseq Hc. unfold u64_max in Hseq.
  assert (valid_id last) as [L1 L2] by (rewrite Hl; destruct Hg as (_ & _ & _ & _ & ? & ?); done).
  unfold bounded in Hb. rewrite Forall_forall in Hb. rewrite is_u64_spec in L1, L2.
  assert (forall ms, is_u64 ms = true -> valid_id (next_id last ms) /\ id_lt last (next_id last ms)) as Hn.
  { intros ms Hms. rewrite is_u64_spec in Hms. unfold next_id, valid_id. rewrite id_lt_spec.
    rewrite !is_u64_spec. destruct (Z.ltb_spec (id_ms last) ms); cbn [id_ms id_seq]; lia. }
  assert (forall id', id_lt last id' -> forall e, e ∈ l -> id_lt e.1 id') as Ha.
  { intros id' Hlt e He. specialize (Hb e He). rewrite id_lt_spec in *. lia. }
  destruct s as [|ms|id']; cbn [chosen spec_ok] in *.
  - injection Hc as <-. destruct (Hn (stream_now ctx)); [apply wrap_u64_range|]. eauto.
  - injection Hc as <-. destruct (Hn ms Hs). eauto.
  - destruct (bool_decide (l = []) || id_ltb last id') eqn:Eb; [|done]. injection Hc as <-.
    split; [done|]. apply orb_true_iff in Eb as [->%bool_decide_eq_true|Hlt]; [|by apply Ha].
    intros e He. by apply elem_of_nil in He.
Qed.

(** XADD past its guards: the effective metadata is read and the batch of the
    entry and the new metadata is written. *)
Lemma xadd_start d ctx k o spec fs m :
  m = default (stream_meta_new (new_version ctx)) o ->
  read_stream_meta ctx k d = (Ok o, d) -> sm_is_expired ctx m = false -> fs <> [] ->
  xadd ctx (k :: spec :: flatten fs) d
  = (id ← generate_id ctx spec m;
     batch ← batch_put [] CF_SUBKEY (sub_key ctx k (sm_version m) (id_encode id)) (encode_fields fs);
     size ← arith_u64 (checks ctx) (sm_size m + 1);
     batch ← batch_put batch CF_METADATA (meta_key ctx k)
       (sm_encode (mkStreamMeta (sm_flags m) (sm_expire m) (sm_version m) size (id_ms id) (id_seq id)));
     _ ← write batch;
     mret (bulk (format_id id))) d.
Proof.
  intros Em Ho Hexp Hne. unfold xadd. pose proof (length_flatten fs) as Hl.
  erewrite bind_Ok by (apply expect_min_arg_count_ok; cbn [length]; rewrite Hl; destruct fs; [done|simpl; lia]).
  cbn [length]. replace (S (S (length (flatten fs))) - 2)%nat with (2 * length fs)%nat by lia.
  replace ((2 * length fs) mod 2)%nat with 0%nat by (by rewrite Nat.mul_comm, Nat.Div0.mod_mul).
  cbn [Nat.eqb negb]. do 2 mrun. rewrite (bind_Ok _ _ _ _ _ Ho). cbv zeta.
  replace (match o with Some m => m | None => stream_meta_new (new_version ctx) end) with m
    by (rewrite Em; by destruct o).
  rewrite Hexp. change (drop 2 (k :: spec :: flatten fs)) with (flatten fs).
  by rewrite pairs_flatten.
Qed.

(** C9: XADD appends an entry under an ID above all IDs of the stream, replies
    that ID and remembers it as the last one; an automatic ID is the given
    millisecond or follows the last ID, also when the clock goes back. An
    explicit ID that is not above the last one is refused and nothing is
    written. No other key is touched. *)
Theorem xadd_refines E d ctx ctx' k l last s fs :
  wf_db d -> stream_repr E d ctx k l last -> spec_ok s -> id_seq last < u64_max ->
  fs <> [] -> Forall short_field fs -> Z.of_nat (length l) < u64_max ->
  namespace ctx' = namespace ctx -> unexpired E ctx' ->
  match chosen ctx s l last with
  | Some id =>
      exists d', xadd ctx (k :: spec_text s :: flatten fs) d = (Ok (bulk (format_id id)), d')
        /\ (forall e, e ∈ l -> id_lt e.1 id)
        /\ stream_repr E d' ctx' k (l ++ [(id, fs)]) id /\ only_key d d' ctx k
  | None => xadd ctx (k :: spec_text s :: flatten fs) d = (Err old_id, d)
  end.
Proof.
  intros H Hr Hs Hseq Hne Hfs Hlen Hns Hx.
  destruct (read_stream_meta_run E d ctx k l last H Hr) as (o & Ho & Hh & Hcase).
  set (m := default (stream_meta_new (new_version ctx)) o) in *.
  assert (sm_is_expired ctx m = false) as Hexp by (unfold m; destruct o; [apply Hcase|done]).
  pose proof (generate_id_run E d ctx k m l last s Hh Hs Hseq) as Hgen.
  rewrite (xadd_start d ctx k o (spec_text s) fs m eq_refl Ho Hexp Hne).
  destruct (chosen ctx s l last) as [id|] eqn:Ec; [|by erewrite bind_Err by done].
  destruct (chosen_above E d ctx k m l last s id Hh Hs Hseq Ec) as [Hv Habove].
  rewrite (bind_Ok _ _ _ _ _ Hgen). erewrite bind_Ok by eauto with kv. unfold u64_max in Hlen.
  destruct Hh as (Hg & He & Hsz & Hl & Hit & Hok & Hb).
  erewrite bind_Ok by (apply arith_u64_ok, is_u64_spec; lia). erewrite bind_Ok by eauto with kv.
  eexists. split; [done|]. split; [done|].
  destruct Hg as (G1 & G2 & G3 & G4 & G5 & G6).
  set (m' := mkStreamMeta _ _ _ _ _ _). cbn [app]. set (b := [_; _]). split.
  - right. exists m'. split; [|split; [done|]].
    + rewrite (meta_at_namespace _ ctx ctx') by done. unfold meta_at.
      change b with ([PutCf CF_SUBKEY (sub_key ctx k (sm_version m) (id_encode id)) (encode_fields fs)]
        ++ [PutCf CF_METADATA (meta_key ctx k) (sm_encode m')]).
      by rewrite db_get_write, batch_effect_app, batch_effect_put.
    + split; [split; [exact G1|]; split; [exact G2|]; split; [exact G3|]; split; [|exact Hv];
        cbn [m' sm_size]; apply is_u64_spec; lia|]. split; [done|].
      cbn [m' sm_size sm_last_ms sm_last_seq sm_version]. split; [rewrite length_app; simpl; lia|].
      split; [by destruct id|]. split; [|split].
      * unfold sub_items, sub_key in *. rewrite Hns. fold (sub_key ctx k (sm_version m)).
        eapply (append_items d ctx k (sm_version m) l id fs); [done..|by split|done|done].
      * apply Forall_app. split; [done|]. constructor; [by split|done].
      * apply Forall_app. split; [|constructor; [rewrite id_lt_spec; simpl; lia|done]].
        rewrite Forall_forall. intros e He'. specialize (Habove e He'). rewrite !id_lt_spec in *. lia.
  - apply (only_key_write d ctx k (sm_version m)); [done|done|].
    constructor; [right; by eexists CF_SUBKEY, _|]. constructor; [by left|done].
Qed.

(** ** Reading the entries *)

(** The stored item of an entry. *)
Definition full_item ctx k (w : Z) (e : entry) : kv := (sub_key ctx k w (id_encode e.1), encode_fields e.2).

Lemma entry_of_item_ok ctx k (w : Z) e :
  short ctx k -> is_u64 w = true -> entry_ok e -> entry_of_item ctx (full_item ctx k w e) = Ok e.
Proof.
  intros Hk Hw [Hv Hf]. unfold entry_of_item, parse_entry_id_from_subkey, full_item. cbn [fst snd].
  rewrite parse_sub_key by done. rewrite length_id_encode. cbn [Nat.ltb Nat.leb].
  rewrite decode_id by done. cbn [ok_or mbind outcome_bind].
  rewrite decode_encode_fields by done. by destruct e.
Qed.

Lemma entries_of_items_ok ctx k (w : Z) l : forall acc,
  short ctx k -> is_u64 w = true -> Forall entry_ok l ->
  entries_of_items ctx acc (map (full_item ctx k w) l) = Ok (acc ++ l).
Proof.
  induction l as [|e l IH]; intros acc Hk Hw Hok; [by rewrite app_nil_r|].
  apply Forall_cons in Hok as [He Hok]. cbn [map entries_of_items].
  rewrite entry_of_item_ok by done. cbn [mbind outcome_bind]. rewrite IH by done. by rewrite <- app_assoc.
Qed.

(** The page loop runs its body over the entries. *)
Lemma entry_loop_ok {A} E d ctx k m l last (body : A -> entry -> outcome (ctrl A)) a :
  wf_db d -> short ctx k -> stream_held E d ctx k m l last ->
  entry_loop ctx k (sm_version m) body a d = (ctrl_value <$> for_each body a l, d).
Proof.
  intros H Hk (Hg & _ & _ & _ & Hit & Hok & _). set (w := sm_version m) in *.
  assert (is_u64 w = true) as Hw by apply Hg.
  assert (entries d CF_SUBKEY (sub_key ctx k w []) = map (full_item ctx k w) l) as He.
  { rewrite sub_items_entries, Hit, map_map. done. }
  unfold entry_loop, with_state. fold w. unfold entry_subkey_prefix.
  apply (page_loop_from_ok d _ body (page_size STREAM_PAGE_LIMIT)
    (fun (s : bytes) L => Forall entry_ok L
       /\ left_forward d CF_SUBKEY (sub_key ctx k w []) s (map (full_item ctx k w) L))).
  - unfold page_size. lia.
  - intros s L [HL Hl]. destruct (forward_page d CF_SUBKEY (sub_key ctx k w []) STREAM_PAGE_LIMIT s
      (map (full_item ctx k w) L)) as (nxt & Ep & Hn);
      [done|auto with kv|apply subkey_nonempty|done|unfold page_size; lia|done|].
    exists nxt. split.
    + unfold iter_entries_page, entry_subkey_prefix. rewrite (bind_Ok _ _ _ _ _ Ep). cbv beta iota.
      rewrite firstn_map, entries_of_items_ok by (done || by apply Forall_take). done.
    + rewrite length_map in Hn. destruct (page_size STREAM_PAGE_LIMIT <? length L)%nat; [|done].
      destruct Hn as (q & -> & Hq). exists q. split; [done|]. split; [by apply Forall_drop|].
      by rewrite <- skipn_map.
  - split; [done|]. split; [by left|]. by rewrite remaining_start, He.
  - pose proof (entries_length d CF_SUBKEY (sub_key ctx k w [])) as Hle. rewrite He, length_map in Hle. lia.
Qed.

(** The entries between two IDs, at most [count] of them. *)
Definition id_range (first last : EntryId) (e : entry) : bool :=
  negb (id_ltb e.1 first) && negb (id_ltb last e.1).

Definition limited {A} (count : option Z) (l : list A) : list A :=
  match count with Some n => take (Z.to_nat n) l | None => l end.

(** What XRANGE does with an entry in the range. *)
Definition take_entry ctx (st : list RespValue * option Z) (e : entry)
  : outcome (ctrl (list RespValue * option Z)) :=
  let result := st.1 ++ [build_entry_resp e] in
  match st.2 with
  | None => Ok (Continue (result, None))
  | Some n => n ← decrement ctx n; if n =? 0 then Ok (Break (result, Some n)) else Ok (Continue (result, Some n))
  end.

Lemma take_entry_run ctx res n e :
  0 < n ->
  take_entry ctx (res, Some n) e
  = Ok (if n - 1 =? 0 then Break (res ++ [build_entry_resp e], Some (n - 1))
        else Continue (res ++ [build_entry_resp e], Some (n - 1))).
Proof.
  intros Hn. unfold take_entry, decrement. cbn [fst snd]. rewrite (proj2 (Z.ltb_lt _ _)) by done.
  cbn [mbind outcome_bind]. by destruct (n - 1 =? 0).
Qed.

Lemma take_entries ctx l : forall res count,
  (forall n, count = Some n -> 0 < n) ->
  exists c', ctrl_value <$> for_each (take_entry ctx) (res, count) l
    = Ok (res ++ map build_entry_resp (limited count l), c').
Proof.
  induction l as [|e l IH]; intros res count Hc.
  { exists count. simpl. destruct count; cbn [limited]; by rewrite ?take_nil, app_nil_r. }
  cbn [for_each]. destruct count as [n|].
  - specialize (Hc n eq_refl). rewrite take_entry_run by done.
    cbn [mbind outcome_bind limited]. replace (Z.to_nat n) with (S (Z.to_nat (n - 1))) by lia. cbn [take map].
    destruct (Z.eqb_spec (n - 1) 0) as [E0|Hne]; cbn [mbind outcome_bind].
    + exists (Some (n - 1)). rewrite E0. done.
    + destruct (IH (res ++ [build_entry_resp e]) (Some (n - 1))) as [c' E']; [intros ? [= <-]; lia|].
      exists c'. rewrite E'. cbn [limited]. by rewrite <- app_assoc.
  - change (take_entry ctx (res, None) e) with (Ok (Continue (res ++ [build_entry_resp e], @None Z))).
    cbn [mbind outcome_bind]. destruct (IH (res ++ [build_entry_resp e]) None) as [c' E']; [done|].
    exists c'. rewrite E'. cbn [limited map]. by rewrite <- app_assoc.
Qed.

Lemma xrange_loop_ok ctx first last count l :
  StronglySorted (fun a b : entry => id_lt a.1 b.1) l -> (forall n, count = Some n -> 0 < n) ->
  exists c', ctrl_value <$> for_each (xrange_item ctx first last) ([], count) l
    = Ok (map build_entry_resp (limited count (filter (fun e => id_range first last e = true) l)), c').
Proof.
  intros HS Hc. destruct (take_entries ctx (filter (fun e => id_range first last e = true) l) [] count Hc)
    as [c' E']. exists c'. cbn [app] in E'. rewrite <- E'.
  apply (range_loop _ (take_entry ctx) (id_range first last)).
  - intros [res c] e _. unfold id_range, xrange_item, take_entry. cbn [fst snd].
    rewrite andb_true_iff, !negb_true_iff. by intros [-> ->].
  - intros [res c] e _. unfold id_range, xrange_item. rewrite andb_false_iff, !negb_false_iff.
    destruct (id_ltb e.1 first); [by left|]. intros [?| ->]; [done|]. by right.
  - intros [res c] l1 e l2 -> He Hb e' He'. unfold id_range, xrange_item in *.
    destruct (id_ltb e.1 first); [done|]. destruct (id_ltb last e.1) eqn:El; [|done].
    assert (id_lt e.1 e'.1) as Hlt.
    { clear -HS He'. induction l1 as [|x l1 IH]; cbn [app] in HS; apply StronglySorted_inv in HS as [HS HF];
        [|by apply IH]. rewrite Forall_forall in HF. by apply HF. }
    assert (id_ltb last e'.1 = true) as -> by (apply (id_lt_trans _ e.1); done).
    by rewrite andb_false_r.
Qed.

Lemma xread_loop_ok start l : forall acc,
  ctrl_value <$> for_each (xread_item start) acc l
  = Ok (acc ++ map build_entry_resp (filter (fun e => id_ltb start e.1 = true) l)).
Proof.
  induction l as [|e l IH]; intros acc; [by rewrite app_nil_r|].
  cbn [for_each]. rewrite filter_cons.
  assert (xread_item start acc e
    = Ok (Continue (if id_ltb start e.1 then acc ++ [build_entry_resp e] else acc))) as ->
    by (unfold xread_item; by destruct (id_ltb start e.1)).
  cbn [mbind outcome_bind]. rewrite IH. destruct (id_ltb start e.1).
  - rewrite decide_True by done. cbn [map]. by rewrite <- app_assoc.
  - by rewrite decide_False.
Qed.

Definition count_args (count : option Z) : list bytes :=
  match count with Some n => [bs "COUNT"; show_Z n] | None => [] end.

Lemma xrange_count_run a b c count :
  (forall n, count = Some n -> is_u64 n = true) ->
  xrange_count (a :: b :: c :: count_args count) = Ok count.
Proof.
  intros Hc. destruct count as [n|]; [|done]. specialize (Hc n eq_refl).
  cbn [count_args xrange_count]. rewrite bool_decide_true by done. cbn [negb]. unfold parse_text.
  rewrite is_ascii_valid by apply show_Z_ascii. by rewrite parse_u64_show.
Qed.

Lemma parse_range_bound_format id : valid_id id -> parse_range_bound (format_id id) = Ok id.
Proof.
  intros Hv. pose proof (parse_format_id id Hv) as Hp. unfold parse_range_bound.
  rewrite format_id_ascii by done. cbn [negb].
  destruct (format_id_last id Hv) as (l & b & E & Hb).
  assert (bool_decide (list.last (format_id id) = Some Byte.x2d) = false) as Hl.
  { rewrite E, last_snoc. apply bool_decide_eq_false. intros [= ->]. done. }
  assert (format_id id <> bs "-" /\ format_id id <> bs "+") as [N1 N2].
  { split; intros E'; rewrite E' in Hl, Hp; vm_compute in Hl; [done|].
    rewrite E in E'. destruct l as [|? [|]]; cbn in E'; simplify_eq; done. }
  rewrite !bool_decide_false by done. rewrite bool_decide_eq_false in Hl.
  rewrite (bool_decide_false (list.last _ = _)) by done. cbn [andb]. by rewrite Hp.
Qed.

(** What XREAD replies for one stream: its entries above the given ID, and
    nothing if there are none. *)
Definition read_reply (q : bytes * EntryId * list entry) : list RespValue :=
  let '(k, id, l) := q in
  match filter (fun e : entry => id_ltb id e.1 = true) l with
  | [] => []
  | es => [Array [bulk k; Array (map build_entry_resp es)]]
  end.

Definition queried d ctx (q : bytes * EntryId * list entry) : Prop :=
  short ctx q.1.1 /\ valid_id q.1.2 /\ exists E last, stream_repr E d ctx q.1.1 q.2 last.

Lemma xread_stream_run d ctx q acc :
  wf_db d -> queried d ctx q ->
  xread_stream ctx acc (q.1.1, format_id q.1.2) d = (Ok (acc ++ read_reply q), d).
Proof.
  destruct q as [[k i] l]. intros H (Hk & Hv & E & last & Hr). cbn [fst snd] in *.
  destruct (read_stream_meta_run E d ctx k l last H Hr) as (o & Ho & Hh & Hcase).
  unfold xread_stream, parse_xread_id. rewrite parse_format_id by done.
  rewrite (bind_Ok _ _ _ i d) by done. rewrite (bind_Ok _ _ _ _ _ Ho).
  destruct o as [m|]; cbn [default from_option id] in Hh.
  - destruct Hcase as [-> _]. pose proof (entry_loop_ok E d ctx k m l last (xread_item i) [] H Hk Hh) as Hl.
    rewrite xread_loop_ok in Hl. rewrite (bind_Ok _ _ _ _ _ Hl). cbn [app read_reply].
    destruct (filter (fun e : entry => id_ltb i e.1 = true) l) as [|e es]; cbn [map].
    + rewrite bool_decide_true, app_nil_r by done. done.
    + by rewrite bool_decide_false.
  - assert (l = []) as ->.
    { destruct Hh as (_ & _ & Hsz & _). cbn in Hsz. by destruct l. }
    cbn [read_reply]. rewrite filter_nil, app_nil_r. done.
Qed.

Lemma xread_fold d ctx qs : forall acc,
  wf_db d -> Forall (queried d ctx) qs ->
  mfold (xread_stream ctx) acc (map (fun q => (q.1.1, format_id q.1.2)) qs) d
  = (Ok (acc ++ concat (map read_reply qs)), d).
Proof.
  induction qs as [|q qs IH]; intros acc H Hq; [cbn; by rewrite app_nil_r|].
  apply Forall_cons in Hq as [Hq Hqs]. cbn [map mfold concat].
  rewrite (bind_Ok _ _ _ _ _ (xread_stream_run d ctx q acc H Hq)). rewrite IH by done.
  by rewrite <- app_assoc.
Qed.

Lemma xread_run d ctx qs :
  wf_db d -> qs <> [] -> Forall (queried d ctx) qs ->
  xread ctx (bs "STREAMS" :: map (fun q => q.1.1) qs ++ map (fun q => format_id q.1.2) qs) d
  = (Ok (Array (concat (map read_reply qs))), d).
Proof.
  intros H Hne Hq. unfold xread. set (ks := map (fun q => q.1.1) qs). set (ids := map _ qs).
  assert (length ks = length qs /\ length ids = length qs) as [Lk Li] by (split; apply length_map).
  assert (0 < length qs)%nat as Hpos by (destruct qs; [done|simpl; lia]).
  cbn [length]. rewrite length_app, Lk, Li.
  rewrite (proj2 (Nat.ltb_ge _ _)) by lia. mrun. change (negb (eq_ignore_ascii_case (bs "STREAMS") (bs "STREAMS"))) with false. cbv iota zeta.
  replace (S (length qs + length qs) - 1)%nat with (length qs * 2)%nat by lia.
  rewrite Nat.Div0.mod_mul, Nat.div_mul by lia. cbn [Nat.eqb negb].
  change (drop 1 (bs "STREAMS" :: ks ++ ids)) with (ks ++ ids).
  change (drop (1 + length qs) (bs "STREAMS" :: ks ++ ids)) with (drop (length qs) (ks ++ ids)).
  rewrite <- Lk, take_app_length, drop_app_length.
  assert (zip ks ids = map (fun q => (q.1.1, format_id q.1.2)) qs) as ->.
  { unfold ks, ids. clear. induction qs as [|q qs IH]; [done|]. cbn. f_equal. exact IH. }
  by rewrite (bind_Ok _ _ _ _ _ (xread_fold d ctx qs [] H Hq)).
Qed.

(** C31: on a key that represents the entries [l], XLEN replies their number
    and XRANGE those between two IDs in order, at most COUNT of them; XREAD
    replies, for every given stream that has such entries, the entries above
    the given ID. *)
Theorem stream_reads E d ctx k l last a1 a2 id1 id2 count qs :
  wf_db d -> short ctx k -> stream_repr E d ctx k l last -> Z.of_nat (length l) <= i64_max ->
  parse_range_bound a1 = Ok id1 -> parse_range_bound a2 = Ok id2 ->
  (forall n, count = Some n -> 0 < n <= u64_max) -> qs <> [] -> Forall (queried d ctx) qs ->
  xlen ctx [k] d = (Ok (Integer (Z.of_nat (length l))), d)
  /\ xrange ctx (k :: a1 :: a2 :: count_args count) d
     = (Ok (Array (map build_entry_resp
          (limited count (filter (fun e => id_range id1 id2 e = true) l)))), d)
  /\ xread ctx (bs "STREAMS" :: map (fun q => q.1.1) qs ++ map (fun q => format_id q.1.2) qs) d
     = (Ok (Array (concat (map read_reply qs))), d).
Proof.
  intros H Hk Hr Hlen E1 E2 Hc Hne Hq. unfold i64_max, u64_max in *.
  destruct (read_stream_meta_run E d ctx k l last H Hr) as (o & Ho & Hh & Hcase).
  assert (o = None -> l = []) as Hempty.
  { intros ->. destruct Hh as (_ & _ & Hsz & _). cbn in Hsz. by destruct l. }
  split; [|split; [|by apply xread_run]].
  - unfold xlen. cbn [length Nat.eqb negb]. mrun. rewrite (bind_Ok _ _ _ _ _ Ho).
    destruct o as [m|]; [|by rewrite Hempty]. destruct Hcase as [-> _].
    destruct Hh as (_ & _ & Hsz & _). cbn [default from_option id] in Hsz. rewrite Hsz. by rewrite wrap_i64_id by (apply is_i64_spec; lia).
  - unfold xrange. replace ((_ <? 3)%nat || _) with false by by destruct count. mrun. mrun.
    rewrite (bind_Ok _ _ _ id1 d) by by rewrite E1. mrun. rewrite (bind_Ok _ _ _ id2 d) by by rewrite E2.
    rewrite (bind_Ok _ _ _ count d).
    2:{ by rewrite xrange_count_run by (intros n Hn; apply is_u64_spec; specialize (Hc n Hn); lia). }
    rewrite (bind_Ok _ _ _ _ _ Ho). destruct o as [m|].
    + destruct Hcase as [-> _]. destruct (xrange_loop_ok ctx id1 id2 count l) as [c' El];
        [by eapply held_sorted|intros n Hn; specialize (Hc n Hn); lia|].
      pose proof (entry_loop_ok E d ctx k m l last (xrange_item ctx id1 id2) ([], count) H Hk Hh) as Hl.
      rewrite El in Hl. by rewrite (bind_Ok _ _ _ _ _ Hl).
    + rewrite Hempty by done. rewrite filter_nil. destruct count; cbn [limited]; by rewrite ?take_nil.
Qed.

End Streams.

(** ** Witnesses *)

Definition demo_entry : entry := (mkId 5 1, [(bs "f", bs "v")]).

Definition demo_stream : StreamMeta := mkStreamMeta (build_flags DStream) 0 (new_version ctx0) 1 5 1.

(** A database that holds one entry, 5-1, under [s]. *)
Definition db_x : MemDB :=
  db_write db0 [PutCf CF_SUBKEY (sub_key ctx0 (bs "s") (new_version ctx0) (id_encode (mkId 5 1)))
                  (encode_fields [(bs "f", bs "v")]);
                PutCf CF_METADATA (meta_key ctx0 (bs "s")) (sm_encode demo_stream)].

Lemma db_x_wf : wf_db db_x.
Proof. apply wf_write, mem_wf. Qed.

Lemma demo_entry_ok : entry_ok demo_entry.
Proof. by repeat constructor. Qed.

Lemma db0_no_entries k (w : Z) : sub_items db0 ctx0 CF_SUBKEY k w = [].
Proof.
  destruct (sub_items db0 ctx0 CF_SUBKEY k w) as [|[f v] r] eqn:E; [done|].
  assert ((f, v) ∈ sub_items db0 ctx0 CF_SUBKEY k w) as Hin by (rewrite E; by left).
  by apply sub_items_elem in Hin.
Qed.

Lemma db_x_repr : stream_repr 0 db_x ctx0 (bs "s") [demo_entry] (mkId 5 1).
Proof.
  right. exists demo_stream. split; [done|]. split; [done|].
  split; [by repeat split|]. split; [done|]. split; [done|]. split; [done|]. split; [|split].
  - apply (append_items db0 ctx0 (bs "s") (new_version ctx0) [] (mkId 5 1) [(bs "f", bs "v")] _
      (sm_encode demo_stream)); [apply db0_no_entries|constructor|apply demo_entry_ok| |done].
    intros e He. by apply elem_of_nil in He.
  - constructor; [apply demo_entry_ok|constructor].
  - constructor; [done|constructor].
Qed.

Lemma stream_encodings_witness :
  decode_fields (encode_fields [(bs "f", bs "v")]) = Some [(bs "f", bs "v")]
  /\ decode_stream_meta (sm_encode demo_stream) = Some demo_stream
  /\ parse_id (format_id (mkId 5 1)) = Ok (Some (mkId 5 1))
  /\ (bytes_lt (id_encode (mkId 5 1)) (id_encode (mkId 5 2)) <-> id_lt (mkId 5 1) (mkId 5 2)).
Proof. by apply (stream_encodings (mkId 5 1) (mkId 5 2)); repeat constructor. Defined.

Lemma xadd_refines_witness :
  (exists d', xadd ctx0 (bs "s" :: spec_text (AutoSeq 3) :: flatten [(bs "g", bs "w")]) db_x
     = (Ok (bulk (format_id (mkId 5 2))), d')
     /\ (forall e, e ∈ [demo_entry] -> id_lt e.1 (mkId 5 2))
     /\ stream_repr 0 d' ctx0 (bs "s") [demo_entry; (mkId 5 2, [(bs "g", bs "w")])] (mkId 5 2)
     /\ only_key db_x d' ctx0 (bs "s"))
  /\ xadd ctx0 (bs "s" :: spec_text (Explicit (mkId 5 1)) :: flatten [(bs "g", bs "w")]) db_x
     = (Err old_id, db_x).
Proof.
  split.
  - apply (xadd_refines 0 db_x ctx0 ctx0 (bs "s") [demo_entry] (mkId 5 1) (AutoSeq 3) [(bs "g", bs "w")]);
      [apply db_x_wf|apply db_x_repr|done|done|done|by repeat constructor|done|done|done].
  - apply (xadd_refines 0 db_x ctx0 ctx0 (bs "s") [demo_entry] (mkId 5 1) (Explicit (mkId 5 1))
      [(bs "g", bs "w")]);
      [apply db_x_wf|apply db_x_repr|done|done|done|by repeat constructor|done|done|done].
Defined.

Lemma stream_reads_witness :
  xlen ctx0 [bs "s"] db_x = (Ok (Integer 1), db_x)
  /\ xrange ctx0 (bs "s" :: bs "-" :: bs "7-" :: count_args (Some 3)) db_x
     = (Ok (Array (map build_entry_resp [demo_entry])), db_x)
  /\ xread ctx0 [bs "STREAMS"; bs "s"; format_id (mkId 5 0)] db_x
     = (Ok (Array [Array [bulk (bs "s"); Array [build_entry_resp demo_entry]]]), db_x).
Proof.
  apply (stream_reads 0 db_x ctx0 (bs "s") [demo_entry] (mkId 5 1) (bs "-") (bs "7-") (mkId 0 0) (mkId 7 0)
    (Some 3) [(bs "s", mkId 5 0, [demo_entry])]);
    [apply db_x_wf|apply short0; simpl; lia|apply db_x_repr|done|done|done|by intros n [= <-]|done|].
  constructor; [|constructor]. split; [apply short0; simpl; lia|]. split; [done|].
  exists 0, (mkId 5 1). apply db_x_repr.
Defined.

(** COUNT 0 underflows the counter: a build with overflow checks panics, one
    without them replies everything. *)
Example xrange_count_zero :
  fst (xrange ctx0 [bs "s"; bs "-"; bs "+"; bs "COUNT"; bs "0"] db_x) = Panic
  /\ fst (xrange (mkContext [] 1000 7 false 40) [bs "s"; bs "-"; bs "+"; bs "COUNT"; bs "0"] db_x)
     = Ok (Array [build_entry_resp demo_entry]).
Proof. vm_compute. done. Qed.

(** The bounds "-" and "+" are accepted by XREAD. *)
Example xread_accepts_bounds : parse_xread_id (bs "+") = Ok (mkId u64_max u64_max).
Proof. reflexivity. Qed.

(** After the greatest sequence number a build without overflow checks starts
    again at 0, below the last ID. *)
Example xadd_sequence_wraps :
  fst ((_ ← xadd (mkContext [] 1000 7 false 40) [bs "t"; format_id (mkId 2000 u64_max); bs "f"; bs "v"];
        xadd (mkContext [] 1000 7 false 40) [bs "t"; bs "*"; bs "f"; bs "v"]) db0)
  = Ok (bulk (bs "2000-0")).
Proof. vm_compute. reflexivity. Qed.
