(* ===== verification/PubSub.v ===== *)
(** * Publish/subscribe (src/pubsub.rs, src/cmd/pubsub.rs)

    The hub of channels and subscribers and the commands SUBSCRIBE,
    UNSUBSCRIBE and PUBLISH. A subscriber is a client id with the sending end
    of the client's mailbox; a mailbox whose connection has ended is closed
    and refuses messages. Each operation of the hub is one step. *)

From S2P Require Import Prelude Bytes Text Error Protocol Context.

Local Open Scope Z_scope.

Record PublishEvent := mkEvent { ev_channel : bytes; ev_message : bytes }.

(** The sending end of a mailbox, by the number of the mailbox. *)
Abbreviation Sender := Z.

(** The queues of the open mailboxes. *)
Abbreviation mailboxes := (gmap Z (list PublishEvent)).

Record PubSubHub := mkHub { next_id : Z; subscribers : gmap bytes (list (Z * Sender)) }.

Definition hub_new : PubSubHub := mkHub 0 ∅.

(** [fetch_add] wraps around. *)
Definition alloc_client_id (h : PubSubHub) : Z * PubSubHub :=
  (next_id h, mkHub (wrap_u64 (next_id h + 1)) (subscribers h)).

Definition set_subscribers (s : gmap bytes (list (Z * Sender))) (h : PubSubHub) : PubSubHub :=
  mkHub (next_id h) s.

Definition has_client (client_id : Z) (entry : list (Z * Sender)) : bool :=
  existsb (fun p => p.1 =? client_id) entry.

(** One channel of [subscribe]: the channels added so far and the hub. *)
Definition subscribe_one (client_id : Z) (tx : Sender) (st : list bytes * PubSubHub) (ch : bytes)
  : list bytes * PubSubHub :=
  let '(added, h) := st in
  let entry := default [] (subscribers h !! ch) in
  if has_client client_id entry then (added, set_subscribers (<[ch:=entry]> (subscribers h)) h)
  else (added ++ [ch], set_subscribers (<[ch:=entry ++ [(client_id, tx)]]> (subscribers h)) h).

Definition subscribe (client_id : Z) (channels : list bytes) (tx : Sender) (h : PubSubHub)
  : list bytes * PubSubHub :=
  foldl (subscribe_one client_id tx) ([], h) channels.

(** [entry.retain(|(id, _)| *id != client_id)]. *)
Definition without_client (client_id : Z) (entry : list (Z * Sender)) : list (Z * Sender) :=
  List.filter (fun p => negb (p.1 =? client_id)) entry.

(** One channel of [unsubscribe] with a list. *)
Definition unsubscribe_one (client_id : Z) (st : list bytes * PubSubHub) (ch : bytes)
  : list bytes * PubSubHub :=
  let '(removed, h) := st in
  match subscribers h !! ch with
  | None => st
  | Some entry =>
      let entry' := without_client client_id entry in
      let removed := if (length entry' <? length entry)%nat then removed ++ [ch] else removed in
      (removed, set_subscribers (if bool_decide (entry' = []) then delete ch (subscribers h)
                                 else <[ch:=entry']> (subscribers h)) h)
  end.

Section Hub.
(** The order in which the map of channels is iterated. *)
Variable channel_order : list bytes -> list bytes.

Definition unsubscribe_all (client_id : Z) (h : PubSubHub) : list bytes * PubSubHub :=
  let removed := List.filter
    (fun ch => match subscribers h !! ch with
               | Some entry => (length (without_client client_id entry) <? length entry)%nat
               | None => false
               end) (channel_order (map_to_list (subscribers h)).*1) in
  (removed, set_subscribers (filter (fun p => p.2 <> []) (without_client client_id <$> subscribers h)) h).

Definition unsubscribe (client_id : Z) (channels : option (list bytes)) (h : PubSubHub)
  : list bytes * PubSubHub :=
  match channels with
  | Some list => foldl (unsubscribe_one client_id) ([], h) list
  | None => unsubscribe_all client_id h
  end.

(** [tx.send(event)]: whether the mailbox is open, and the queues after it. *)
Definition send (tx : Sender) (event : PublishEvent) (boxes : mailboxes) : bool * mailboxes :=
  match boxes !! tx with
  | Some queue => (true, <[tx:=queue ++ [event]]> boxes)
  | None => (false, boxes)
  end.

(** One subscriber of [publish]: the number of deliveries, the ids of dead
    subscribers and the mailboxes. *)
Definition deliver (event : PublishEvent) (st : Z * list Z * mailboxes) (sub : Z * Sender)
  : Z * list Z * mailboxes :=
  let '(delivered, dead, boxes) := st in
  let '(ok, boxes) := send sub.2 event boxes in
  if ok then (delivered + 1, dead, boxes) else (delivered, dead ++ [sub.1], boxes).

Definition publish (channel message : bytes) (h : PubSubHub) (boxes : mailboxes)
  : Z * PubSubHub * mailboxes :=
  let event := mkEvent channel message in
  let subs := default [] (subscribers h !! channel) in
  let '(delivered, dead, boxes) := foldl (deliver event) (0, [], boxes) subs in
  if bool_decide (dead = []) then (delivered, h, boxes)
  else
    match subscribers h !! channel with
    | None => (delivered, h, boxes)
    | Some subs =>
        let subs' := List.filter (fun p => negb (bool_decide (p.1 ∈ dead))) subs in
        (delivered,
         set_subscribers (if bool_decide (subs' = []) then delete channel (subscribers h)
                          else <[channel:=subs']> (subscribers h)) h, boxes)
    end.

Definition subscription_count (client_id : Z) (h : PubSubHub) : Z :=
  Z.of_nat (length (List.filter (fun p => has_client client_id p.2) (map_to_list (subscribers h)))).

(** ** Commands *)

(** The state the commands act on. *)
Record PubSubState := mkPubSub { ps_hub : PubSubHub; ps_boxes : mailboxes }.

Definition confirmation (kind : string) (count : Z) (ch : bytes) : RespValue :=
  Array [bulk (bs kind); bulk ch; Integer (wrap_i64 count)].

Definition subscribe_cmd (client_id : Z) (tx : Sender) (args : list bytes) : M PubSubState RespValue :=
  if (length args <? 1)%nat then throw (WrongArgCount (bs "SUBSCRIBE"))
  else fun s =>
    let '(added, h) := subscribe client_id (map from_utf8_lossy args) tx (ps_hub s) in
    (Ok (Array (map (confirmation "subscribe" (subscription_count client_id h)) added)),
     mkPubSub h (ps_boxes s)).

Definition unsubscribe_cmd (client_id : Z) (args : list bytes) : M PubSubState RespValue := fun s =>
  let channels := if bool_decide (args = []) then None else Some (map from_utf8_lossy args) in
  let '(removed, h) := unsubscribe client_id channels (ps_hub s) in
  (Ok (Array (map (confirmation "unsubscribe" (subscription_count client_id h)) removed)),
   mkPubSub h (ps_boxes s)).

Definition publish_cmd (args : list bytes) : M PubSubState RespValue :=
  if (length args <? 2)%nat then throw (WrongArgCount (bs "PUBLISH"))
  else
    a0 ← index args 0;
    a1 ← index args 1;
    (fun s =>
      let '(count, h, boxes) := publish (from_utf8_lossy a0) a1 (ps_hub s) (ps_boxes s) in
      (Ok (Integer (wrap_i64 count)), mkPubSub h boxes)) : M PubSubState RespValue.

End Hub.

Example pubsub_session :
  let st := mkPubSub hub_new {[1 := []; 2 := []]} in
  let '(r, s) := (a ← subscribe_cmd 1 1 [bs "news"; bs "a"; bs "news"];
                  b ← subscribe_cmd 2 2 [bs "news"];
                  c ← publish_cmd [bs "news"; bs "hello"];
                  d ← unsubscribe_cmd (fun l => l) 1 [bs "news"; bs "b"];
                  e ← publish_cmd [bs "news"; bs "bye"];
                  f ← unsubscribe_cmd (fun l => l) 1 [];
                  mret [a; b; c; d; e; f]) st in
  r = Ok [Array [confirmation "subscribe" 2 (bs "news"); confirmation "subscribe" 2 (bs "a")];
          Array [confirmation "subscribe" 1 (bs "news")]; Integer 2;
          Array [confirmation "unsubscribe" 1 (bs "news")]; Integer 1;
          Array [confirmation "unsubscribe" 0 (bs "a")]]
  /\ ps_boxes s = {[1 := [mkEvent (bs "news") (bs "hello")];
                    2 := [mkEvent (bs "news") (bs "hello"); mkEvent (bs "news") (bs "bye")]]}.
Proof. vm_compute. done. Qed.

(** ** The hub as a set of subscriptions *)

(** Mailboxes are numbered by the client that owns them. *)
Definition entry_ok (entry : list (Z * Sender)) : Prop :=
  entry <> [] /\ NoDup entry.*1 /\ Forall (fun p => p.2 = p.1) entry.

(** No channel without subscribers, no client twice in a channel. *)
Definition hub_ok (h : PubSubHub) : Prop := map_Forall (fun _ entry => entry_ok entry) (subscribers h).

(** The client [c] is subscribed to [ch]. *)
Definition subscribed (h : PubSubHub) (ch : bytes) (c : Z) : Prop :=
  c ∈ (default [] (subscribers h !! ch)).*1.

#[export] Instance subscribed_dec h ch c : Decision (subscribed h ch c).
Proof. unfold subscribed. apply _. Defined.

Lemma has_client_spec c entry : has_client c entry = true <-> c ∈ entry.*1.
Proof.
  unfold has_client. rewrite existsb_exists, list_elem_of_fmap. split.
  - intros (p & Hp & Heq). apply list_elem_of_In in Hp. zbool. exists p. by subst.
  - intros (p & -> & Hp). exists p. split; [by apply list_elem_of_In|]. apply Z.eqb_refl.
Qed.

Lemma filter_In_elem {A} (f : A -> bool) (l : list A) x :
  x ∈ List.filter f l <-> x ∈ l /\ f x = true.
Proof. rewrite !list_elem_of_In. apply filter_In. Qed.

Lemma filter_sublist {A} (f : A -> bool) (l : list A) : List.filter f l `sublist_of` l.
Proof. induction l as [|x l IH]; [done|]. cbn. destruct (f x); by constructor. Qed.

Lemma without_client_elem c entry x :
  x ∈ (without_client c entry).*1 <-> x ∈ entry.*1 /\ x <> c.
Proof.
  unfold without_client. rewrite !list_elem_of_fmap. split.
  - intros (p & -> & [Hp Hne]%filter_In_elem). zbool. eauto.
  - intros [(p & -> & Hp) Hne]. exists p. split; [done|]. apply filter_In_elem. split; [done|].
    apply negb_true_iff, Z.eqb_neq. done.
Qed.

Lemma fst_filter_NoDup {A B} (f : A * B -> bool) (l : list (A * B)) :
  NoDup l.*1 -> NoDup (List.filter f l).*1.
Proof.
  induction l as [|p l IH]; [done|]. cbn. intros [Hp Hn]%NoDup_cons. destruct (f p); [|by apply IH].
  cbn. constructor; [|by apply IH]. intros (q & Eq & [Hq _]%filter_In_elem)%list_elem_of_fmap.
  apply Hp, list_elem_of_fmap. by exists q.
Qed.

(** Filtering the subscribers of a channel keeps the rest in order. *)
Lemma entry_ok_filter f entry :
  entry_ok entry -> List.filter f entry <> [] -> entry_ok (List.filter f entry).
Proof.
  intros (_ & Hn & Hf) Hne. split; [done|]. split; [by apply fst_filter_NoDup|].
  rewrite Forall_forall in *. intros p [Hp _]%filter_In_elem. by apply Hf.
Qed.

Lemma without_client_shorter c entry :
  (length (without_client c entry) <? length entry)%nat = true <-> c ∈ entry.*1.
Proof.
  unfold without_client. rewrite Nat.ltb_lt. induction entry as [|p entry IH]; cbn.
  - split; [lia|by intros ?%elem_of_nil].
  - rewrite elem_of_cons. pose proof (List.filter_length_le (fun p => negb (p.1 =? c)) entry) as Hle.
    destruct (Z.eqb_spec p.1 c) as [E|Hne]; cbn [negb length].
    + split; [by left|lia].
    + rewrite <- Nat.succ_lt_mono. rewrite IH. split; [by right|]. intros [?|?]; [congruence|done].
Qed.

(** *** SUBSCRIBE *)

Lemma subscribe_one_spec c added h ch :
  hub_ok h ->
  let '(added', h') := subscribe_one c c (added, h) ch in
  hub_ok h' /\ added' = (if decide (subscribed h ch c) then added else added ++ [ch])
  /\ forall ch' c', subscribed h' ch' c' <-> subscribed h ch' c' \/ (ch' = ch /\ c' = c).
Proof.
  intros Hok. unfold subscribe_one, subscribed at 1. set (entry := default [] (subscribers h !! ch)).
  assert (entry = [] \/ entry_ok entry) as He.
  { unfold entry. destruct (subscribers h !! ch) eqn:E; [right; by apply (Hok ch)|by left]. }
  destruct (has_client c entry) eqn:Ec.
  - apply has_client_spec in Ec. rewrite decide_True by done. split; [|split; [done|]].
    + apply map_Forall_insert_2; [|done]. destruct He as [E|]; [|done]. rewrite E in Ec.
      by apply elem_of_nil in Ec.
    + intros ch' c'. unfold subscribed. cbn [subscribers set_subscribers].
      destruct (decide (ch = ch')) as [<-|Hne].
      * rewrite lookup_insert_eq. cbn [default from_option id]. fold entry. split; [by left|].
        intros [?|[_ ->]]; done.
      * rewrite lookup_insert_ne by done. split; [by left|]. by intros [?|[-> _]].
  - assert (c ∉ entry.*1) as Hn by (rewrite <- has_client_spec; congruence).
    rewrite decide_False by done. split; [|split; [done|]].
    + apply map_Forall_insert_2; [|done]. split; [by destruct entry|]. rewrite fmap_app. split.
      * apply NoDup_app. split; [destruct He as [->|He]; [constructor|apply He]|].
        split; [|apply NoDup_singleton]. by intros x Hx ->%list_elem_of_singleton.
      * apply Forall_app. split; [destruct He as [->|He]; [constructor|apply He]|by constructor].
    + intros ch' c'. unfold subscribed. cbn [subscribers set_subscribers].
      destruct (decide (ch = ch')) as [<-|Hne].
      * rewrite lookup_insert_eq. cbn [default from_option id]. fold entry.
        rewrite fmap_app. change ([(c, c)].*1) with [c]. rewrite elem_of_app, list_elem_of_singleton. naive_solver.
      * rewrite lookup_insert_ne by done. naive_solver.
Qed.

Lemma subscribe_fold c chs : forall added h,
  hub_ok h ->
  let '(added', h') := foldl (subscribe_one c c) (added, h) chs in
  hub_ok h' /\ (forall ch c', subscribed h' ch c' <-> subscribed h ch c' \/ (ch ∈ chs /\ c' = c))
  /\ exists new, added' = added ++ new /\ NoDup new
     /\ forall ch, ch ∈ new <-> ch ∈ chs /\ ~ subscribed h ch c.
Proof.
  induction chs as [|ch chs IH]; intros added h Hok.
  { split; [done|]. split; [set_solver|]. exists []. rewrite app_nil_r.
    split; [done|]. split; [constructor|set_solver]. }
  cbn [foldl]. pose proof (subscribe_one_spec c added h ch Hok) as H1.
  destruct (subscribe_one c c (added, h) ch) as [added1 h1]. destruct H1 as (Hok1 & -> & Hs1).
  specialize (IH (if decide (subscribed h ch c) then added else added ++ [ch]) h1 Hok1).
  destruct (foldl _ _ chs) as [added2 h2]. destruct IH as (Hok2 & Hs2 & new & -> & Hn & Hnew).
  split; [done|]. split.
  - intros ch' c'. rewrite Hs2, Hs1, elem_of_cons. tauto.
  - setoid_rewrite Hs1 in Hnew. case_decide as Hc.
    + exists new. split; [done|]. split; [done|]. intros ch'. rewrite Hnew, elem_of_cons.
      destruct (decide (ch' = ch)) as [->|]; tauto.
    + exists (ch :: new). rewrite <- app_assoc. split; [done|]. split.
      * constructor; [|done]. rewrite Hnew. tauto.
      * intros ch'. rewrite !elem_of_cons, Hnew. destruct (decide (ch' = ch)) as [->|]; tauto.
Qed.

(** *** UNSUBSCRIBE *)

(** Replacing the subscribers of a channel, which disappears with the last. *)
Definition put_entry (ch : bytes) (entry : list (Z * Sender)) (h : PubSubHub) : PubSubHub :=
  set_subscribers (if bool_decide (entry = []) then delete ch (subscribers h)
                   else <[ch:=entry]> (subscribers h)) h.

Lemma put_entry_lookup ch entry h ch' :
  default [] (subscribers (put_entry ch entry h) !! ch')
  = if decide (ch = ch') then entry else default [] (subscribers h !! ch').
Proof.
  unfold put_entry. cbn [subscribers set_subscribers]. case_bool_decide as E; case_decide as Hc.
  - subst. by rewrite lookup_delete_eq.
  - by rewrite lookup_delete_ne.
  - subst. by rewrite lookup_insert_eq.
  - by rewrite lookup_insert_ne.
Qed.

Lemma put_entry_ok ch entry h :
  hub_ok h -> (entry <> [] -> entry_ok entry) -> hub_ok (put_entry ch entry h).
Proof.
  intros Hok He. unfold put_entry. case_bool_decide.
  - by apply map_Forall_delete.
  - apply map_Forall_insert_2; auto.
Qed.

Lemma unsubscribe_one_spec c removed h ch :
  hub_ok h ->
  let '(removed', h') := unsubscribe_one c (removed, h) ch in
  hub_ok h' /\ removed' = (if decide (subscribed h ch c) then removed ++ [ch] else removed)
  /\ forall ch' c', subscribed h' ch' c' <-> subscribed h ch' c' /\ ~ (ch' = ch /\ c' = c).
Proof.
  intros Hok. unfold unsubscribe_one. destruct (subscribers h !! ch) as [entry|] eqn:E.
  - fold (put_entry ch (without_client c entry) h). split; [|split].
    + apply put_entry_ok; [done|]. apply entry_ok_filter. by apply (Hok ch).
    + case_decide as Hc; unfold subscribed in Hc; rewrite E in Hc; cbn [default from_option id] in Hc.
      * by rewrite (proj2 (without_client_shorter c entry)).
      * destruct (_ <? _)%nat eqn:El; [|done]. by apply without_client_shorter in El.
    + intros ch' c'. unfold subscribed. rewrite put_entry_lookup. case_decide as Hch.
      * subst. rewrite without_client_elem, E. naive_solver.
      * naive_solver.
  - split; [done|]. split.
    + rewrite decide_False; [done|]. unfold subscribed. rewrite E. by apply not_elem_of_nil.
    + intros ch' c'. split; [|by intros []]. intros Hs. split; [done|]. intros [-> ->].
      unfold subscribed in Hs. rewrite E in Hs. by apply elem_of_nil in Hs.
Qed.

Lemma unsubscribe_fold c chs : forall removed h,
  hub_ok h ->
  let '(removed', h') := foldl (unsubscribe_one c) (removed, h) chs in
  hub_ok h' /\ (forall ch c', subscribed h' ch c' <-> subscribed h ch c' /\ ~ (ch ∈ chs /\ c' = c))
  /\ exists gone, removed' = removed ++ gone /\ NoDup gone
     /\ forall ch, ch ∈ gone <-> ch ∈ chs /\ subscribed h ch c.
Proof.
  induction chs as [|ch chs IH]; intros removed h Hok.
  { split; [done|]. split; [intros; rewrite elem_of_nil; tauto|]. exists []. rewrite app_nil_r.
    split; [done|]. split; [constructor|]. intros ch. rewrite !elem_of_nil. tauto. }
  cbn [foldl]. pose proof (unsubscribe_one_spec c removed h ch Hok) as H1.
  destruct (unsubscribe_one c (removed, h) ch) as [removed1 h1]. destruct H1 as (Hok1 & -> & Hs1).
  specialize (IH (if decide (subscribed h ch c) then removed ++ [ch] else removed) h1 Hok1).
  destruct (foldl _ _ chs) as [removed2 h2]. destruct IH as (Hok2 & Hs2 & gone & -> & Hn & Hgone).
  split; [done|]. split.
  - intros ch' c'. rewrite Hs2, Hs1, elem_of_cons. tauto.
  - setoid_rewrite Hs1 in Hgone. case_decide as Hc.
    + exists (ch :: gone). rewrite <- app_assoc. split; [done|]. split.
      * constructor; [|done]. rewrite Hgone. tauto.
      * intros ch'. rewrite !elem_of_cons, Hgone. destruct (decide (ch' = ch)) as [->|]; tauto.
    + exists gone. split; [done|]. split; [done|]. intros ch'. rewrite Hgone, elem_of_cons.
      destruct (decide (ch' = ch)) as [->|]; tauto.
Qed.

Lemma unsubscribe_all_spec order c h :
  hub_ok h -> (forall l, order l ≡ₚ l) ->
  let '(gone, h') := unsubscribe_all order c h in
  hub_ok h' /\ (forall ch c', subscribed h' ch c' <-> subscribed h ch c' /\ c' <> c)
  /\ NoDup gone /\ forall ch, ch ∈ gone <-> subscribed h ch c.
Proof.
  intros Hok Ho. unfold unsubscribe_all. cbv zeta. split; [|split; [|split]].
  - intros ch entry. cbn [subscribers set_subscribers]. rewrite map_lookup_filter_Some, lookup_fmap, fmap_Some.
    intros [(entry0 & E & ->) Hne]. apply entry_ok_filter; [by apply (Hok ch)|done].
  - intros ch c'. unfold subscribed. cbn [subscribers set_subscribers].
    rewrite map_lookup_filter, lookup_fmap. destruct (subscribers h !! ch) as [entry|]; cbn.
    2:{ rewrite elem_of_nil. tauto. }
    rewrite <- without_client_elem. destruct (without_client c entry) as [|p l] eqn:Ew; cbn; [done|].
    done.
  - apply (sublist_NoDup _ (order (map_to_list (subscribers h)).*1)).
    + rewrite (Ho _). apply NoDup_fst_map_to_list.
    + apply filter_sublist.
  - intros ch. rewrite filter_In_elem, (Ho _). unfold subscribed.
    destruct (subscribers h !! ch) as [entry|] eqn:E; cbn [default from_option id].
    + rewrite without_client_shorter. split; [by intros []|]. intros Hc. split; [|done].
      apply list_elem_of_fmap. exists (ch, entry). split; [done|]. by apply elem_of_map_to_list.
    + rewrite elem_of_nil. split; [by intros [_ ?]|done].
Qed.

(** *** PUBLISH *)

Definition open_box (boxes : mailboxes) (c : Z) : bool := bool_decide (is_Some (boxes !! c)).

Lemma deliver_fold event entry : forall n dead boxes,
  NoDup entry.*1 -> Forall (fun p => p.2 = p.1) entry ->
  exists boxes', foldl (deliver event) (n, dead, boxes) entry
    = (n + Z.of_nat (length (List.filter (fun p => open_box boxes p.1) entry)),
       dead ++ (List.filter (fun p => negb (open_box boxes p.1)) entry).*1, boxes')
    /\ forall c, boxes' !! c = if decide (c ∈ entry.*1) then (fun q => q ++ [event]) <$> boxes !! c
                             else boxes !! c.
Proof.
  induction entry as [|[c t] entry IH]; intros n dead boxes Hn Hf.
  { exists boxes. cbn. rewrite Z.add_0_r, app_nil_r. split; [done|]. intros c.
    by rewrite decide_False by apply not_elem_of_nil. }
  apply Forall_cons in Hf as [Ht Hf]. cbn [fst snd] in Ht. subst t.
  cbn in Hn. apply NoDup_cons in Hn as [Hc Hn]. cbn [foldl].
  assert (deliver event (n, dead, boxes) (c, c)
    = match boxes !! c with
      | Some q => (n + 1, dead, <[c:=q ++ [event]]> boxes)
      | None => (n, dead ++ [c], boxes)
      end) as -> by (unfold deliver, send; cbv beta iota; cbn [fst snd]; destruct (boxes !! c); reflexivity).
  assert (forall boxes1 : mailboxes, (forall x, x <> c -> boxes1 !! x = boxes !! x) ->
    List.filter (fun p => open_box boxes1 p.1) entry = List.filter (fun p => open_box boxes p.1) entry
    /\ List.filter (fun p => negb (open_box boxes1 p.1)) entry
       = List.filter (fun p => negb (open_box boxes p.1)) entry) as Hsame.
  { intros boxes1 Hb. split; apply filter_ext_in; intros p Hp%list_elem_of_In; unfold open_box;
      (rewrite Hb; [done|]); intros E; apply Hc, list_elem_of_fmap; eauto. }
  destruct (boxes !! c) as [q|] eqn:Eb.
  - destruct (IH (n + 1) dead (<[c:=q ++ [event]]> boxes) Hn Hf) as (boxes' & -> & Hb).
    destruct (Hsame (<[c:=q ++ [event]]> boxes)) as [-> ->]; [intros; by apply lookup_insert_ne|].
    assert (open_box boxes c = true) as Ho by (unfold open_box; rewrite Eb; apply bool_decide_eq_true; eauto).
    exists boxes'. cbn [List.filter fst]. rewrite Ho. cbn [negb length].
    split; [do 2 f_equal; lia|].
    intros x. rewrite Hb. cbn. destruct (decide (x = c)) as [->|Hne].
    + rewrite (decide_False (P:=c ∈ entry.*1)), decide_True by (done || by left).
      by rewrite lookup_insert_eq, Eb.
    + rewrite lookup_insert_ne by done. repeat case_decide; set_solver.
  - destruct (IH n (dead ++ [c]) boxes Hn Hf) as (boxes' & -> & Hb).
    assert (open_box boxes c = false) as Ho by (unfold open_box; rewrite Eb; by apply bool_decide_eq_false; intros []).
    exists boxes'. cbn [List.filter fst]. rewrite Ho. cbn [negb]. split; [by rewrite <- app_assoc|].
    intros x. rewrite Hb. cbn. destruct (decide (x = c)) as [->|Hne].
    + rewrite (decide_False (P:=c ∈ entry.*1)), decide_True by (done || by left). by rewrite Eb.
    + repeat case_decide; set_solver.
Qed.

(** The subscribers of a channel with an open mailbox and with none. *)
Lemma subscribed_open h ch (boxes : mailboxes) c :
  c ∈ (List.filter (fun p => open_box boxes p.1) (default [] (subscribers h !! ch))).*1
  <-> subscribed h ch c /\ is_Some (boxes !! c).
Proof.
  unfold subscribed, open_box. rewrite !list_elem_of_fmap. split.
  - intros (p & -> & [Hp Ho%bool_decide_eq_true]%filter_In_elem). eauto.
  - intros [(p & -> & Hp) Ho]. exists p. split; [done|]. apply filter_In_elem. split; [done|].
    by apply bool_decide_eq_true.
Qed.

Lemma subscribed_dead h ch (boxes : mailboxes) c :
  c ∈ (List.filter (fun p => negb (open_box boxes p.1)) (default [] (subscribers h !! ch))).*1
  <-> subscribed h ch c /\ boxes !! c = None.
Proof.
  unfold subscribed, open_box. rewrite !list_elem_of_fmap. split.
  - intros (p & -> & [Hp Ho]%filter_In_elem). apply negb_true_iff, bool_decide_eq_false in Ho.
    split; [by exists p|]. by apply eq_None_not_Some.
  - intros [(p & -> & Hp) Ho]. exists p. split; [done|]. apply filter_In_elem. split; [done|].
    apply negb_true_iff, bool_decide_eq_false. by apply eq_None_not_Some.
Qed.

Lemma publish_spec ch msg h boxes :
  hub_ok h ->
  let '(n, h', boxes') := publish ch msg h boxes in
  hub_ok h'
  /\ (exists live, n = Z.of_nat (length live) /\ NoDup live
      /\ forall c, c ∈ live <-> subscribed h ch c /\ is_Some (boxes !! c))
  /\ (forall c, boxes' !! c = if decide (subscribed h ch c)
                             then (fun q => q ++ [mkEvent ch msg]) <$> boxes !! c else boxes !! c)
  /\ forall ch' c, subscribed h' ch' c <-> subscribed h ch' c /\ (ch' = ch -> is_Some (boxes !! c)).
Proof.
  intros Hok. unfold publish. cbv zeta. remember (default [] (subscribers h !! ch)) as entry eqn:Hentry.
  assert (entry = [] \/ entry_ok entry) as He.
  { rewrite Hentry. destruct (subscribers h !! ch) eqn:E; [right; by apply (Hok ch)|by left]. }
  assert (NoDup entry.*1 /\ Forall (fun p => p.2 = p.1) entry) as [Hn Hf].
  { destruct He as [E|(_ & ? & ?)]; [rewrite E; by split; constructor|done]. }
  destruct (deliver_fold (mkEvent ch msg) entry 0 [] boxes Hn Hf) as (boxes' & -> & Hb).
  rewrite Z.add_0_l, app_nil_l. set (deads := List.filter (fun p => negb (open_box boxes p.1)) entry).
  assert (forall c, c ∈ deads.*1 <-> subscribed h ch c /\ boxes !! c = None) as Hdead.
  { intros c. unfold deads. rewrite Hentry. apply subscribed_dead. }
  assert (exists live, Z.of_nat (length (List.filter (fun p => open_box boxes p.1) entry))
    = Z.of_nat (length live) /\ NoDup live
    /\ forall c, c ∈ live <-> subscribed h ch c /\ is_Some (boxes !! c)) as Hlive.
  { exists (List.filter (fun p => open_box boxes p.1) entry).*1. rewrite length_fmap. split; [done|].
    split; [by apply fst_filter_NoDup|]. intros c. rewrite Hentry. apply subscribed_open. }
  assert (forall c, boxes' !! c = if decide (subscribed h ch c)
    then (fun q => q ++ [mkEvent ch msg]) <$> boxes !! c else boxes !! c) as Hb'.
  { intros c. rewrite Hb. destruct (decide (c ∈ entry.*1)) as [H1|H1];
      destruct (decide (subscribed h ch c)) as [H2|H2]; try done; exfalso;
      unfold subscribed in H2; rewrite <- Hentry in H2; done. }
  case_bool_decide as Hd.
  - split; [done|]. split; [done|]. split; [done|]. intros ch' c. split; [|by intros []].
    intros Hs. split; [done|]. intros ->. destruct (boxes !! c) eqn:Eb; [eauto|].
    assert (c ∈ deads.*1) as Hin by (by apply Hdead). rewrite Hd in Hin. by apply elem_of_nil in Hin.
  - destruct (subscribers h !! ch) as [entry0|] eqn:E.
    2:{ exfalso. apply Hd. unfold deads. by rewrite Hentry. }
    cbn [default from_option id] in Hentry. subst entry0.
    fold (put_entry ch (List.filter (fun p => negb (bool_decide (p.1 ∈ deads.*1))) entry) h).
    split; [apply put_entry_ok; [done|]; apply entry_ok_filter; by apply (Hok ch)|].
    split; [done|]. split; [done|]. intros ch' c. unfold subscribed at 1. rewrite put_entry_lookup.
    case_decide as Hch; [subst ch'|unfold subscribed; naive_solver].
    rewrite list_elem_of_fmap. unfold subscribed. rewrite E. cbn [default from_option id].
    split.
    + intros (p & -> & [Hp Ho]%filter_In_elem). apply negb_true_iff, bool_decide_eq_false in Ho.
      split; [apply list_elem_of_fmap; eauto|]. intros _. destruct (boxes !! p.1) eqn:Eb; [eauto|].
      exfalso. apply Ho, Hdead. split; [|done]. unfold subscribed. rewrite E. apply list_elem_of_fmap. eauto.
    + intros [(p & -> & Hp)%list_elem_of_fmap Ho]. exists p. split; [done|]. apply filter_In_elem.
      split; [done|]. apply negb_true_iff, bool_decide_eq_false. intros [_ Hx]%Hdead.
      specialize (Ho eq_refl). rewrite Hx in Ho. by destruct Ho.
Qed.

(** ** Properties *)

(** The steps of the hub with its connections: a client connects and opens its
    mailbox, disconnects, takes a message, or runs a command. *)
Inductive hub_step (order : list bytes -> list bytes) : PubSubState -> PubSubState -> Prop :=
  | step_connect h boxes c h' :
      alloc_client_id h = (c, h') -> hub_step order (mkPubSub h boxes) (mkPubSub h' (<[c:=[]]> boxes))
  | step_disconnect h boxes c : hub_step order (mkPubSub h boxes) (mkPubSub h (delete c boxes))
  | step_receive h boxes c ev q :
      boxes !! c = Some (ev :: q) -> hub_step order (mkPubSub h boxes) (mkPubSub h (<[c:=q]> boxes))
  | step_subscribe s c args : hub_step order s (subscribe_cmd c c args s).2
  | step_unsubscribe s c args : hub_step order s (unsubscribe_cmd order c args s).2
  | step_publish s args : hub_step order s (publish_cmd args s).2.

Lemma hub_step_ok order s s' :
  (forall l, order l ≡ₚ l) -> hub_step order s s' -> hub_ok (ps_hub s) -> hub_ok (ps_hub s').
Proof.
  intros Ho Hstep Hok. destruct Hstep as [h boxes c h' E|h boxes c|h boxes c ev q E|s c args|s c args|s args];
    try done.
  - by injection E as <- <-.
  - unfold subscribe_cmd. destruct (_ <? _)%nat; [done|]. unfold subscribe.
    pose proof (subscribe_fold c (map from_utf8_lossy args) [] (ps_hub s) Hok) as Hs.
    destruct (foldl _ _ _) as [added h']. apply Hs.
  - unfold unsubscribe_cmd. cbv zeta. case_bool_decide; unfold unsubscribe.
    + pose proof (unsubscribe_all_spec order c (ps_hub s) Hok Ho) as Hs.
      destruct (unsubscribe_all order c (ps_hub s)). apply Hs.
    + pose proof (unsubscribe_fold c (map from_utf8_lossy args) [] (ps_hub s) Hok) as Hs.
      destruct (foldl _ _ _) as [removed h']. apply Hs.
  - unfold publish_cmd. destruct args as [|a [|b args]]; [done..|].
    change ((_ <? 2)%nat) with false. cbv iota. mrun. mrun.
    pose proof (publish_spec (from_utf8_lossy a) b (ps_hub s) (ps_boxes s) Hok) as Hs.
    destruct (publish _ _ _ _) as [[n h'] boxes']. apply Hs.
Qed.

Definition hub_start : PubSubState := mkPubSub hub_new ∅.

(** In every state the hub reaches from the start, no channel is left
    without subscribers, no client is subscribed to a channel twice, and every
    subscription sends to the mailbox of its client. *)
Theorem hub_invariant order s :
  (forall l, order l ≡ₚ l) -> rtc (hub_step order) hub_start s -> hub_ok (ps_hub s).
Proof.
  intros Ho Hr. assert (hub_ok (ps_hub hub_start)) as H0 by apply map_Forall_empty.
  induction Hr as [|s1 s2 s3 Hs _ IH]; [done|]. by eapply IH, hub_step_ok.
Qed.

(** The channels of a client, each once. *)
Definition channels_of (h : PubSubHub) (c : Z) (mine : list bytes) : Prop :=
  NoDup mine /\ forall x, x ∈ mine <-> subscribed h x c.

Lemma subscription_count_channels h c :
  exists mine, subscription_count c h = Z.of_nat (length mine) /\ channels_of h c mine.
Proof.
  exists (filter (fun p => has_client c p.2 = true) (map_to_list (subscribers h))).*1. split.
  - unfold subscription_count. rewrite length_fmap. do 2 f_equal.
    induction (map_to_list (subscribers h)) as [|p l IH]; [done|]. rewrite filter_cons. cbn [List.filter].
    destruct (has_client c p.2); [rewrite decide_True by done; by f_equal|by rewrite decide_False].
  - split; [apply NoDup_fst_filter, NoDup_fst_map_to_list|]. intros x. rewrite list_elem_of_fmap. unfold subscribed. split.
    + intros ([y e] & -> & [Hc Hp%elem_of_map_to_list]%list_elem_of_filter). cbn [fst snd] in *. rewrite Hp. cbn.
      by apply has_client_spec.
    + intros Hx. destruct (subscribers h !! x) as [e|] eqn:Ex; cbn in Hx; [|set_solver].
      exists (x, e). split; [done|]. apply list_elem_of_filter. split; [by apply has_client_spec|].
      by apply elem_of_map_to_list.
Qed.

(** C24: the commands refine the relation between channels and clients.
    SUBSCRIBE adds the pairs of the client with the given channels and
    confirms each new one once; UNSUBSCRIBE removes them, or all pairs of the
    client, and confirms the removed ones; every confirmation carries the
    number of channels the client is subscribed to after the command. PUBLISH
    appends the message to the mailbox of exactly the subscribers whose mailbox
    is open, replies their number and forgets the subscribers whose mailbox is
    closed. *)
Theorem pubsub_refines order s c args ch msg :
  (forall l, order l ≡ₚ l) -> hub_ok (ps_hub s) -> args <> [] ->
  (exists new mine s', subscribe_cmd c c args s
       = (Ok (Array (map (confirmation "subscribe" (Z.of_nat (length mine))) new)), s')
     /\ channels_of (ps_hub s') c mine
     /\ NoDup new /\ (forall x, x ∈ new <-> x ∈ map from_utf8_lossy args /\ ~ subscribed (ps_hub s) x c)
     /\ ps_boxes s' = ps_boxes s
     /\ forall x c', subscribed (ps_hub s') x c'
          <-> subscribed (ps_hub s) x c' \/ (x ∈ map from_utf8_lossy args /\ c' = c))
  /\ (exists gone mine s', unsubscribe_cmd order c args s
       = (Ok (Array (map (confirmation "unsubscribe" (Z.of_nat (length mine))) gone)), s')
     /\ channels_of (ps_hub s') c mine
     /\ NoDup gone /\ (forall x, x ∈ gone <-> x ∈ map from_utf8_lossy args /\ subscribed (ps_hub s) x c)
     /\ ps_boxes s' = ps_boxes s
     /\ forall x c', subscribed (ps_hub s') x c'
          <-> subscribed (ps_hub s) x c' /\ ~ (x ∈ map from_utf8_lossy args /\ c' = c))
  /\ (exists gone s', unsubscribe_cmd order c [] s
       = (Ok (Array (map (confirmation "unsubscribe" 0) gone)), s')
     /\ NoDup gone /\ (forall x, x ∈ gone <-> subscribed (ps_hub s) x c)
     /\ ps_boxes s' = ps_boxes s
     /\ forall x c', subscribed (ps_hub s') x c' <-> subscribed (ps_hub s) x c' /\ c' <> c)
  /\ exists live s', publish_cmd [ch; msg] s = (Ok (Integer (wrap_i64 (Z.of_nat (length live)))), s')
     /\ NoDup live
     /\ (forall c', c' ∈ live <-> subscribed (ps_hub s) (from_utf8_lossy ch) c' /\ is_Some (ps_boxes s !! c'))
     /\ (forall c', ps_boxes s' !! c' =
           if decide (subscribed (ps_hub s) (from_utf8_lossy ch) c')
           then (fun q => q ++ [mkEvent (from_utf8_lossy ch) msg]) <$> ps_boxes s !! c' else ps_boxes s !! c')
     /\ forall x c', subscribed (ps_hub s') x c'
          <-> subscribed (ps_hub s) x c' /\ (x = from_utf8_lossy ch -> is_Some (ps_boxes s !! c')).
Proof.
  intros Ho Hok Hne. split; [|split; [|split]].
  - unfold subscribe_cmd. replace (length args <? 1)%nat with false by by destruct args. unfold subscribe.
    pose proof (subscribe_fold c (map from_utf8_lossy args) [] (ps_hub s) Hok) as Hs.
    destruct (foldl _ _ _) as [added h']. destruct Hs as (_ & Hs & new & -> & Hn & Hnew).
    destruct (subscription_count_channels h' c) as (mine & -> & Hc).
    eexists new, mine, _. split; [done|]. split; [done|]. by repeat split; try apply Hnew; try apply Hs.
  - unfold unsubscribe_cmd. rewrite bool_decide_false by done. unfold unsubscribe.
    pose proof (unsubscribe_fold c (map from_utf8_lossy args) [] (ps_hub s) Hok) as Hs.
    destruct (foldl _ _ _) as [removed h']. destruct Hs as (_ & Hs & gone & -> & Hn & Hgone).
    destruct (subscription_count_channels h' c) as (mine & -> & Hc).
    eexists gone, mine, _. split; [done|]. split; [done|]. by repeat split; try apply Hgone; try apply Hs.
  - unfold unsubscribe_cmd. rewrite bool_decide_true by done. unfold unsubscribe.
    pose proof (unsubscribe_all_spec order c (ps_hub s) Hok Ho) as Hs.
    destruct (unsubscribe_all order c (ps_hub s)) as [gone h']. destruct Hs as (_ & Hs & Hn & Hg).
    destruct (subscription_count_channels h' c) as (mine & -> & _ & Hc).
    assert (mine = []) as ->.
    { destruct mine as [|x mine]; [done|]. destruct (Hs x c) as [Hs' _].
      by destruct (Hs' (proj1 (Hc x) ltac:(left))). }
    eexists gone, _. by split.
  - unfold publish_cmd. change ((_ <? 2)%nat) with false. cbv iota. mrun. mrun.
    pose proof (publish_spec (from_utf8_lossy ch) msg (ps_hub s) (ps_boxes s) Hok) as Hs.
    destruct (publish _ _ _ _) as [[n h'] boxes']. destruct Hs as (_ & (live & -> & Hn & Hl) & Hb & Hs).
    eexists live, _. by split.
Qed.

Lemma hub_invariant_witness : hub_ok (ps_hub (subscribe_cmd 0 0 [bs "a"] (mkPubSub (mkHub 1 ∅) {[0:=[]]})).2).
Proof.
  apply (hub_invariant (fun l => l)); [done|].
  apply (rtc_l _ _ (mkPubSub (mkHub 1 ∅) {[0:=[]]})); [by apply (step_connect _ hub_new)|].
  apply rtc_once, step_subscribe.
Defined.

Lemma pubsub_refines_witness :
  let s := mkPubSub (mkHub 3 {[bs "a" := [(1, 1); (2, 2)]]}) {[1 := []]} in
  exists new mine s', subscribe_cmd 1 1 [bs "b"] s
       = (Ok (Array (map (confirmation "subscribe" (Z.of_nat (length mine))) new)), s')
     /\ channels_of (ps_hub s') 1 mine
     /\ NoDup new /\ (forall x, x ∈ new <-> x ∈ [bs "b"] /\ ~ subscribed (ps_hub s) x 1).
Proof.
  intros s. destruct (pubsub_refines (fun l => l) s 1 [bs "b"] (bs "a") (bs "hi"))
    as ((new & mine & s' & E & Hm & Hn & Hx & _) & _); [done| |done|by exists new, mine, s'].
  apply map_Forall_singleton. split; [done|]. split; [|by repeat constructor].
  apply (bool_decide_unpack _). reflexivity.
Defined.
