(* ===== verification/Cluster.v ===== *)
(** * Cluster state (src/cluster.rs, src/cmd/cluster.rs)

    The map of hash slots to nodes, the slot of a key, the ranges CLUSTER
    SLOTS reports, and the command CLUSTER. The CRC-16 comes from a library
    and is a parameter. *)

From stdpp Require Import sorting.
From S2P Require Import Prelude Bytes Text Error Encoding Protocol Context.

Local Open Scope Z_scope.

Definition CLUSTER_SLOT_COUNT : Z := 16384.

(** [ClusterNodeRole::Master] and [ClusterNodeRole::Replica]. *)
Inductive ClusterNodeRole := MasterNode | ReplicaNode.

Record ClusterNode := mkNode { node_id : bytes; node_addr : bytes; node_role : ClusterNodeRole }.

Record ClusterState := mkCluster { cl_slots : gmap Z bytes; cl_nodes : gmap bytes ClusterNode }.

Definition cluster_new : ClusterState := mkCluster ∅ ∅.

(** [iter().position(|&b| b == c)]. *)
Fixpoint position (c : byte) (l : bytes) : option nat :=
  match l with
  | [] => None
  | b :: rest => if decide (b = c) then Some 0%nat else S <$> position c rest
  end.

(** The part of a key between the first brace and the next closing brace, if
    it is not empty. *)
Definition hash_tag (key : bytes) : bytes :=
  let '(start, stop) :=
    match position Byte.x7b key with
    | Some start =>
        match position Byte.x7d (drop start key) with
        | Some len => if (1 <? len)%nat then (start + 1, start + len)%nat else (0%nat, length key)
        | None => (0%nat, length key)
        end
    | None => (0%nat, length key)
    end in
  slice start stop key.

Section Slots.
Variable crc16_xmodem : bytes -> Z.

Definition key_slot (key : bytes) : Z := crc16_xmodem (hash_tag key) mod CLUSTER_SLOT_COUNT.

End Slots.

Definition assign_slot (slot : Z) (node : bytes) (c : ClusterState) : ClusterState :=
  mkCluster (<[slot:=node]> (cl_slots c)) (cl_nodes c).

Definition slot_node (slot : Z) (c : ClusterState) : option bytes := cl_slots c !! slot.

Definition add_node (node : ClusterNode) (c : ClusterState) : ClusterState :=
  mkCluster (cl_slots c) (<[node_id node:=node]> (cl_nodes c)).

Definition slot_le (a b : Z * bytes) : Prop := a.1 <= b.1.

#[export] Instance slot_le_dec a b : Decision (slot_le a b).
Proof. unfold slot_le. apply _. Defined.

(** The assignments sorted by slot: [slots.sort_by_key(|(s, _)| *s)]. *)
Definition sorted_slots (c : ClusterState) : list (Z * bytes) :=
  merge_sort slot_le (map_to_list (cl_slots c)).

Abbreviation range := (Z * Z * bytes)%type.

(** The loop over the assignments after the first. They come sorted and with
    different slots, so a slot follows [stop] only when [stop + 1] is a [u16]. *)
Fixpoint range_loop_from (ranges : list range) (start stop : Z) (current_node : bytes)
    (slots : list (Z * bytes)) : list range :=
  match slots with
  | [] => ranges ++ [(start, stop, current_node)]
  | (slot, node) :: rest =>
      if (slot =? stop + 1) && bool_decide (node = current_node)
      then range_loop_from ranges start slot current_node rest
      else range_loop_from (ranges ++ [(start, stop, current_node)]) slot slot node rest
  end.

Definition slots_ranges (c : ClusterState) : list range :=
  if bool_decide (cl_slots c = ∅) then [(0, CLUSTER_SLOT_COUNT - 1, bs "127.0.0.1:6379")]
  else
    match sorted_slots c with
    | [] => []
    | (slot, node) :: rest => range_loop_from [] slot slot node rest
    end.

Definition null_id : bytes := bs "0000000000000000000000000000000000000000".

Definition slots_range_to_resp (r : range) : RespValue :=
  let '(start, stop, addr) := r in
  let parts := split_on Byte.x3a [] addr in
  let host := default (bs "127.0.0.1") (head parts) in
  let port := default 6379 (parts !! 1%nat ≫= parse_i64) in
  Array [Integer start; Integer stop; Array [bulk host; Integer port; bulk null_id]].

(** ** The command *)

Section ClusterCommand.
Variable crc16_xmodem : bytes -> Z.
(** The order in which the map of nodes is iterated. *)
Variable node_order : list ClusterNode -> list ClusterNode.

Definition nodes (c : ClusterState) : list ClusterNode := node_order (map_to_list (cl_nodes c)).*2.

Definition role_str (r : ClusterNodeRole) : bytes :=
  match r with MasterNode => bs "master" | ReplicaNode => bs "replica" end.

Definition newline : bytes := [Byte.x0a].

Definition node_line (n : ClusterNode) : bytes :=
  node_id n ++ bs " " ++ node_addr n ++ bs " " ++ role_str (node_role n)
  ++ bs " - 0 0 0 connected" ++ newline.

Definition cluster_slots : M ClusterState RespValue :=
  gets (fun c => Array (map slots_range_to_resp (slots_ranges c))).

Definition cluster_keyslot (args : list bytes) : M ClusterState RespValue :=
  if negb (Nat.eqb (length args) 1) then throw (WrongArgCount (bs "CLUSTER KEYSLOT"))
  else key ← index args 0; mret (Integer (key_slot crc16_xmodem key)).

Definition cluster_nodes : M ClusterState RespValue :=
  gets (fun c =>
    let nodes := nodes c in
    if bool_decide (nodes = [])
    then bulk (null_id ++ bs " 127.0.0.1:6379 myself,master - 0 0 0 connected 0-16383" ++ newline)
    else bulk (concat (map node_line nodes))).

Definition cluster (args : list bytes) : M ClusterState RespValue :=
  match args with
  | [] => mret (RError (bs "ERR wrong number of arguments for 'cluster' command"))
  | a :: rest =>
      let sub := to_ascii_uppercase (from_utf8_lossy a) in
      if bool_decide (sub = bs "SLOTS") then cluster_slots
      else if bool_decide (sub = bs "KEYSLOT") then cluster_keyslot rest
      else if bool_decide (sub = bs "NODES") then cluster_nodes
      else mret (RError (bs "ERR unknown subcommand '" ++ sub ++ bs "'"))
  end.

End ClusterCommand.

Instance range_eq_dec : EqDecision range := _.

Example slots_example :
  slots_ranges (assign_slot 7 (bs "a:1") (assign_slot 5 (bs "a:1") (assign_slot 6 (bs "b:2")
    (assign_slot 8 (bs "a:1") cluster_new))))
  = [(5, 5, bs "a:1"); (6, 6, bs "b:2"); (7, 8, bs "a:1")].
Proof. vm_compute. reflexivity. Qed.

Example hash_tag_examples :
  hash_tag (bs "user:{42}:name") = bs "42" /\ hash_tag (bs "a{}b") = bs "a{}b"
  /\ hash_tag (bs "a{b") = bs "a{b" /\ hash_tag (bs "}{x}") = bs "x".
Proof. vm_compute. done. Qed.

(** ** Properties *)

(** The slots of a range, with its node. *)
Definition expand (r : range) : list (Z * bytes) :=
  let '(start, stop, node) := r in map (fun i => (start + Z.of_nat i, node)) (seq 0 (Z.to_nat (stop - start + 1))).

Lemma expand_snoc start stop node :
  start <= stop -> expand (start, stop + 1, node) = expand (start, stop, node) ++ [(stop + 1, node)].
Proof.
  intros Hle. unfold expand. replace (Z.to_nat (stop + 1 - start + 1)) with (S (Z.to_nat (stop - start + 1))) by lia.
  rewrite seq_S, map_app. cbn [map Nat.add].
  by replace (start + Z.of_nat (Z.to_nat (stop - start + 1))) with (stop + 1) by lia.
Qed.

Lemma expand_one slot node : expand (slot, slot, node) = [(slot, node)].
Proof. unfold expand. replace (Z.to_nat (slot - slot + 1)) with 1%nat by lia. cbn. by rewrite Z.add_0_r. Qed.

(** Two neighbouring ranges that could be one. *)
Definition mergeable (a b : range) : bool := (b.1.1 =? a.1.2 + 1) && bool_decide (b.2 = a.2).

Fixpoint unmerged (l : list range) : bool :=
  match l with
  | a :: ((b :: _) as rest) => negb (mergeable a b) && unmerged rest
  | _ => true
  end.

Lemma unmerged_snoc l a b :
  unmerged (l ++ [a]) = true -> mergeable a b = false -> unmerged ((l ++ [a]) ++ [b]) = true.
Proof.
  induction l as [|x l IH]; intros Hu Hm.
  - cbn. by rewrite Hm.
  - cbn [app] in *. destruct (l ++ [a]) as [|y r] eqn:E; [by destruct l|].
    cbn [unmerged app] in Hu |- *. apply andb_true_iff in Hu as [H1 H2]. rewrite H1. cbn [andb].
    apply IH in Hm; [done|done].
Qed.

(** Whether a range can be merged does not depend on where the last ends. *)
Lemma unmerged_last l start stop stop' node :
  unmerged (l ++ [(start, stop, node)]) = unmerged (l ++ [(start, stop', node)]).
Proof.
  induction l as [|x [|y l] IH]; [done|done|]. change ((x :: y :: l) ++ ?r) with (x :: y :: (l ++ r)).
  cbn [unmerged]. f_equal. exact IH.
Qed.

Lemma range_loop_ok slots : forall ranges start stop node,
  start <= stop -> unmerged (ranges ++ [(start, stop, node)]) = true ->
  Forall (fun r : range => r.1.1 <= r.1.2) ranges ->
  let rs := range_loop_from ranges start stop node slots in
  concat (map expand rs) = concat (map expand ranges) ++ expand (start, stop, node) ++ slots
  /\ unmerged rs = true /\ Forall (fun r : range => r.1.1 <= r.1.2) rs.
Proof.
  induction slots as [|[slot n] slots IH]; intros ranges start stop node Hle Hu Hf; cbn [range_loop_from].
  { cbv zeta. rewrite map_app, concat_app. cbn [map concat]. rewrite !app_nil_r. split; [done|].
    split; [done|]. apply Forall_app. split; [done|]. by constructor. }
  destruct (_ && _) eqn:Eb.
  - apply andb_true_iff in Eb as [->%Z.eqb_eq ->%bool_decide_eq_true].
    destruct (IH ranges start (stop + 1) node) as (He & Hu' & Hf'); [lia| |done|].
    { by rewrite (unmerged_last _ start _ stop node). }
    cbv zeta in *. rewrite He, expand_snoc by done. split; [by rewrite <- !app_assoc|done].
  - destruct (IH (ranges ++ [(start, stop, node)]) slot slot n) as (He & Hu' & Hf'); [lia| | |].
    { apply unmerged_snoc; [done|]. unfold mergeable. cbn [fst snd]. done. }
    { apply Forall_app. split; [done|]. by constructor. }
    cbv zeta in *. rewrite He, map_app, concat_app, expand_one. cbn [map concat]. rewrite app_nil_r.
    split; [by rewrite <- !app_assoc|done].
Qed.

Lemma sorted_slots_perm c : sorted_slots c ≡ₚ map_to_list (cl_slots c).
Proof. apply merge_sort_Permutation. Qed.

Lemma sorted_slots_elem c slot node : (slot, node) ∈ sorted_slots c <-> slot_node slot c = Some node.
Proof. rewrite sorted_slots_perm. apply elem_of_map_to_list. Qed.

Lemma sorted_slots_sorted c : StronglySorted (fun a b : Z * bytes => a.1 < b.1) (sorted_slots c).
Proof.
  assert (StronglySorted slot_le (sorted_slots c)) as HS.
  { apply Sorted_StronglySorted; [intros x y z; unfold slot_le; lia|].
    apply Sorted_merge_sort. intros x y. unfold slot_le. lia. }
  assert (NoDup (sorted_slots c).*1) as Hn by (rewrite sorted_slots_perm; apply NoDup_fst_map_to_list).
  induction HS as [|x l HS IH Hx]; [constructor|]. cbn in Hn. apply NoDup_cons in Hn as [Hxl Hn].
  constructor; [by apply IH|]. rewrite Forall_forall in *. intros y Hy. specialize (Hx y Hy).
  unfold slot_le in Hx. assert (x.1 <> y.1); [|lia]. intros E. apply Hxl, list_elem_of_fmap. eauto.
Qed.

(** The ranges of CLUSTER SLOTS describe the assignment exactly: written
    out, they list every assigned slot with its node once, in increasing order;
    every range is non-empty and no two neighbouring ranges could be one. With
    no slot assigned there is one range with all 16384 slots. *)
Theorem slots_ranges_exact c :
  if bool_decide (cl_slots c = ∅) then slots_ranges c = [(0, 16383, bs "127.0.0.1:6379")]
  else
    let l := concat (map expand (slots_ranges c)) in
    StronglySorted (fun a b : Z * bytes => a.1 < b.1) l
    /\ (forall slot node, (slot, node) ∈ l <-> slot_node slot c = Some node)
    /\ Forall (fun r : range => r.1.1 <= r.1.2) (slots_ranges c)
    /\ unmerged (slots_ranges c) = true.
Proof.
  unfold slots_ranges. case_bool_decide as Hc; [done|]. cbv zeta.
  pose proof (sorted_slots_sorted c) as HS. pose proof (sorted_slots_elem c) as HE.
  destruct (sorted_slots c) as [|[slot node] rest] eqn:Es.
  - exfalso. apply Hc, map_eq. intros slot. rewrite lookup_empty. apply eq_None_not_Some.
    intros [node Hn]. apply (HE slot node), elem_of_nil in Hn. done.
  - destruct (range_loop_ok rest [] slot slot node) as (He & Hu & Hf); [lia|done|constructor|].
    cbv zeta in *. rewrite He, expand_one. by split.
Qed.

Lemma position_skip c a b : c ∉ a -> position c (a ++ c :: b) = Some (length a).
Proof.
  induction a as [|x a IH]; intros Hc; cbn.
  - by rewrite decide_True.
  - apply not_elem_of_cons in Hc as [Hx Hc]. rewrite decide_False by congruence. by rewrite IH.
Qed.

(** The tag of a key with braces. *)
Lemma hash_tag_braces a t b :
  Byte.x7b ∉ a -> Byte.x7d ∉ t -> t <> [] -> hash_tag (a ++ Byte.x7b :: t ++ Byte.x7d :: b) = t.
Proof.
  intros Ha Ht Hne. unfold hash_tag. rewrite position_skip by done. rewrite drop_app_length.
  assert (position Byte.x7d (Byte.x7b :: t ++ Byte.x7d :: b) = Some (S (length t))) as ->.
  { cbn [position]. rewrite decide_False by done. by rewrite position_skip. }
  rewrite (proj2 (Nat.ltb_lt _ _)) by (destruct t; [done|cbn; lia]).
  unfold slice. replace (length a + S (length t) - (length a + 1))%nat with (length t) by lia.
  rewrite drop_app_ge by lia. replace (length a + 1 - length a)%nat with 1%nat by lia.
  cbn [drop]. apply take_app_length.
Qed.

(** Every key has one of the 16384 slots, and keys with the same part in
    braces have the same slot, whatever stands around it. *)
Theorem key_slot_bounds crc key a t b a' b' :
  (forall l, 0 <= crc l < 2 ^ 16) ->
  0 <= key_slot crc key < CLUSTER_SLOT_COUNT
  /\ (Byte.x7b ∉ a -> Byte.x7b ∉ a' -> Byte.x7d ∉ t -> t <> [] ->
      key_slot crc (a ++ Byte.x7b :: t ++ Byte.x7d :: b)
      = key_slot crc (a' ++ Byte.x7b :: t ++ Byte.x7d :: b')).
Proof.
  intros Hcrc. split; [apply Z.mod_pos_bound; done|].
  intros Ha Ha' Ht Hne. unfold key_slot. by rewrite !hash_tag_braces.
Qed.

Lemma key_slot_bounds_witness :
  let crc := fun l => blen l mod 2 ^ 16 in
  0 <= key_slot crc (bs "k") < CLUSTER_SLOT_COUNT
  /\ key_slot crc (bs "u{7}") = key_slot crc (bs "{7}:x").
Proof.
  destruct (key_slot_bounds (fun l => blen l mod 2 ^ 16) (bs "k") (bs "u") (bs "7") [] [] (bs ":x")) as [H1 H2].
  - intros l. apply Z.mod_pos_bound. lia.
  - split; [exact H1|]. apply H2; by apply (bool_decide_unpack _).
Defined.
