(* ===== verification/Config.v ===== *)
(** * Configuration (src/config.rs) and its HTTP interface (src/http_server.rs)

    The configuration record, its validation against the memory of the
    machine, the manager that holds the current configuration, the handlers
    of the management interface, and the options src/storage.rs passes to
    RocksDB. Reading and parsing the file and
    the size of the memory are parameters; [ov] says whether the build checks
    arithmetic overflow. *)

From S2P Require Import Prelude Bytes Text Error Backend Storage.

Local Open Scope Z_scope.

Definition MIB : Z := 1024 * 1024.
Definition GIB : Z := 1024 * MIB.
Definition DEFAULT_BLOCK_CACHE : Z := 512 * MIB.
Definition LOW_MEM_BLOCK_CACHE : Z := 256 * MIB.
Definition LOW_MEM_THRESHOLD : Z := 8 * GIB.

Inductive CompressionType := NoCompression | Snappy | Lz4 | Zstd.

Record ServerConfig := mkServerConfig {
  bind : bytes; unix_socket : option bytes; worker_threads : option Z; maxclients : Z;
  tcp_keepalive : Z; timeout : Z; http_bind : bytes; cfg_namespace : bytes;
}.

Definition server_default : ServerConfig :=
  mkServerConfig (bs "127.0.0.1:6379") None None 10000 300 0 (bs "127.0.0.1:8080") [].

Record StorageConfig := mkStorageConfig {
  db_path : bytes; wal_dir : option bytes; max_open_files : Z; write_buffer_size : Z;
  max_write_buffer_number : Z; min_write_buffer_number_to_merge : Z; target_file_size_base : Z;
  max_bytes_for_level_base : Z; level_compaction_dynamic_level_bytes : bool;
  compression_type : CompressionType; bottommost_compression_type : CompressionType;
  block_cache_size : Z; cache_index_and_filter_blocks : bool; wal_bytes_limit : Z;
  max_background_jobs : Z; max_subcompactions : Z; enable_pipelined_write : bool; use_fsync : bool;
}.

Definition storage_default : StorageConfig :=
  mkStorageConfig (bs "./data") None (-1) (64 * MIB) 6 2 (64 * MIB) (256 * MIB) true Lz4 Zstd
    DEFAULT_BLOCK_CACHE true (64 * MIB) 4 2 true false.

Record Config := mkConfig {
  server : ServerConfig; storage : StorageConfig; log_level : bytes; dynamic_config : bool;
  config_file : option bytes;
}.

Definition config_default : Config := mkConfig server_default storage_default (bs "info") true None.

Definition merge (self other : Config) : Config :=
  mkConfig (server other) (storage other) (log_level other) (dynamic_config other) (config_file self).

(** [u64] arithmetic. *)
Definition u64_arith (ov : bool) (z : Z) : outcome Z :=
  if is_u64 z then Ok z else if ov then Panic else Ok (wrap_u64 z).

Definition config_error (msg : string) : KvdbError := Error.Config (bs msg).

Section Validation.
Variable ov : bool.
(** [sys.total_memory()] at the time of the call. *)
Variable total_memory : Z.

Definition validate (c : Config) : outcome unit :=
  if write_buffer_size (storage c) =? 0 then Err (config_error "write_buffer_size must be > 0")
  else if max_write_buffer_number (storage c) <=? 0
  then Err (config_error "max_write_buffer_number must be > 0")
  else
    total_mem ← u64_arith ov (total_memory * 1024);
    write_buffer_total ← u64_arith ov (write_buffer_size (storage c) * max_write_buffer_number (storage c));
    budget ← u64_arith ov (block_cache_size (storage c) + write_buffer_total);
    if total_mem / 2 <? budget
    then Err (Error.Config (bs "memory budget " ++ show_Z budget ++ bs " exceeds 50% of physical memory "
                            ++ show_Z total_mem))
    else if maxclients (server c) <=? 0 then Err (config_error "maxclients must be > 0")
    else if 255 <? blen (cfg_namespace (server c))
    then Err (Error.Config (bs "namespace length " ++ show_Z (blen (cfg_namespace (server c)))
                            ++ bs " exceeds u8 max 255; would be silently truncated"))
    else Ok tt.

Definition set_block_cache (n : Z) (s : StorageConfig) : StorageConfig :=
  mkStorageConfig (db_path s) (wal_dir s) (max_open_files s) (write_buffer_size s)
    (max_write_buffer_number s) (min_write_buffer_number_to_merge s) (target_file_size_base s)
    (max_bytes_for_level_base s) (level_compaction_dynamic_level_bytes s) (compression_type s)
    (bottommost_compression_type s) n (cache_index_and_filter_blocks s) (wal_bytes_limit s)
    (max_background_jobs s) (max_subcompactions s) (enable_pipelined_write s) (use_fsync s).

Definition adjust_for_memory (c : Config) : outcome Config :=
  total_mem ← u64_arith ov (total_memory * 1024);
  if (total_mem <? LOW_MEM_THRESHOLD) && (LOW_MEM_BLOCK_CACHE <? block_cache_size (storage c))
  then Ok (mkConfig (server c) (set_block_cache LOW_MEM_BLOCK_CACHE (storage c)) (log_level c)
             (dynamic_config c) (config_file c))
  else Ok c.

(** *** The manager: its state is the current configuration *)

(** [ConfigManager::update]. *)
Definition update (config : Config) : M Config unit :=
  config ← lift (adjust_for_memory config);
  _ ← lift (validate config);
  modify (fun _ => config).

(** [ConfigManager::load]: reading the file, and its contents as TOML or else
    as YAML, whose error text ends up in the message. *)
Definition load (read_to_string : bytes -> outcome bytes) (toml : bytes -> option Config)
    (yaml : bytes -> bytes + Config) (path : option bytes) : outcome Config :=
  config ←
    match path with
    | None => Ok config_default
    | Some p =>
        let config := mkConfig (server config_default) (storage config_default) (log_level config_default)
                        (dynamic_config config_default) (Some p) in
        content ← read_to_string p;
        file_config ←
          match toml content with
          | Some c => Ok c
          | None => match yaml content with
                    | inr c => Ok c
                    | inl e => Err (Error.Config (bs "failed to parse config file: " ++ e))
                    end
          end;
        Ok (merge config file_config)
    end;
  config ← adjust_for_memory config;
  _ ← validate config;
  Ok config.

End Validation.

(** ** The management interface *)

Record Response := mkResponse { status : Z; body : bytes }.

Definition with_newline (b : bytes) : bytes := b ++ [Byte.x0a].

Definition get_config (current : Config) : Config := current.

Definition put_config (ov : bool) (total_memory : Z) (new_config : Config) : M Config Response := fun current =>
  match update ov total_memory new_config current with
  | (Ok _, c) => (Ok (mkResponse 200 (with_newline (bs "OK"))), c)
  | (Err e, c) => (Ok (mkResponse 400 (with_newline (error_to_string e))), c)
  | (Panic, c) => (Panic, c)
  | (OutOfFuel, c) => (OutOfFuel, c)
  end.

Definition health {DB} `{RocksDB DB} : M DB Response := fun d =>
  match get CF_METADATA [] d with
  | (Ok _, d) => (Ok (mkResponse 200 (with_newline (bs "OK"))), d)
  | (_, d) => (Ok (mkResponse 503 (with_newline (bs "Unavailable"))), d)
  end.

Definition quote : byte := Byte.x22.

Definition metrics (cfg : Config) : Response :=
  mkResponse 200 (concat (map with_newline
    [bs "# HELP kvdb_up Server is up"; bs "# TYPE kvdb_up gauge"; bs "kvdb_up 1";
     bs "# HELP kvdb_maxclients Maximum number of clients"; bs "# TYPE kvdb_maxclients gauge";
     bs "kvdb_maxclients " ++ show_Z (maxclients (server cfg));
     bs "# HELP kvdb_db_path Database path"; bs "# TYPE kvdb_db_path gauge";
     bs "kvdb_db_path{path=" ++ [quote] ++ db_path (storage cfg) ++ [quote] ++ bs "} 1"])).

(** [StorageEngine::property_value], over what the library answers for the
    default column family. *)
Definition property_value {DB} `{RocksDB DB} (property_value_cf : DB -> string -> outcome (option bytes))
    (name : string) : M DB (option bytes) :=
  _ ← cf_handle CF_DEFAULT;
  value ← gets (fun d => property_value_cf d name);
  lift value.

Definition stats {DB} `{RocksDB DB} (property_value_cf : DB -> string -> outcome (option bytes)) :
    M DB Response := fun d =>
  let unavailable := bs "rocksdb.stats not available" in
  match property_value property_value_cf "rocksdb.stats" d with
  | (Ok (Some text), d) => (Ok (mkResponse 200 text), d)
  | (Ok None, d) | (Err _, d) => (Ok (mkResponse 200 unavailable), d)
  | (Panic, d) => (Panic, d)
  | (OutOfFuel, d) => (OutOfFuel, d)
  end.

(** ** What [StorageEngine::open] passes to RocksDB *)

Inductive DBCompressionType := DBNone | DBSnappy | DBLz4 | DBZstd.

Definition to_rocksdb_compression (t : CompressionType) : DBCompressionType :=
  match t with NoCompression => DBNone | Snappy => DBSnappy | Lz4 => DBLz4 | Zstd => DBZstd end.

(** The options [open] sets. [as usize] keeps a [u64] on 64-bit targets. *)
Record Options := mkOptions {
  create_if_missing : bool; create_missing_column_families : bool; opt_max_open_files : Z;
  opt_write_buffer_size : Z; opt_max_write_buffer_number : Z; opt_min_write_buffer_number_to_merge : Z;
  opt_target_file_size_base : Z; opt_max_bytes_for_level_base : Z; opt_dynamic_level_bytes : bool;
  opt_compression : DBCompressionType; opt_bottommost_compression : DBCompressionType;
  opt_max_background_jobs : Z; opt_max_subcompactions : Z; opt_pipelined_write : bool;
  opt_use_fsync : bool; opt_wal_dir : option bytes; opt_block_cache : Z;
  opt_cache_index_and_filter_blocks : bool; opt_bloom_bits_per_key : Z;
}.

Definition open_options (c : Config) : Options :=
  let s := storage c in
  mkOptions true true (max_open_files s) (write_buffer_size s) (max_write_buffer_number s)
    (min_write_buffer_number_to_merge s) (target_file_size_base s) (max_bytes_for_level_base s)
    (level_compaction_dynamic_level_bytes s) (to_rocksdb_compression (compression_type s))
    (to_rocksdb_compression (bottommost_compression_type s)) (max_background_jobs s)
    (max_subcompactions s) (enable_pipelined_write s) (use_fsync s) (wal_dir s) (block_cache_size s)
    (cache_index_and_filter_blocks s) 10.

(** The column families [open] asks for, each with a copy of the options. *)
Definition open_descriptors (c : Config) (listed : option (list cf_name)) : list (cf_name * Options) :=
  map (fun name => (name, open_options c)) (open_cfs listed).

(** The memory these descriptors let RocksDB take for write buffers, which
    every column family has of its own, and for the cache they share. *)
Definition memory_reserved (c : Config) (listed : option (list cf_name)) : Z :=
  opt_block_cache (open_options c)
  + foldr Z.add 0 (map (fun d => opt_write_buffer_size d.2 * opt_max_write_buffer_number d.2)
                     (open_descriptors c listed)).

(** ** Properties *)

(** The configurations [validate] is meant to accept on a machine with
    [mem] kilobytes of memory. *)
Definition config_ok (mem : Z) (c : Config) : Prop :=
  write_buffer_size (storage c) <> 0 /\ 0 < max_write_buffer_number (storage c)
  /\ block_cache_size (storage c) + write_buffer_size (storage c) * max_write_buffer_number (storage c)
     <= mem * 1024 / 2
  /\ 0 < maxclients (server c) /\ blen (cfg_namespace (server c)) <= 255.

(** What the machine lets of a requested configuration: on one with less than
    8 GiB the cache is cut to 256 MiB. *)
Definition lowered (mem : Z) (c : Config) : Config :=
  if mem * 1024 <? 8 * 2 ^ 30
  then mkConfig (server c) (set_block_cache (Z.min (block_cache_size (storage c)) (256 * 2 ^ 20)) (storage c))
         (log_level c) (dynamic_config c) (config_file c)
  else c.

(** The sizes are unsigned and their budget can be computed in 64 bits. *)
Definition fits (c : Config) : Prop :=
  0 <= write_buffer_size (storage c) /\ 0 <= block_cache_size (storage c)
  /\ block_cache_size (storage c) + write_buffer_size (storage c) * max_write_buffer_number (storage c) <= u64_max.

Lemma u64_arith_checked z : u64_arith true z = if is_u64 z then Ok z else Panic.
Proof. done. Qed.

Lemma u64_arith_exact ov z : is_u64 z = true -> u64_arith ov z = Ok z.
Proof. intros H. unfold u64_arith. by rewrite H. Qed.

(** On a budget that fits, the check decides [config_ok]. *)
Lemma validate_fits ov mem c :
  is_u64 (mem * 1024) = true -> fits c ->
  (config_ok mem c -> validate ov mem c = Ok tt) /\ (~ config_ok mem c -> exists e, validate ov mem c = Err e).
Proof.
  intros Hm (F1 & F2 & F3). unfold validate, config_ok.
  destruct (Z.eqb_spec (write_buffer_size (storage c)) 0); [split; [lia|by eexists]|].
  destruct (Z.leb_spec (max_write_buffer_number (storage c)) 0); [split; [lia|by eexists]|].
  assert (0 <= write_buffer_size (storage c) * max_write_buffer_number (storage c)) by nia.
  set (W := write_buffer_size (storage c) * max_write_buffer_number (storage c)) in *. unfold u64_max in F3.
  rewrite (u64_arith_exact ov _ Hm), (u64_arith_exact ov W) by (apply is_u64_spec; lia).
  cbn [mbind outcome_bind]. rewrite u64_arith_exact by (apply is_u64_spec; lia). cbn [mbind outcome_bind].
  destruct (Z.ltb_spec (mem * 1024 / 2) (block_cache_size (storage c) + W)); [split; [lia|by eexists]|].
  destruct (Z.leb_spec (maxclients (server c)) 0); [split; [lia|by eexists]|].
  destruct (Z.ltb_spec 255 (blen (cfg_namespace (server c)))); [split; [lia|by eexists]|].
  split; [done|]. lia.
Qed.

Lemma validate_checked mem c : validate true mem c = Ok tt -> config_ok mem c.
Proof.
  unfold validate, config_ok. destruct (Z.eqb_spec (write_buffer_size (storage c)) 0); [done|].
  destruct (Z.leb_spec (max_write_buffer_number (storage c)) 0); [done|].
  set (W := write_buffer_size (storage c) * max_write_buffer_number (storage c)).
  rewrite (u64_arith_checked (mem * 1024)), (u64_arith_checked W).
  destruct (is_u64 (mem * 1024)); cbn [mbind outcome_bind]; [|done].
  destruct (is_u64 W); cbn [mbind outcome_bind]; [|done]. rewrite u64_arith_checked.
  destruct (is_u64 (block_cache_size (storage c) + W)); cbn [mbind outcome_bind]; [|done].
  destruct (Z.ltb_spec (mem * 1024 / 2) (block_cache_size (storage c) + W)); [done|].
  destruct (Z.leb_spec (maxclients (server c)) 0); [done|].
  destruct (Z.ltb_spec 255 (blen (cfg_namespace (server c)))); [done|]. lia.
Qed.

#[global] Instance config_ok_dec mem c : Decision (config_ok mem c).
Proof. unfold config_ok. apply _. Defined.

Lemma validate_ok ov mem c :
  is_u64 (mem * 1024) = true -> ov = true \/ fits c -> validate ov mem c = Ok tt -> config_ok mem c.
Proof.
  intros Hm [->|Hf] Hv; [by apply validate_checked|].
  destruct (decide (config_ok mem c)) as [|Hn]; [done|].
  destruct (validate_fits ov mem c Hm Hf) as [_ He]. destruct (He Hn) as [e Ee]. congruence.
Qed.

Lemma adjust_lowered ov mem c : is_u64 (mem * 1024) = true -> adjust_for_memory ov mem c = Ok (lowered mem c).
Proof.
  intros Hm. unfold adjust_for_memory, lowered. rewrite u64_arith_exact by done. cbn [mbind outcome_bind].
  change LOW_MEM_THRESHOLD with (8 * 2 ^ 30). change LOW_MEM_BLOCK_CACHE with (256 * 2 ^ 20).
  destruct (mem * 1024 <? 8 * 2 ^ 30); [|done]. cbn [andb].
  destruct (Z.ltb_spec (256 * 2 ^ 20) (block_cache_size (storage c))); [by rewrite Z.min_r by lia|].
  rewrite Z.min_l by lia. destruct c as [? [] ? ? ?]. done.
Qed.

Lemma lowered_fits mem c : fits c -> fits (lowered mem c).
Proof.
  unfold fits, lowered. destruct (_ <? _); [|done]. cbn. lia.
Qed.

(** The cache is at most 256 MiB on a machine with little memory. *)
Definition capped (mem : Z) (c : Config) : Prop :=
  mem * 1024 < 8 * 2 ^ 30 -> block_cache_size (storage c) <= 256 * 2 ^ 20.

Lemma lowered_capped mem c : capped mem (lowered mem c).
Proof. unfold capped, lowered. destruct (Z.ltb_spec (mem * 1024) (8 * 2 ^ 30)); cbn; lia. Qed.

Section Manager.
(** The build and the memory of the machine. *)
Context (ov : bool) (mem : Z).
Hypothesis Hmem : is_u64 (mem * 1024) = true.

(** The steps of the manager: a request to change the configuration. Without
    overflow checks its budget must fit. *)
Inductive config_step : Config -> Config -> Prop :=
  | step_put new current r current' :
      ov = true \/ fits new -> put_config ov mem new current = (r, current') -> config_step current current'.

Lemma update_result new current r current' :
  ov = true \/ fits new -> update ov mem new current = (r, current') ->
  match r with Ok _ => config_ok mem current' /\ capped mem current' | _ => current' = current end.
Proof.
  intros Hf. unfold update, mbind, M_bind, lift, modify. rewrite adjust_lowered by done.
  destruct (validate ov mem (lowered mem new)) as [[]|e| |] eqn:Ev; try by intros [= <- <-].
  intros [= <- <-]. split; [|apply lowered_capped].
  apply (validate_ok ov); [done| |done]. destruct Hf; [by left|right; by apply lowered_fits].
Qed.

Lemma put_result new current r current' :
  ov = true \/ fits new -> put_config ov mem new current = (r, current') ->
  config_ok mem current' /\ capped mem current' \/ current' = current.
Proof.
  intros Hf. unfold put_config. destruct (update ov mem new current) as [r' c'] eqn:Eu.
  apply update_result in Eu; [|done]. destruct r'; intros [= <- <-]; auto.
Qed.

Lemma load_ok read toml yaml path c :
  load ov mem read toml yaml path = Ok c -> ov = true \/ fits c -> config_ok mem c /\ capped mem c.
Proof.
  intros Hl Hf. unfold load in Hl.
  match type of Hl with (?o ≫= _) = _ => destruct o as [c1|e| |]; try done end.
  cbn [mbind outcome_bind] in Hl. rewrite adjust_lowered in Hl by done.
  cbn [mbind outcome_bind] in Hl. destruct (validate ov mem (lowered mem c1)) as [[]|e| |] eqn:Ev; try done.
  injection Hl as <-. split; [by apply (validate_ok ov)|apply lowered_capped].
Qed.

(** What a request does, as a function of the request. *)
Lemma put_exact new current :
  fits new ->
  (config_ok mem (lowered mem new) ->
     put_config ov mem new current = (Ok (mkResponse 200 (with_newline (bs "OK"))), lowered mem new))
  /\ (~ config_ok mem (lowered mem new) ->
     exists text, put_config ov mem new current = (Ok (mkResponse 400 text), current)).
Proof.
  intros Hf. destruct (validate_fits ov mem (lowered mem new) Hmem (lowered_fits mem new Hf)) as [V1 V2].
  unfold put_config, update, mbind, M_bind, lift, modify. rewrite adjust_lowered by done.
  split; [intros Hok; by rewrite V1|]. intros Hn. destruct (V2 Hn) as [e ->]. by eexists.
Qed.

End Manager.


Definition with_cache (n : Z) : Config :=
  mkConfig server_default (set_block_cache n storage_default) (bs "debug") true None.


(** Every column family of the database adds its write buffers. *)
Lemma memory_reserved_eq c listed :
  memory_reserved c listed
  = block_cache_size (storage c)
    + Z.of_nat (length (open_cfs listed)) * (write_buffer_size (storage c) * max_write_buffer_number (storage c)).
Proof.
  unfold memory_reserved, open_descriptors. cbn [opt_block_cache open_options]. f_equal.
  induction (open_cfs listed) as [|cf cfs IH]; [done|].
  cbn [map foldr length snd opt_write_buffer_size opt_max_write_buffer_number open_options] in *. lia.
Qed.

(** The budget counts the write buffers once although a new database has five
    column families: with the default settings a machine with 2 GiB passes the
    check of half its memory, and RocksDB may take more than the whole. *)
Example budget_counts_one_family :
  let mem := 2 * 1024 * 1024 in
  exists c, adjust_for_memory true mem config_default = Ok c /\ validate true mem c = Ok tt
            /\ mem * 1024 < memory_reserved c None.
Proof.
  eexists. split; [reflexivity|]. split; vm_compute; reflexivity.
Qed.

(** The statistics endpoint answers with status 200 whatever the library
    says, and a database without the default family counts as one without
    statistics. *)
Lemma stats_total {DB} `{RocksDB DB} property_value_cf d :
  (forall d name, property_value_cf d name <> Panic /\ property_value_cf d name <> OutOfFuel) ->
  exists text, stats property_value_cf d = (Ok (mkResponse 200 text), d)
    /\ (db_has_cf d CF_DEFAULT = false -> text = bs "rocksdb.stats not available").
Proof.
  intros Hp. unfold stats, property_value, mbind, M_bind, cf_handle, gets, lift.
  destruct (db_has_cf d CF_DEFAULT); [|by eexists].
  destruct (Hp d "rocksdb.stats"%string) as [H1 H2].
  destruct (property_value_cf d "rocksdb.stats"%string) as [[text|]|e| |]; try done; by eexists.
Qed.

(** Without overflow checks a product of 2^64 wraps to 0 and passes. *)
Example config_budget_wraps :
  let c := mkConfig server_default
    (mkStorageConfig (bs "d") None (-1) (2 ^ 63) 2 2 0 0 true Lz4 Zstd 0 true 0 4 2 true false)
    (bs "info") true None in
  validate false (16 * 1024 * 1024) c = Ok tt /\ validate true (16 * 1024 * 1024) c = Panic.
Proof. vm_compute. done. Qed.
