(* ===== verification/Admin.v ===== *)
(** * Replication state and administration commands (src/replication.rs, src/cmd/admin.rs)

    PING, ECHO, INFO, DBSIZE, FLUSHDB, REPLICAOF and ROLE. The replication
    state is a skeleton in the source too: a role and some counters. *)

From S2P Require Import Prelude Bytes Text Error Types Encoding Backend Storage Protocol.
From S2P Require Import Context Keyspace Config.

Local Open Scope Z_scope.

(** ** Replication state *)

Inductive ReplicationRole := Master | Replica (host : bytes) (port : Z).

Record ReplicationState := mkReplication {
  repl_role : ReplicationRole; master_replid : bytes; master_repl_offset : Z; local_offset : Z;
}.

Definition replication_new : ReplicationState := mkReplication Master [] 0 0.

Definition is_master (r : ReplicationState) : bool :=
  match repl_role r with Master => true | Replica _ _ => false end.

Definition set_replica (host : bytes) (port : Z) (r : ReplicationState) : ReplicationState :=
  mkReplication (Replica host port) (master_replid r) (master_repl_offset r) (local_offset r).

Definition set_master (r : ReplicationState) : ReplicationState :=
  mkReplication Master (master_replid r) (master_repl_offset r) (local_offset r).

Definition set_master_replid (id : bytes) (r : ReplicationState) : ReplicationState :=
  mkReplication (repl_role r) id (master_repl_offset r) (local_offset r).

Definition set_master_repl_offset (offset : Z) (r : ReplicationState) : ReplicationState :=
  mkReplication (repl_role r) (master_replid r) offset (local_offset r).

(** [fetch_add] wraps around. *)
Definition add_local_offset (delta : Z) (r : ReplicationState) : ReplicationState :=
  mkReplication (repl_role r) (master_replid r) (master_repl_offset r) (wrap_u64 (local_offset r + delta)).

(** ** Commands without database *)

Definition ping {S} (args : list bytes) : M S RespValue :=
  match args with [] => mret (SimpleString (bs "PONG")) | a :: _ => mret (bulk a) end.

Definition echo {S} (args : list bytes) : M S RespValue :=
  if negb (Nat.eqb (length args) 1) then throw (WrongArgCount (bs "ECHO"))
  else a ← index args 0; mret (bulk a).

Definition line (l : bytes) : bytes := l ++ CRLF.

Definition info (cfg : Config) : M ReplicationState RespValue :=
  gets (fun r =>
    let role_str := match repl_role r with
                    | Master => bs "master"
                    | Replica host port => bs "slave:" ++ host ++ bs ":" ++ show_Z port
                    end in
    bulk (concat (map line
      [bs "# Server"; bs "kvdb_version:0.1.0"; bs "config_file:" ++ default [] (config_file cfg);
       bs "namespace:" ++ cfg_namespace (server cfg); [];
       bs "# Clients"; bs "maxclients:" ++ show_Z (maxclients (server cfg)); [];
       bs "# Persistence"; bs "db_path:" ++ db_path (storage cfg); [];
       bs "# Replication"; bs "role:" ++ role_str; bs "master_replid:" ++ master_replid r;
       bs "master_repl_offset:" ++ show_Z (master_repl_offset r)]))).

Definition replicaof (args : list bytes) : M ReplicationState RespValue :=
  if negb (Nat.eqb (length args) 2) then throw (WrongArgCount (bs "REPLICAOF"))
  else
    a0 ← index args 0;
    a1 ← index args 1;
    let host := from_utf8_lossy a0 in
    let port_str := from_utf8_lossy a1 in
    if eq_ignore_ascii_case host (bs "no") && eq_ignore_ascii_case port_str (bs "one")
    then _ ← modify set_master; mret OK
    else
      port ← lift (ok_or (parse_u16 port_str) (Command (bs "port must be a valid integer")));
      _ ← modify (set_replica host port);
      mret OK.

Definition role : M ReplicationState RespValue :=
  gets (fun r =>
    match repl_role r with
    | Master => Array [bulk (bs "master"); Integer (wrap_i64 (local_offset r))]
    | Replica host port => Array [bulk (bs "slave"); bulk host; Integer port; bulk (bs "connected");
                                  Integer (wrap_i64 (master_repl_offset r))]
    end).

(** ** Commands on the keyspace *)

Definition FLUSH_BATCH_SIZE : Z := 1024.

Definition namespace_prefix (ctx : CommandContext) : bytes :=
  if bool_decide (namespace ctx = []) then []
  else byte_of_Z (blen (namespace ctx)) :: namespace ctx.

(** The [is_expired_value] of this module. *)
Definition value_expired (ctx : CommandContext) (v : bytes) : bool :=
  match decode_string v with
  | Some (_, expire, _) => (0 <? expire) && (expire <=? now_ms ctx)
  | None => false
  end.

Section Keys.
Context {DB : Type} {RDB : RocksDB DB}.
Variable ctx : CommandContext.

(** [if !is_expired_value(&v) { count += 1; }]. *)
Definition count_live (count : Z) (item : kv) : outcome (ctrl Z) :=
  if value_expired ctx item.2 then Ok (Continue count)
  else if is_i64 (count + 1) then Ok (Continue (count + 1))
  else if checks ctx then Panic else Ok (Continue (wrap_i64 (count + 1))).

Definition dbsize (args : list bytes) : M DB RespValue :=
  count ← page_walk CF_METADATA (namespace_prefix ctx) FLUSH_BATCH_SIZE count_live 0;
  mret (Integer count).

Definition flushdb (args : list bytes) : M DB RespValue :=
  let prefix := namespace_prefix ctx in
  _ ← delete_prefix CF_METADATA prefix FLUSH_BATCH_SIZE;
  _ ← delete_prefix CF_SUBKEY prefix FLUSH_BATCH_SIZE;
  _ ← delete_prefix CF_ZSET_SCORE prefix FLUSH_BATCH_SIZE;
  mret OK.

End Keys.

Example admin_session :
  fst ((a ← replicaof [bs "10.0.0.1"; bs "6380"];
        b ← role;
        c ← replicaof [bs "NO"; bs "One"];
        e ← role;
        mret [a; b; c; e]) replication_new)
  = Ok [OK; Array [bulk (bs "slave"); bulk (bs "10.0.0.1"); Integer 6380; bulk (bs "connected"); Integer 0];
        OK; Array [bulk (bs "master"); Integer 0]].
Proof. vm_compute. reflexivity. Qed.

(** ** Properties *)

Lemma namespace_prefix_header ctx : namespace_prefix ctx = ns_header (namespace ctx).
Proof. done. Qed.

Lemma key_in_namespace ctx k s : starts_with (namespace_prefix ctx) (meta_key ctx k ++ s) = true.
Proof.
  unfold meta_key. rewrite namespace_prefix_header, metadata_key_header, <- app_assoc. apply starts_with_app.
Qed.

(** Keys of another namespace do not have the prefix. *)
Lemma key_of_other_namespace ctx ctx2 k2 s :
  namespace ctx <> [] -> blen (namespace ctx) < 2 ^ 8 -> short ctx2 k2 ->
  namespace ctx2 <> namespace ctx -> starts_with (namespace_prefix ctx) (meta_key ctx2 k2 ++ s) = false.
Proof.
  intros Hne Hn [Hk2 Hn2] Hd. apply not_true_iff_false. intros [r E]%starts_with_spec. apply Hd.
  unfold meta_key in E. rewrite namespace_prefix_header, metadata_key_header, <- !app_assoc in E.
  destruct (key_len_first_byte k2 (k2 ++ s) Hk2) as [r2 E2]. rewrite E2 in E.
  destruct (ns_header_first_byte _ Hne Hn) as (b & Eh & Hb & Hb0). rewrite Eh in E.
  destruct (decide (namespace ctx2 = [])) as [E0|N2].
  - rewrite E0 in E. cbn in E. congruence.
  - destruct (ns_header_first_byte _ N2 Hn2) as (b2 & Eh2 & Hb2 & _). rewrite Eh2 in E.
    injection E as -> E. apply app_prefix_inj in E as [? _]; [done|]. unfold blen in *. lia.
Qed.

Section AdminProperties.
Context {DB : Type} {RDB : RocksDB DB}.
Implicit Types (d : DB) (ctx : CommandContext).

(** Without a namespace the scans start at the empty key, which no encoded key
    is. *)
Definition scannable d ctx : Prop :=
  forall cf, cf ∈ [CF_METADATA; CF_SUBKEY; CF_ZSET_SCORE] -> no_empty_key d cf (namespace_prefix ctx).

(** The items DBSIZE counts. *)
Definition counted d ctx : list kv :=
  filter (fun x : kv => value_expired ctx x.2 = false) (entries d CF_METADATA (namespace_prefix ctx)).

Lemma dbsize_fold ctx (l : list kv) : forall n : Z,
  0 <= n ->
  n + Z.of_nat (length (filter (fun x : kv => value_expired ctx x.2 = false) l)) <= i64_max ->
  ctrl_value <$> for_items (count_live ctx) n l
  = Ok (n + Z.of_nat (length (filter (fun x : kv => value_expired ctx x.2 = false) l))).
Proof.
  induction l as [|x l IH]; intros n Hn; [cbn; by rewrite Z.add_0_r|].
  cbn [for_items]. rewrite filter_cons. unfold count_live at 1. destruct (value_expired ctx x.2).
  - rewrite decide_False by done. by apply IH.
  - rewrite decide_True by done. cbn [length]. unfold i64_max. intros Hm.
    rewrite (proj2 (is_i64_spec (n + 1))) by (unfold i64_min, i64_max; lia).
    rewrite IH by (unfold i64_max; lia). f_equal. lia.
Qed.

Lemma dbsize_run d ctx args :
  wf_db d -> scannable d ctx -> Z.of_nat (length (counted d ctx)) <= i64_max ->
  dbsize ctx args d = (Ok (Integer (Z.of_nat (length (counted d ctx)))), d).
Proof.
  intros H Hs Hm. unfold dbsize.
  erewrite bind_Ok; [done|]. rewrite page_walk_ok; [|apply H; auto with kv|done|apply Hs; by left].
  by rewrite dbsize_fold.
Qed.

(** *** The keyspace of a client *)

(** The keys of the client's namespace with their expiry times are those of
    [K]. Every entry belongs to a key of some namespace; a client without a
    namespace must be alone. *)
Record keyspace d ctx (K : gmap bytes Z) : Prop := {
  ks_key k e : K !! k = Some e ->
    short ctx k /\ exists v, db_get d CF_METADATA (meta_key ctx k) = Some v /\ value_expires v e;
  ks_entry key v : db_get d CF_METADATA key = Some v ->
    exists ctx' k, key = meta_key ctx' k /\ short ctx' k
      /\ (namespace ctx' = namespace ctx -> is_Some (K !! k))
      /\ (namespace ctx = [] -> namespace ctx' = []) }.

Lemma value_expires_read ctx v e :
  value_expires v e -> value_expired ctx v = (0 <? e) && (e <=? now_ms ctx).
Proof.
  unfold value_expired. intros [(p & He & ->)|(m & t & Hd & _ & _ & <-)]; [by rewrite decode_encode_string|].
  unfold decode_metadata in Hd. destruct (Z.ltb_spec (blen v) (1 + 8 + 8 + 8)); [done|].
  unfold decode_string. destruct (Z.ltb_spec (blen v) (1 + 8)); [lia|]. destruct v as [|b v]; [done|].
  destruct (from_code (type_code b)); [|done]. cbv zeta in Hd. repeat case_match; by simplify_eq.
Qed.

(** The keys that are not expired. *)
Definition unexpired_keys ctx (K : gmap bytes Z) : gmap bytes Z :=
  filter (fun p => ~ (0 < p.2 <= now_ms ctx)) K.

Lemma counted_keys d ctx K :
  blen (namespace ctx) < 2 ^ 8 -> keyspace d ctx K -> length (counted d ctx) = size (unexpired_keys ctx K).
Proof.
  intros Hn [Hk He].
  assert (forall k e, unexpired_keys ctx K !! k = Some e <-> K !! k = Some e /\ ~ (0 < e <= now_ms ctx)) as Hu
    by (intros; apply map_lookup_filter_Some).
  set (L := map (meta_key ctx) (map_to_list (unexpired_keys ctx K)).*1).
  transitivity (length L); [|by unfold L; rewrite length_map, length_fmap, length_map_to_list].
  rewrite <- (length_fmap fst). apply Permutation_length, NoDup_Permutation.
  - apply (NoDup_fst_filter (fun x : kv => value_expired ctx x.2 = false)).
    apply sorted_NoDup_keys, entries_sorted.
  - apply NoDup_fmap_2_strong; [|apply NoDup_fst_map_to_list].
    assert (forall k, k ∈ (map_to_list (unexpired_keys ctx K)).*1 -> short ctx k) as Hs.
    { intros k ([k' e] & -> & [Hkk _]%elem_of_map_to_list%Hu)%list_elem_of_fmap. by apply (Hk k' e). }
    intros k1 k2 H1 H2 E. destruct (decide (k1 = k2)) as [|Hne]; [done|].
    by destruct (meta_key_ne ctx k1 k2 (Hs _ H1) (Hs _ H2) Hne).
  - intros key. unfold counted, L. rewrite list_elem_of_fmap.
    setoid_rewrite list_elem_of_filter. rewrite list_elem_of_fmap. setoid_rewrite list_elem_of_fmap. split.
    + intros ([key' v] & -> & Hv & [Hg Hp]%entries_elem). cbn [fst snd] in *.
      destruct (He key' v Hg) as (ctx' & k & -> & Hs & Hin & Hns).
      assert (namespace ctx' = namespace ctx) as En.
      { destruct (decide (namespace ctx = [])) as [E0|N0]; [by rewrite E0, Hns|].
        destruct (decide (namespace ctx' = namespace ctx)) as [|Hd]; [done|].
        pose proof (key_of_other_namespace ctx ctx' k [] N0 Hn Hs Hd) as Hf. rewrite app_nil_r in Hf. congruence. }
      destruct (Hin En) as [e Ek]. exists k. split; [unfold meta_key; by rewrite En|].
      exists (k, e). split; [done|]. apply elem_of_map_to_list, Hu. split; [done|].
      destruct (Hk k e Ek) as (_ & v' & Hg' & Hx). unfold meta_key in Hg, Hg'. rewrite En in Hg.
      rewrite Hg in Hg'. simplify_eq. rewrite (value_expires_read ctx v' e Hx) in Hv. lia.
    + intros (k & -> & [k' e] & -> & [Ek Hx]%elem_of_map_to_list%Hu). cbn [fst].
      destruct (Hk k' e Ek) as (_ & v & Hg & Hv). exists (meta_key ctx k', v). split; [done|].
      split; [cbn [snd]; rewrite (value_expires_read ctx v e Hv); lia|]. apply entries_elem. split; [done|].
      pose proof (key_in_namespace ctx k' []) as Hp. by rewrite app_nil_r in Hp.
Qed.

Lemma flushdb_run d ctx args :
  wf_db d -> scannable d ctx ->
  exists d', flushdb ctx args d = (Ok OK, d') /\ wf_db d'
    /\ forall cf key, db_get d' cf key
       = if bool_decide (cf ∈ [CF_METADATA; CF_SUBKEY; CF_ZSET_SCORE]) && starts_with (namespace_prefix ctx) key
         then None else db_get d cf key.
Proof.
  intros H Hs. unfold flushdb. cbv zeta. set (p := namespace_prefix ctx) in *.
  assert (forall (x : DB) cf cf' x', no_empty_key x cf p -> cleared x x' cf' p -> no_empty_key x' cf p) as Hnk.
  { intros x cf cf' x' [?|Hn] [_ Hc]; [by left|]. destruct (decide (p = [])) as [Hp|]; [|by left].
    right. rewrite Hc, Hn. by destruct (_ && _). }
  destruct (delete_prefix_ok d CF_METADATA p FLUSH_BATCH_SIZE) as (d1 & E1 & C1);
    [apply H; auto with kv|done|apply Hs; by left|]. rewrite (bind_Ok _ _ _ _ _ E1).
  destruct (delete_prefix_ok d1 CF_SUBKEY p FLUSH_BATCH_SIZE) as (d2 & E2 & C2);
    [destruct C1 as [-> _]; apply H; auto with kv|done| |].
  { eapply Hnk; [|done]. apply Hs. by right; left. }
  rewrite (bind_Ok _ _ _ _ _ E2).
  destruct (delete_prefix_ok d2 CF_ZSET_SCORE p FLUSH_BATCH_SIZE) as (d3 & E3 & C3);
    [destruct C2 as [-> _], C1 as [-> _]; apply H; auto with kv|done| |].
  { eapply Hnk; [|done]. eapply Hnk; [|done]. apply Hs. by right; right; left. }
  rewrite (bind_Ok _ _ _ _ _ E3). exists d3. split; [done|].
  destruct C1 as [W1 G1], C2 as [W2 G2], C3 as [W3 G3]. split.
  - intros cf Hcf. rewrite W3, W2, W1. by apply H.
  - intros cf key. rewrite G3, G2, G1. destruct (starts_with p key).
    + rewrite !andb_true_r. destruct (decide (cf ∈ [CF_METADATA; CF_SUBKEY; CF_ZSET_SCORE])) as [Hin|Hin].
      * rewrite (bool_decide_true (cf ∈ _)) by done. rewrite !elem_of_cons, elem_of_nil in Hin.
        destruct Hin as [->|[->|[->|[]]]]; by vm_compute.
      * rewrite (bool_decide_false (cf ∈ _)) by done. rewrite !bool_decide_false; [done|..];
          intros ->; apply Hin; rewrite !elem_of_cons; tauto.
    + by rewrite !andb_false_r.
Qed.

(** C38: DBSIZE counts the keys of the client's namespace that have no expiry
    time or one in the future, and FLUSHDB removes every key of the namespace
    with its subkeys and scores: afterwards DBSIZE is 0. A client with a
    namespace touches no key of any other; a client without one is assumed to
    be alone for the count, and flushes every namespace. *)
Theorem flushdb_exact d ctx args K ctx2 k2 (w2 : Z) f2 :
  wf_db d -> (forall cf, db_get d cf [] = None) -> blen (namespace ctx) < 2 ^ 8 ->
  keyspace d ctx K -> Z.of_nat (size K) <= i64_max ->
  dbsize ctx args d = (Ok (Integer (Z.of_nat (size (unexpired_keys ctx K)))), d)
  /\ exists d', flushdb ctx args d = (Ok OK, d') /\ wf_db d'
  /\ (forall k (w : Z) f, db_get d' CF_METADATA (meta_key ctx k) = None
        /\ db_get d' CF_SUBKEY (sub_key ctx k w f) = None
        /\ db_get d' CF_ZSET_SCORE (sub_key ctx k w f) = None)
  /\ (namespace ctx <> [] -> namespace ctx2 <> namespace ctx -> short ctx2 k2 ->
        db_get d' CF_METADATA (meta_key ctx2 k2) = db_get d CF_METADATA (meta_key ctx2 k2)
        /\ forall cf, db_get d' cf (sub_key ctx2 k2 w2 f2) = db_get d cf (sub_key ctx2 k2 w2 f2))
  /\ dbsize ctx args d' = (Ok (Integer 0), d').
Proof.
  intros H He Hn HK Hm. assert (scannable d ctx) as Hs by (intros cf _; right; apply He).
  pose proof (counted_keys d ctx K Hn HK) as Hc.
  assert (size (unexpired_keys ctx K) <= size K)%nat as Hle by apply map_subseteq_size, map_filter_subseteq.
  split; [rewrite <- Hc; apply dbsize_run; [done|done|lia]|].
  destruct (flushdb_run d ctx args H Hs) as (d' & E & H' & Hg). exists d'. split; [done|]. split; [done|].
  assert (forall k (w : Z) f, exists s, sub_key ctx k w f = meta_key ctx k ++ s) as Hsub.
  { intros k w f. eexists. unfold sub_key, subkey. reflexivity. }
  assert (forall k s, starts_with (namespace_prefix ctx) (meta_key ctx k ++ s) = true) as Hin
    by (intros; apply key_in_namespace).
  split; [|split].
  - intros k w f. destruct (Hsub k w f) as [s Es]. pose proof (Hin k []) as H0. rewrite app_nil_r in H0.
    rewrite !Hg, Es, H0, Hin. by repeat split.
  - intros Hne Hd Hk2. pose proof (key_of_other_namespace ctx ctx2 k2 [] Hne Hn Hk2 Hd) as H0.
    rewrite app_nil_r in H0. rewrite Hg, H0, andb_false_r. split; [done|]. intros cf.
    rewrite Hg. unfold sub_key, subkey. fold (meta_key ctx2 k2).
    rewrite (key_of_other_namespace ctx ctx2 k2) by done. by rewrite andb_false_r.
  - assert (counted d' ctx = []) as Hc'.
    { apply elem_of_nil_inv. intros [key v]. unfold counted. rewrite list_elem_of_filter.
      intros [_ [Hv Hp]%entries_elem]. rewrite Hg, Hp in Hv. by vm_compute in Hv. }
    rewrite dbsize_run; [by rewrite Hc'|done| |by rewrite Hc'].
    intros cf Hcf. right. rewrite Hg, He. by destruct (_ && _).
Qed.

End AdminProperties.

(** A database with keys in the namespaces [a] and [b]; the key [old] of [a]
    has expired. *)
Definition ctx_a : CommandContext := mkContext (bs "a") 1000 7 true 40.
Definition ctx_b : CommandContext := mkContext (bs "b") 1000 7 true 40.

Definition db_ab : MemDB :=
  db_write db0 [PutCf CF_METADATA (meta_key ctx_a (bs "k")) (encode_string (build_flags DString) 0 (bs "1"));
                PutCf CF_METADATA (meta_key ctx_a (bs "old")) (encode_string (build_flags DString) 999 (bs "1"));
                PutCf CF_METADATA (meta_key ctx_b (bs "k")) (encode_string (build_flags DString) 0 (bs "2"))].

Definition keys_a : gmap bytes Z := <[bs "k":=0]> {[bs "old":=999]}.

Lemma flushdb_exact_witness :
  dbsize ctx_a [] db_ab = (Ok (Integer 1), db_ab)
  /\ exists d', flushdb ctx_a [] db_ab = (Ok OK, d')
     /\ db_get d' CF_METADATA (meta_key ctx_b (bs "k")) = db_get db_ab CF_METADATA (meta_key ctx_b (bs "k")).
Proof.
  destruct (flushdb_exact db_ab ctx_a [] keys_a ctx_b (bs "k") 0 []) as (H1 & d' & E & _ & _ & H2 & _).
  - apply wf_write, mem_wf.
  - intros cf. unfold db_ab. rewrite db_get_write, batch_effect_frame; [reflexivity|].
    repeat apply Forall_cons_2; try apply Forall_nil_2; by intros [=].
  - done.
  - split.
    + intros k e Hk. unfold keys_a in Hk. apply lookup_insert_Some in Hk as [[<- <-]|[_ Hk]].
      * split; [by split; vm_compute|]. eexists. split; [vm_compute; reflexivity|]. left. by exists (bs "1").
      * apply lookup_singleton_Some in Hk as [<- <-].
        split; [by split; vm_compute|]. eexists. split; [vm_compute; reflexivity|]. left. by exists (bs "1").
    + intros key v Hg. unfold db_ab in Hg. rewrite db_get_write in Hg.
      destruct (decide (key = meta_key ctx_b (bs "k"))) as [->|N1].
      { exists ctx_b, (bs "k"). split; [done|]. split; [by split; vm_compute|]. split; by intros [=]. }
      destruct (decide (key = meta_key ctx_a (bs "old"))) as [->|N2].
      { exists ctx_a, (bs "old"). split; [done|]. split; [by split; vm_compute|]. split; [by eexists|by intros [=]]. }
      destruct (decide (key = meta_key ctx_a (bs "k"))) as [->|N3].
      { exists ctx_a, (bs "k"). split; [done|]. split; [by split; vm_compute|]. split; [by eexists|by intros [=]]. }
      rewrite batch_effect_frame in Hg; [done|].
      repeat apply Forall_cons_2; try apply Forall_nil_2; intros [=]; congruence.
  - vm_compute. discriminate.
  - split; [exact H1|]. exists d'. split; [exact E|].
    apply H2; [done|done|]. by split; vm_compute.
Defined.
