(* ===== verification/ThreadPool.v ===== *)
(** * The thread pool (src/thread_pool.rs)

    The workers of the pool share the receiving end of the job queue behind a
    mutex. [while let Ok(job) = rx.lock().unwrap().recv() { job(); }] keeps the
    guard of the scrutinee alive for the whole body, so a worker holds the
    mutex while it runs its job, and a job that panics poisons it. A job is a
    program over the shared store in small actions: the workers interleave
    between any two of them. *)

From S2P Require Import Prelude.

Section Pool.
Context {ST R : Type}.

(** A job reads and updates the store action by action, and ends with a value
    or with a panic. *)
Inductive job := Return (r : R) | Crash | Act (f : ST -> ST) (k : ST -> job).

Fixpoint run_job (j : job) (s : ST) : option R * ST :=
  match j with
  | Return r => (Some r, s)
  | Crash => (None, s)
  | Act f k => run_job (k s) (f s)
  end.

Inductive worker :=
  | Waiting (* at [rx.lock()] *)
  | Receiving (* holds the mutex, in [recv()] *)
  | Running (ticket : nat) (j : job) (* holds the mutex, in [job()] *)
  | Exited (* [recv()] has failed *)
  | Dead. (* has panicked *)

Inductive lock := Free | Held (owner : nat) | Poisoned.

(** The pool with the store its jobs work on. [senders] tells whether a clone
    of the sending end is left; [spawned] records the jobs ever accepted, whose
    position is the ticket of their oneshot channel, and [answers] what was
    sent through these channels. *)
Record ThreadPool := mkPool {
  queue : list (nat * job); senders : bool; mutex : lock; workers : list worker;
  store : ST; spawned : list job; answers : list (nat * R) }.

Definition new (size : nat) (s : ST) : ThreadPool := mkPool [] true Free (replicate size Waiting) s [] [].

Definition terminated (w : worker) : bool :=
  match w with Exited | Dead => true | _ => false end.

(** The receiving end is dropped with the last worker. *)
Definition closed (p : ThreadPool) : bool := forallb terminated (workers p).

(** [None]: "thread pool is closed". *)
Definition spawn (j : job) (p : ThreadPool) : option (nat * ThreadPool) :=
  let t := length (spawned p) in
  if closed p then None
  else Some (t, mkPool (queue p ++ [(t, j)]) (senders p) (mutex p) (workers p) (store p) (spawned p ++ [j])
                  (answers p)).

(** One step of worker [i], [None] when it is blocked or has ended. *)
Definition work (i : nat) (p : ThreadPool) : option ThreadPool :=
  let update q m w s ans := Some (mkPool q (senders p) m (<[i:=w]> (workers p)) s (spawned p) ans) in
  match workers p !! i with
  | Some Waiting =>
      match mutex p with
      | Free => update (queue p) (Held i) Receiving (store p) (answers p)
      | Held _ => None
      | Poisoned => update (queue p) Poisoned Dead (store p) (answers p)
      end
  | Some Receiving =>
      match queue p with
      | (t, j) :: q => update q (mutex p) (Running t j) (store p) (answers p)
      | [] => if senders p then None else update [] Free Exited (store p) (answers p)
      end
  | Some (Running t (Act f k)) => update (queue p) (mutex p) (Running t (k (store p))) (f (store p)) (answers p)
  | Some (Running t (Return r)) => update (queue p) Free Waiting (store p) (answers p ++ [(t, r)])
  | Some (Running t Crash) => update (queue p) Poisoned Dead (store p) (answers p)
  | _ => None
  end.

Definition close (p : ThreadPool) : ThreadPool :=
  mkPool (queue p) false (mutex p) (workers p) (store p) (spawned p) (answers p).

Inductive oneshot := Pending | Resolved (r : option R).

Definition runs (t : nat) (w : worker) : bool :=
  match w with Running u _ => (t =? u)%nat | _ => false end.

Fixpoint assoc (t : nat) (l : list (nat * R)) : option R :=
  match l with
  | [] => None
  | (u, r) :: l => if (t =? u)%nat then Some r else assoc t l
  end.

(** What the owner of ticket [t] sees: the value, an error once the job was
    dropped, or neither yet. *)
Definition await (p : ThreadPool) (t : nat) : oneshot :=
  match assoc t (answers p) with
  | Some r => Resolved (Some r)
  | None => if (negb (closed p) && existsb (fun x => (t =? x.1)%nat) (queue p)) || existsb (runs t) (workers p)
            then Pending else Resolved None
  end.

(** The steps of the pool: a job is handed over, a worker moves, the last
    sender is dropped. *)
Definition worker_step (p p' : ThreadPool) : Prop := exists i, work i p = Some p'.

Inductive step (p : ThreadPool) : ThreadPool -> Prop :=
  | step_spawn j t p' : senders p = true -> spawn j p = Some (t, p') -> step p p'
  | step_work p' : worker_step p p' -> step p p'
  | step_close : step p (close p).

Definition blocked (p : ThreadPool) : Prop := forall i, work i p = None.

(** ** The jobs run one after the other *)

(** The values of the jobs run in order, up to the first that panics, and the
    store they leave. *)
Fixpoint run_all (l : list job) (s : ST) : list R * ST :=
  match l with
  | [] => ([], s)
  | j :: l => match run_job j s with
              | (Some r, s') => let '(rs, s'') := run_all l s' in (r :: rs, s'')
              | (None, s') => ([], s')
              end
  end.

(** A run without a panic. *)
Definition completes (l : list job) (s : ST) : Prop := length (run_all l s).1 = length l.

Fixpoint number {A} (k : nat) (l : list A) : list (nat * A) :=
  match l with
  | [] => []
  | x :: l => (k, x) :: number (1 + k) l
  end.

Lemma number_app {A} k (l l' : list A) : number k (l ++ l') = number k l ++ number (k + length l) l'.
Proof.
  revert k. induction l as [|x l IH]; intros k; simpl; [by rewrite Nat.add_0_r|].
  by rewrite IH, Nat.add_succ_r.
Qed.

Lemma run_all_length l s : (length (run_all l s).1 <= length l)%nat.
Proof.
  revert s. induction l as [|j l IH]; intros s; simpl; [lia|].
  destruct (run_job j s) as [[r|] s']; simpl; [|lia]. specialize (IH s').
  destruct (run_all l s'); simpl in *; lia.
Qed.

Lemma run_all_app l l' s : completes l s ->
  run_all (l ++ l') s = ((run_all l s).1 ++ (run_all l' (run_all l s).2).1, (run_all l' (run_all l s).2).2).
Proof.
  unfold completes. revert s. induction l as [|j l IH]; intros s; simpl; [by destruct (run_all l' s)|].
  destruct (run_job j s) as [[r|] s'] eqn:E; simpl; [|intros; lia].
  destruct (run_all l s') as [rs s''] eqn:E2. simpl. intros H.
  specialize (IH s'). rewrite E2 in IH. simpl in IH. by rewrite IH by lia.
Qed.

Lemma completes_snoc l j s r s' :
  completes l s -> run_job j (run_all l s).2 = (Some r, s') ->
  completes (l ++ [j]) s /\ run_all (l ++ [j]) s = ((run_all l s).1 ++ [r], s').
Proof.
  intros Hc Hj. assert (run_all (l ++ [j]) s = ((run_all l s).1 ++ [r], s')) as E.
  { rewrite run_all_app by done. simpl. by rewrite Hj. }
  split; [|done]. unfold completes in *. rewrite E. simpl. rewrite !length_app. simpl. lia.
Qed.

(** ** The invariant *)

Definition idle (w : worker) : bool := match w with Waiting | Exited => true | _ => false end.

Definition others_idle (i : nat) (ws : list worker) : Prop :=
  forall k w, ws !! k = Some w -> k <> i -> idle w = true.

Definition ended (w : worker) : bool := match w with Waiting | Exited | Dead => true | _ => false end.

(** Where the pool stands with the jobs [rest] that follow the completed ones,
    the first of which has ticket [k] and starts at store [s]. *)
Inductive phase (k : nat) (s : ST) (rest : list job) (p : ThreadPool) : Prop :=
  | phase_free : mutex p = Free -> Forall (fun w => idle w = true) (workers p) ->
      queue p = number k rest -> store p = s -> phase k s rest p
  | phase_receiving i : mutex p = Held i -> workers p !! i = Some Receiving -> others_idle i (workers p) ->
      queue p = number k rest -> store p = s -> phase k s rest p
  | phase_running i j q cur : mutex p = Held i -> workers p !! i = Some (Running k cur) ->
      others_idle i (workers p) -> rest = j :: q -> queue p = number (1 + k) q ->
      run_job cur (store p) = run_job j s -> phase k s rest p
  | phase_dead j q : mutex p = Poisoned -> Forall (fun w => ended w = true) (workers p) ->
      rest = j :: q -> queue p = number (1 + k) q -> run_job j s = (None, store p) -> phase k s rest p.

(** The state after the jobs [done]. *)
Definition after (s0 : ST) (done : list job) (p : ThreadPool) : Prop :=
  exists rest, spawned p = done ++ rest /\ completes done s0
    /\ answers p = number 0 (run_all done s0).1
    /\ phase (length done) (run_all done s0).2 rest p.

Definition exits_ok (p : ThreadPool) : Prop :=
  (Exited ∈ workers p -> queue p = [] /\ senders p = false)
  /\ (workers p = [] -> spawned p = []).

Lemma others_idle_insert i w ws : others_idle i ws -> others_idle i (<[i:=w]> ws).
Proof. intros H k w' Hk Hne. rewrite list_lookup_insert_ne in Hk by done. by eapply H. Qed.

Lemma others_idle_of_Forall i w ws : Forall (fun w => idle w = true) ws -> others_idle i (<[i:=w]> ws).
Proof.
  intros H. apply others_idle_insert. intros k w' Hk _. exact (proj1 (Forall_lookup _ _) H k w' Hk).
Qed.

Lemma Forall_of_others i w ws (P : worker -> Prop) :
  (forall w, idle w = true -> P w) -> P w -> others_idle i ws -> Forall P (<[i:=w]> ws).
Proof.
  intros HP Hw Ho. apply Forall_lookup. intros k w' Hk. destruct (decide (k = i)) as [->|Hne].
  - apply list_lookup_insert_Some in Hk as [[_ [<- _]]|[? _]]; done.
  - rewrite list_lookup_insert_ne in Hk by done. by eapply HP, Ho.
Qed.

Lemma lookup_update i w w' (ws : list worker) : ws !! i = Some w -> <[i:=w']> ws !! i = Some w'.
Proof. intros H. apply list_lookup_insert_eq. by eapply lookup_lt_Some. Qed.

(** A worker that is not idle holds the mutex. *)
Lemma busy_owner i o w ws : others_idle o ws -> ws !! i = Some w -> idle w = false -> i = o.
Proof. intros Ho Hi Hw. destruct (decide (i = o)); [done|]. rewrite (Ho i w) in Hw; congruence. Qed.

Lemma work_free k s rest p i p' :
  mutex p = Free -> Forall (fun w => idle w = true) (workers p) -> queue p = number k rest -> store p = s ->
  work i p = Some p' -> phase k s rest p' /\ spawned p' = spawned p /\ answers p' = answers p.
Proof.
  intros Hm Hw Hq Hs H. unfold work in H. destruct (workers p !! i) as [w|] eqn:Ei; [|done].
  pose proof (proj1 (Forall_lookup _ _) Hw i w Ei) as Hidle. destruct w; try done. rewrite Hm in H.
  injection H as <-. simpl. split; [|done]. apply (phase_receiving _ _ _ _ i); simpl; try done.
  - by eapply lookup_update.
  - by apply others_idle_of_Forall.
Qed.

Lemma work_receiving k s rest p o i p' :
  mutex p = Held o -> workers p !! o = Some Receiving -> others_idle o (workers p) ->
  queue p = number k rest -> store p = s -> work i p = Some p' ->
  phase k s rest p' /\ spawned p' = spawned p /\ answers p' = answers p.
Proof.
  intros Hm Hw Ho Hq Hs H. unfold work in H. destruct (workers p !! i) as [w|] eqn:Ei; [|done].
  destruct w as [| |t j| |]; try done; [by rewrite Hm in H| |].
  - assert (i = o) as -> by (eapply busy_owner; eauto). destruct rest as [|j rest]; rewrite Hq in H; simpl in H.
    + destruct (senders p); [done|]. injection H as <-. simpl. split; [|done].
      apply phase_free; simpl; try done. apply Forall_of_others; done.
    + injection H as <-. simpl. split; [|done].
      apply (phase_running _ _ _ _ o j rest j); simpl; try done.
      * by eapply lookup_update.
      * by apply others_idle_insert.
      * by rewrite Hs.
  - assert (i = o) as -> by (eapply busy_owner; eauto). congruence.
Qed.

Lemma work_running k s rest p o j q cur i p' :
  mutex p = Held o -> workers p !! o = Some (Running k cur) -> others_idle o (workers p) ->
  rest = j :: q -> queue p = number (1 + k) q -> run_job cur (store p) = run_job j s -> work i p = Some p' ->
  spawned p' = spawned p
  /\ ((phase k s rest p' /\ answers p' = answers p)
      \/ exists r s', run_job j s = (Some r, s') /\ answers p' = answers p ++ [(k, r)] /\ phase (1 + k) s' q p').
Proof.
  intros Hm Hw Ho Hr Hq Hrun H. unfold work in H. destruct (workers p !! i) as [w|] eqn:Ei; [|done].
  destruct w as [| |t c| |]; try done; [by rewrite Hm in H|..].
  { assert (i = o) as -> by (eapply busy_owner; eauto). congruence. }
  assert (i = o) as -> by (eapply busy_owner; eauto). assert (t = k /\ c = cur) as [-> ->] by naive_solver.
  destruct cur as [r| |f k']; injection H as <-; simpl; (split; [done|]).
  - right. simpl in Hrun. exists r, (store p). do 2 (split; [done|]).
    apply phase_free; simpl; try done. by apply Forall_of_others.
  - left. split; [|done]. apply (phase_dead _ _ _ _ j q); simpl; try done.
    apply Forall_of_others; [by intros []|done|done].
  - left. split; [|done]. apply (phase_running _ _ _ _ o j q (k' (store p))); simpl; try done.
    + by eapply lookup_update.
    + by apply others_idle_insert.
Qed.

Lemma work_dead k s rest p j q i p' :
  mutex p = Poisoned -> Forall (fun w => ended w = true) (workers p) -> rest = j :: q ->
  queue p = number (1 + k) q -> run_job j s = (None, store p) -> work i p = Some p' ->
  phase k s rest p' /\ spawned p' = spawned p /\ answers p' = answers p.
Proof.
  intros Hm Hw Hr Hq Hrun H. unfold work in H. destruct (workers p !! i) as [w|] eqn:Ei; [|done].
  pose proof (proj1 (Forall_lookup _ _) Hw i w Ei) as He. destruct w; try done. rewrite Hm in H.
  injection H as <-. simpl. split; [|done]. apply (phase_dead _ _ _ _ j q); simpl; try done.
  by apply Forall_insert.
Qed.

Lemma work_after s0 done p i p' :
  after s0 done p -> work i p = Some p' ->
  spawned p' = spawned p /\ (after s0 done p' \/ exists j, after s0 (done ++ [j]) p').
Proof.
  intros (rest & Hsp & Hc & Ha & Hph) H.
  assert (phase (length done) (run_all done s0).2 rest p' /\ spawned p' = spawned p /\ answers p' = answers p
          -> spawned p' = spawned p /\ (after s0 done p' \/ exists j, after s0 (done ++ [j]) p')) as Same.
  { intros (? & E1 & E2). split; [done|]. left. exists rest. by rewrite E1, E2. }
  destruct Hph as [Hm Hw Hq Hs|o Hm Hw Ho Hq Hs|o j q cur Hm Hw Ho Hr Hq Hrun|j q Hm Hw Hr Hq Hrun].
  - apply Same. by eapply work_free.
  - apply Same. by eapply work_receiving.
  - destruct (work_running _ _ _ _ _ _ _ _ _ _ Hm Hw Ho Hr Hq Hrun H) as (Es & [[? ?]|(r & s' & Hj & Ea & Hp')]);
      [by apply Same|]. split; [done|]. right. exists j, q.
    destruct (completes_snoc _ _ _ _ _ Hc Hj) as [Hc' E']. rewrite E', Es, Hsp, Hr, Ea, Ha. simpl.
    rewrite <- app_assoc, number_app, length_app. unfold completes in Hc. rewrite Hc. simpl.
    rewrite Nat.add_1_r. done.
  - apply Same. by eapply work_dead.
Qed.

Lemma phase_queue k s rest p j q' :
  queue q' = queue p ++ [((k + length rest)%nat, j)] -> mutex q' = mutex p -> workers q' = workers p ->
  store q' = store p -> phase k s rest p -> phase k s (rest ++ [j]) q'.
Proof.
  intros Eq Em Ew Es [Hm Hw Hq Hs|o Hm Hw Ho Hq Hs|o j' q cur Hm Hw Ho Hr Hq Hrun|j' q Hm Hw Hr Hq Hrun].
  1: apply phase_free. 5: apply (phase_receiving _ _ _ _ o).
  10: apply (phase_running _ _ _ _ o j' (q ++ [j]) cur). 16: apply (phase_dead _ _ _ _ j' (q ++ [j])).
  all: rewrite ?Eq, ?Em, ?Ew, ?Es; try done; rewrite ?Hq, ?Hr, ?number_app; simpl; rewrite ?Nat.add_succ_r; done.
Qed.

Lemma step_after s0 done p p' : after s0 done p -> step p p' -> exists done', after s0 done' p'.
Proof.
  intros H Hst. destruct Hst as [j t p' Hsn Hj|p' [i Hi]|].
  - destruct H as (rest & Hsp & Hc & Ha & Hph). unfold spawn in Hj. destruct (closed p); [done|].
    injection Hj as <- <-. exists done, (rest ++ [j]). simpl. rewrite Hsp, app_assoc.
    do 3 (split; [done|]). eapply (phase_queue _ _ _ p); [|done..|exact Hph]. simpl. by rewrite length_app.
  - destruct (work_after _ _ _ _ _ H Hi) as [_ [?|[j ?]]]; eauto.
  - exists done. destruct H as (rest & Hsp & Hc & Ha & Hph). exists rest. do 3 (split; [done|]).
    destruct Hph; [eapply phase_free|eapply phase_receiving|eapply phase_running|eapply phase_dead]; eauto.
Qed.

Lemma exits_step p p' : exits_ok p -> step p p' -> exits_ok p'.
Proof.
  intros [HE HN] Hst. destruct Hst as [j t p' Hsn Hj|p' [i Hi]|]; [| |].
  - unfold spawn in Hj. destruct (closed p) eqn:Ec; [done|]. injection Hj as <- <-. split; simpl.
    + intros Hx. destruct (HE Hx) as [_ ?]. congruence.
    + intros Hw. unfold closed in Ec. by rewrite Hw in Ec.
  - unfold work in Hi. destruct (workers p !! i) as [w|] eqn:Ei; [|done].
    assert (forall w', <[i:=w']> (workers p) = [] -> False) as Hne.
    { intros w' E. apply (f_equal length) in E. rewrite length_insert in E.
      apply lookup_lt_Some in Ei. simpl in E. lia. }
    assert (forall w', w' <> Exited -> Exited ∈ <[i:=w']> (workers p) -> Exited ∈ workers p) as Hin.
    { intros w' Hw' [k Hk]%list_elem_of_lookup. apply list_lookup_insert_Some in Hk as [[-> [? _]]|[_ Hk]]; [done|].
      by eapply list_elem_of_lookup_2. }
    destruct w as [| |t [r| |f k]| |]; try done; repeat case_hyp Hi; try done; injection Hi as <-;
      (split; simpl; [intros Hx; try (apply Hin in Hx; [|done]; destruct (HE Hx)); try done
                     |intros; exfalso; eauto]).
    all: congruence.
  - split; simpl; [|done]. intros Hx. split; [by apply HE|done].
Qed.

(** Every reachable state. *)
Lemma reachable_ok n s0 p : rtc step (new n s0) p -> exits_ok p /\ exists done, after s0 done p.
Proof.
  intros Hr. assert (exits_ok (new n s0) /\ exists done, after s0 done (new n s0)) as H0.
  { split.
    - split; [|done]. simpl. by intros Hx%elem_of_replicate_inv.
    - exists [], []. do 3 (split; [done|]). apply phase_free; try done. simpl. by apply Forall_replicate. }
  induction Hr as [|p1 p2 p3 Hs _ IH]; [exact H0|]. apply IH. destruct H0 as [He [d Hd]].
  split; [by eapply exits_step|by eapply step_after].
Qed.

(** The worker in [recv] or in a job holds the mutex. *)
Lemma busy_held s0 done p i w :
  after s0 done p -> workers p !! i = Some w -> ended w = false -> mutex p = Held i.
Proof.
  intros (rest & _ & _ & _ & Hph) Ei He.
  assert (idle w = false) as Hi by (by destruct w).
  destruct Hph as [Hm Hw Hq Hs|o Hm Hw Ho Hq Hs|o j q cur Hm Hw Ho Hr Hq Hrun|j q Hm Hw Hr Hq Hrun].
  1: pose proof (proj1 (Forall_lookup _ _) Hw i _ Ei); congruence.
  3: pose proof (proj1 (Forall_lookup _ _) Hw i _ Ei); congruence.
  all: rewrite Hm; f_equal; symmetry; by eapply busy_owner.
Qed.

(** ** Termination *)

Fixpoint job_cost (j : job) (s : ST) : nat :=
  match j with
  | Act f k => 1 + job_cost (k s) (f s)
  | _ => 0
  end.

Fixpoint jobs_cost (l : list job) (s : ST) : nat :=
  match l with
  | [] => 0
  | j :: l => 3 + job_cost j s + match run_job j s with
                                 | (Some _, s') => jobs_cost l s'
                                 | (None, _) => 0
                                 end
  end.

Definition live (ws : list worker) : nat := length (filter (fun w => terminated w = false) ws).

(** The steps the workers have left, for a pool whose jobs still to come are
    [queue]. *)
Definition measure (p : ThreadPool) : nat :=
  2 * live (workers p) +
  match mutex p with
  | Free => 1 + jobs_cost (queue p).*2 (store p)
  | Held i => match workers p !! i with
              | Some (Running _ cur) => 2 + job_cost cur (store p) + match run_job cur (store p) with
                                                                     | (Some _, s') => jobs_cost (queue p).*2 s'
                                                                     | (None, _) => 0
                                                                     end
              | _ => jobs_cost (queue p).*2 (store p)
              end
  | Poisoned => 0
  end.

Lemma live_insert_live i w w' ws :
  ws !! i = Some w -> terminated w = false -> terminated w' = false -> live (<[i:=w']> ws) = live ws.
Proof.
  intros Hi Hw Hw'. unfold live. rewrite <- (take_drop_middle ws i w Hi) at 2.
  rewrite insert_take_drop by (by eapply lookup_lt_Some). rewrite !list.filter_app, !list.filter_cons.
  rewrite !decide_True by done. by rewrite !length_app.
Qed.

Lemma live_insert_end i w w' ws :
  ws !! i = Some w -> terminated w = false -> terminated w' = true -> live ws = (1 + live (<[i:=w']> ws))%nat.
Proof.
  intros Hi Hw Hw'. unfold live. rewrite <- (take_drop_middle ws i w Hi) at 1.
  rewrite insert_take_drop by (by eapply lookup_lt_Some). rewrite !list.filter_app, !list.filter_cons.
  rewrite decide_True by done. rewrite decide_False by congruence. rewrite !length_app. simpl. lia.
Qed.

Lemma work_measure s0 done p i p' : after s0 done p -> work i p = Some p' -> (measure p' < measure p)%nat.
Proof.
  intros Hok H. unfold work in H. destruct (workers p !! i) as [w|] eqn:Ei; [|done]. unfold measure.
  destruct w as [| |t [r| |f k]| |]; try done.
  - destruct (mutex p) eqn:Em; [| |]; try done; injection H as <-; simpl.
    + rewrite (lookup_update i Waiting), (live_insert_live i Waiting) by done. lia.
    + rewrite (live_insert_end i Waiting Dead (workers p)) by done. lia.
  - rewrite (busy_held _ _ _ _ _ Hok Ei eq_refl), Ei. destruct (queue p) as [|[u j] q] eqn:Eq.
    + destruct (senders p); [done|]. injection H as <-. simpl.
      rewrite (live_insert_end i Receiving Exited (workers p)) by done. lia.
    + injection H as <-. change (((u, j) :: q).*2) with (j :: q.*2). simpl.
      rewrite (busy_held _ _ _ _ _ Hok Ei eq_refl).
      rewrite (lookup_update i Receiving), (live_insert_live i Receiving) by done.
      destruct (run_job j (store p)) as [[r|] s']; lia.
  - rewrite (busy_held _ _ _ _ _ Hok Ei eq_refl), Ei. injection H as <-. simpl.
    rewrite (live_insert_live i (Running t (Return r))) by done. lia.
  - rewrite (busy_held _ _ _ _ _ Hok Ei eq_refl), Ei. injection H as <-. simpl.
    rewrite (live_insert_end i (Running t Crash) Dead (workers p)) by done. lia.
  - rewrite (busy_held _ _ _ _ _ Hok Ei eq_refl), Ei. injection H as <-. simpl.
    rewrite (busy_held _ _ _ _ _ Hok Ei eq_refl), (lookup_update i (Running t (Act f k))), (live_insert_live i (Running t (Act f k))) by done. simpl.
    lia.
Qed.

(** ** Progress *)

Lemma worker_steps_after s0 p p' : rtc worker_step p p' ->
  (exists done, after s0 done p) -> spawned p' = spawned p /\ exists done', after s0 done' p'.
Proof.
  induction 1 as [p|p1 p2 p3 [i Hi] _ IH]; [done|]. intros [d Hd].
  destruct (work_after _ _ _ _ _ Hd Hi) as [E Ha].
  destruct IH as [E' ?]; [destruct Ha as [?|[j ?]]; eauto|]. by rewrite E', E.
Qed.

Lemma worker_steps_bounded s0 k p p' : nsteps worker_step k p p' ->
  (exists done, after s0 done p) -> (k + measure p' <= measure p)%nat.
Proof.
  induction 1 as [p|k p1 p2 p3 [i Hi] _ IH]; [done|]. intros [d Hd].
  pose proof (work_measure _ _ _ _ _ Hd Hi). destruct (work_after _ _ _ _ _ Hd Hi) as [_ Ha].
  assert (k + measure p3 <= measure p2)%nat by (apply IH; destruct Ha as [?|[j ?]]; eauto). lia.
Qed.

Lemma blocked_or_step p : blocked p \/ exists p', worker_step p p'.
Proof.
  destruct (decide (Exists (fun i => is_Some (work i p)) (seq 0 (length (workers p))))) as [H|H].
  - right. apply Exists_exists in H as (i & _ & p' & Hp'). exists p'. by exists i.
  - left. intros i. destruct (work i p) as [p'|] eqn:E; [|done]. exfalso. apply H, Exists_exists. exists i.
    split; [|by eexists]. apply in_seq. unfold work in E.
    destruct (workers p !! i) eqn:Ei; [|done]. apply lookup_lt_Some in Ei. lia.
Qed.

Lemma blocked_reachable s0 n p : (measure p <= n)%nat -> (exists done, after s0 done p) ->
  exists p', rtc worker_step p p' /\ blocked p'.
Proof.
  revert p. induction n as [n IH] using lt_wf_ind. intros p Hn [d Hd].
  destruct (blocked_or_step p) as [?|[p' [i Hi]]]; [by exists p|].
  pose proof (work_measure _ _ _ _ _ Hd Hi). destruct (work_after _ _ _ _ _ Hd Hi) as [_ Ha].
  destruct (IH (measure p') ltac:(lia) p') as (q & Hq & Hb); [lia|destruct Ha as [?|[j ?]]; eauto|].
  exists q. split; [|done]. eapply rtc_l; [|done]. by exists i.
Qed.

Lemma exits_steps p p' : rtc worker_step p p' -> exits_ok p -> exits_ok p'.
Proof.
  induction 1 as [|p1 p2 p3 Hs _ IH]; [done|]. intros He. apply IH. eapply exits_step; [done|]. by apply step_work.
Qed.

Lemma assoc_number k rs t : assoc t (number k rs) = if (t <? k)%nat then None else rs !! (t - k)%nat.
Proof.
  revert k. induction rs as [|r rs IH]; intros k; simpl; [by destruct (_ <? _)%nat|].
  rewrite IH. destruct (Nat.eqb_spec t k) as [->|Hne].
  - rewrite Nat.ltb_irrefl, Nat.sub_diag. done.
  - destruct (Nat.ltb_spec t k), (Nat.ltb_spec t (S k)); try lia; try done.
    replace (t - k)%nat with (S (t - S k)) by lia. done.
Qed.

Lemma number_absent {A} k (l : list A) t : (t < k)%nat -> existsb (fun x => (t =? x.1)%nat) (number k l) = false.
Proof.
  revert k. induction l as [|x l IH]; intros k Hk; simpl; [done|].
  rewrite IH by lia. rewrite (proj2 (Nat.eqb_neq t k)) by lia. done.
Qed.

(** Jobs that come after the point a sequential run reaches do not change its
    values. *)
Lemma run_all_stop l j q s : completes l s -> (run_job j (run_all l s).2).1 = None ->
  (run_all (l ++ j :: q) s).1 = (run_all l s).1.
Proof.
  intros Hc Hj. rewrite run_all_app by done. simpl. destruct (run_job j _) as [[r|] s']; [done|]. simpl.
  by rewrite app_nil_r.
Qed.

Lemma no_runner t p (P : worker -> bool) :
  (forall w, P w = true -> runs t w = false) -> Forall (fun w => P w = true) (workers p) ->
  existsb (runs t) (workers p) = false.
Proof.
  intros HP Hw. induction Hw as [|w ws Hw' _ IH]; simpl; [done|]. by rewrite IH, HP by done.
Qed.

(** A pool whose workers can do nothing more has resolved every ticket, with
    the values of the sequential run. *)
Lemma blocked_resolved s0 done p t : after s0 done p -> exits_ok p -> blocked p -> (t < length (spawned p))%nat ->
  await p t = Resolved ((run_all (spawned p) s0).1 !! t).
Proof.
  intros (rest & Hsp & Hc & Ha & Hph) [HE HN] Hb Ht. unfold await. rewrite Ha, assoc_number. simpl.
  rewrite Nat.sub_0_r. unfold completes in Hc.
  destruct Hph as [Hm Hw Hq Hs|o Hm Hw Ho Hq Hs|o j q cur Hm Hw Ho Hr Hq Hrun|j q Hm Hw Hr Hq Hrun].
  - assert (rest = []) as Hrest.
    { destruct (workers p) as [|w ws] eqn:Ew.
      - by rewrite (HN eq_refl) in Hsp; destruct done.
      - assert (w = Exited) as ->.
        { apply Forall_inv in Hw. destruct w; try done. specialize (Hb 0). unfold work in Hb.
          by rewrite Ew, Hm in Hb. }
        destruct (HE ltac:(by left)) as [Hq' _]. rewrite Hq in Hq'. by destruct rest. }
    rewrite Hsp, Hrest, app_nil_r in *. destruct (lookup_lt_is_Some_2 (run_all done s0).1 t) as [r ->]; [lia|done].
  - assert (rest = []) as Hrest.
    { specialize (Hb o). unfold work in Hb. rewrite Hw, Hq in Hb. by destruct rest. }
    rewrite Hsp, Hrest, app_nil_r in *. destruct (lookup_lt_is_Some_2 (run_all done s0).1 t) as [r ->]; [lia|done].
  - specialize (Hb o). unfold work in Hb. rewrite Hw in Hb. by destruct cur.
  - assert (closed p = true) as ->.
    { unfold closed. apply forallb_forall. intros w Hin%list_elem_of_In.
      apply list_elem_of_lookup in Hin as [i Hi]. pose proof (proj1 (Forall_lookup _ _) Hw i w Hi).
      destruct w; try done. specialize (Hb i). unfold work in Hb. by rewrite Hi, Hm in Hb. }
    rewrite (no_runner t p ended) by (try done; by intros []). simpl.
    rewrite Hsp, Hr, run_all_stop by (try done; by rewrite Hrun). by destruct (_ !! t).
Qed.

(** In a state without further steps every ticket has the value of the
    sequential run. *)
Lemma pool_resolves n s0 p p' t : rtc step (new n s0) p -> rtc worker_step p p' -> blocked p' ->
  (t < length (spawned p))%nat -> await p' t = Resolved ((run_all (spawned p) s0).1 !! t).
Proof.
  intros Hr Hs Hb Ht. destruct (reachable_ok n s0 p Hr) as [He Hd].
  destruct (worker_steps_after s0 p p' Hs Hd) as [Es [d' Hd']].
  rewrite <- Es in *. eapply blocked_resolved; eauto using exits_steps.
Qed.

(** ** Properties *)

(** C17: whatever the interleaving of the workers, two jobs never run at the
    same time, and the pool is always where a single thread would be that runs
    the accepted jobs in the order of their submission: the jobs of a prefix
    have run to completion and their values were sent through the channels of
    their tickets, the job after them is in progress or has panicked, and the
    others are still queued in order. *)
Theorem pool_sequential n s0 p : rtc step (new n s0) p ->
  (forall i k t u j j', workers p !! i = Some (Running t j) -> workers p !! k = Some (Running u j') -> i = k)
  /\ exists done, after s0 done p.
Proof.
  intros Hr. destruct (reachable_ok n s0 p Hr) as [_ [d Hd]]. split; [|by exists d].
  intros i k t u j j' Hi Hk. pose proof (busy_held _ _ _ _ _ Hd Hi eq_refl) as E1.
  pose proof (busy_held _ _ _ _ _ Hd Hk eq_refl) as E2. congruence.
Qed.

(** C18: the workers make progress. From any reachable state they take at most
    [measure] steps before they are all blocked, they do reach such a state,
    and in every such state no ticket is left pending: the owner of ticket [t]
    gets the value of job [t] in the sequential run, or an error when that run
    panics at job [t] or before. *)
Theorem pool_live n s0 p : rtc step (new n s0) p ->
  (forall k p', nsteps worker_step k p p' -> (k <= measure p)%nat)
  /\ (exists p', rtc worker_step p p' /\ blocked p')
  /\ forall p' t, rtc worker_step p p' -> blocked p' -> (t < length (spawned p))%nat ->
       await p' t = Resolved ((run_all (spawned p) s0).1 !! t).
Proof.
  intros Hr. destruct (reachable_ok n s0 p Hr) as [He Hd]. split_and!.
  - intros k p' Hk. pose proof (worker_steps_bounded s0 k p p' Hk Hd). lia.
  - by eapply blocked_reachable.
  - intros p' t Hs Hb Ht. by eapply pool_resolves.
Qed.

(** A job that panics stops the pool for good: its mutex stays poisoned, no
    other job runs and no ticket is answered any more. *)
Theorem panic_stops_the_pool n s0 p p' : rtc step (new n s0) p -> mutex p = Poisoned -> rtc step p p' ->
  mutex p' = Poisoned /\ store p' = store p /\ answers p' = answers p.
Proof.
  intros Hr Hm Hs. apply reachable_ok in Hr as [_ Hd]. induction Hs as [|p1 p2 p3 Hst _ IH]; [done|].
  assert (mutex p2 = Poisoned /\ store p2 = store p1 /\ answers p2 = answers p1) as (Em & Es & Ea).
  { destruct Hst as [j t p2 _ Hj|p2 [i Hi]|]; [|destruct Hd as [d Hd]|done].
    - unfold spawn in Hj. destruct (closed p1); [done|]. by injection Hj as <- <-.
    - unfold work in Hi. destruct (workers p1 !! i) as [w|] eqn:Ei; [|done].
      destruct (ended w) eqn:Ew; [|by rewrite (busy_held _ _ _ _ _ Hd Ei Ew) in Hm].
      destruct w; try done. rewrite Hm in Hi. by injection Hi as <-. }
  destruct IH as (? & E1 & E2); [by destruct Hd as [d Hd]; eapply step_after|done|].
  by rewrite E1, E2.
Qed.

End Pool.

Arguments job : clear implicits.
Arguments ThreadPool : clear implicits.

(** ** Two workers and a counter *)

Definition add (n : nat) : job nat nat := Act (Nat.add n) (fun s => Return (n + s)%nat).

Definition crash : job nat nat := Act (Nat.mul 2) (fun _ => Crash).

(** Hands the jobs over and lets the workers move in the given order. *)
Definition submit (p : option (ThreadPool nat nat)) (l : list (job nat nat)) : option (ThreadPool nat nat) :=
  foldl (fun p j => p ← p; snd <$> spawn j p) p l.

Definition schedule (p : option (ThreadPool nat nat)) (l : list nat) : option (ThreadPool nat nat) :=
  foldl (fun p i => p ← p; work i p) p l.

Lemma stuck {A} (f : ThreadPool nat nat -> A -> option (ThreadPool nat nat)) l p :
  foldl (fun p x => p ← p; f p x) None l <> Some p.
Proof. by induction l. Qed.

Lemma submit_steps p0 p l p' :
  rtc step p0 p -> senders p = true -> submit (Some p) l = Some p' -> rtc step p0 p'.
Proof.
  revert p. induction l as [|j l IH]; intros p Hr Hs E; unfold submit in *; simpl in E; [by injection E as <-|].
  destruct (spawn j p) as [[t q]|] eqn:Ej; simpl in E; [|by apply stuck in E].
  apply (IH q); [|by unfold spawn in Ej; destruct (closed p); [|injection Ej as <- <-]|done].
  eapply rtc_r; [done|]. by eapply step_spawn.
Qed.

Lemma schedule_steps p l p' : schedule (Some p) l = Some p' -> rtc worker_step p p'.
Proof.
  revert p. induction l as [|i l IH]; intros p E; unfold schedule in *; simpl in E; [by injection E as <-|].
  destruct (work i p) as [q|] eqn:Eq; simpl in E; [|by apply stuck in E].
  eapply rtc_l; [by exists i|]. by apply IH.
Qed.

(** Two additions and a crash handed to two workers. *)
Definition pool0 : ThreadPool nat nat := new 2 5.
Definition pool1 : ThreadPool nat nat := default pool0 (submit (Some pool0) [add 1; add 2; crash]).
Definition pool2 : ThreadPool nat nat := default pool0 (schedule (Some pool1) [1; 1; 1]%nat).

Lemma pool2_reachable : rtc step pool0 pool2.
Proof.
  transitivity pool1.
  2: { apply (rtc_subrel worker_step); [exact step_work|]. apply (schedule_steps _ [1; 1; 1]%nat). vm_compute. reflexivity. }
  apply (submit_steps _ pool0 [add 1; add 2; crash]); [apply rtc_refl|reflexivity..].
Qed.

(** The pool in the middle of the first addition. *)
Lemma pool_sequential_witness :
  workers pool2 = [Waiting; Running 0 (Return 6)] /\ store pool2 = 6%nat /\ exists done, after 5%nat done pool2.
Proof.
  split; [reflexivity|]. split; [reflexivity|]. exact (proj2 (pool_sequential 2 5%nat pool2 pool2_reachable)).
Defined.

(** Both additions are answered, the crash is reported, and the pool is closed
    afterwards. *)
Definition pool3 : ThreadPool nat nat := default pool0 (schedule (Some pool2) [1; 0; 0; 0; 0; 1; 1; 1; 1; 0]%nat).

Lemma pool_live_witness :
  await pool3 0 = Resolved (Some 6%nat) /\ await pool3 1 = Resolved (Some 8%nat) /\ await pool3 2 = Resolved None.
Proof.
  assert (rtc worker_step pool2 pool3) as Hs.
  { apply (schedule_steps _ [1; 0; 0; 0; 0; 1; 1; 1; 1; 0]%nat). vm_compute. reflexivity. }
  assert (blocked pool3) as Hb by (intros [|[|i]]; vm_compute; reflexivity).
  split_and!; refine (proj2 (proj2 (pool_live 2 5%nat pool2 pool2_reachable)) pool3 _ Hs Hb _); simpl; lia.
Defined.

(** After the crash the pool of two workers accepts no job. *)
Example crash_closes_the_pool :
  workers pool3 = [Dead; Dead] /\ store pool3 = 16%nat /\ spawn (add 1) pool3 = None.
Proof. split_and!; reflexivity. Qed.
