(* ===== verification/Lua.v ===== *)
(** * Values of scripts (src/lua.rs)

    The Lua interpreter is a third-party library. This file models what the
    engine does with its values: a reply of a command becomes a Lua value, the
    value a script returns becomes a reply, and the arguments of a call are
    turned into the byte strings of a command. A table is the list of its
    pairs in the order [pairs()] visits them, which the interpreter chooses;
    tables are finite trees. *)

From S2P Require Import Prelude Bytes Text Error Float Protocol Context.

Local Open Scope Z_scope.

Inductive LuaValue :=
  | Nil
  | LBoolean (b : bool)
  | LInteger (n : Z)
  | LNumber (f : f64)
  | LString (s : bytes)
  | LTable (pairs : list (LuaValue * LuaValue))
  | LOther. (* functions, threads and userdata *)

Abbreviation table := (list (LuaValue * LuaValue)).

Definition absent (k : LuaValue) (t : table) : Prop := forall v, (k, v) ∉ t.

(** [Table::set] of the interpreter: an entry under a new integer key, where
    nil is no entry. Other keys may be refused or normalised. *)
Class LuaTables := {
  table_set : table -> LuaValue -> LuaValue -> outcome table;
  table_set_new t i v : absent (LInteger i) t -> v <> Nil ->
    exists t', table_set t (LInteger i) v = Ok t' /\ t' ≡ₚ (LInteger i, v) :: t;
  table_set_nil t i : absent (LInteger i) t -> table_set t (LInteger i) Nil = Ok t }.

Section Values.
Context {LT : LuaTables}.

Fixpoint lua_value_from_resp (value : RespValue) : outcome LuaValue :=
  let set_items := fix set_items (i : Z) (t : table) (items : list RespValue) {struct items} : outcome table :=
    match items with
    | [] => Ok t
    | item :: rest =>
        v ← lua_value_from_resp item;
        t ← table_set t (LInteger (i + 1)) v;
        set_items (i + 1) t rest
    end in
  let set_entries := fix set_entries (t : table) (map : list (RespValue * RespValue)) {struct map} : outcome table :=
    match map with
    | [] => Ok t
    | (k, v) :: rest =>
        k ← lua_value_from_resp k;
        v ← lua_value_from_resp v;
        t ← table_set t k v;
        set_entries t rest
    end in
  match value with
  | SimpleString s | RError s => Ok (LString s)
  | Integer n => Ok (LInteger n)
  | BulkString None => Ok Nil
  | BulkString (Some b) => Ok (LString b)
  | Null => Ok Nil
  | Boolean b => Ok (LBoolean b)
  | Double f => Ok (LNumber f)
  | Array items => t ← set_items 0 [] items; Ok (LTable t)
  | RMap map => t ← set_entries [] map; Ok (LTable t)
  | RSet items => t ← set_items 0 [] items; Ok (LTable t)
  end.

(** [arr.resize(n, RespValue::Null)] for a longer length, and the assignment
    [arr[i] = v]. *)
Definition put_at (arr : list RespValue) (idx : Z) (v : RespValue) : list RespValue :=
  let arr := if Z.of_nat (length arr) <? idx
             then arr ++ replicate (Z.to_nat idx - length arr) Null else arr in
  <[(Z.to_nat idx - 1)%nat := v]> arr.

(** One pair of a table: a positive integer key fills the array, any other
    pair goes to the map. *)
Definition place (conv : LuaValue -> RespValue) (acc : list (RespValue * RespValue) * list RespValue * Z)
    (kv : LuaValue * LuaValue) : list (RespValue * RespValue) * list RespValue * Z :=
  let '(map, arr, max_index) := acc in
  let '(k, v) := kv in
  match k with
  | LInteger idx => if 0 <? idx then (map, put_at arr idx (conv v), Z.max max_index idx)
                    else (map ++ [(conv k, conv v)], arr, max_index)
  | _ => (map ++ [(conv k, conv v)], arr, max_index)
  end.

Definition finish_table (acc : list (RespValue * RespValue) * list RespValue * Z) : RespValue :=
  let '(map, arr, max_index) := acc in
  if bool_decide (length map = 0%nat) && (0 <? max_index) then Array arr
  else if negb (bool_decide (length map = 0%nat)) then RMap map
  else Array [].

Fixpoint resp_value_from_lua (value : LuaValue) : RespValue :=
  match value with
  | Nil => Null
  | LBoolean b => Boolean b
  | LInteger n => Integer n
  | LNumber n => Double n
  | LString s => BulkString (Some (from_utf8_lossy s))
  | LTable t =>
      finish_table (foldl (place resp_value_from_lua) ([], [], 0) t)
  | LOther => Null
  end.

(** The arguments of [redis.call] and [redis.pcall]: the first is the name of
    the command, the text of a refusal comes from the interpreter. *)
Definition lua_arg (v : LuaValue) : bytes :=
  match v with
  | LString s => from_utf8_lossy s
  | LInteger n => show_Z n
  | LNumber n => show_f64 n
  | _ => []
  end.

Definition redis_params (debug : LuaValue -> bytes) (params : list LuaValue) : outcome (bytes * list bytes) :=
  match params with
  | LString s :: rest => Ok (from_utf8_lossy s, map lua_arg rest)
  | other :: _ => Err (Command (bs "Lua redis() command argument must be a string, got " ++ debug other))
  | [] => Err (WrongArgCount (bs "redis"))
  end.

(** ** What a reply becomes on its way through a script *)

(** The array without the nulls at its end. *)
Fixpoint trim (l : list RespValue) : list RespValue :=
  match l with
  | [] => []
  | v :: rest => match v, trim rest with
                 | Null, [] => []
                 | _, rest' => v :: rest'
                 end
  end.

(** The reply of a script that returns the result of [redis.call] as it is. *)
Fixpoint through_lua (v : RespValue) : RespValue :=
  match v with
  | SimpleString s | RError s => BulkString (Some (from_utf8_lossy s))
  | BulkString None => Null
  | BulkString (Some b) => BulkString (Some (from_utf8_lossy b))
  | Array items | RSet items => Array (trim (map through_lua items))
  | v => v
  end.

(** No map inside: the commands reply none. *)
Fixpoint no_map (v : RespValue) : bool :=
  match v with
  | Array items | RSet items => forallb no_map items
  | RMap _ => false
  | _ => true
  end.

(** ** The round trip *)

Fixpoint set_items_from (i : Z) (t : table) (items : list RespValue) : outcome table :=
  match items with
  | [] => Ok t
  | item :: rest =>
      v ← lua_value_from_resp item;
      t ← table_set t (LInteger (i + 1)) v;
      set_items_from (i + 1) t rest
  end.

Lemma lua_value_from_array items :
  lua_value_from_resp (Array items) = (t ← set_items_from 0 [] items; Ok (LTable t)).
Proof. reflexivity. Qed.

Lemma lua_value_from_set items : lua_value_from_resp (RSet items) = lua_value_from_resp (Array items).
Proof. reflexivity. Qed.

(** The array as a total function. *)
Definition slot (l : list RespValue) (i : nat) : RespValue := default Null (l !! i).

#[global] Instance null_decision v : Decision (v = Null).
Proof. destruct v; first [by left|by right]. Defined.

Definition trimmed (l : list RespValue) : Prop := last l <> Some Null.

Lemma slot_app_null l n i : slot (l ++ replicate n Null) i = slot l i.
Proof.
  unfold slot. destruct (decide (i < length l)%nat) as [H|H].
  - by rewrite lookup_app_l.
  - rewrite lookup_app_r by lia. rewrite (lookup_ge_None_2 l i) by lia.
    destruct (replicate n Null !! (i - length l)%nat) eqn:E; [|done]. by apply lookup_replicate in E as [-> _].
Qed.

Lemma trimmed_ext a b : trimmed a -> trimmed b -> (forall i, slot a i = slot b i) -> a = b.
Proof.
  assert (forall a b, trimmed b -> (forall i, slot a i = slot b i) -> (length b <= length a)%nat) as Hle.
  { clear. intros a b Hb H. destruct (decide (length b <= length a)%nat); [done|]. exfalso. apply Hb.
    rewrite last_lookup. specialize (H (pred (length b))). unfold slot in H.
    rewrite (lookup_ge_None_2 a) in H by lia.
    destruct (lookup_lt_is_Some_2 b (pred (length b))) as [x Hx]; [lia|]. rewrite Hx in *. simpl in H. congruence. }
  intros Ha Hb H. assert (length a = length b) as Hlen.
  { pose proof (Hle a b Hb H). pose proof (Hle b a Ha (fun i => eq_sym (H i))). lia. }
  apply list_eq. intros i. specialize (H i). unfold slot in H.
  destruct (a !! i) as [x|] eqn:E1, (b !! i) as [y|] eqn:E2; simpl in H; try congruence.
  - apply lookup_lt_Some in E1. apply lookup_ge_None in E2. lia.
  - apply lookup_lt_Some in E2. apply lookup_ge_None in E1. lia.
Qed.

Lemma slot_put_at l idx v i : 0 < idx ->
  slot (put_at l idx v) i = if (i =? Z.to_nat idx - 1)%nat then v else slot l i.
Proof.
  intros Hi. unfold put_at. set (l' := if Z.of_nat (length l) <? idx then l ++ replicate (Z.to_nat idx - length l) Null else l).
  assert (forall i, slot l' i = slot l i) as Hs.
  { intros k. subst l'. destruct (_ <? _); [apply slot_app_null|done]. }
  assert (Z.to_nat idx <= length l')%nat as Hl.
  { subst l'. destruct (Z.ltb_spec (Z.of_nat (length l)) idx); [rewrite length_app, length_replicate|]; lia. }
  destruct (Nat.eqb_spec i (Z.to_nat idx - 1)) as [->|Hne].
  - unfold slot. rewrite list_lookup_insert_eq by lia. done.
  - rewrite <- Hs. unfold slot. by rewrite list_lookup_insert_ne by done.
Qed.

Lemma trimmed_put_at l idx v : 0 < idx -> v <> Null -> trimmed l -> trimmed (put_at l idx v).
Proof.
  intros Hi Hv Hl. unfold trimmed, put_at in *. destruct (Z.ltb_spec (Z.of_nat (length l)) idx) as [Hlt|Hge].
  - rewrite last_lookup, length_insert, length_app, length_replicate.
    replace (pred _) with (Z.to_nat idx - 1)%nat by lia.
    rewrite list_lookup_insert_eq by (rewrite length_app, length_replicate; lia). congruence.
  - rewrite last_lookup, length_insert. destruct (decide (pred (length l) = (Z.to_nat idx - 1)%nat)) as [E|E].
    + rewrite E, list_lookup_insert_eq by lia. congruence.
    + rewrite list_lookup_insert_ne by lia. by rewrite <- last_lookup.
Qed.

(** The pairs an array is stored as: positive keys, each once, no null. *)
Definition array_pairs (t : table) : Prop :=
  NoDup t.*1 /\ Forall (fun kv => exists i, kv.1 = LInteger i /\ 0 < i /\ resp_value_from_lua kv.2 <> Null) t.

Lemma place_array t map arr m :
  array_pairs t -> trimmed arr -> (m = 0 <-> arr = []) -> 0 <= m ->
  (forall i v, (LInteger i, v) ∈ t -> 0 < i -> slot arr (Z.to_nat i - 1) = Null) ->
  exists arr' m', foldl (place resp_value_from_lua) (map, arr, m) t = (map, arr', m')
    /\ trimmed arr' /\ (m' = 0 <-> arr' = []) /\ 0 <= m'
    /\ (forall i v, (LInteger i, v) ∈ t -> slot arr' (Z.to_nat i - 1) = resp_value_from_lua v)
    /\ (forall i, absent (LInteger (Z.of_nat i + 1)) t -> slot arr' i = slot arr i).
Proof.
  revert arr m. induction t as [|[k v] t IH]; intros arr m [Hnd Hf] Htr Hm H0 Hfree.
  { exists arr, m. do 4 (split; [done|]). split; [by intros ? ? ?%not_elem_of_nil|done]. }
  apply Forall_cons in Hf as [(i & Ek & Hi & Hv) Hf]. simpl in Ek, Hv. subst k.
  rewrite fmap_cons in Hnd. apply NoDup_cons in Hnd as [Hnin Hnd]. simpl in Hnin.
  assert (absent (LInteger i) t) as Habs.
  { intros w Hw. apply Hnin. change (LInteger i) with (fst (LInteger i, w)). by apply list_elem_of_fmap_2. }
  cbn [foldl place]. rewrite (proj2 (Z.ltb_lt 0 i)) by done.
  destruct (IH (put_at arr i (resp_value_from_lua v)) (Z.max m i)) as (arr' & m' & E & Htr' & Hm' & H0' & Hin & Hout).
  - done.
  - by apply trimmed_put_at.
  - split; [lia|]. intros E. exfalso. apply (f_equal (fun l => slot l (Z.to_nat i - 1))) in E.
    rewrite slot_put_at, Nat.eqb_refl in E by done. done.
  - lia.
  - intros i' v' Hin' Hi'. rewrite slot_put_at by done.
    destruct (Nat.eqb_spec (Z.to_nat i' - 1) (Z.to_nat i - 1)) as [Heq|Hne].
    + assert (i' = i) as -> by lia. by apply Habs in Hin'.
    + apply (Hfree i' v'); [by right|done].
  - exists arr', m'. do 4 (split; [done|]). split.
    + intros i' v' [[= -> ->]|Hin']%elem_of_cons; [|by apply Hin].
      rewrite Hout, slot_put_at, Nat.eqb_refl; [done|done|].
      by replace (Z.of_nat (Z.to_nat i - 1) + 1) with i by lia.
    + intros i' Hab. rewrite Hout by (intros w Hw; apply (Hab w); by right).
      rewrite slot_put_at by done. destruct (Nat.eqb_spec i' (Z.to_nat i - 1)) as [->|]; [|done].
      exfalso. apply (Hab v). replace (Z.of_nat (Z.to_nat i - 1) + 1) with i by lia. left.
Qed.

Lemma slot_trim l i : slot (trim l) i = slot l i.
Proof.
  revert i. induction l as [|v l IH]; intros i; simpl; [done|].
  destruct v, (trim l) eqn:E; destruct i as [|i]; try done; try (by specialize (IH i)).
Qed.

Lemma trim_trimmed l : trimmed (trim l).
Proof.
  unfold trimmed. induction l as [|v l IH]; simpl; [done|].
  destruct v; destruct (trim l) eqn:E; try done.
Qed.

(** A value that survives the way to the interpreter and back. *)
Definition survives (x : RespValue) : Prop :=
  exists v, lua_value_from_resp x = Ok v /\ resp_value_from_lua v = through_lua x
            /\ (v = Nil <-> through_lua x = Null).

Definition keys_upto (n : Z) (t : table) : Prop := forall i v, (LInteger i, v) ∈ t -> i <= n.

Lemma set_items_pairs items i t :
  Forall survives items -> 0 <= i -> array_pairs t -> keys_upto i t ->
  exists t', set_items_from i t items = Ok t' /\ array_pairs t'
    /\ forall k v, (LInteger k, v) ∈ t' <->
         (LInteger k, v) ∈ t
         \/ exists n x, items !! n = Some x /\ k = i + 1 + Z.of_nat n /\ lua_value_from_resp x = Ok v /\ v <> Nil.
Proof.
  revert i t. induction items as [|x items IH]; intros i t Hs Hi [Hnd Hf] Hup.
  { exists t. do 2 (split; [done|]). intros k v. split; [by left|]. intros [?|(n & x & E & _)]; [done|].
    by rewrite lookup_nil in E. }
  apply Forall_cons in Hs as [(v & Ev & Er & En) Hs]. simpl. rewrite Ev. simpl.
  assert (absent (LInteger (i + 1)) t) as Habs by (intros w Hw%Hup; lia).
  assert (forall t', array_pairs t' -> keys_upto (i + 1) t' ->
    (forall k w, (LInteger k, w) ∈ t' <-> (LInteger k, w) ∈ t \/ (k = i + 1 /\ w = v /\ v <> Nil)) ->
    exists t'', set_items_from (i + 1) t' items = Ok t'' /\ array_pairs t''
    /\ forall k w, (LInteger k, w) ∈ t'' <->
         (LInteger k, w) ∈ t \/ exists n y, (x :: items) !! n = Some y /\ k = i + 1 + Z.of_nat n
                                            /\ lua_value_from_resp y = Ok w /\ w <> Nil) as Step.
  { intros t' Ht' Hup' Hmem. destruct (IH (i + 1) t' Hs ltac:(lia) Ht' Hup') as (t'' & E & Ha & Hm).
    exists t''. do 2 (split; [done|]). intros k w. rewrite Hm, Hmem. split.
    - intros [[?|(-> & -> & ?)]|(n & y & Hn & -> & Hy & Hw)]; [by left|right|right].
      + exists 0%nat, x. split; [done|]. split; [lia|]. done.
      + exists (S n), y. split; [done|]. split; [lia|]. done.
    - intros [?|([|n] & y & Hn & Hk & Hy & Hw)]; [by left; left|left; right|right].
      + injection Hn as <-. rewrite Ev in Hy. injection Hy as <-. split; [lia|done].
      + exists n, y. split; [done|]. split; [lia|done]. }
  destruct (decide (through_lua x = Null)) as [Hn|Hn].
  - apply En in Hn. subst v. rewrite table_set_nil by done. simpl. apply Step; [done| |].
    + intros k w Hk%Hup. lia.
    + intros k w. split; [by left|]. by intros [?|(_ & _ & ?)].
  - assert (v <> Nil) as Hv by (by intros ?%En).
    destruct (table_set_new t (i + 1) v Habs Hv) as (t' & Et & Hp). rewrite Et. simpl.
    assert (forall k w, (LInteger k, w) ∈ t' <-> (LInteger k, w) ∈ t \/ (k = i + 1 /\ w = v /\ v <> Nil)) as Hmem.
    { intros k w. rewrite Hp, elem_of_cons. split; [intros [[= -> ->]|?]; auto|intros [?|(-> & -> & _)]; auto]. }
    apply Step; [|intros k w [Hk%Hup|(-> & _)]%Hmem; lia|done].
    split; [|rewrite Hp; constructor; [exists (i + 1); simpl; split; [done|]; split; [lia|by rewrite Er]|done]].
    rewrite Hp. simpl. apply NoDup_cons. split; [|done].
    intros [[k w] [Ek Hin]]%list_elem_of_fmap. simpl in Ek. subst k. by apply (Habs w).
Qed.

Lemma survives_array items : Forall survives items -> survives (Array items).
Proof.
  intros Hs. destruct (set_items_pairs items 0 [] Hs) as (t & E & Ha & Hm); [lia| |by intros ? ? ?%not_elem_of_nil|].
  { split; [apply NoDup_nil_2|apply Forall_nil_2]. }
  exists (LTable t). rewrite lua_value_from_array, E. split; [done|]. split; [|done].
  destruct (place_array t [] [] 0 Ha) as (arr & m & Ef & Htr & Hm0 & H0 & Hin & Hout); [done|done|lia|done|].
  simpl. rewrite Ef. simpl. assert (arr = trim (map through_lua items)) as Harr.
  { apply trimmed_ext; [done|apply trim_trimmed|]. intros n. rewrite slot_trim. unfold slot at 2.
    change (map through_lua items) with (through_lua <$> items). rewrite list_lookup_fmap.
    destruct (items !! n) as [x|] eqn:En; simpl.
    - destruct (proj1 (Forall_lookup _ _) Hs n x En) as (v & Ev & Er & Enil).
      destruct (decide (through_lua x = Null)) as [Hnull|Hnull].
      + rewrite Hout; [by rewrite Hnull|]. intros w Hw. apply Hm in Hw as [?%not_elem_of_nil|(k & y & Ek & Hk & Ey & Hy)]; [done|].
        assert (k = n) as -> by lia. rewrite En in Ek. injection Ek as <-. rewrite Ev in Ey. injection Ey as <-.
        by apply Hy, Enil.
      + rewrite <- Er, <- (Hin (Z.of_nat n + 1) v); [f_equal; lia|]. apply Hm. right. exists n, x.
        split; [done|]. split; [lia|]. split; [done|]. by intros ?%Enil.
    - rewrite Hout; [done|]. intros w Hw. apply Hm in Hw as [?%not_elem_of_nil|(k & y & Ek & Hk & _)]; [done|].
      assert (k = n) as -> by lia. congruence. }
  rewrite <- Harr. destruct (Z.ltb_spec 0 m) as [|]; [done|].
  assert (m = 0) as Em by lia. apply Hm0 in Em. by rewrite Em.
Qed.

(** C39: a reply without maps that a script passes on unchanged comes back as
    itself, with status lines and errors as bulk strings, invalid UTF-8
    replaced, sets as arrays, and the missing values at the end of an array
    dropped, whatever the order in which the interpreter visits its tables. *)
Theorem lua_roundtrip v : no_map v = true ->
  exists l, lua_value_from_resp v = Ok l /\ resp_value_from_lua l = through_lua v.
Proof.
  intros H. enough (survives v) as (l & ? & ? & _) by eauto. revert H.
  assert (forall items, Forall (fun x => no_map x = true -> survives x) items ->
          forallb no_map items = true -> survives (Array items)) as Harr.
  { intros items IH Hf. apply survives_array. apply Forall_lookup. intros n x Hx.
    apply (proj1 (Forall_lookup _ _) IH n x Hx). rewrite forallb_forall in Hf. apply Hf.
    apply list_elem_of_In. by eapply list_elem_of_lookup_2. }
  induction v as [s|s|n|b|items IH| |b|f|m IH|items IH] using RespValue_nested_ind; intros H; try by apply Harr.
  1-3, 5-7: eexists; split; [reflexivity|]; split; [reflexivity|by split].
  - destruct b as [b|]; eexists; (split; [reflexivity|]); (split; [reflexivity|by split]).
  - done.
Qed.

End Values.

(** ** A concrete table *)

(** Entries in the order of insertion; other keys are refused. *)
Definition list_table_set (t : table) (k v : LuaValue) : outcome table :=
  match k, v with
  | LInteger _, Nil => Ok t
  | LInteger _, _ => Ok (t ++ [(k, v)])
  | _, _ => Err (Error.Lua (bs "unsupported key"))
  end.

#[export] Instance list_tables : LuaTables.
Proof.
  refine {| table_set := list_table_set |}.
  - intros t i v _ Hv. exists (t ++ [(LInteger i, v)]). split; [by destruct v|].
    by rewrite (comm (++)).
  - done.
Defined.

(** The reply of MGET for a present, a missing and a present key, and one that
    ends with missing keys. *)
Lemma lua_roundtrip_witness :
  exists l, lua_value_from_resp (Array [bulk (bs "a"); nil_reply; bulk (bs "b"); nil_reply]) = Ok l
    /\ resp_value_from_lua l = Array [bulk (bs "a"); Null; bulk (bs "b")].
Proof. exact (lua_roundtrip (Array [bulk (bs "a"); nil_reply; bulk (bs "b"); nil_reply]) eq_refl). Defined.
