(* ===== verification/Readers.v ===== *)
(** * The commands that only read

    One lemma per command: whatever its arguments and its outcome, errors and
    panics included, the command leaves the database as it is. *)

From S2P Require Import Prelude Bytes Text Error Types Encoding Backend Storage Float Protocol Context Paging StringCmd HashCmd ListCmd SetCmd BitmapCmd ZSetCmd StreamCmd Admin.

Local Open Scope Z_scope.

Section Readers.
Context {DB : Type} {RDB : RocksDB DB}.
Implicit Types (ctx : CommandContext) (args : list bytes).

(** ** Metadata and helpers *)

Lemma ro_read_string ctx k : readonly (read_string ctx k : M DB _).
Proof. unfold read_string. ro. Qed.
Lemma ro_read_expire ctx k : readonly (read_expire ctx k : M DB _).
Proof. unfold read_expire. ro. Qed.
Lemma ro_hash_parse_usize s : readonly (HashCmd.parse_usize s : M DB _).
Proof. unfold HashCmd.parse_usize. ro. Qed.
Lemma ro_load_list_meta ctx k : readonly (load_list_meta ctx k : M DB _).
Proof. unfold load_list_meta. ro. Qed.
Lemma ro_parse_offset s : readonly (parse_offset s : M DB _).
Proof. unfold parse_offset. ro. Qed.
Lemma ro_read_bitmap_meta ctx k : readonly (read_bitmap_meta ctx k : M DB _).
Proof. unfold read_bitmap_meta. ro. Qed.
Lemma ro_read_fragment ctx m k i : readonly (read_fragment ctx m k i : M DB _).
Proof. unfold read_fragment. ro. Qed.
Lemma ro_normalize_index ctx i n : readonly (BitmapCmd.normalize_index ctx i n : M DB _).
Proof. unfold BitmapCmd.normalize_index. ro. Qed.
Lemma ro_read_zset_meta ctx k : readonly (read_zset_meta ctx k : M DB _).
Proof. unfold read_zset_meta, load_meta. ro. Qed.
Lemma ro_stored_score s : readonly (stored_score s : M DB _).
Proof. unfold stored_score. ro. Qed.
Lemma ro_read_stream_meta ctx k : readonly (read_stream_meta ctx k : M DB _).
Proof. unfold read_stream_meta. ro. Qed.

Hint Resolve ro_read_string ro_read_expire ro_read_hash_meta ro_hash_parse_usize ro_load_list_meta
  ro_read_set_metadata ro_parse_offset ro_read_bitmap_meta ro_read_fragment ro_normalize_index
  ro_read_zset_meta ro_stored_score ro_read_stream_meta ro_in_all ro_in_any ro_unwrap_or : ro.

(** ** Loops *)

Lemma ro_page_loop_from {A X} fuel (page : bytes -> M DB (list X * option bytes)) body start (a : A) :
  (forall s, readonly (page s)) -> readonly (page_loop_from fuel page body start a).
Proof.
  intros Hp. revert start a. induction fuel as [|fuel IH]; intros start a; simpl; ro.
Qed.

Lemma ro_for_members {A} ctx k w (body : A -> bytes -> M DB A) a :
  (forall a x, readonly (body a x)) -> readonly (for_members ctx k w body a).
Proof.
  intros Hb. unfold for_members. apply readonly_with_state. intros d. generalize (S (length (db_seek d CF_SUBKEY
    (sub_key ctx k w [])))). intros fuel. generalize (@nil byte). intros start. revert start a.
  induction fuel as [|fuel IH]; intros start a; simpl; unfold iter_members_page; ro.
Qed.

Lemma ro_score_loop {A X} ctx k w (page : bytes -> M DB (list X * option bytes)) body start (a : A) :
  (forall s, readonly (page s)) -> readonly (score_loop ctx k w page body start a).
Proof. intros Hp. apply readonly_with_state. intros d. by apply ro_page_loop_from. Qed.

Lemma ro_iter_score_page ctx k w s : readonly (iter_score_page ctx k w s : M DB _).
Proof. unfold iter_score_page. ro. Qed.
Lemma ro_iter_score_page_reverse ctx k w s : readonly (iter_score_page_reverse ctx k w s : M DB _).
Proof. unfold iter_score_page_reverse. ro. Qed.

Lemma ro_entry_loop {A} ctx k w body (a : A) : readonly (entry_loop ctx k w body a : M DB _).
Proof.
  apply readonly_with_state. intros d. apply ro_page_loop_from. intros s. unfold iter_entries_page. ro.
Qed.

Lemma ro_load_members ctx order k m : readonly (load_members ctx order k m : M DB _).
Proof. unfold load_members, prefix_scan. ro. Qed.
Lemma ro_collect_metas ctx ms ks : readonly (collect_metas ctx ms ks : M DB _).
Proof. revert ms. induction ks; intros ms; simpl; ro. Qed.
Lemma ro_collect_others ctx ms ks : readonly (collect_others ctx ms ks : M DB _).
Proof. revert ms. induction ks; intros ms; simpl; ro. Qed.
Lemma ro_bitcount_fragment ctx m k s e n i : readonly (bitcount_fragment ctx m k s e n i : M DB _).
Proof. unfold bitcount_fragment. ro. Qed.
Lemma ro_xread_stream ctx acc kid : readonly (xread_stream ctx acc kid : M DB _).
Proof. unfold xread_stream. ro. apply ro_entry_loop. Qed.

Hint Resolve ro_for_members ro_score_loop ro_iter_score_page ro_iter_score_page_reverse ro_entry_loop
  ro_load_members ro_collect_metas ro_collect_others ro_bitcount_fragment ro_xread_stream : ro.

(** ** Strings *)

Lemma ro_get_cmd ctx args : readonly (StringCmd.get ctx args : M DB _).
Proof. unfold StringCmd.get. ro. Qed.
Lemma ro_mget ctx args : readonly (mget ctx args : M DB _).
Proof. unfold mget. ro. Qed.
Lemma ro_exists ctx args : readonly (exists_ ctx args : M DB _).
Proof. unfold exists_. ro. Qed.
Lemma ro_ttl ctx args : readonly (ttl ctx args : M DB _).
Proof. unfold ttl. ro. Qed.
Lemma ro_pttl ctx args : readonly (pttl ctx args : M DB _).
Proof. unfold pttl. ro. Qed.

(** ** Hashes, lists, sets and bitmaps *)

Lemma ro_hget ctx args : readonly (hget ctx args : M DB _).
Proof. unfold hget. ro. Qed.
Lemma ro_hmget ctx args : readonly (hmget ctx args : M DB _).
Proof. unfold hmget. ro. Qed.
Lemma ro_hgetall ctx args : readonly (hgetall ctx args : M DB _).
Proof. unfold hgetall. ro. Qed.
Lemma ro_hexists ctx args : readonly (hexists ctx args : M DB _).
Proof. unfold hexists. ro. Qed.
Lemma ro_hlen ctx args : readonly (hlen ctx args : M DB _).
Proof. unfold hlen. ro. Qed.
Lemma ro_hscan ctx args : readonly (hscan ctx args : M DB _).
Proof. unfold hscan. ro. Qed.
Lemma ro_lrange ctx args : readonly (lrange ctx args : M DB _).
Proof. unfold lrange. ro. Qed.
Lemma ro_lindex ctx args : readonly (lindex ctx args : M DB _).
Proof. unfold lindex. ro. Qed.
Lemma ro_llen ctx args : readonly (llen ctx args : M DB _).
Proof. unfold llen. ro. Qed.
Lemma ro_sismember ctx args : readonly (sismember ctx args : M DB _).
Proof. unfold sismember. ro. Qed.
Lemma ro_smembers ctx order args : readonly (smembers ctx order args : M DB _).
Proof. unfold smembers. ro. Qed.
Lemma ro_scard ctx args : readonly (scard ctx args : M DB _).
Proof. unfold scard. ro. Qed.
Lemma ro_sinter ctx args : readonly (sinter ctx args : M DB _).
Proof. unfold sinter. ro. apply ro_for_members. ro. Qed.
Lemma ro_sdiff ctx args : readonly (sdiff ctx args : M DB _).
Proof. unfold sdiff. ro. apply ro_for_members. ro. Qed.
Lemma ro_sunion ctx args : readonly (sunion ctx args : M DB _).
Proof. unfold sunion. ro. apply ro_for_members. unfold sunion_member. ro. Qed.
Lemma ro_getbit ctx args : readonly (getbit ctx args : M DB _).
Proof. unfold getbit. ro. Qed.
Lemma ro_bitcount ctx args : readonly (bitcount ctx args : M DB _).
Proof. unfold bitcount. ro. Qed.

(** ** Sorted sets and streams *)

Lemma ro_rank_page ctx k w reverse s : readonly (rank_page ctx k w reverse s : M DB _).
Proof. unfold rank_page. ro. Qed.
Hint Resolve ro_rank_page : ro.

Lemma ro_rank_range ctx n i j : readonly (ZSetCmd.rank_range ctx n i j : M DB _).
Proof. unfold ZSetCmd.rank_range, ZSetCmd.normalize_index. ro. Qed.
Lemma ro_collect_rank_range_items ctx k w i n reverse :
  readonly (collect_rank_range_items ctx k w i n reverse : M DB _).
Proof. unfold collect_rank_range_items. ro. Qed.
Hint Resolve ro_rank_range ro_collect_rank_range_items : ro.

Lemma ro_zrange_gen ctx name reverse args : readonly (zrange_gen ctx name reverse args : M DB _).
Proof. unfold zrange_gen. ro. Qed.
Lemma ro_zrangebyscore ctx args : readonly (zrangebyscore ctx args : M DB _).
Proof. unfold zrangebyscore. ro. Qed.
Lemma ro_zrevrangebyscore ctx args : readonly (zrevrangebyscore ctx args : M DB _).
Proof. unfold zrevrangebyscore. ro. Qed.
Lemma ro_zrank_gen ctx name reverse args : readonly (zrank_gen ctx name reverse args : M DB _).
Proof. unfold zrank_gen. ro. Qed.
Lemma ro_zscore ctx args : readonly (zscore ctx args : M DB _).
Proof. unfold zscore. ro. Qed.
Lemma ro_zcard ctx args : readonly (zcard ctx args : M DB _).
Proof. unfold zcard. ro. Qed.
Lemma ro_xlen ctx args : readonly (xlen ctx args : M DB _).
Proof. unfold xlen. ro. Qed.
Lemma ro_xrange ctx args : readonly (xrange ctx args : M DB _).
Proof. unfold xrange. ro. Qed.
Lemma ro_xread ctx args : readonly (xread ctx args : M DB _).
Proof. unfold xread. ro. Qed.
Lemma ro_dbsize ctx args : readonly (dbsize ctx args : M DB _).
Proof. unfold dbsize. ro. Qed.

End Readers.

#[export] Hint Resolve ro_get_cmd ro_mget ro_exists ro_ttl ro_pttl ro_hget ro_hmget ro_hgetall ro_hexists
  ro_hlen ro_hscan ro_lrange ro_lindex ro_llen ro_sismember ro_smembers ro_scard ro_sinter ro_sdiff ro_sunion
  ro_getbit ro_bitcount ro_rank_page ro_rank_range ro_collect_rank_range_items ro_zrange_gen ro_zrangebyscore
  ro_zrevrangebyscore ro_zrank_gen ro_zscore ro_zcard ro_xlen ro_xrange ro_xread ro_dbsize : ro.
