(* ===== verification/Dispatch.v ===== *)
(** * The command table (src/cmd/mod.rs, src/cmd/lua.rs, src/lua.rs)

    The state all connections share, the table of commands with its dispatch,
    and the commands EVAL and EVALSHA, whose scripts call back into the table.
    The interpreter is a parameter: a machine that runs until it finishes,
    fails, or calls [redis.call] or [redis.pcall]. Scripts may loop or call
    EVAL again, so dispatch takes fuel; every other command needs one unit. *)

From S2P Require Import Prelude Bytes Text Error Types Encoding Backend Storage Float Protocol Context Keyspace StringCmd HashCmd ListCmd SetCmd BitmapCmd ZSetCmd StreamCmd PubSub Cluster Config Admin Lua Readers.

Local Open Scope Z_scope.

(** What a connection adds to the shared state: its id, which is also the
    mailbox of its messages, and the namespace it was accepted under. *)
Record Client := mkClient { client_id : Z; client_namespace : bytes }.

(** What the interpreter does next: the script ends with a value or an error,
    or calls [redis.call] ([protected] is false) or [redis.pcall]. [handle] is
    what the global [_KVDB_CTX] yields at that moment. *)
Inductive lua_event (L : Type) :=
  | Finished (v : LuaValue) (l : L)
  | Failed (msg : bytes) (l : L)
  | RedisCall (protected : bool) (params : list LuaValue) (handle : outcome Client) (l : L).
Arguments Finished {L}.
Arguments Failed {L}.
Arguments RedisCall {L}.

Inductive call_result := Value (v : LuaValue) | RuntimeError (msg : bytes).

Class LuaVM (L : Type) := {
  (** the globals [_KVDB_CTX], [KEYS] and [ARGV] are set and the script loaded *)
  lua_start : L -> Client -> bytes -> list bytes -> list bytes -> L;
  lua_next : L -> lua_event L;
  lua_resume : L -> call_result -> L }.

(** Library functions, the iteration orders of hash tables, and the build. *)
Class Externals := {
  member_order : list bytes -> list bytes;
  score_order : list (bytes * f64) -> list (bytes * f64);
  channel_order : list bytes -> list bytes;
  node_order : list ClusterNode -> list ClusterNode;
  crc16_xmodem : bytes -> Z;
  sha1_digest : bytes -> bytes;
  debug_value : LuaValue -> bytes;
  overflow_checks : bool;
  resp_value_size : Z }.

Section Dispatch.
Context {DB : Type} {RDB : RocksDB DB} {L : Type} {VM : LuaVM L} {LT : LuaTables} {X : Externals}.

(** The parts behind the [Arc]s of [CommandContext], and the time and the
    random number the next command reads. *)
Record Shared := mkShared {
  sh_storage : DB; sh_pubsub : PubSubState; sh_replication : ReplicationState;
  sh_cluster : ClusterState; sh_config : Config.Config; sh_lua : L; sh_scripts : gmap bytes bytes;
  sh_clock : Z; sh_random : Z }.

Definition set_storage (d : DB) (s : Shared) : Shared :=
  mkShared d (sh_pubsub s) (sh_replication s) (sh_cluster s) (sh_config s) (sh_lua s) (sh_scripts s)
    (sh_clock s) (sh_random s).
Definition set_pubsub (p : PubSubState) (s : Shared) : Shared :=
  mkShared (sh_storage s) p (sh_replication s) (sh_cluster s) (sh_config s) (sh_lua s) (sh_scripts s)
    (sh_clock s) (sh_random s).
Definition set_replication (r : ReplicationState) (s : Shared) : Shared :=
  mkShared (sh_storage s) (sh_pubsub s) r (sh_cluster s) (sh_config s) (sh_lua s) (sh_scripts s)
    (sh_clock s) (sh_random s).
Definition set_cluster (c : ClusterState) (s : Shared) : Shared :=
  mkShared (sh_storage s) (sh_pubsub s) (sh_replication s) c (sh_config s) (sh_lua s) (sh_scripts s)
    (sh_clock s) (sh_random s).
Definition set_engine (l : L) (scripts : gmap bytes bytes) (s : Shared) : Shared :=
  mkShared (sh_storage s) (sh_pubsub s) (sh_replication s) (sh_cluster s) (sh_config s) l scripts
    (sh_clock s) (sh_random s).
Definition set_lua (l : L) (s : Shared) : Shared := set_engine l (sh_scripts s) s.

(** [Server::bind]: what the connections of a new server share. *)
Definition server_bind (config : Config.Config) (storage : DB) (lua : L) (clock random : Z) : Shared :=
  mkShared storage hub_start replication_new cluster_new config lua ∅ clock random.

Definition command_context (cl : Client) (s : Shared) : CommandContext :=
  mkContext (client_namespace cl) (sh_clock s) (sh_random s) overflow_checks resp_value_size.

Abbreviation CommandFn := (Client -> list bytes -> M Shared RespValue).

(** A computation on one part of the state. *)
Definition on_part {P A} (part : Shared -> P) (set : P -> Shared -> Shared) (m : M P A) : M Shared A := fun s =>
  let '(r, p) := m (part s) in (r, set p s).

Definition on_storage (f : CommandContext -> list bytes -> M DB RespValue) : CommandFn := fun cl args s =>
  on_part sh_storage set_storage (f (command_context cl s) args) s.

(** ** Scripts *)

(** Two hexadecimal digits per byte of the digest. *)
Definition sha1_hex (script : bytes) : bytes := concat (map hex_byte (sha1_digest script)).

(** The table [redis.pcall] returns for an error. *)
Definition err_table (e : KvdbError) : LuaValue :=
  LTable [(LString (bs "err"), LString (error_to_string e))].

Section Script.
Variable dispatch : Client -> bytes -> list bytes -> M Shared RespValue.

Definition exec_redis_command (params : list LuaValue) (handle : outcome Client) : M Shared LuaValue :=
  '(cmd, args) ← lift (redis_params debug_value params);
  cl ← lift handle;
  reply ← dispatch cl cmd args;
  lift (lua_value_from_resp reply).

(** The interpreter runs; [redis.call] turns an error into an error of the
    script, [redis.pcall] into a table. *)
Fixpoint run_vm (fuel : nat) : M Shared LuaValue :=
  match fuel with
  | O => out_of_fuel
  | S fuel =>
      with_state (fun s =>
        match lua_next (sh_lua s) with
        | Finished v l => _ ← modify (set_lua l); mret v
        | Failed msg l => _ ← modify (set_lua l); throw (Error.Lua msg)
        | RedisCall protected params handle l => fun _ =>
            match exec_redis_command params handle (set_lua l s) with
            | (Ok v, s) => run_vm fuel (set_lua (lua_resume (sh_lua s) (Value v)) s)
            | (Err e, s) =>
                run_vm fuel (set_lua (lua_resume (sh_lua s)
                  (if protected then Value (err_table e) else RuntimeError (error_to_string e))) s)
            | (Panic, s) => (Panic, s)
            | (OutOfFuel, s) => (OutOfFuel, s)
            end
        end)
  end.

Definition run_script (fuel : nat) (cl : Client) (script : bytes) (keys args : list bytes) : M Shared RespValue :=
  _ ← modify (fun s => set_lua (lua_start (sh_lua s) cl script (map from_utf8_lossy keys) (map from_utf8_lossy args)) s);
  v ← run_vm fuel;
  mret (resp_value_from_lua v).

Definition engine_eval (fuel : nat) (cl : Client) (script : bytes) (keys args : list bytes) : M Shared RespValue :=
  _ ← modify (fun s => set_engine (sh_lua s) (<[sha1_hex script := script]> (sh_scripts s)) s);
  run_script fuel cl script keys args.

Definition engine_evalsha (fuel : nat) (cl : Client) (sha1 : bytes) (keys args : list bytes) : M Shared RespValue :=
  script ← gets (fun s => sh_scripts s !! sha1);
  match script with
  | Some script => run_script fuel cl script keys args
  | None => throw (Command (bs "NOSCRIPT No matching script. Please use EVAL."))
  end.

Definition parse_numkeys (data : bytes) : outcome Z :=
  ok_or (parse_text parse_u64 data) (Command (bs "numkeys must be an integer")).

(** The keys and the arguments: [args[2..2 + numkeys]] and the rest. *)
Definition split_keys (name : string) (args : list bytes) : M Shared (bytes * list bytes * list bytes) :=
  _ ← expect_min_arg_count name args 2;
  a0 ← index args 0;
  a1 ← index args 1;
  numkeys ← lift (parse_numkeys a1);
  stop ← arith_u64 overflow_checks (2 + numkeys);
  if Z.of_nat (length args) <? stop then throw (WrongArgCount (bs name))
  else if stop <? 2 then panic
  else mret (from_utf8_lossy a0, take (Z.to_nat numkeys) (drop 2 args), drop (Z.to_nat stop) args).

Definition eval (fuel : nat) : CommandFn := fun cl args =>
  '(script, keys, argv) ← split_keys "EVAL" args;
  engine_eval fuel cl script keys argv.

Definition evalsha (fuel : nat) : CommandFn := fun cl args =>
  '(sha1, keys, argv) ← split_keys "EVALSHA" args;
  engine_evalsha fuel cl sha1 keys argv.

End Script.

(** ** The table *)

Abbreviation CommandTable := (gmap bytes CommandFn).

Definition register (name : string) (func : CommandFn) (table : CommandTable) : CommandTable :=
  <[to_ascii_uppercase (bs name) := func]> table.

Definition register_all (l : list (string * CommandFn)) (table : CommandTable) : CommandTable :=
  foldl (fun t c => register c.1 c.2 t) table l.

Definition string_commands : list (string * CommandFn) :=
  [("GET", on_storage StringCmd.get); ("SET", on_storage StringCmd.set); ("MGET", on_storage mget);
   ("MSET", on_storage mset); ("DEL", on_storage del); ("EXISTS", on_storage exists_);
   ("INCR", on_storage StringCmd.incr); ("DECR", on_storage decr); ("APPEND", on_storage append);
   ("EXPIRE", on_storage expire); ("PEXPIRE", on_storage pexpire); ("TTL", on_storage ttl);
   ("PTTL", on_storage pttl); ("PERSIST", on_storage persist)]%string.

Definition admin_commands : list (string * CommandFn) :=
  [("PING", fun _ args => ping args); ("ECHO", fun _ args => echo args);
   ("INFO", fun _ _ s => on_part sh_replication set_replication (info (sh_config s)) s);
   ("DBSIZE", on_storage dbsize); ("FLUSHDB", on_storage flushdb);
   ("REPLICAOF", fun _ args => on_part sh_replication set_replication (replicaof args));
   ("ROLE", fun _ _ => on_part sh_replication set_replication role)]%string.

Definition hash_commands : list (string * CommandFn) :=
  [("HSET", on_storage hset); ("HGET", on_storage hget); ("HMGET", on_storage hmget);
   ("HGETALL", on_storage hgetall); ("HDEL", on_storage hdel); ("HEXISTS", on_storage hexists);
   ("HLEN", on_storage hlen); ("HSCAN", on_storage hscan)]%string.

Definition list_commands : list (string * CommandFn) :=
  [("LPUSH", on_storage lpush); ("RPUSH", on_storage rpush); ("LPOP", on_storage lpop);
   ("RPOP", on_storage rpop); ("LRANGE", on_storage lrange); ("LINDEX", on_storage lindex);
   ("LLEN", on_storage llen)]%string.

Definition set_commands : list (string * CommandFn) :=
  [("SADD", on_storage sadd); ("SREM", on_storage srem); ("SISMEMBER", on_storage sismember);
   ("SMEMBERS", on_storage (fun ctx => smembers ctx member_order)); ("SCARD", on_storage scard);
   ("SINTER", on_storage sinter); ("SDIFF", on_storage sdiff); ("SUNION", on_storage sunion)]%string.

Definition zset_commands : list (string * CommandFn) :=
  [("ZADD", on_storage (fun ctx => zadd ctx score_order)); ("ZRANGE", on_storage zrange);
   ("ZRANGEBYSCORE", on_storage zrangebyscore); ("ZREVRANGE", on_storage zrevrange);
   ("ZREVRANGEBYSCORE", on_storage zrevrangebyscore); ("ZREM", on_storage zrem); ("ZRANK", on_storage zrank);
   ("ZREVRANK", on_storage zrevrank); ("ZSCORE", on_storage zscore); ("ZCARD", on_storage zcard);
   ("ZINCRBY", on_storage zincrby)]%string.

Definition stream_commands : list (string * CommandFn) :=
  [("XADD", on_storage xadd); ("XLEN", on_storage xlen); ("XRANGE", on_storage xrange);
   ("XREAD", on_storage xread)]%string.

Definition bitmap_commands : list (string * CommandFn) :=
  [("SETBIT", on_storage setbit); ("GETBIT", on_storage getbit); ("BITCOUNT", on_storage bitcount);
   ("BITOP", on_storage bitop)]%string.

Definition pubsub_commands : list (string * CommandFn) :=
  [("SUBSCRIBE", fun cl args => on_part sh_pubsub set_pubsub (subscribe_cmd (client_id cl) (client_id cl) args));
   ("UNSUBSCRIBE", fun cl args => on_part sh_pubsub set_pubsub (unsubscribe_cmd channel_order (client_id cl) args));
   ("PUBLISH", fun _ args => on_part sh_pubsub set_pubsub (publish_cmd args))]%string.

Definition cluster_commands : list (string * CommandFn) :=
  [("CLUSTER", fun _ args => on_part sh_cluster set_cluster (cluster crc16_xmodem node_order args))]%string.

Section Table.
Variable eval_cmd evalsha_cmd : CommandFn.

Definition lua_commands : list (string * CommandFn) := [("EVAL", eval_cmd); ("EVALSHA", evalsha_cmd)]%string.

(** [CommandTable::new()]. *)
Definition new_table : CommandTable :=
  register_all cluster_commands (register_all lua_commands (register_all pubsub_commands
  (register_all bitmap_commands (register_all stream_commands (register_all zset_commands
  (register_all set_commands (register_all list_commands (register_all hash_commands
  (register_all admin_commands (register_all string_commands ∅)))))))))).

End Table.

(** [Err(e) => RespValue::Error(format_error(e))]. *)
Definition reply_of (m : M Shared RespValue) : M Shared RespValue := fun s =>
  match m s with
  | (Err e, s') => (Ok (RError (format_error e)), s')
  | other => other
  end.

(** [CommandTable::dispatch] with a table. *)
Definition dispatch_in (table : CommandTable) (cl : Client) (cmd : bytes) (args : list bytes) : M Shared RespValue :=
  let name := to_ascii_uppercase (from_utf8_lossy cmd) in
  match table !! name with
  | Some func => reply_of (func cl args)
  | None => mret (RError (bs "ERR unknown command '" ++ name ++ bs "'"))
  end.

(** The table refers to itself through the scripts. *)
Fixpoint dispatch (fuel : nat) : Client -> bytes -> list bytes -> M Shared RespValue :=
  match fuel with
  | O => fun _ _ _ => out_of_fuel
  | S fuel => dispatch_in (new_table (eval (dispatch fuel) fuel) (evalsha (dispatch fuel) fuel))
  end.

(** ** Looking a command up *)

Definition all_commands (eval_cmd evalsha_cmd : CommandFn) : list (string * CommandFn) :=
  string_commands ++ admin_commands ++ hash_commands ++ list_commands ++ set_commands ++ zset_commands
  ++ stream_commands ++ bitmap_commands ++ pubsub_commands ++ lua_commands eval_cmd evalsha_cmd ++ cluster_commands.

Definition key_of (c : string * CommandFn) : bytes := to_ascii_uppercase (bs c.1).

Lemma register_all_app l1 l2 t : register_all (l1 ++ l2) t = register_all l2 (register_all l1 t).
Proof. apply foldl_app. Qed.

Lemma new_table_all e1 e2 : new_table e1 e2 = register_all (all_commands e1 e2) ∅.
Proof. unfold new_table, all_commands. by rewrite !register_all_app. Qed.

Lemma register_all_lookup l t name :
  NoDup (map key_of l) ->
  (forall c, c ∈ l -> key_of c = name -> register_all l t !! name = Some c.2)
  /\ (name ∉ map key_of l -> register_all l t !! name = t !! name).
Proof.
  revert t. induction l as [|c l IH]; intros t Hnd; simpl.
  { split; [by intros c ?%not_elem_of_nil|done]. }
  simpl in Hnd. apply NoDup_cons in Hnd as [Hnin Hnd]. destruct (IH (register c.1 c.2 t) Hnd) as [IH1 IH2].
  split.
  - intros c' [->|Hin]%elem_of_cons E; [|by apply IH1]. rewrite IH2 by (by rewrite <- E).
    unfold register. rewrite <- E. apply lookup_insert_eq.
  - intros Hn. rewrite not_elem_of_cons in Hn. destruct Hn as [Hne Hn]. rewrite IH2 by done.
    apply lookup_insert_ne. by intros <-.
Qed.

Definition command_names : list string :=
  ["GET"; "SET"; "MGET"; "MSET"; "DEL"; "EXISTS"; "INCR"; "DECR"; "APPEND"; "EXPIRE"; "PEXPIRE"; "TTL"; "PTTL";
   "PERSIST"; "PING"; "ECHO"; "INFO"; "DBSIZE"; "FLUSHDB"; "REPLICAOF"; "ROLE"; "HSET"; "HGET"; "HMGET"; "HGETALL";
   "HDEL"; "HEXISTS"; "HLEN"; "HSCAN"; "LPUSH"; "RPUSH"; "LPOP"; "RPOP"; "LRANGE"; "LINDEX"; "LLEN"; "SADD"; "SREM";
   "SISMEMBER"; "SMEMBERS"; "SCARD"; "SINTER"; "SDIFF"; "SUNION"; "ZADD"; "ZRANGE"; "ZRANGEBYSCORE"; "ZREVRANGE";
   "ZREVRANGEBYSCORE"; "ZREM"; "ZRANK"; "ZREVRANK"; "ZSCORE"; "ZCARD"; "ZINCRBY"; "XADD"; "XLEN"; "XRANGE"; "XREAD";
   "SETBIT"; "GETBIT"; "BITCOUNT"; "BITOP"; "SUBSCRIBE"; "UNSUBSCRIBE"; "PUBLISH"; "EVAL"; "EVALSHA"; "CLUSTER"]%string.

Lemma all_commands_keys e1 e2 :
  map key_of (all_commands e1 e2) = map (fun n => to_ascii_uppercase (bs n)) command_names.
Proof. reflexivity. Qed.

Lemma command_names_upper : map (fun n => to_ascii_uppercase (bs n)) command_names = map bs command_names.
Proof. vm_compute. reflexivity. Qed.

Lemma command_names_NoDup : NoDup (map bs command_names).
Proof. apply (bool_decide_unpack _). vm_compute. exact I. Qed.

(** Every entry of the table, by its name, and nothing else. *)
Lemma table_lookup e1 e2 c : c ∈ all_commands e1 e2 -> new_table e1 e2 !! key_of c = Some c.2.
Proof.
  intros H. rewrite new_table_all. apply register_all_lookup; [|done|done].
  rewrite all_commands_keys, command_names_upper. apply command_names_NoDup.
Qed.

Lemma table_missing e1 e2 name : name ∉ map bs command_names -> new_table e1 e2 !! name = None.
Proof.
  intros H. rewrite new_table_all. rewrite (proj2 (register_all_lookup _ ∅ name
    ltac:(rewrite all_commands_keys, command_names_upper; apply command_names_NoDup))); [done|].
  by rewrite all_commands_keys, command_names_upper.
Qed.

Lemma table_cases e1 e2 name :
  (name ∉ map bs command_names /\ new_table e1 e2 !! name = None)
  \/ exists c, c ∈ all_commands e1 e2 /\ key_of c = name /\ new_table e1 e2 !! name = Some c.2.
Proof.
  destruct (decide (name ∈ map bs command_names)) as [H|H]; [right|left; split; [done|by apply table_missing]].
  rewrite <- command_names_upper, <- (all_commands_keys e1 e2) in H.
  apply list_elem_of_fmap in H as (c & -> & Hc). exists c. split; [done|]. split; [done|]. by apply table_lookup.
Qed.

(** ** What a command may change *)

Inductive footprint := Nothing | OnStorage | OnPubSub | OnReplication | Anything.

Definition readers : list string :=
  ["GET"; "MGET"; "EXISTS"; "TTL"; "PTTL"; "PING"; "ECHO"; "INFO"; "DBSIZE"; "ROLE"; "HGET"; "HMGET"; "HGETALL";
   "HEXISTS"; "HLEN"; "HSCAN"; "LRANGE"; "LINDEX"; "LLEN"; "SISMEMBER"; "SMEMBERS"; "SCARD"; "SINTER"; "SDIFF";
   "SUNION"; "ZRANGE"; "ZRANGEBYSCORE"; "ZREVRANGE"; "ZREVRANGEBYSCORE"; "ZRANK"; "ZREVRANK"; "ZSCORE"; "ZCARD";
   "XLEN"; "XRANGE"; "XREAD"; "GETBIT"; "BITCOUNT"; "CLUSTER"]%string.

Definition named (name : bytes) (l : list string) : bool := existsb (fun n => bool_decide (bs n = name)) l.

Definition footprint_of (name : bytes) : footprint :=
  if named name readers then Nothing
  else if named name ["SUBSCRIBE"; "UNSUBSCRIBE"; "PUBLISH"]%string then OnPubSub
  else if named name ["REPLICAOF"]%string then OnReplication
  else if named name ["EVAL"; "EVALSHA"]%string then Anything
  else if named name command_names then OnStorage
  else Nothing.

Definition respects (fp : footprint) (s s' : Shared) : Prop :=
  match fp with
  | Nothing => s' = s
  | OnStorage => s' = set_storage (sh_storage s') s
  | OnPubSub => s' = set_pubsub (sh_pubsub s') s
  | OnReplication => s' = set_replication (sh_replication s') s
  | Anything => True
  end.

Definition frames (fp : footprint) (f : CommandFn) : Prop := forall cl args s, respects fp s (f cl args s).2.

Lemma on_part_readonly {P A} (part : Shared -> P) set (m : M P A) s :
  readonly m -> (forall s, set (part s) s = s) -> (on_part part set m s).2 = s.
Proof. intros H Hs. unfold on_part. specialize (H (part s)). destruct (m (part s)) as [r p]. simpl in *. by subst. Qed.

Lemma set_storage_same s : set_storage (sh_storage s) s = s.
Proof. by destruct s. Qed.
Lemma set_replication_same s : set_replication (sh_replication s) s = s.
Proof. by destruct s. Qed.
Lemma set_cluster_same s : set_cluster (sh_cluster s) s = s.
Proof. by destruct s. Qed.

Lemma frames_readonly f : (forall ctx args, readonly (f ctx args)) -> frames Nothing (on_storage f).
Proof. intros H cl args s. apply on_part_readonly; [done|apply set_storage_same]. Qed.

Lemma frames_storage f : frames OnStorage (on_storage f).
Proof.
  intros cl args s. unfold on_storage, on_part. destruct (f _ args (sh_storage s)) as [r d]. done.
Qed.

Lemma frames_pubsub (f : Client -> list bytes -> M PubSubState RespValue) :
  frames OnPubSub (fun cl args => on_part sh_pubsub set_pubsub (f cl args)).
Proof. intros cl args s. unfold on_part. by destruct (f cl args (sh_pubsub s)). Qed.

Lemma ro_role : readonly role.
Proof. unfold role. ro. Qed.
Lemma ro_info cfg : readonly (info cfg).
Proof. unfold info. ro. Qed.
Lemma ro_cluster args : readonly (cluster crc16_xmodem node_order args).
Proof. unfold cluster, cluster_slots, cluster_keyslot, cluster_nodes. ro. Qed.

Lemma commands_frame e1 e2 : Forall (fun c => frames (footprint_of (bs c.1)) c.2) (all_commands e1 e2).
Proof.
  unfold all_commands, string_commands, admin_commands, hash_commands, list_commands, set_commands, zset_commands,
    stream_commands, bitmap_commands, pubsub_commands, lua_commands, cluster_commands. simpl app.
  repeat (apply Forall_cons_2; [|]); try apply Forall_nil_2; cbn [fst snd];
  match goal with |- frames (footprint_of ?n) _ => let v := eval vm_compute in (footprint_of n) in
    change (footprint_of n) with v end;
  try exact (fun _ _ _ => I);
  first [ apply frames_pubsub | apply frames_storage | apply frames_readonly; intros ctx args | intros cl args s ].
  all: try solve [unfold zrange, zrevrange, zrank, zrevrank; eauto with ro].
  - unfold ping. cbn [respects]. by case_goal.
  - assert (readonly (echo args : M Shared _)) as H by (unfold echo; ro). apply H.
  - apply on_part_readonly; [apply ro_info|apply set_replication_same].
  - unfold on_part. by destruct (replicaof args (sh_replication s)).
  - apply on_part_readonly; [apply ro_role|apply set_replication_same].
  - apply on_part_readonly; [apply ro_cluster|apply set_cluster_same].
Qed.

Lemma key_of_command e1 e2 c : c ∈ all_commands e1 e2 -> key_of c = bs c.1.
Proof.
  intros H. apply list_elem_of_lookup in H as [i Hi].
  assert (map key_of (all_commands e1 e2) = map (fun c => bs c.1) (all_commands e1 e2)) as E.
  { rewrite all_commands_keys, command_names_upper. reflexivity. }
  apply (f_equal (fun l => l !! i)) in E. change (map key_of) with (fmap (M:=list) key_of) in E.
  change (map (fun c => bs c.1)) with (fmap (M:=list) (fun c : string * CommandFn => bs c.1)) in E.
  rewrite !list_lookup_fmap, Hi in E. simpl in E. by injection E.
Qed.

(** A command of the table, by its name in any case. *)
Lemma dispatch_registered fuel cl cmd name func args s :
  (forall e1 e2, (name, func) ∈ all_commands e1 e2) -> to_ascii_uppercase (from_utf8_lossy cmd) = bs name ->
  dispatch (1 + fuel) cl cmd args s = reply_of (func cl args) s.
Proof.
  intros Hin Hcmd. change (dispatch (1 + fuel)) with
    (dispatch_in (new_table (eval (dispatch fuel) fuel) (evalsha (dispatch fuel) fuel))).
  unfold dispatch_in. cbv zeta. rewrite Hcmd.
  specialize (Hin (eval (dispatch fuel) fuel) (evalsha (dispatch fuel) fuel)).
  pose proof (table_lookup _ _ _ Hin) as T. rewrite (key_of_command _ _ _ Hin) in T. cbn [fst snd] in T. by rewrite T.
Qed.

Lemma footprint_unknown name : name ∉ map bs command_names -> footprint_of name = Nothing.
Proof.
  intros H. assert (forall l, Forall (fun n => n ∈ command_names) l -> named name l = false) as Hn.
  { intros l Hl. unfold named. destruct (existsb _ l) eqn:E; [|done]. exfalso.
    apply existsb_exists in E as (n & Hin & En%bool_decide_eq_true). apply H. rewrite <- En.
    apply (list_elem_of_fmap_2 bs). apply (proj1 (List.Forall_forall _ _) Hl n Hin). }
  unfold footprint_of. rewrite !Hn; [done|..]; apply (bool_decide_unpack _); vm_compute; exact I.
Qed.

Lemma dispatch_cases fuel cl cmd args s :
  let name := to_ascii_uppercase (from_utf8_lossy cmd) in
  let '(r, s') := dispatch (1 + fuel) cl cmd args s in
  respects (footprint_of name) s s' /\ (forall e, r <> Err e)
  /\ (name ∉ map bs command_names -> r = Ok (RError (bs "ERR unknown command '" ++ name ++ bs "'"))).
Proof.
  intros name. change (dispatch (1 + fuel)) with
    (dispatch_in (new_table (eval (dispatch fuel) fuel) (evalsha (dispatch fuel) fuel))).
  unfold dispatch_in. cbv zeta. fold name.
  destruct (table_cases (eval (dispatch fuel) fuel) (evalsha (dispatch fuel) fuel) name)
    as [[Hn ->]|(c & Hc & Hk & ->)].
  { rewrite footprint_unknown by done. done. }
  assert (respects (footprint_of name) s (c.2 cl args s).2) as Hf.
  { rewrite <- Hk, (key_of_command _ _ c Hc). revert c Hc Hk. intros c Hc _.
    apply list_elem_of_lookup in Hc as [i Hi]. exact (proj1 (Forall_lookup _ _) (commands_frame _ _) i c Hi cl args s). }
  assert (name ∈ map bs command_names) as Hin.
  { rewrite <- command_names_upper, <- (all_commands_keys (eval (dispatch fuel) fuel) (evalsha (dispatch fuel) fuel)), <- Hk.
    by apply (list_elem_of_fmap_2 key_of). }
  unfold reply_of. destruct (c.2 cl args s) as [[v|e| |] s']; (split; [done|split; [done|by intros ?]]).
Qed.

(** ** Fuel *)

(** [m'] does what [m] does wherever [m] has fuel enough. *)
Definition better {A} (m m' : M Shared A) : Prop := forall s, (m s).1 <> OutOfFuel -> m' s = m s.

Lemma better_refl {A} (m : M Shared A) : better m m.
Proof. done. Qed.

Lemma better_bind {A B} (m m' : M Shared A) (f f' : A -> M Shared B) :
  better m m' -> (forall a, better (f a) (f' a)) -> better (m ≫= f) (m' ≫= f').
Proof.
  intros Hm Hf s. unfold mbind, M_bind. specialize (Hm s). destruct (m s) as [[a|e| |] s1]; simpl in *; intros H.
  - rewrite Hm by done. by apply Hf.
  - by rewrite Hm.
  - by rewrite Hm.
  - done.
Qed.

Definition better_dispatch (d d' : Client -> bytes -> list bytes -> M Shared RespValue) : Prop :=
  forall cl cmd args, better (d cl cmd args) (d' cl cmd args).

Lemma exec_better d d' params handle : better_dispatch d d' ->
  better (exec_redis_command d params handle) (exec_redis_command d' params handle).
Proof.
  intros Hd. unfold exec_redis_command. apply better_bind; [apply better_refl|]. intros [cmd args].
  apply better_bind; [apply better_refl|]. intros cl. apply better_bind; [apply Hd|]. intros r. apply better_refl.
Qed.

Lemma run_vm_better d d' n n' : better_dispatch d d' -> (n <= n')%nat -> better (run_vm d n) (run_vm d' n').
Proof.
  intros Hd. revert n'. induction n as [|n IH]; intros n' Hn s; [by intros []|].
  destruct n' as [|n']; [lia|]. simpl. unfold with_state.
  destruct (lua_next (sh_lua s)) as [v l|msg l|protected params handle l]; [done|done|].
  pose proof (exec_better d d' params handle Hd (set_lua l s)) as He.
  destruct (exec_redis_command d params handle (set_lua l s)) as [[v|e| |] s1]; intros H; try done;
    rewrite He by done; try done; apply IH; try done; lia.
Qed.

Lemma run_script_better d d' n n' cl script keys args : better_dispatch d d' -> (n <= n')%nat ->
  better (run_script d n cl script keys args) (run_script d' n' cl script keys args).
Proof.
  intros Hd Hn. apply better_bind; [apply better_refl|]. intros _. apply better_bind; [by apply run_vm_better|].
  intros v. apply better_refl.
Qed.

Lemma eval_better d d' n n' cl args : better_dispatch d d' -> (n <= n')%nat ->
  better (eval d n cl args) (eval d' n' cl args).
Proof.
  intros Hd Hn. apply better_bind; [apply better_refl|]. intros [[script keys] argv].
  apply better_bind; [apply better_refl|]. intros _. by apply run_script_better.
Qed.

Lemma evalsha_better d d' n n' cl args : better_dispatch d d' -> (n <= n')%nat ->
  better (evalsha d n cl args) (evalsha d' n' cl args).
Proof.
  intros Hd Hn. apply better_bind; [apply better_refl|]. intros [[script keys] argv].
  apply better_bind; [apply better_refl|]. intros [sc|]; [by apply run_script_better|apply better_refl].
Qed.

Lemma reply_better m m' : better m m' -> better (reply_of m) (reply_of m').
Proof.
  intros H s. unfold reply_of. specialize (H s). destruct (m s) as [[v|e| |] s1]; simpl in *; intros Hr; try done;
    by rewrite H.
Qed.

(** The commands but EVAL and EVALSHA. *)
Definition plain_table : CommandTable :=
  register_all pubsub_commands
  (register_all bitmap_commands (register_all stream_commands (register_all zset_commands
  (register_all set_commands (register_all list_commands (register_all hash_commands
  (register_all admin_commands (register_all string_commands ∅)))))))).

Lemma new_table_scripts e1 e2 name :
  new_table e1 e2 !! name
  = if decide (name = bs "CLUSTER") then register_all cluster_commands ∅ !! name
    else if decide (name = bs "EVALSHA") then Some e2
    else if decide (name = bs "EVAL") then Some e1
    else plain_table !! name.
Proof.
  change (new_table e1 e2) with (register_all cluster_commands (<[bs "EVALSHA" := e2]> (<[bs "EVAL" := e1]> plain_table))).
  destruct (decide (name = bs "CLUSTER")) as [->|H1]; [done|].
  unfold register_all, cluster_commands, register. cbn [foldl fst snd].
  rewrite lookup_insert_ne by (by intros E; apply H1; rewrite <- E).
  destruct (decide (name = bs "EVALSHA")) as [->|H2]; [by rewrite lookup_insert_eq|].
  rewrite lookup_insert_ne by done.
  destruct (decide (name = bs "EVAL")) as [->|H3]; [by rewrite lookup_insert_eq|].
  by rewrite lookup_insert_ne.
Qed.

Lemma name_neq (a b : string) : bool_decide (bs a = bs b) = false -> bs a <> bs b.
Proof. apply bool_decide_eq_false_1. Qed.

Lemma table_eval e1 e2 : new_table e1 e2 !! bs "EVAL" = Some e1.
Proof. rewrite new_table_scripts, !decide_False by (by apply name_neq). by rewrite decide_True. Qed.

Lemma table_evalsha e1 e2 : new_table e1 e2 !! bs "EVALSHA" = Some e2.
Proof. rewrite new_table_scripts, decide_False by (by apply name_neq). by rewrite decide_True. Qed.

Lemma dispatch_better n n' : (n <= n')%nat -> better_dispatch (dispatch n) (dispatch n').
Proof.
  revert n'. induction n as [|n IH]; intros n' Hn cl cmd args; [by intros s []|].
  destruct n' as [|n']; [lia|].
  specialize (IH n' ltac:(lia)). cbn [dispatch]. unfold dispatch_in. cbv zeta.
  set (name := to_ascii_uppercase (from_utf8_lossy cmd)). rewrite !new_table_scripts.
  destruct (decide (name = bs "CLUSTER")); [apply better_refl|].
  destruct (decide (name = bs "EVALSHA")); [apply reply_better, evalsha_better; [done|lia]|].
  destruct (decide (name = bs "EVAL")); [apply reply_better, eval_better; [done|lia]|]. apply better_refl.
Qed.

(** ** The script cache *)

(** Every script is stored under its own digest. *)
Definition scripts_ok (s : Shared) : Prop := map_Forall (fun h script => sha1_hex script = h) (sh_scripts s).

Definition cached (s : Shared) (h : bytes) : Prop := is_Some (sh_scripts s !! h).

Definition cache_step (s s' : Shared) : Prop :=
  (scripts_ok s -> scripts_ok s') /\ forall h, cached s h -> cached s' h.

#[local] Instance cache_step_preorder : PreOrder cache_step.
Proof. split; [by intros s|]. intros s1 s2 s3 [H1 H2] [H3 H4]. split; auto. Qed.

Lemma cache_same s s' : sh_scripts s' = sh_scripts s -> cache_step s s'.
Proof. intros E. unfold cache_step, scripts_ok, cached. by rewrite E. Qed.

Definition keeps_cache {A} (m : M Shared A) : Prop := forall s, cache_step s (m s).2.

Lemma keeps_bind {A B} (m : M Shared A) (f : A -> M Shared B) :
  keeps_cache m -> (forall a, keeps_cache (f a)) -> keeps_cache (m ≫= f).
Proof.
  intros Hm Hf s. unfold mbind, M_bind. specialize (Hm s). destruct (m s) as [[a|e| |] s1]; try done.
  etransitivity; [exact Hm|apply Hf].
Qed.

Lemma keeps_readonly {A} (m : M Shared A) : readonly m -> keeps_cache m.
Proof. intros H s. apply cache_same. by rewrite H. Qed.

Lemma keeps_modify f : (forall s, cache_step s (f s)) -> keeps_cache (modify f).
Proof. done. Qed.

Section Keeps.
Variable d : Client -> bytes -> list bytes -> M Shared RespValue.
Hypothesis Hd : forall cl cmd args, keeps_cache (d cl cmd args).

Lemma exec_keeps params handle : keeps_cache (exec_redis_command d params handle).
Proof.
  apply keeps_bind; [apply keeps_readonly; ro|]. intros [cmd args].
  apply keeps_bind; [apply keeps_readonly; ro|]. intros cl.
  apply keeps_bind; [apply Hd|]. intros r. apply keeps_readonly. ro.
Qed.

Lemma run_vm_keeps n : keeps_cache (run_vm d n).
Proof.
  induction n as [|n IH]; intros s; simpl; [done|]. unfold with_state.
  destruct (lua_next (sh_lua s)) as [v l|msg l|protected params handle l]; [by apply cache_same..|].
  pose proof (exec_keeps params handle (set_lua l s)) as He.
  destruct (exec_redis_command d params handle (set_lua l s)) as [[v|e| |] s1]; simpl in He |- *.
  1, 2: transitivity s1; [exact He|]; (etransitivity; [|apply IH]); by apply cache_same.
  all: exact He.
Qed.

Lemma run_script_keeps n cl script keys args : keeps_cache (run_script d n cl script keys args).
Proof.
  apply keeps_bind; [apply keeps_modify; intros s; by apply cache_same|]. intros _.
  apply keeps_bind; [apply run_vm_keeps|]. intros v. apply keeps_readonly. ro.
Qed.

Lemma store_script_step script s :
  cache_step s (set_engine (sh_lua s) (<[sha1_hex script := script]> (sh_scripts s)) s).
Proof.
  split.
  - intros H. by apply map_Forall_insert_2.
  - intros h [sc Hh]. unfold cached. simpl. destruct (decide (sha1_hex script = h)) as [->|Hne].
    + rewrite lookup_insert_eq. by eexists.
    + rewrite lookup_insert_ne by done. by eexists.
Qed.

Lemma split_keys_readonly name args : readonly (split_keys name args).
Proof. unfold split_keys. ro. Qed.

Lemma eval_keeps n cl args : keeps_cache (eval d n cl args).
Proof.
  apply keeps_bind; [apply keeps_readonly, split_keys_readonly|]. intros [[script keys] argv].
  apply keeps_bind; [apply keeps_modify; intros s; apply store_script_step|]. intros _. apply run_script_keeps.
Qed.

Lemma evalsha_keeps n cl args : keeps_cache (evalsha d n cl args).
Proof.
  apply keeps_bind; [apply keeps_readonly, split_keys_readonly|]. intros [[script keys] argv].
  apply keeps_bind; [apply keeps_readonly; ro|]. intros [sc|]; [apply run_script_keeps|]. apply keeps_readonly. ro.
Qed.

Lemma engine_eval_caches n cl script keys args s : cached (engine_eval d n cl script keys args s).2 (sha1_hex script).
Proof.
  unfold engine_eval. erewrite bind_Ok by reflexivity. apply run_script_keeps. unfold cached. simpl.
  rewrite lookup_insert_eq. by eexists.
Qed.

End Keeps.

Lemma reply_state m s : (reply_of m s).2 = (m s).2.
Proof. unfold reply_of. by destruct (m s) as [[v|e| |] s1]. Qed.

Lemma respects_scripts fp s s' : fp <> Anything -> respects fp s s' -> sh_scripts s' = sh_scripts s.
Proof. destruct fp; simpl; intros Hfp H; try done; by rewrite H. Qed.

Lemma anything_scripts name : footprint_of name = Anything -> name = bs "EVAL" \/ name = bs "EVALSHA".
Proof.
  unfold footprint_of. destruct (named name readers); [intros [=]|].
  destruct (named name ["SUBSCRIBE"; _; _]%string); [intros [=]|].
  destruct (named name ["REPLICAOF"]%string); [intros [=]|].
  destruct (named name ["EVAL"; "EVALSHA"]%string) eqn:H; [|destruct (named name command_names); intros [=]].
  intros _. apply existsb_exists in H as (n & [<-|[<-|[]]] & <-%bool_decide_eq_true); auto.
Qed.

Lemma dispatch_keeps n cl cmd args : keeps_cache (dispatch n cl cmd args).
Proof.
  revert cl cmd args. induction n as [|n IH]; intros cl cmd args s; [done|].
  set (name := to_ascii_uppercase (from_utf8_lossy cmd)).
  destruct (decide (name = bs "EVAL" \/ name = bs "EVALSHA")) as [Hn|Hn].
  - cbn [dispatch]. unfold dispatch_in. cbv zeta. fold name.
    destruct Hn as [->| ->]; [rewrite table_eval|rewrite table_evalsha]; rewrite reply_state;
      [apply eval_keeps|apply evalsha_keeps]; exact IH.
  - apply cache_same. pose proof (dispatch_cases n cl cmd args s) as Hf. cbv zeta in Hf.
    change (1 + n)%nat with (S n) in Hf. destruct (dispatch (S n) cl cmd args s) as [r s'].
    destruct Hf as [Hf _]. eapply respects_scripts; [|exact Hf]. intros E%anything_scripts. exact (Hn E).
Qed.

Lemma split_no_keys name a argv s :
  split_keys name (a :: bs "0" :: argv) s = (Ok (from_utf8_lossy a, [], argv), s).
Proof.
  unfold split_keys. change (expect_min_arg_count name (a :: bs "0" :: argv) 2) with (mret (M := M Shared) tt).
  do 3 (erewrite bind_Ok by reflexivity; cbv beta).
  assert (parse_numkeys (bs "0") = Ok 0) as -> by (vm_compute; reflexivity).
  erewrite bind_Ok by reflexivity. erewrite bind_Ok by (by apply arith_u64_ok). cbv beta.
  change (Z.of_nat (length (a :: bs "0" :: argv))) with (Z.of_nat (2 + length argv)).
  by rewrite (proj2 (Z.ltb_ge _ _)) by lia.
Qed.

(** ** Properties *)

(** C23: the script cache. Whatever command runs, nested scripts included,
    every cached script stays under its own digest and no digest is forgotten;
    EVAL caches its script, however the script ends, and EVALSHA runs exactly
    the script stored under the digest or answers NOSCRIPT and changes
    nothing. *)
Theorem script_cache fuel cl cmd args s : scripts_ok s ->
  let s' := (dispatch fuel cl cmd args s).2 in
  scripts_ok s' /\ (forall h, cached s h -> cached s' h)
  /\ (forall script argv, cached (dispatch (1 + fuel) cl (bs "EVAL") (script :: bs "0" :: argv) s).2
                            (sha1_hex (from_utf8_lossy script)))
  /\ (forall h argv, let run := dispatch (1 + fuel) cl (bs "EVALSHA") (h :: bs "0" :: argv) s in
        match sh_scripts s !! from_utf8_lossy h with
        | Some script => sha1_hex script = from_utf8_lossy h
                         /\ run = reply_of (run_script (dispatch fuel) fuel cl script [] argv) s
        | None => run = (Ok (RError (bs "NOSCRIPT No matching script. Please use EVAL.")), s)
        end).
Proof.
  intros Hok.
  split; [by apply dispatch_keeps|]. split; [by apply dispatch_keeps|]. split.
  - intros script argv. cbn [dispatch Nat.add]. unfold dispatch_in.
    change (to_ascii_uppercase (from_utf8_lossy (bs "EVAL"))) with (bs "EVAL"). rewrite table_eval, reply_state. unfold eval. erewrite bind_Ok by apply split_no_keys.
    apply engine_eval_caches. apply dispatch_keeps.
  - intros h argv. cbn [dispatch Nat.add]. unfold dispatch_in.
    change (to_ascii_uppercase (from_utf8_lossy (bs "EVALSHA"))) with (bs "EVALSHA"). rewrite table_evalsha.
    assert (evalsha (dispatch fuel) fuel cl (h :: bs "0" :: argv) s
            = match sh_scripts s !! from_utf8_lossy h with
              | Some script => run_script (dispatch fuel) fuel cl script [] argv s
              | None => (Err (Command (bs "NOSCRIPT No matching script. Please use EVAL.")), s)
              end) as Hrun.
    { unfold evalsha. erewrite bind_Ok by apply split_no_keys. unfold engine_evalsha.
      erewrite bind_Ok by reflexivity. by destruct (sh_scripts s !! from_utf8_lossy h). }
    unfold reply_of. rewrite Hrun. destruct (sh_scripts s !! from_utf8_lossy h) as [script|] eqn:E; [|reflexivity].
    split; [by apply Hok|reflexivity].
Qed.

End Dispatch.

Arguments Shared : clear implicits.

(** ** A small interpreter *)

(** Knows two scripts: one returns its first argument, the other calls the
    command its arguments spell. A script is a frame on a stack. *)
Inductive frame :=
  | Started (cl : Client) (script : bytes) (argv : list bytes)
  | Suspended
  | Resumed (r : call_result).

Definition return_script : bytes := bs "return ARGV[1]".
Definition call_script : bytes := bs "return redis.call(unpack(ARGV))".

Definition toy_next (l : list frame) : lua_event (list frame) :=
  match l with
  | Started cl script argv :: l =>
      if bool_decide (script = return_script) then
        Finished (match argv with a :: _ => LString a | [] => Nil end) l
      else if bool_decide (script = call_script) then RedisCall false (map LString argv) (Ok cl) (Suspended :: l)
      else Failed (bs "syntax error") l
  | Resumed (Value v) :: l => Finished v l
  | Resumed (RuntimeError msg) :: l => Failed msg l
  | _ => Failed (bs "no script") []
  end.

Definition toy_resume (l : list frame) (r : call_result) : list frame :=
  match l with
  | Suspended :: l => Resumed r :: l
  | l => l
  end.

#[export] Instance toy_vm : LuaVM (list frame) := {|
  lua_start l cl script _ argv := Started cl script argv :: l;
  lua_next := toy_next;
  lua_resume := toy_resume |}.

(** Functions that stand in for the library ones. *)
#[export] Instance toy_externals : Externals := {|
  member_order l := l; score_order l := l; channel_order l := l; node_order l := l;
  crc16_xmodem b := blen b; sha1_digest b := b; debug_value _ := bs "value";
  overflow_checks := false; resp_value_size := 40 |}.

Definition shared0 : Shared MemDB (list frame) :=
  server_bind config_default db0 [] 1000 7.

Definition client0 : Client := mkClient 0 [].

(** The replies of a sequence of commands. *)
Fixpoint session (fuel : nat) (l : list (list bytes)) (s : Shared MemDB (list frame)) : list (outcome RespValue) :=
  match l with
  | [] => []
  | [] :: l => session fuel l s
  | (cmd :: args) :: l => let '(r, s) := dispatch fuel client0 cmd args s in r :: session fuel l s
  end.

(** Scripts call commands, among them EVAL and EVALSHA themselves. *)
Example script_session :
  session 5
    [[bs "set"; bs "k"; bs "v"];
     [bs "EVALSHA"; sha1_hex call_script; bs "0"; bs "GET"; bs "k"];
     [bs "eval"; call_script; bs "0"; bs "EVAL"; call_script; bs "0"; bs "GET"; bs "k"];
     [bs "EVALSHA"; sha1_hex call_script; bs "1"; bs "a"; bs "NOPE"]]
    shared0
  = [Ok OK; Ok (RError (bs "NOSCRIPT No matching script. Please use EVAL.")); Ok (bulk (bs "v"));
     Ok (bulk (bs "ERR unknown command 'NOPE'"))].
Proof. vm_compute. reflexivity. Qed.

(** A number of keys near the limit of [usize] makes EVAL panic, with or
    without overflow checks. *)
Example eval_numkeys_panics :
  session 1 [[bs "EVAL"; return_script; bs "18446744073709551615"]] shared0 = [Panic].
Proof. vm_compute. reflexivity. Qed.

(** Commands the README lists that no module registers. *)
Example listed_but_not_registered e1 e2 :
  Forall (fun n => new_table (X:=toy_externals) (DB:=MemDB) (L:=list frame) e1 e2 !! bs n = None)
    ["SPOP"; "FLUSHALL"; "CONFIG"; "PSUBSCRIBE"; "PUNSUBSCRIBE"]%string.
Proof.
  repeat constructor; apply table_missing; apply (bool_decide_unpack _); vm_compute; exact I.
Qed.

(** EXPIRE stores the metadata of a stream in the common encoding, which has
    no room for the last ID: an ID that was too small is accepted afterwards. *)
Example expire_forgets_last_id :
  session 1
    [[bs "XADD"; bs "s"; bs "5-1"; bs "f"; bs "v"]; [bs "EXPIRE"; bs "s"; bs "100"];
     [bs "XADD"; bs "s"; bs "3-0"; bs "f"; bs "v"]] shared0
  = [Ok (bulk (bs "5-1")); Ok (Integer 1); Ok (bulk (bs "3-0"))].
Proof. vm_compute. reflexivity. Qed.

(** The cache after a script that itself runs EVAL. *)
Lemma script_cache_witness :
  let s := (dispatch 9 client0 (bs "EVAL") [call_script; bs "0"; bs "EVAL"; return_script; bs "0"; bs "x"] shared0).2 in
  scripts_ok s /\ cached s (sha1_hex call_script).
Proof.
  assert (scripts_ok shared0) as H0 by apply map_Forall_empty.
  split; [exact (proj1 (script_cache 9 client0 (bs "EVAL")
            [call_script; bs "0"; bs "EVAL"; return_script; bs "0"; bs "x"] shared0 H0))|].
  exact (proj1 (proj2 (proj2 (script_cache 8 client0 (bs "GET") [] shared0 H0))) call_script
    [bs "EVAL"; return_script; bs "0"; bs "x"]).
Defined.
