(* ===== verification/WrongType.v ===== *)
(** * Keys of another type

    Every type has commands that read the metadata of their first key before
    anything else. On a key that holds a live value of another type such a
    command replies WRONGTYPE and changes nothing; only arguments that it
    refuses on every database are refused before. *)

From S2P Require Import Prelude Bytes Text Error Types Encoding Backend Storage Float Protocol Context Keyspace StringCmd HashCmd ListCmd SetCmd BitmapCmd ZSetCmd StreamCmd PubSub Cluster Config Admin Lua Readers Dispatch.

Local Open Scope Z_scope.

Create HintDb refuse.

Section WrongType.
Context {DB : Type} {RDB : RocksDB DB}.
Implicit Types (d : DB) (ctx : CommandContext) (k v : bytes) (args : list bytes).

(** [v] is a live stored value of type [t]. *)
Definition stores ctx v (t : DataType) : Prop :=
  if decide (t = DString) then exists e p, v = encode_string STRING_FLAGS e p
  else exists meta, decode_metadata v = Some meta /\ data_type meta = Some t
                    /\ is_expired meta (now_ms ctx) = false.

Definition holds_type d ctx k (t : DataType) : Prop :=
  wf_db d /\ exists v, meta_at d ctx k = Some v /\ stores ctx v t.

(** A computation that does not look at the database. *)
Definition fixed {A} (m : M DB A) : Prop := exists r, forall d, m d = (r, d).

Section Refused.
Variable P : DB -> Prop.

(** Where [P] holds the computation ends with WRONGTYPE and changes nothing,
    unless it fails in one way on every database. *)
Definition refused {A} (m : M DB A) : Prop :=
  (forall d, P d -> m d = (Err wrong_type_error, d))
  \/ exists r, (forall a, r <> Ok a) /\ forall d, m d = (r, d).

Lemma refused_bind {A B} (m : M DB A) (f : A -> M DB B) :
  fixed m -> (forall a, (forall d, m d = (Ok a, d)) -> refused (f a)) -> refused (m ≫= f).
Proof.
  intros [r Hm] Hf. destruct r as [a|e| |].
  - destruct (Hf a Hm) as [H|(r & Hr & H)].
    + left. intros d Hd. rewrite (bind_Ok _ _ _ _ _ (Hm d)). by apply H.
    + right. exists r. split; [done|]. intros d. by rewrite (bind_Ok _ _ _ _ _ (Hm d)).
  - right. exists (Err e). split; [done|]. intros d. by rewrite (bind_Err _ _ _ _ _ (Hm d)).
  - right. exists Panic. split; [done|]. intros d. by rewrite (bind_Panic _ _ _ _ (Hm d)).
  - right. exists OutOfFuel. split; [done|]. intros d. unfold mbind, M_bind. by rewrite Hm.
Qed.

Lemma refused_read {A B} (m : M DB A) (f : A -> M DB B) :
  (forall d, P d -> m d = (Err wrong_type_error, d)) -> refused (m ≫= f).
Proof. intros H. left. intros d Hd. by apply bind_Err, H. Qed.

Lemma refused_throw {A} e : refused (A:=A) (throw e).
Proof. right. by exists (Err e). Qed.

End Refused.

Lemma fixed_lift {A} (o : outcome A) : fixed (lift o).
Proof. by exists o. Qed.
Lemma fixed_ret {A} (a : A) : fixed (mret a).
Proof. by exists (Ok a). Qed.
Lemma fixed_throw {A} e : fixed (A:=A) (throw e).
Proof. by exists (Err e). Qed.
Lemma fixed_index {A} (l : list A) i : fixed (index l i).
Proof. unfold index. destruct (l !! i); [by exists (Ok a)|by exists Panic]. Qed.
Lemma fixed_arg_count name args n : fixed (expect_arg_count name args n).
Proof. unfold expect_arg_count. case_goal; [apply fixed_throw|apply fixed_ret]. Qed.
Lemma fixed_min_arg_count name args n : fixed (expect_min_arg_count name args n).
Proof. unfold expect_min_arg_count. case_goal; [apply fixed_throw|apply fixed_ret]. Qed.
Lemma fixed_arg_i64 data : fixed (arg_i64 data).
Proof. unfold arg_i64. case_goal; [apply fixed_ret|apply fixed_throw]. Qed.
Lemma fixed_hash_usize data : fixed (HashCmd.parse_usize data).
Proof. unfold HashCmd.parse_usize. case_goal; [apply fixed_ret|apply fixed_throw]. Qed.
Lemma fixed_list_usize data : fixed (ListCmd.parse_usize data).
Proof. unfold ListCmd.parse_usize. case_goal; [apply fixed_ret|apply fixed_throw]. Qed.
Lemma fixed_offset data : fixed (parse_offset data).
Proof. unfold parse_offset. case_goal; [apply fixed_ret|apply fixed_throw]. Qed.
Lemma fixed_bit data : fixed (parse_bit data).
Proof. unfold parse_bit. repeat case_goal; first [apply fixed_ret|apply fixed_throw]. Qed.

Lemma fixed_bind {A B} (m : M DB A) (f : A -> M DB B) :
  fixed m -> (forall a, fixed (f a)) -> fixed (m ≫= f).
Proof.
  intros [r Hm] Hf. destruct r as [a|e| |].
  - destruct (Hf a) as [r Hr]. exists r. intros d. by rewrite (bind_Ok _ _ _ _ _ (Hm d)).
  - exists (Err e). intros d. by rewrite (bind_Err _ _ _ _ _ (Hm d)).
  - exists Panic. intros d. by rewrite (bind_Panic _ _ _ _ (Hm d)).
  - exists OutOfFuel. intros d. unfold mbind, M_bind. by rewrite Hm.
Qed.

Hint Resolve fixed_lift fixed_ret fixed_throw fixed_index fixed_arg_count fixed_min_arg_count fixed_arg_i64
  fixed_hash_usize fixed_list_usize fixed_offset fixed_bit fixed_bind refused_throw : refuse.

(** ** The readers of metadata *)

Lemma stores_head ctx v t : stores ctx v t -> exists b r, v = b :: r /\ type_code b = code t.
Proof.
  unfold stores. case_decide as Ht.
  - subst t. intros (e & p & ->). by eexists _, _.
  - intros (meta & Hd & Hm & _). by eapply decode_nonempty.
Qed.

Lemma stores_meta ctx v t :
  stores ctx v t -> t <> DString ->
  exists meta, decode_metadata v = Some meta /\ data_type meta = Some t /\ is_expired meta (now_ms ctx) = false.
Proof. unfold stores. intros H Ht. by rewrite decide_False in H. Qed.

Lemma code_inj (t t' : DataType) : code t = code t' -> t = t'.
Proof. by destruct t, t'. Qed.

(** Case analysis shared by the readers: a string is seen by its first byte,
    another type by its metadata. *)
Lemma other_type_cases ctx v t t' :
  stores ctx v t' -> t' <> t ->
  exists b r, v = b :: r /\ type_code b = code t'
    /\ (t' = DString \/ (code t' =? code DString = false
        /\ exists meta, decode_metadata v = Some meta /\ data_type meta = Some t'
             /\ bool_decide (data_type meta = Some t) = false /\ is_expired meta (now_ms ctx) = false)).
Proof.
  intros H Hne. destruct (stores_head _ _ _ H) as (b & r & -> & Hb). exists b, r. split; [done|]. split; [done|].
  destruct (decide (t' = DString)) as [->|Hs]; [by left|]. right.
  split; [apply Z.eqb_neq; intros E; by apply Hs, code_inj|].
  destruct (stores_meta _ _ _ H Hs) as (meta & Hd & Hm & He). exists meta. split; [done|]. split; [done|].
  split; [|done]. rewrite Hm. apply bool_decide_eq_false. congruence.
Qed.

Lemma check_typed_other t invalid ctx v t' :
  stores ctx v t' -> t' <> t -> check_typed_meta t invalid ctx v = Err wrong_type_error.
Proof.
  intros H Hne. destruct (other_type_cases _ _ _ _ H Hne) as (b & r & -> & Hb & Hc).
  unfold check_typed_meta. rewrite Hb. destruct Hc as [->|[-> (meta & -> & _ & E & _)]]; [done|].
  cbn. by rewrite E.
Qed.

Lemma check_hash_other ctx v t' :
  stores ctx v t' -> t' <> DHash -> decode_and_check_hash v = Err wrong_type_error.
Proof.
  intros H Hne. destruct (other_type_cases _ _ _ _ H Hne) as (b & r & -> & Hb & Hc).
  unfold decode_and_check_hash. rewrite Hb. destruct Hc as [->|[-> (meta & -> & _ & E & _)]]; [done|].
  cbn. by rewrite E.
Qed.

Lemma decode_metadata_length v meta : decode_metadata v = Some meta -> 25 <= blen v.
Proof. unfold decode_metadata. destruct (blen v <? 1 + 8 + 8 + 8) eqn:E; [done|]. zbool. lia. Qed.

Lemma string_value_other ctx v t' :
  stores ctx v t' -> t' <> DString -> string_value ctx (Some v) = Err wrong_type_error.
Proof.
  intros H Hne. destruct (other_type_cases _ _ _ _ H Hne) as (b & r & -> & Hb & [->|[E (meta & Hd & _)]]); [done|].
  apply decode_metadata_length in Hd. unfold string_value, decode_string.
  destruct (blen (b :: r) <? 1 + 8) eqn:El; zbool; [lia|]. by rewrite Hb, (proj2 (Z.eqb_neq _ _) E).
Qed.

Lemma check_stream_other ctx v t' :
  stores ctx v t' -> t' <> DStream -> check_stream_meta ctx v = Err wrong_type_error.
Proof.
  intros H Hne. destruct (other_type_cases _ _ _ _ H Hne) as (b & r & -> & Hb & Hc).
  assert (from_code (Z.land (byte_to_Z b) 0x0F) = Some t') as Ht.
  { change (Z.land (byte_to_Z b) 0x0F) with (type_code b). rewrite Hb. apply from_code_code. }
  unfold check_stream_meta. rewrite Ht. case_bool_decide; [done|].
  destruct Hc as [->|[_ (meta & Hd & _ & E & _)]]; [done|]. unfold decode_stream_meta.
  destruct (blen (b :: r) <? _).
  - rewrite Hd. cbn. by rewrite E.
  - cbn [sm_flags]. rewrite Ht. rewrite bool_decide_false by congruence. done.
Qed.

Lemma check_zset_other ctx v t' :
  stores ctx v t' -> t' <> DZSet ->
  check_meta ctx v = Err wrong_type_error
  \/ exists meta, check_meta ctx v = Ok (Some meta) /\ bool_decide (data_type meta = Some DZSet) = false.
Proof.
  intros H Hne. destruct (other_type_cases _ _ _ _ H Hne) as (b & r & -> & Hb & Hc).
  unfold check_meta. change (Z.land (byte_to_Z b) 0x0F) with (type_code b). rewrite Hb, from_code_code. cbn.
  case_bool_decide; [by left|]. destruct Hc as [->|[_ (meta & -> & _ & E & He)]]; [done|].
  right. exists meta. cbn. by rewrite He.
Qed.

(** ** What the metadata readers do *)

Lemma read_meta_other {A} ctx k t d (check : bytes -> outcome A) (other : M DB A) :
  holds_type d ctx k t -> (forall v, stores ctx v t -> check v = Err wrong_type_error) ->
  (m ← get_meta ctx k; match m with Some v => lift (check v) | None => other end) d
  = (Err wrong_type_error, d).
Proof.
  intros (Hw & v & Hm & Hv) Hc. rewrite (bind_Ok _ _ _ _ _ (get_meta_run _ _ _ Hw)), Hm. unfold lift.
  by rewrite Hc.
Qed.

Lemma read_hash_other ctx k t d : holds_type d ctx k t -> t <> DHash -> read_hash_meta ctx k d = (Err wrong_type_error, d).
Proof. intros H Ht. apply (read_meta_other _ _ t); [done|]. intros v Hv. by apply (check_hash_other ctx _ t). Qed.

Lemma load_list_other ctx k t d : holds_type d ctx k t -> t <> DList -> load_list_meta ctx k d = (Err wrong_type_error, d).
Proof. intros H Ht. apply (read_meta_other _ _ t); [done|]. intros v Hv. by apply (check_typed_other _ _ _ _ t). Qed.

Lemma read_set_other ctx k t d : holds_type d ctx k t -> t <> DSet -> read_set_metadata ctx k d = (Err wrong_type_error, d).
Proof. intros H Ht. apply (read_meta_other _ _ t); [done|]. intros v Hv. by apply (check_typed_other _ _ _ _ t). Qed.

Lemma read_bitmap_other ctx k t d : holds_type d ctx k t -> t <> DBitmap -> read_bitmap_meta ctx k d = (Err wrong_type_error, d).
Proof. intros H Ht. apply (read_meta_other _ _ t); [done|]. intros v Hv. by apply (check_typed_other _ _ _ _ t). Qed.

Lemma read_stream_other ctx k t d : holds_type d ctx k t -> t <> DStream -> read_stream_meta ctx k d = (Err wrong_type_error, d).
Proof. intros H Ht. apply (read_meta_other _ _ t); [done|]. intros v Hv. by apply (check_stream_other ctx _ t). Qed.

Lemma read_string_other ctx k t d : holds_type d ctx k t -> t <> DString -> read_string ctx k d = (Err wrong_type_error, d).
Proof.
  intros (Hw & v & Hm & Hv) Ht. rewrite read_string_run, Hm by done. by rewrite (string_value_other _ _ t).
Qed.

Lemma load_meta_other {A} ctx k t d (f : option Metadata -> M DB A) :
  holds_type d ctx k t -> t <> DZSet ->
  (forall meta, bool_decide (data_type meta = Some DZSet) = false -> f (Some meta) d = (Err wrong_type_error, d)) ->
  (m ← load_meta ctx k; f m) d = (Err wrong_type_error, d).
Proof.
  intros (Hw & v & Hm & Hv) Ht Hf.
  assert (load_meta ctx k d = (check_meta ctx v, d)) as E.
  { unfold load_meta. by rewrite (bind_Ok _ _ _ _ _ (get_meta_run _ _ _ Hw)), Hm. }
  destruct (check_zset_other _ _ _ Hv Ht) as [E2|(meta & E2 & Hmeta)]; rewrite E2 in E;
    [by rewrite (bind_Err _ _ _ _ _ E)|]. rewrite (bind_Ok _ _ _ _ _ E). by apply Hf.
Qed.

Lemma read_zset_other ctx k t d : holds_type d ctx k t -> t <> DZSet -> read_zset_meta ctx k d = (Err wrong_type_error, d).
Proof. intros H Ht. apply (load_meta_other _ _ t); [done|done|]. intros meta ->. done. Qed.

Lemma ensure_zset_other ctx k t d : holds_type d ctx k t -> t <> DZSet -> ensure_zset_meta ctx k d = (Err wrong_type_error, d).
Proof. intros H Ht. apply (load_meta_other _ _ t); [done|done|]. intros meta ->. done. Qed.

Lemma ensure_hash_other ctx k t d : holds_type d ctx k t -> t <> DHash -> ensure_hash_meta ctx k d = (Err wrong_type_error, d).
Proof. intros H Ht. apply bind_Err. by apply (read_hash_other ctx k t). Qed.

Lemma create_bitmap_other ctx k t d : holds_type d ctx k t -> t <> DBitmap -> get_or_create_metadata ctx k d = (Err wrong_type_error, d).
Proof. intros H Ht. apply bind_Err. by apply (read_bitmap_other ctx k t). Qed.

Hint Resolve read_hash_other load_list_other read_set_other read_bitmap_other read_stream_other read_string_other
  read_zset_other ensure_zset_other ensure_hash_other create_bitmap_other : refuse.

Lemma refused_key {A} P k rest (f : bytes -> M DB A) : refused P (f k) -> refused P (index (k :: rest) 0 ≫= f).
Proof. exact (fun H => H). Qed.

(** Shows that a computation on the arguments does not look at the database. *)
Ltac fix_args :=
  repeat first
    [ solve [eauto with refuse]
    | apply fixed_bind; [|intros ?]
    | match goal with |- fixed (match ?x with _ => _ end) => destruct x end ].

(** Shows that a handler reads the metadata of its key before anything else of
    the database. *)
Ltac refuse :=
  repeat first
    [ progress cbv zeta
    | apply refused_throw
    | apply refused_key
    | apply refused_read; intros; first [solve [eauto with refuse] | apply bind_Err; solve [eauto with refuse] | do 2 apply bind_Err; solve [eauto with refuse]]
    | apply refused_bind; [solve [fix_args]|intros ? _]
    | match goal with |- refused _ (match ?x with _ => _ end) => destruct x eqn:? end ].

(** ** The commands *)

(** LPOP and RPOP with the count 0 reply an empty array whatever the key
    holds. *)
Definition asks_nothing (name : string) (rest : list bytes) : bool :=
  (String.eqb name "LPOP" || String.eqb name "RPOP")
  && match rest with [n] => bool_decide (parse_text parse_u64 n = Some 0) | _ => false end.

(** A handler with the type it works on. *)
Definition typed (c : string * DataType * (CommandContext -> list bytes -> M DB RespValue)) : Prop :=
  forall ctx k rest t, t <> c.1.2 -> asks_nothing c.1.1 rest = false ->
    refused (fun d => holds_type d ctx k t) (c.2 ctx (k :: rest)).

Definition string_table : list (string * DataType * (CommandContext -> list bytes -> M DB RespValue)) :=
  [("GET", DString, StringCmd.get); ("INCR", DString, StringCmd.incr); ("DECR", DString, decr);
   ("APPEND", DString, append); ("MGET", DString, mget)]%string.

Definition hash_table : list (string * DataType * (CommandContext -> list bytes -> M DB RespValue)) :=
  [("HSET", DHash, hset); ("HGET", DHash, hget); ("HMGET", DHash, hmget); ("HGETALL", DHash, hgetall);
   ("HDEL", DHash, hdel); ("HEXISTS", DHash, hexists); ("HLEN", DHash, hlen); ("HSCAN", DHash, hscan)]%string.

Definition list_table : list (string * DataType * (CommandContext -> list bytes -> M DB RespValue)) :=
  [("LPUSH", DList, lpush); ("RPUSH", DList, rpush); ("LPOP", DList, lpop); ("RPOP", DList, rpop);
   ("LRANGE", DList, lrange); ("LINDEX", DList, lindex); ("LLEN", DList, llen)]%string.

Definition set_table (order : list bytes -> list bytes)
  : list (string * DataType * (CommandContext -> list bytes -> M DB RespValue)) :=
  [("SADD", DSet, sadd); ("SREM", DSet, srem); ("SISMEMBER", DSet, sismember);
   ("SMEMBERS", DSet, fun ctx => smembers ctx order); ("SCARD", DSet, scard); ("SINTER", DSet, sinter);
   ("SDIFF", DSet, sdiff); ("SUNION", DSet, sunion)]%string.

Definition zset_table (order : list (bytes * f64) -> list (bytes * f64))
  : list (string * DataType * (CommandContext -> list bytes -> M DB RespValue)) :=
  [("ZADD", DZSet, fun ctx => zadd ctx order); ("ZRANGE", DZSet, zrange); ("ZRANGEBYSCORE", DZSet, zrangebyscore);
   ("ZREVRANGE", DZSet, zrevrange); ("ZREVRANGEBYSCORE", DZSet, zrevrangebyscore); ("ZREM", DZSet, zrem);
   ("ZRANK", DZSet, zrank); ("ZREVRANK", DZSet, zrevrank); ("ZSCORE", DZSet, zscore); ("ZCARD", DZSet, zcard);
   ("ZINCRBY", DZSet, zincrby)]%string.

Definition stream_table : list (string * DataType * (CommandContext -> list bytes -> M DB RespValue)) :=
  [("XADD", DStream, xadd); ("XLEN", DStream, xlen); ("XRANGE", DStream, xrange)]%string.

Definition bitmap_table : list (string * DataType * (CommandContext -> list bytes -> M DB RespValue)) :=
  [("SETBIT", DBitmap, setbit); ("GETBIT", DBitmap, getbit); ("BITCOUNT", DBitmap, bitcount)]%string.

Ltac each_command :=
  repeat match goal with |- Forall _ _ => constructor end; intros ctx k rest t Ht Hn; cbn [fst snd] in *.

Lemma string_typed : Forall typed string_table.
Proof.
  each_command; unfold StringCmd.get, StringCmd.incr, decr, incr_by, append, mget; cbn [mfold]; refuse.
Qed.

Lemma hash_typed : Forall typed hash_table.
Proof.
  each_command;
    unfold hset, hget, hmget, hgetall, hdel, hexists, hlen, hscan; refuse.
Qed.

Lemma bitmap_typed : Forall typed bitmap_table.
Proof. each_command; unfold setbit, getbit, bitcount; refuse. Qed.

Lemma stream_typed : Forall typed stream_table.
Proof. each_command; unfold xadd, xlen, xrange; refuse. Qed.

Lemma zset_typed order : Forall typed (zset_table order).
Proof.
  each_command;
    unfold zadd, zrange, zrevrange, zrange_gen, zrangebyscore, zrevrangebyscore, zrem, zrank, zrevrank, zrank_gen,
      zscore, zcard, zincrby; refuse.
Qed.

Lemma set_typed order : Forall typed (set_table order).
Proof.
  each_command;
    unfold sadd, srem, sismember, smembers, scard, sinter, sdiff, sunion; cbn [collect_metas mfold]; refuse.
Qed.

Lemma pop_refuses ctx k rest t left :
  t <> DList -> match rest with [n] => parse_text parse_u64 n <> Some 0 | _ => True end ->
  refused (fun d => holds_type d ctx k t) (pop ctx (k :: rest) left).
Proof.
  intros Ht Hn. unfold pop. cbv zeta. destruct rest as [|n [|n' rest]]; [unfold pop_one; refuse| |apply refused_throw].
  change (refused (fun d => holds_type d ctx k t) (count ← ListCmd.parse_usize n; pop_many ctx k count left)).
  unfold ListCmd.parse_usize. destruct (parse_text parse_u64 n) as [z|]; [|apply (refused_throw _ NotInteger)].
  change (refused (fun d => holds_type d ctx k t) (pop_many ctx k z left)). unfold pop_many.
  rewrite (proj2 (Z.eqb_neq _ _)) by congruence. refuse.
Qed.

Lemma list_typed : Forall typed list_table.
Proof.
  each_command; unfold lpush, rpush, push, lrange, lindex, llen; refuse;
    (apply pop_refuses; [done|]); unfold asks_nothing in Hn; cbn in Hn;
    by destruct rest as [|n [|]]; [done|apply bool_decide_eq_false in Hn|].
Qed.

End WrongType.

(** ** Through the table *)

Section Table.
Context {DB : Type} {RDB : RocksDB DB} {L : Type} {VM : LuaVM L} {LT : LuaTables} {X : Externals}.

Definition typed_table : list (string * DataType * (CommandContext -> list bytes -> M DB RespValue)) :=
  string_table ++ hash_table ++ list_table ++ set_table member_order ++ zset_table score_order
  ++ stream_table ++ bitmap_table.

Lemma typed_table_typed : Forall typed typed_table.
Proof.
  unfold typed_table. rewrite !Forall_app.
  split_and!; [apply string_typed|apply hash_typed|apply list_typed|apply set_typed|apply zset_typed
              |apply stream_typed|apply bitmap_typed].
Qed.

Lemma typed_table_registered e1 e2 :
  Forall (fun c => (c.1.1, on_storage (L:=L) c.2) ∈ all_commands e1 e2) typed_table.
Proof.
  unfold typed_table, all_commands, string_commands, admin_commands, hash_commands, list_commands, set_commands,
    zset_commands, stream_commands, bitmap_commands, pubsub_commands, lua_commands, cluster_commands. simpl app.
  repeat (apply Forall_cons_2; [cbn [fst snd]; repeat first [apply list_elem_of_here|apply list_elem_of_further]|]).
  apply Forall_nil_2.
Qed.

Lemma on_storage_fixed f cl args (s : Shared DB L) d r :
  f (command_context cl s) args d = (r, d) ->
  on_storage f cl args (set_storage d s) = (r, set_storage d s).
Proof.
  intros H. unfold on_storage, on_part. change (command_context cl (set_storage d s)) with (command_context cl s).
  change (sh_storage (set_storage d s)) with d. by rewrite H.
Qed.

(** C22: a command on the first key of its arguments refuses a key that holds a
    live value of another type: the reply is the WRONGTYPE error and nothing
    of the shared state changes, unless the arguments are such that the command
    fails in one and the same way on every database. *)
Theorem wrong_type_refused fuel cl cmd name t f k rest t' (s : Shared DB L) :
  (name, t, f) ∈ typed_table -> to_ascii_uppercase (from_utf8_lossy cmd) = bs name ->
  t' <> t -> asks_nothing name rest = false ->
  holds_type (sh_storage s) (command_context cl s) k t' ->
  dispatch (1 + fuel) cl cmd (k :: rest) s = (Ok (RError WRONGTYPE), s)
  \/ exists r, (forall v, r = Ok v -> exists msg, v = RError msg)
       /\ forall d, dispatch (1 + fuel) cl cmd (k :: rest) (set_storage d s) = (r, set_storage d s).
Proof.
  intros Hin Hcmd Ht Hn Hk.
  assert (typed (name, t, f)) as Hty by (by eapply Forall_forall in Hin; [|apply typed_table_typed]).
  assert (forall s1, dispatch (1 + fuel) cl cmd (k :: rest) s1 = reply_of (on_storage f cl (k :: rest)) s1) as Hd.
  { intros s1. apply (dispatch_registered _ _ _ name); [|done]. intros e1 e2.
    by eapply Forall_forall in Hin; [|apply (typed_table_registered e1 e2)]. }
  destruct (Hty (command_context cl s) k rest t' Ht Hn) as [H|(r & Hr & H)]; cbn [snd] in H.
  - left. rewrite Hd. unfold reply_of. rewrite <- (set_storage_same s) at 1 2.
    by rewrite (on_storage_fixed _ _ _ _ _ _ (H _ Hk)).
  - right. exists (match r with Err e => Ok (RError (format_error e)) | r => r end). split.
    + intros v. destruct r; intros [= <-]; [by destruct (Hr a)|by eexists].
    + intros d. rewrite Hd. unfold reply_of. rewrite (on_storage_fixed _ _ _ _ _ _ (H d)). by destruct r.
Qed.

End Table.

(** ** Concrete keys *)

Definition world_of (l : list (list bytes)) : Shared MemDB (list frame) :=
  foldl (fun s c => match c with cmd :: args => (dispatch 1 client0 cmd args s).2 | [] => s end) shared0 l.

Definition world_h : Shared MemDB (list frame) := world_of [[bs "HSET"; bs "h"; bs "f"; bs "v"]].

Lemma world_h_hash : holds_type (sh_storage world_h) (command_context client0 world_h) (bs "h") DHash.
Proof.
  split.
  - assert (sh_storage world_h = mkMemDB ALL_CFS (mem_data (sh_storage world_h))) as -> by (vm_compute; reflexivity).
    apply mem_wf.
  - eexists. split; [vm_compute; reflexivity|]. eexists. split; [vm_compute; reflexivity|]. by split.
Qed.

(** LPUSH on a hash. On the empty database the command succeeds, so the error
    is not one of its arguments. *)
Lemma wrong_type_refused_witness :
  dispatch 1 client0 (bs "lpush") [bs "h"; bs "x"] world_h = (Ok (RError WRONGTYPE), world_h).
Proof.
  destruct (wrong_type_refused 0 client0 (bs "lpush") "LPUSH" DList lpush (bs "h") [bs "x"] DHash world_h)
    as [H|(r & Hr & H)]; [..|exact H|].
  - unfold typed_table, string_table, hash_table, list_table. simpl app.
    repeat first [apply list_elem_of_here|apply list_elem_of_further].
  - vm_compute. reflexivity.
  - discriminate.
  - reflexivity.
  - exact world_h_hash.
  - specialize (H db0). apply (f_equal fst) in H. vm_compute in H. subst r.
    destruct (Hr (Integer 1) eq_refl) as [msg E]. discriminate E.
Defined.

(** LPOP and RPOP look at the count before the key: with the count 0 they
    reply an empty array for a hash. SDIFF skips later keys of another type
    (see [SetCmd.sdiff_ignores_wrong_type]). *)
Example pop_zero_ignores_type :
  map (fun c => (dispatch 1 client0 c [bs "h"; bs "0"] world_h).1) [bs "LPOP"; bs "RPOP"]
  = [Ok (Array []); Ok (Array [])]
  /\ (dispatch 1 client0 (bs "LPOP") [bs "h"; bs "1"] world_h).1 = Ok (RError WRONGTYPE).
Proof. vm_compute. split; reflexivity. Qed.
