(* ===== verification/Atomic.v ===== *)
(** * Commands are atomic

    Every command but DEL and FLUSHDB, and the scripts, writes to the database
    with one batch at most, as its last action: a command that fails, or
    panics, has changed nothing, and after a crash the database is the one
    before the command or the one after it, since a batch is applied as a
    whole. *)

From S2P Require Import Prelude Bytes Text Error Types Encoding Backend Storage Float Protocol Context Keyspace StringCmd HashCmd ListCmd SetCmd BitmapCmd Score ZSetCmd StreamCmd PubSub Cluster Config Admin Lua Readers Dispatch.

Local Open Scope Z_scope.

Section Single.
Context {DB : Type} {RDB : RocksDB DB}.

(** Changes nothing, or succeeds with a [good] result after one batch. *)
Definition single {A} (good : A -> Prop) (m : M DB A) : Prop := forall d,
  (m d).2 = d \/ exists a b, m d = (Ok a, db_write d b) /\ good a.

Definition any {A} (_ : A) : Prop := True.

(** Replies of a command that succeeded. *)
Definition no_error (v : RespValue) : Prop := forall msg, v <> RError msg.

Lemma single_readonly {A} good (m : M DB A) : readonly m -> single good m.
Proof. intros H d. left. apply H. Qed.

Lemma single_read {A B} good (m : M DB A) (f : A -> M DB B) :
  readonly m -> (forall a, single good (f a)) -> single good (m ≫= f).
Proof.
  intros Hm Hf d. specialize (Hm d). unfold mbind, M_bind. destruct (m d) as [[a|e| |] d']; cbn in *; subst; auto.
  apply Hf.
Qed.

(** After the batch only the reply is made. *)
Lemma single_reply {A B} (good : A -> Prop) (good' : B -> Prop) (m : M DB A) (f : A -> M DB B) :
  single good m -> (forall a d, good a -> exists v, f a d = (Ok v, d) /\ good' v) -> (forall a, readonly (f a)) ->
  single good' (m ≫= f).
Proof.
  intros Hm Hf Hr d. unfold mbind, M_bind. destruct (Hm d) as [H|(a & b & -> & Ha)].
  - left. destruct (m d) as [[a|e| |] d']; cbn in *; subst; try done. apply Hr.
  - right. destruct (Hf a (db_write d b) Ha) as (v & -> & Hv). eauto.
Qed.

Lemma single_write b : single any (write b : M DB unit).
Proof. intros d. right. exists tt, b. done. Qed.

Lemma single_put cf k v : single any (put cf k v : M DB unit).
Proof.
  unfold put. apply single_read; [eauto with ro|]. intros []. intros d. right. by exists tt, [PutCf cf k v].
Qed.

End Single.

#[export] Hint Resolve single_write single_put : single.

(** Shows a computation that reads, then writes a batch and replies, to be
    [single]. *)
Ltac single_step :=
  first
    [ progress intros
    | solve [eauto with single]
    | progress cbv zeta
    | solve [apply single_readonly; ro]
    | match goal with
      | |- single _ (mbind _ _) => apply single_read; [solve [ro]|]
      | |- single _ (mbind _ _) =>
          apply (single_reply any); [|solve [intros; eexists; split; [reflexivity|by intros ? [=] || done]]|solve [ro]]
      | |- single _ (match ?x with _ => _ end) => destruct x
      end ].
Ltac single := repeat single_step.

Section Commands.
Context {DB : Type} {RDB : RocksDB DB}.
Implicit Types (ctx : CommandContext) (args : list bytes).

Hint Resolve ro_read_string ro_read_expire ro_read_hash_meta ro_load_list_meta ro_read_set_metadata ro_parse_offset
  ro_read_bitmap_meta ro_read_fragment ro_read_zset_meta ro_stored_score ro_read_stream_meta ro_set_options : ro.

Lemma single_set ctx args : single no_error (StringCmd.set ctx args : M DB _).
Proof. unfold StringCmd.set, key_exists. single. Qed.
Lemma single_write_string ctx k v : single any (write_string ctx k v : M DB _).
Proof. unfold write_string. single. Qed.
Hint Resolve single_write_string : single.
Lemma single_mset ctx args : single no_error (mset ctx args : M DB _).
Proof. unfold mset. single. Qed.
Lemma single_incr_by ctx name delta args : single no_error (incr_by ctx name delta args : M DB _).
Proof. unfold incr_by. single. Qed.
Lemma single_append ctx args : single no_error (append ctx args : M DB _).
Proof. unfold append. single. Qed.
Lemma single_set_expire_ms ctx k e : single any (set_expire_ms ctx k e : M DB _).
Proof. unfold set_expire_ms. single. Qed.
Hint Resolve single_set_expire_ms : single.
Lemma single_expire ctx args : single no_error (expire ctx args : M DB _).
Proof. unfold expire. single. Qed.
Lemma single_pexpire ctx args : single no_error (pexpire ctx args : M DB _).
Proof. unfold pexpire. single. Qed.
Lemma single_persist ctx args : single no_error (persist ctx args : M DB _).
Proof. unfold persist, clear_expire. single. Qed.


(** ** Hashes, lists and sets *)

Lemma ro_ensure_hash_meta ctx k : readonly (ensure_hash_meta ctx k : M DB _).
Proof. unfold ensure_hash_meta. ro. Qed.
Lemma ro_hset_field ctx k st p : readonly (hset_field ctx k st p : M DB _).
Proof. unfold hset_field. ro. Qed.
Lemma ro_hdel_field ctx k st f : readonly (hdel_field ctx k st f : M DB _).
Proof. unfold hdel_field. ro. Qed.
Lemma ro_push_element ctx k lr st x : readonly (push_element ctx k lr st x : M DB _).
Proof. unfold push_element. ro. Qed.
Lemma ro_shrink ctx lr meta : readonly (shrink ctx lr meta : M DB _).
Proof. unfold shrink. ro. Qed.
Hint Resolve ro_ensure_hash_meta ro_hset_field ro_hdel_field ro_push_element ro_shrink : ro.
Lemma ro_pop_round ctx k lr st n : readonly (pop_round ctx k lr st n : M DB _).
Proof. unfold pop_round. ro. Qed.
Lemma ro_list_parse_usize s : readonly (ListCmd.parse_usize s : M DB _).
Proof. unfold ListCmd.parse_usize. ro. Qed.
Lemma ro_sadd_member ctx k meta st x : readonly (sadd_member ctx k meta st x : M DB _).
Proof. unfold sadd_member. ro. Qed.
Lemma ro_srem_member ctx k meta st x : readonly (srem_member ctx k meta st x : M DB _).
Proof. unfold srem_member. ro. Qed.
Hint Resolve ro_pop_round ro_list_parse_usize ro_sadd_member ro_srem_member : ro.

Lemma single_hset ctx args : single no_error (hset ctx args : M DB _).
Proof. unfold hset. single. Qed.
Lemma single_hdel ctx args : single no_error (hdel ctx args : M DB _).
Proof. unfold hdel. single. Qed.
Lemma single_push ctx args lr : single no_error (push ctx args lr : M DB _).
Proof. unfold push. single. Qed.
Lemma single_pop_one ctx k lr : single no_error (pop_one ctx k lr : M DB _).
Proof. unfold pop_one. single. Qed.
Lemma single_pop_many ctx k n lr : single no_error (pop_many ctx k n lr : M DB _).
Proof. unfold pop_many. single. Qed.
Hint Resolve single_pop_one single_pop_many : single.
Lemma single_pop ctx args lr : single no_error (pop ctx args lr : M DB _).
Proof. unfold pop. single. Qed.
Lemma single_sadd ctx args : single no_error (sadd ctx args : M DB _).
Proof. unfold sadd. single. Qed.
Lemma single_srem ctx args : single no_error (srem ctx args : M DB _).
Proof. unfold srem. single. Qed.

(** ** Sorted sets, bitmaps and streams *)

Lemma ro_ensure_zset_meta ctx k : readonly (ensure_zset_meta ctx k : M DB _).
Proof. unfold ensure_zset_meta, load_meta. ro. Qed.
Lemma ro_put_score ctx k w b x s : readonly (put_score ctx k w b x s : M DB _).
Proof. unfold put_score. ro. Qed.
Hint Resolve ro_ensure_zset_meta ro_put_score : ro.
Lemma ro_zadd_update ctx k flags st u : readonly (zadd_update ctx k flags st u : M DB _).
Proof. unfold zadd_update. ro. Qed.
Lemma ro_zrem_member ctx k st x : readonly (zrem_member ctx k st x : M DB _).
Proof. unfold zrem_member. ro. Qed.
Lemma ro_get_or_create ctx k : readonly (get_or_create_metadata ctx k : M DB _).
Proof. unfold get_or_create_metadata. ro. Qed.
Lemma ro_parse_bit s : readonly (parse_bit s : M DB _).
Proof. unfold parse_bit. ro. Qed.
Lemma ro_parse_operation s : readonly (parse_operation s : M DB _).
Proof. unfold parse_operation. ro. Qed.
Lemma ro_collect_source ctx st k : readonly (collect_source ctx st k : M DB _).
Proof. unfold collect_source. ro. Qed.
Lemma ro_combine_source ctx op i n st src : readonly (combine_source ctx op i n st src : M DB _).
Proof. unfold combine_source. ro. Qed.
Lemma ro_generate_id ctx spec meta : readonly (generate_id ctx spec meta : M DB _).
Proof. unfold generate_id. ro. Qed.
Hint Resolve ro_zadd_update ro_zrem_member ro_get_or_create ro_parse_bit ro_parse_operation ro_collect_source
  ro_combine_source ro_generate_id : ro.
Lemma ro_bitop_fragment ctx op k w srcs n b i : readonly (bitop_fragment ctx op k w srcs n b i : M DB _).
Proof. unfold bitop_fragment. ro. Qed.
Hint Resolve ro_bitop_fragment : ro.

Lemma single_zadd_incr ctx k flags meta a x : single no_error (zadd_incr ctx k flags meta a x : M DB _).
Proof. unfold zadd_incr. single. Qed.
Hint Resolve single_zadd_incr : single.
Lemma single_zadd ctx order args : single no_error (zadd ctx order args : M DB _).
Proof. unfold zadd. single. Qed.
Lemma single_zrem ctx args : single no_error (zrem ctx args : M DB _).
Proof. unfold zrem. single. Qed.
Lemma single_zincrby ctx args : single no_error (zincrby ctx args : M DB _).
Proof. unfold zincrby. single. Qed.
Lemma single_setbit ctx args : single no_error (setbit ctx args : M DB _).
Proof. unfold setbit. single. Qed.
Lemma single_bitop ctx args : single no_error (bitop ctx args : M DB _).
Proof. unfold bitop. single. Qed.
Lemma single_xadd ctx args : single no_error (xadd ctx args : M DB _).
Proof. unfold xadd. single. Qed.

End Commands.

(** ** Through the table *)

(** DEL works key by key, FLUSHDB page by page, and a script runs any number
    of commands. *)
Definition many_batches : list string := ["DEL"; "FLUSHDB"; "EVAL"; "EVALSHA"]%string.

Section Table.
Context {DB : Type} {RDB : RocksDB DB} {L : Type} {VM : LuaVM L} {LT : LuaTables} {X : Externals}.
Implicit Types s : Shared DB L.

(** The outcome left the database alone, or is a success after one batch. *)
Definition atomic_outcome s (x : outcome RespValue * Shared DB L) : Prop :=
  sh_storage x.2 = sh_storage s
  \/ exists v b, x.1 = Ok v /\ no_error v /\ sh_storage x.2 = db_write (sh_storage s) b.

Definition atomic_entry (c : string * (Client -> list bytes -> M (Shared DB L) RespValue)) : Prop :=
  c.1 ∉ many_batches -> forall cl args s, atomic_outcome s (c.2 cl args s).

Lemma atomic_storage name f : (forall ctx args, single no_error (f ctx args)) -> atomic_entry (name, on_storage f).
Proof.
  intros H _ cl args s. unfold atomic_outcome. cbn [snd]. unfold on_storage, on_part.
  destruct (H (command_context cl s) args (sh_storage s)) as [E|(v & b & E & Hv)].
  - left. destruct (f _ args (sh_storage s)) as [r d]. exact E.
  - right. rewrite E. by exists v, b.
Qed.

Lemma atomic_reader name f : frames Nothing f -> atomic_entry (name, f).
Proof. intros H _ cl args s. left. cbn [snd]. by rewrite (H cl args s). Qed.

Lemma atomic_part {P} name set (part : Shared DB L -> P) (f : Client -> list bytes -> M P RespValue) :
  (forall p s, sh_storage (set p s) = sh_storage s) -> atomic_entry (name, fun cl args => on_part part set (f cl args)).
Proof. intros H _ cl args s. left. cbn [snd]. unfold on_part. destruct (f cl args (part s)) as [r p]. apply H. Qed.

Lemma commands_single e1 e2 : Forall atomic_entry (all_commands e1 e2).
Proof.
  pose proof (commands_frame (L:=L) e1 e2) as Hf. unfold all_commands, string_commands, admin_commands, hash_commands,
    list_commands, set_commands, zset_commands, stream_commands, bitmap_commands, pubsub_commands, lua_commands,
    cluster_commands in *. simpl app in *.
  repeat (apply Forall_cons in Hf as [? Hf]; apply Forall_cons_2); try apply Forall_nil_2; cbn [fst snd] in *;
    first
      [ intros Hn; exfalso; apply Hn; apply (bool_decide_unpack _); vm_compute; exact I
      | apply atomic_reader; assumption
      | apply atomic_part; done
      | apply atomic_storage; intros ctx args ].
  all: first [ apply single_set | apply single_mset | apply single_incr_by | apply single_append | apply single_expire
             | apply single_pexpire | apply single_persist | apply single_hset | apply single_hdel | apply single_push
             | apply single_pop | apply single_sadd | apply single_srem | apply single_zadd | apply single_zrem
             | apply single_zincrby | apply single_setbit | apply single_bitop | apply single_xadd ].
Qed.

(** C3: commands are atomic. Whatever the arguments, a command other than DEL,
    FLUSHDB, EVAL and EVALSHA leaves the database as it is or changes it by one
    write batch, and only when it succeeds: an error reply, or a panic, means
    that nothing was written. *)
Theorem command_atomic fuel cl cmd args s :
  to_ascii_uppercase (from_utf8_lossy cmd) ∉ map bs many_batches ->
  let '(r, s') := dispatch (1 + fuel) cl cmd args s in
  sh_storage s' = sh_storage s
  \/ exists v b, r = Ok v /\ no_error v /\ sh_storage s' = db_write (sh_storage s) b.
Proof.
  intros Hn. change (dispatch (1 + fuel)) with
    (dispatch_in (new_table (eval (dispatch fuel) fuel) (evalsha (dispatch fuel) fuel))).
  unfold dispatch_in. cbv zeta. set (name := to_ascii_uppercase _) in *.
  destruct (table_cases (eval (dispatch fuel) fuel) (evalsha (dispatch fuel) fuel) name)
    as [[_ ->]|(c & Hc & Hk & ->)]; [by left|].
  pose proof (commands_single (eval (dispatch fuel) fuel) (evalsha (dispatch fuel) fuel)) as Ha.
  rewrite Forall_forall in Ha. specialize (Ha c Hc). rewrite (key_of_command _ _ c Hc) in Hk.
  specialize (Ha ltac:(intros Hin; apply Hn; rewrite <- Hk; by apply (list_elem_of_fmap_2 bs)) cl args s).
  unfold reply_of, atomic_outcome in *. destruct (c.2 cl args s) as [[v|e| |] s']; cbn [fst snd] in Ha; try done.
  left. destruct Ha as [Ha|(v & b & [=] & _)]. exact Ha.
Qed.

End Table.

(** ** Counting batches *)

Section Counting.
Context {DB : Type} {RDB : RocksDB DB}.

(** A database that counts the batches it was given. *)
#[export] Instance counting : RocksDB (DB * nat).
Proof.
  refine {|
    db_has_cf d := db_has_cf d.1; db_get d := db_get d.1; db_write d b := (db_write d.1 b, S d.2);
    db_seek d := db_seek d.1; db_seek_for_prev d := db_seek_for_prev d.1 |}; intros;
    [ apply db_write_has_cf | apply db_get_write | apply db_seek_sorted | apply db_seek_elem
    | apply db_seek_for_prev_sorted | apply db_seek_for_prev_elem ].
Defined.
End Counting.

Definition counted0 : Shared (MemDB * nat) (list frame) := server_bind config_default (db0, 0%nat) [] 1000 7.

Definition batches (l : list (list bytes)) (s : Shared (MemDB * nat) (list frame)) : Shared (MemDB * nat) (list frame) :=
  foldl (fun s c => match c with cmd :: args => (dispatch 1 client0 cmd args s).2 | [] => s end) s l.

(** HSET of two fields is one batch, and one that fails is none. *)
Lemma command_atomic_witness :
  let s := (dispatch 1 client0 (bs "hset") [bs "h"; bs "f"; bs "1"; bs "g"; bs "2"] counted0).2 in
  (sh_storage s).2 = 1%nat
  /\ (dispatch 1 client0 (bs "LPUSH") [bs "h"; bs "x"] s).1 = Ok (RError WRONGTYPE)
  /\ sh_storage (dispatch 1 client0 (bs "LPUSH") [bs "h"; bs "x"] s).2 = sh_storage s.
Proof.
  intros s. split; [vm_compute; reflexivity|].
  assert ((dispatch 1 client0 (bs "LPUSH") [bs "h"; bs "x"] s).1 = Ok (RError WRONGTYPE)) as E by (vm_compute; reflexivity).
  split; [exact E|].
  pose proof (command_atomic 0 client0 (bs "LPUSH") [bs "h"; bs "x"] s) as H. cbn [Nat.add] in H.
  destruct (dispatch 1 client0 (bs "LPUSH") [bs "h"; bs "x"] s) as [r s']. cbn [fst snd] in *. subst r.
  destruct H as [H|(v & b & [= <-] & Hv & _)]; [|exact H|by destruct (Hv WRONGTYPE)].
  apply (bool_decide_unpack _). vm_compute. exact I.
Defined.

(** DEL of a hash is two batches: between them the fields are gone and the
    size is still in the metadata. *)
Example del_two_batches :
  let s := batches [[bs "HSET"; bs "h"; bs "f"; bs "1"]] counted0 in
  (sh_storage (batches [[bs "DEL"; bs "h"]] s)).2 = 3%nat
  /\ (dispatch 1 client0 (bs "HLEN") [bs "h"]
        (set_storage (purge_subkeys ctx0 (bs "h") (new_version ctx0) false (sh_storage s)).2 s)).1 = Ok (Integer 1)
  /\ (dispatch 1 client0 (bs "HGETALL") [bs "h"]
        (set_storage (purge_subkeys ctx0 (bs "h") (new_version ctx0) false (sh_storage s)).2 s)).1 = Ok (Array []).
Proof. vm_compute. split_and!; reflexivity. Qed.
