(* ===== verification/Frame.v ===== *)
(** * What a command may change

    A command changes the keys it names and nothing else. The handlers are
    followed to their write batches: every operation of a batch is on the
    metadata or on a subkey of a named key. The readers and the errors of
    src/cmd/mod.rs come from the command table. *)

From S2P Require Import Prelude Bytes Text Error Types Encoding Backend Storage Float Protocol Context Keyspace StringCmd HashCmd ListCmd SetCmd BitmapCmd Score ZSetCmd StreamCmd PubSub Cluster Config Admin Lua Readers Dispatch Atomic.

Local Open Scope Z_scope.

(** ** Batches of allowed operations *)

(** The operations a value carries are allowed: a batch is its operations, a
    pair carries those of its components, other values none. *)
Class Carries (A : Type) := carries : (write_op -> Prop) -> A -> Prop.

#[export] Instance carries_batch : Carries WriteBatch | 1 := fun P b => Forall P b.
#[export] Instance carries_pair A B `{Carries A, Carries B} : Carries (A * B) | 1 :=
  fun P p => carries P p.1 /\ carries P p.2.
#[export] Instance carries_none A : Carries A | 10 := fun _ _ => True.

Section Inside.
Context {DB : Type} {RDB : RocksDB DB}.
Variable P : write_op -> Prop.
Implicit Types (d : DB) (b : WriteBatch).

(** Every change is made by batches of allowed operations, and so are the
    batches in the result. *)
Definition inside {A} `{Carries A} (m : M DB A) : Prop := forall d,
  (exists bs, Forall (Forall P) bs /\ (m d).2 = foldl db_write d bs)
  /\ forall a, (m d).1 = Ok a -> carries P a.

Lemma inside_readonly {A} `{Carries A} (m : M DB A) :
  readonly m -> (forall a, carries P a) -> inside m.
Proof. intros Hm Ha d. split; [exists []; split; [done|apply Hm]|by auto]. Qed.

Lemma inside_ret {A} `{Carries A} (a : A) : carries P a -> inside (mret a : M DB A).
Proof. intros Ha d. split; [by exists []|]. by intros ? [= <-]. Qed.

Lemma inside_throw {A} `{Carries A} e : inside (throw e : M DB A).
Proof. intros d. split; [by exists []|]. by intros ? [=]. Qed.

Lemma inside_panic {A} `{Carries A} : inside (panic : M DB A).
Proof. intros d. split; [by exists []|]. by intros ? [=]. Qed.

Lemma inside_fuel {A} `{Carries A} : inside (out_of_fuel : M DB A).
Proof. intros d. split; [by exists []|]. by intros ? [=]. Qed.

Lemma inside_bind {A B} `{Carries A, Carries B} (m : M DB A) (f : A -> M DB B) :
  inside m -> (forall a, carries P a -> inside (f a)) -> inside (m ≫= f).
Proof.
  intros Hm Hf d. unfold mbind, M_bind. destruct (Hm d) as [(bs & Hbs & Ed) Ha].
  destruct (m d) as [[a|e| |] d']; cbn [fst snd] in *; subst d'; try (split; [by exists bs|by intros ? [=]]).
  destruct (Hf a (Ha a eq_refl) (foldl db_write d bs)) as [(bs' & Hbs' & ->) Hb]. split; [|exact Hb].
  exists (bs ++ bs'). split; [by apply Forall_app|]. by rewrite foldl_app.
Qed.

Lemma inside_index {B} `{Carries B} (args : list bytes) i (f : bytes -> M DB B) :
  (forall k, args !! i = Some k -> inside (f k)) -> inside (index args i ≫= f).
Proof.
  intros Hf d. unfold index, mbind, M_bind. destruct (args !! i) as [k|] eqn:E; [by apply (Hf k eq_refl)|].
  split; [by exists []|by intros ? [=]].
Qed.

Lemma inside_mfold {A B} `{Carries A} (f : A -> B -> M DB A) (l : list B) : forall a,
  carries P a -> (forall a x, x ∈ l -> carries P a -> inside (f a x)) -> inside (mfold f a l).
Proof.
  induction l as [|x l IH]; intros a Ha Hf; cbn [mfold]; [by apply inside_ret|].
  apply inside_bind; [apply Hf; [by left|done]|]. intros a' Ha'. apply IH; [done|]. intros. apply Hf; [by right|done].
Qed.

Lemma inside_with_state {A} `{Carries A} (f : DB -> M DB A) : (forall d, inside (f d)) -> inside (with_state f).
Proof. intros Hf d. apply Hf. Qed.

Lemma inside_write b : Forall P b -> inside (write b : M DB unit).
Proof. intros Hb d. split; [exists [b]; split; [by constructor|done]|done]. Qed.

Lemma inside_cf_handle cf : inside (cf_handle cf : M DB unit).
Proof. apply inside_readonly; [apply ro_cf_handle|done]. Qed.

Lemma inside_put cf key v : P (PutCf cf key v) -> inside (put cf key v : M DB unit).
Proof. intros Hp. apply inside_bind; [apply inside_cf_handle|]. intros _ _. apply inside_write. by constructor. Qed.

Lemma inside_delete cf key : P (DeleteCf cf key) -> inside (Storage.delete cf key : M DB unit).
Proof. intros Hp. apply inside_bind; [apply inside_cf_handle|]. intros _ _. apply inside_write. by constructor. Qed.

Lemma inside_batch_put b cf key v :
  Forall P b -> P (PutCf cf key v) -> inside (batch_put b cf key v : M DB WriteBatch).
Proof.
  intros Hb Hp. apply inside_bind; [apply inside_cf_handle|]. intros _ _. apply inside_ret, Forall_app.
  split; [done|by constructor].
Qed.

Lemma inside_batch_delete b cf key :
  Forall P b -> P (DeleteCf cf key) -> inside (batch_delete b cf key : M DB WriteBatch).
Proof.
  intros Hb Hp. apply inside_bind; [apply inside_cf_handle|]. intros _ _. apply inside_ret, Forall_app.
  split; [done|by constructor].
Qed.

(** The pages of a prefix hold keys with the prefix. *)
Lemma page_prefix prefix s limit first (items : list kv) :
  Forall (fun x => starts_with prefix x.1 = true) (page_of prefix s limit first items).1.
Proof.
  assert (forall l n, Forall (fun x : kv => starts_with prefix x.1 = true) (take n (take_prefix prefix l))) as Ht.
  { intros l n. apply Forall_take. induction l as [|[k v] l IH]; cbn; [constructor|].
    destruct (starts_with prefix k) eqn:E; cbn; [by constructor|constructor]. }
  destruct first; [rewrite page_of_skip|]; rewrite page_of_spec; apply Ht.
Qed.

Lemma inside_page {B} `{Carries B} cf prefix start n (f : list kv * option bytes -> M DB B) :
  (forall items next, Forall (fun x : kv => starts_with prefix x.1 = true) items -> inside (f (items, next))) ->
  inside (prefix_scan_page cf prefix start n ≫= f).
Proof.
  intros Hf d. unfold prefix_scan_page, mbind, M_bind, cf_handle.
  destruct (db_has_cf d cf); [|split; [by exists []|by intros ? [=]]].
  destruct (capacity_overflow KV_SIZE n); [split; [by exists []|by intros ? [=]]|]. cbn [mret M_ret].
  unfold mret, M_ret, gets. set (page := page_of _ _ _ _ _). destruct page as [items next] eqn:E.
  apply Hf. unfold page in E. change items with (items, next).1. rewrite <- E. apply page_prefix.
Qed.

Lemma inside_delete_prefix cf prefix n :
  (forall s, P (DeleteCf cf (prefix ++ s))) -> inside (delete_prefix cf prefix n : M DB unit).
Proof.
  intros Hp. apply inside_bind; [apply inside_cf_handle|]. intros _ _. apply inside_with_state. intros d0.
  generalize (S (length (db_seek d0 cf prefix))). intros fuel. generalize (@nil byte).
  induction fuel as [|fuel IH]; intros start; [apply inside_fuel|]. cbn [delete_prefix_loop].
  apply inside_page. intros items next Hi. destruct items as [|x items]; [by apply inside_ret|].
  apply inside_bind.
  - apply inside_write. apply Forall_map. apply (Forall_impl _ _ _ Hi). intros [k v] [s ->]%starts_with_spec. apply Hp.
  - intros _ _. destruct next; [apply IH|by apply inside_ret].
Qed.

End Inside.

(** ** Operations on named keys *)

Section Owned.
Context {DB : Type} {RDB : RocksDB DB}.
Implicit Types (ctx : CommandContext) (keys : list bytes) (k : bytes).

(** The operation is on the metadata or on a subkey of one of the keys. *)
Definition owned ctx keys (o : write_op) : Prop :=
  exists k, k ∈ keys /\ (op_key o = (CF_METADATA, meta_key ctx k)
    \/ exists cf w f, cf <> CF_METADATA /\ op_key o = (cf, sub_key ctx k w f)).

Lemma own_meta ctx keys k o : k ∈ keys -> op_key o = (CF_METADATA, meta_key ctx k) -> owned ctx keys o.
Proof. intros Hk E. exists k. auto. Qed.

Lemma own_sub ctx keys k o cf w f :
  k ∈ keys -> cf <> CF_METADATA -> op_key o = (cf, sub_key ctx k w f) -> owned ctx keys o.
Proof. intros Hk Hcf E. exists k. split; [done|]. right. by exists cf, w, f. Qed.

Lemma own_sub_app ctx keys k cf w s :
  k ∈ keys -> cf <> CF_METADATA -> owned ctx keys (DeleteCf cf (sub_key ctx k w [] ++ s)).
Proof. intros Hk Hcf. rewrite <- sub_key_app. by eapply own_sub. Qed.

(** Whole entries of other keys, of any namespace, are as before. *)
Definition others_kept ctx keys (d d' : DB) : Prop :=
  Forall (short ctx) keys -> forall ctx' k', short ctx' k' -> (namespace ctx' = namespace ctx -> k' ∉ keys) ->
  db_get d' CF_METADATA (meta_key ctx' k') = db_get d CF_METADATA (meta_key ctx' k')
  /\ forall cf w f, cf <> CF_METADATA -> db_get d' cf (sub_key ctx' k' w f) = db_get d cf (sub_key ctx' k' w f).

Lemma key_image_inj ctx ctx' k k' s s' :
  short ctx k -> short ctx' k' -> meta_key ctx k ++ s = meta_key ctx' k' ++ s' ->
  namespace ctx' = namespace ctx /\ k' = k.
Proof.
  intros [H1 H2] [H3 H4] E. unfold meta_key in E.
  pose proof (namespace_app_inj _ _ _ _ _ _ H2 H4 H1 H3 E) as En. split; [done|]. rewrite En in E.
  apply metadata_key_app_inj in E as [? _]; [done|lia..].
Qed.

Lemma inside_others {A} `{Carries A} ctx keys (m : M DB A) d :
  inside (owned ctx keys) m -> others_kept ctx keys d (m d).2.
Proof.
  intros Hm Hks ctx' k' Hk' Hne. destruct (Hm d) as [(bs & Hbs & ->) _].
  assert (forall o, owned ctx keys o ->
    op_key o <> (CF_METADATA, meta_key ctx' k')
    /\ forall cf w f, cf <> CF_METADATA -> op_key o <> (cf, sub_key ctx' k' w f)) as Ho.
  { intros o (k & Hin & Hop). rewrite Forall_forall in Hks. pose proof (Hks k Hin) as Hk.
    assert (forall s s', meta_key ctx k ++ s <> meta_key ctx' k' ++ s') as Hd.
    { intros s s' E. destruct (key_image_inj ctx ctx' k k' s s' Hk Hk' E) as [En ->]. by apply Hne. }
    split.
    - intros E. destruct Hop as [Ho|(cf & w & f & Hcf & Ho)]; rewrite Ho in E; [|congruence].
      injection E as E. apply (Hd [] []). by rewrite !app_nil_r.
    - intros cf w f Hcf E. destruct Hop as [Ho|(cf' & w' & f' & Hcf' & Ho)]; rewrite Ho in E; [congruence|].
      injection E as _ E. by apply Hd in E. }
  clear Hm Hks. revert d. induction Hbs as [|b bs Hb _ IH]; intros d; [done|]. cbn [foldl].
  destruct (IH (db_write d b)) as [-> E2]. split.
  - rewrite db_get_write, batch_effect_frame; [done|]. apply (Forall_impl _ _ _ Hb). intros o. apply Ho.
  - intros cf w f Hcf. rewrite E2 by done. rewrite db_get_write, batch_effect_frame; [done|].
    apply (Forall_impl _ _ _ Hb). intros o Hoo. by apply Ho.
Qed.

End Owned.

(** Follows a handler to its batches. *)
Ltac own :=
  first
    [ eapply own_meta; [|reflexivity]; eauto with inside
    | eapply own_sub; [| |reflexivity]; [eauto with inside|done] ].

Ltac inside_step :=
  first
    [ progress intros
    | progress cbv zeta
    | match goal with
      | H : carries _ (_, _) |- _ => destruct H as [? ?]; cbn [fst snd] in *
      | H : carries _ ?p |- _ => is_var p; match type of p with (_ * _)%type => destruct p as [? ?] end
      | |- carries _ (_ ++ [_]) => apply Forall_app; split; [|apply Forall_singleton]
      | |- carries _ _ => first [assumption | exact I | split; cbn [fst snd] | exact (Forall_nil_2 _)]
      | |- Forall _ [] => exact (Forall_nil_2 _)
      | H : carries _ ?b |- Forall _ ?b => exact H
      | |- owned _ _ _ => solve [own]
      end
    | solve [eauto with inside]
    | solve [apply inside_readonly; [solve [ro]|solve [intros; repeat split]]]
    | match goal with
      | |- inside _ (mbind _ (index _ _)) => apply inside_index
      | |- inside _ (mbind _ _) => refine (inside_bind _ _ _ _ _)
      | |- inside _ (mret _) => apply inside_ret
      | |- inside _ (throw _) => apply inside_throw
      | |- inside _ panic => apply inside_panic
      | |- inside _ (write _) => apply inside_write
      | |- inside _ (put _ _ _) => apply inside_put
      | |- inside _ (Storage.delete _ _) => apply inside_delete
      | |- inside _ (batch_put _ _ _ _) => apply inside_batch_put
      | |- inside _ (batch_delete _ _ _) => apply inside_batch_delete
      | |- inside _ (delete_prefix _ _ _) => apply inside_delete_prefix; intros; apply own_sub_app; [assumption|done]
      | |- inside _ (mfold _ _ _) => refine (inside_mfold _ _ _ _ _ _)
      | |- inside _ (match (match ?x with _ => _ end) with _ => _ end) => destruct x
      | |- inside _ (match ?x with _ => _ end) => destruct x
      end ].
Ltac inside := repeat inside_step.

Create HintDb inside.

Section Handlers.
Context {DB : Type} {RDB : RocksDB DB}.
Implicit Types (ctx : CommandContext) (args keys : list bytes).

Hint Resolve ro_read_string ro_read_expire ro_read_hash_meta ro_load_list_meta ro_read_set_metadata ro_parse_offset
  ro_read_bitmap_meta ro_read_fragment ro_read_zset_meta ro_stored_score ro_read_stream_meta ro_set_options
  ro_ensure_hash_meta ro_shrink ro_list_parse_usize ro_ensure_zset_meta ro_get_or_create ro_parse_bit
  ro_parse_operation ro_collect_source ro_combine_source ro_generate_id : ro.

Lemma first_key args k : args !! 0%nat = Some k -> k ∈ take 1 args.
Proof. destruct args; intros [= ->]. by left. Qed.
Lemma pair_key args p : p ∈ pairs args -> p.1 ∈ (pairs args).*1.
Proof. apply (list_elem_of_fmap_2 fst). Qed.
Lemma second_key args k : args !! 1%nat = Some k -> k ∈ take 1 (drop 1 args).
Proof. destruct args as [|a [|b args]]; intros [= ->]. by left. Qed.
Hint Resolve first_key pair_key second_key : inside.

Lemma inside_set ctx args : inside (owned ctx (take 1 args)) (StringCmd.set ctx args : M DB _).
Proof. unfold StringCmd.set, key_exists. inside. Qed.
Lemma inside_mset ctx args : inside (owned ctx (pairs args).*1) (mset ctx args : M DB _).
Proof. unfold mset. inside. Qed.
Lemma inside_incr_by ctx name delta args : inside (owned ctx (take 1 args)) (incr_by ctx name delta args : M DB _).
Proof. unfold incr_by, write_string. inside. Qed.
Lemma inside_append ctx args : inside (owned ctx (take 1 args)) (append ctx args : M DB _).
Proof. unfold append, write_string. inside. Qed.
Lemma inside_expire ctx args : inside (owned ctx (take 1 args)) (expire ctx args : M DB _).
Proof. unfold expire, set_expire_ms. inside. Qed.
Lemma inside_pexpire ctx args : inside (owned ctx (take 1 args)) (pexpire ctx args : M DB _).
Proof. unfold pexpire, set_expire_ms. inside. Qed.
Lemma inside_persist ctx args : inside (owned ctx (take 1 args)) (persist ctx args : M DB _).
Proof. unfold persist, clear_expire, set_expire_ms. inside. Qed.
Lemma inside_del ctx args : inside (owned ctx args) (del ctx args : M DB _).
Proof. unfold del, del_one, purge_subkeys. inside. Qed.
Lemma inside_hset ctx args : inside (owned ctx (take 1 args)) (hset ctx args : M DB _).
Proof. unfold hset, hset_field. inside. Qed.
Lemma inside_hdel ctx args : inside (owned ctx (take 1 args)) (hdel ctx args : M DB _).
Proof. unfold hdel, hdel_field. inside. Qed.
Lemma inside_push ctx args lr : inside (owned ctx (take 1 args)) (push ctx args lr : M DB _).
Proof. unfold push, push_element. inside. Qed.
Lemma inside_pop ctx args lr : inside (owned ctx (take 1 args)) (pop ctx args lr : M DB _).
Proof. unfold pop, pop_one, pop_many, pop_round. inside. Qed.
Lemma inside_sadd ctx args : inside (owned ctx (take 1 args)) (sadd ctx args : M DB _).
Proof. unfold sadd, sadd_member. inside. Qed.
Lemma inside_srem ctx args : inside (owned ctx (take 1 args)) (srem ctx args : M DB _).
Proof. unfold srem, srem_member. inside. Qed.
Lemma inside_zadd ctx order args : inside (owned ctx (take 1 args)) (zadd ctx order args : M DB _).
Proof. unfold zadd, zadd_incr, zadd_update, put_score, member_subkey, score_subkey. inside. Qed.
Lemma inside_zrem ctx args : inside (owned ctx (take 1 args)) (zrem ctx args : M DB _).
Proof. unfold zrem, zrem_member, member_subkey, score_subkey. inside. Qed.
Lemma inside_zincrby ctx args : inside (owned ctx (take 1 args)) (zincrby ctx args : M DB _).
Proof. unfold zincrby, put_score, member_subkey, score_subkey. inside. Qed.
Lemma inside_setbit ctx args : inside (owned ctx (take 1 args)) (setbit ctx args : M DB _).
Proof. unfold setbit. inside. Qed.
Lemma inside_bitop ctx args : inside (owned ctx (take 1 (drop 1 args))) (bitop ctx args : M DB _).
Proof. unfold bitop, bitop_fragment. inside. Qed.
Lemma inside_xadd ctx args : inside (owned ctx (take 1 args)) (xadd ctx args : M DB _).
Proof. unfold xadd. inside. Qed.

End Handlers.

(** ** Through the table *)

(** The commands that write the keys they name. *)
Definition key_writers : list string :=
  ["SET"; "MSET"; "DEL"; "INCR"; "DECR"; "APPEND"; "EXPIRE"; "PEXPIRE"; "PERSIST"; "HSET"; "HDEL"; "LPUSH"; "RPUSH";
   "LPOP"; "RPOP"; "SADD"; "SREM"; "ZADD"; "ZREM"; "ZINCRBY"; "XADD"; "SETBIT"; "BITOP"]%string.

(** The keys a command may write: all of DEL, every other argument of MSET, the
    destination of BITOP, the first argument of the others. *)
Definition written_keys (name : bytes) (args : list bytes) : list bytes :=
  if bool_decide (name = bs "DEL") then args
  else if bool_decide (name = bs "MSET") then (pairs args).*1
  else if bool_decide (name = bs "BITOP") then take 1 (drop 1 args)
  else take 1 args.

(** Commands the README lists although no module registers them. *)
Definition listed_only : list string := ["SPOP"; "CONFIG"; "FLUSHALL"; "PSUBSCRIBE"; "PUNSUBSCRIBE"]%string.

Section Table.
Context {DB : Type} {RDB : RocksDB DB} {L : Type} {VM : LuaVM L} {LT : LuaTables} {X : Externals}.
Implicit Types s : Shared DB L.

Definition key_entry (c : string * (Client -> list bytes -> M (Shared DB L) RespValue)) : Prop :=
  c.1 ∈ key_writers -> forall cl args s,
  others_kept (command_context cl s) (written_keys (bs c.1) args) (sh_storage s) (sh_storage (c.2 cl args s).2).

Lemma key_entry_storage name f :
  (forall ctx args, inside (owned ctx (written_keys (bs name) args)) (f ctx args)) -> key_entry (name, on_storage f).
Proof.
  intros H _ cl args s. cbn [fst snd]. unfold on_storage, on_part.
  pose proof (inside_others _ _ _ (sh_storage s) (H (command_context cl s) args)) as Ho.
  by destruct (f (command_context cl s) args (sh_storage s)) as [r d].
Qed.

Lemma commands_keep e1 e2 : Forall key_entry (all_commands e1 e2).
Proof.
  unfold all_commands, string_commands, admin_commands, hash_commands, list_commands, set_commands, zset_commands,
    stream_commands, bitmap_commands, pubsub_commands, lua_commands, cluster_commands. simpl app.
  repeat (apply Forall_cons_2; [|]); try apply Forall_nil_2;
    first
      [ intros Hn; exfalso; revert Hn; apply (bool_decide_unpack _); vm_compute; exact I
      | apply key_entry_storage; intros ctx args ].
  all: first [ apply inside_set | apply inside_mset | apply inside_del | apply inside_incr_by | apply inside_append
             | apply inside_expire | apply inside_pexpire | apply inside_persist | apply inside_hset | apply inside_hdel
             | apply inside_push | apply inside_pop | apply inside_sadd | apply inside_srem | apply inside_zadd
             | apply inside_zrem | apply inside_zincrby | apply inside_setbit | apply inside_bitop | apply inside_xadd ].
Qed.

Lemma named_elem name (l : list string) : named name l = true <-> name ∈ map bs l.
Proof.
  unfold named. rewrite existsb_exists. split.
  - intros (n & Hn & <-%bool_decide_eq_true). apply (list_elem_of_fmap_2 bs). by apply list_elem_of_In.
  - intros (n & -> & Hn)%list_elem_of_fmap. exists n. split; [by apply list_elem_of_In|by apply bool_decide_eq_true].
Qed.

(** The command table on a writer. *)
Lemma dispatch_keeps_others fuel cl cmd args s :
  let name := to_ascii_uppercase (from_utf8_lossy cmd) in
  name ∈ map bs key_writers ->
  others_kept (command_context cl s) (written_keys name args) (sh_storage s)
    (sh_storage (dispatch (1 + fuel) cl cmd args s).2).
Proof.
  intros name Hw. change (dispatch (1 + fuel)) with
    (dispatch_in (new_table (eval (dispatch fuel) fuel) (evalsha (dispatch fuel) fuel))).
  unfold dispatch_in. cbv zeta. fold name.
  destruct (table_cases (eval (dispatch fuel) fuel) (evalsha (dispatch fuel) fuel) name)
    as [[_ ->]|(c & Hc & Hk & ->)]; [done|]. rewrite reply_state.
  pose proof (commands_keep (eval (dispatch fuel) fuel) (evalsha (dispatch fuel) fuel)) as Ha.
  rewrite Forall_forall in Ha. specialize (Ha c Hc). rewrite (key_of_command _ _ c Hc) in Hk. rewrite <- Hk.
  apply Ha. rewrite <- Hk in Hw. apply list_elem_of_fmap in Hw as (n & En & Hn).
  assert (c.1 = n) as ->; [|done]. unfold bs in En.
  rewrite <- (String.string_of_list_byte_of_string c.1), <- (String.string_of_list_byte_of_string n). by f_equal.
Qed.

(** C21: what a command may change. A command that reads leaves the whole
    shared state as it is. A command that writes keys changes nothing but the
    database, and there no entry of a key it does not name, in its namespace or
    any other, provided the named keys are shorter than 16 MiB: it names its
    first argument, MSET every other argument, DEL all of them and BITOP its
    destination. A name that is not registered, and that the README does not
    list either, changes nothing and is refused. An error of a handler becomes
    a reply (a panic does not). More fuel changes nothing once a dispatch has
    enough. *)
Theorem dispatch_frame fuel more cl cmd args s :
  let name := to_ascii_uppercase (from_utf8_lossy cmd) in
  let '(r, s') := dispatch (1 + fuel) cl cmd args s in
  (name ∈ map bs readers -> s' = s)
  /\ (name ∈ map bs key_writers ->
      s' = set_storage (sh_storage s') s
      /\ others_kept (command_context cl s) (written_keys name args) (sh_storage s) (sh_storage s'))
  /\ (name ∉ map bs (command_names ++ listed_only) ->
      s' = s /\ r = Ok (RError (bs "ERR unknown command '" ++ name ++ bs "'")))
  /\ (forall e, r <> Err e)
  /\ (r <> OutOfFuel -> dispatch (1 + fuel + more) cl cmd args s = (r, s')).
Proof.
  pose proof (dispatch_cases fuel cl cmd args s) as H. pose proof (dispatch_keeps_others fuel cl cmd args s) as Ho.
  pose proof (dispatch_better (1 + fuel) (1 + fuel + more) ltac:(lia) cl cmd args s) as Hb.
  cbv zeta in *. destruct (dispatch (1 + fuel) cl cmd args s) as [r s']. cbn [snd] in Ho.
  destruct H as (H1 & H2 & H3). set (name := to_ascii_uppercase (from_utf8_lossy cmd)) in *. split_and!.
  - intros Hr%named_elem. unfold footprint_of in H1. by rewrite Hr in H1.
  - intros Hw. split; [|by apply Ho]. clear -H1 Hw. apply list_elem_of_fmap in Hw as (n & En & Hn). rewrite En in H1.
    assert (Forall (fun n => footprint_of (bs n) = OnStorage) key_writers) as Hf by (repeat constructor).
    rewrite Forall_forall in Hf. by rewrite (Hf n Hn) in H1.
  - intros Hn. rewrite map_app, not_elem_of_app in Hn. destruct Hn as [Hn _]. split; [|by apply H3].
    by rewrite footprint_unknown in H1.
  - exact H2.
  - exact Hb.
Qed.

End Table.

(** A hash is written beside a string. *)
Lemma dispatch_frame_witness :
  let s := (dispatch 1 client0 (bs "SET") [bs "k"; bs "v"] shared0).2 in
  let s' := (dispatch 1 client0 (bs "hset") [bs "h"; bs "f"; bs "1"] s).2 in
  db_get (sh_storage s') CF_METADATA (meta_key ctx0 (bs "k"))
  = db_get (sh_storage s) CF_METADATA (meta_key ctx0 (bs "k")).
Proof.
  intros s s'. pose proof (dispatch_frame 0 0 client0 (bs "hset") [bs "h"; bs "f"; bs "1"] s) as H.
  unfold s'. clearbody s. clear s'. cbn [Nat.add] in H. cbv zeta in H.
  destruct (dispatch 1 client0 (bs "hset") [bs "h"; bs "f"; bs "1"] s) as [r s2]. cbn [snd].
  destruct H as (_ & H & _).
  destruct H as [_ Ho]; [apply (bool_decide_unpack _); vm_compute; exact I|].
  refine (proj1 (Ho _ ctx0 (bs "k") _ _)).
  - apply Forall_singleton. split; vm_compute; reflexivity.
  - split; vm_compute; reflexivity.
  - intros _. apply (bool_decide_unpack _). vm_compute. exact I.
Defined.
