(* ===== verification/StoreSpec.v ===== *)
(** * The store a client sees

    An abstract key-value store: a finite map from keys to values of six
    types, and what each command replies and does to it. [Store] proves that
    the command table over a database refines it. *)

From S2P Require Import Prelude Bytes Text Error Types Float Protocol Context Keyspace HashCmd ListCmd Score ZSetCmd ZSetWrites BitmapCmd.

Local Open Scope Z_scope.

Inductive value :=
  | VString (p : bytes)
  | VHash (m : gmap bytes bytes)
  | VList (l : list bytes)
  | VSet (X : gset bytes)
  | VZSet (m : gmap bytes f64)
  | VBitmap (n B : Z).

Abbreviation store := (gmap bytes value).

(** A request. Numbers are given as numbers, scores as the text sent. *)
Inductive op :=
  | OGet (k : bytes) | OSet (k v : bytes) | ODel (ks : list bytes) | OExists (ks : list bytes)
  | OIncr (k : bytes) | ODecr (k : bytes) | OAppend (k v : bytes)
  | OHSet (k : bytes) (l : list (bytes * bytes)) | OHGet (k f : bytes) | OHDel (k : bytes) (fs : list bytes)
  | OHExists (k f : bytes) | OHLen (k : bytes)
  | OPush (left : bool) (k : bytes) (xs : list bytes) | OPop (left : bool) (k : bytes)
  | OLIndex (k : bytes) (i : Z) | OLLen (k : bytes)
  | OSAdd (k : bytes) (xs : list bytes) | OSRem (k : bytes) (xs : list bytes) | OSIsMember (k x : bytes)
  | OSCard (k : bytes)
  | OZAdd (k score x : bytes) | OZRem (k : bytes) (xs : list bytes) | OZScore (k x : bytes) | OZCard (k : bytes)
  | OSetBit (k : bytes) (o : Z) (v : bool) | OGetBit (k : bytes) (o : Z).

(** The words of a request as they are sent. *)
Definition op_name (o : op) : string :=
  match o with
  | OGet _ => "GET" | OSet _ _ => "SET" | ODel _ => "DEL" | OExists _ => "EXISTS" | OIncr _ => "INCR"
  | ODecr _ => "DECR" | OAppend _ _ => "APPEND" | OHSet _ _ => "HSET" | OHGet _ _ => "HGET" | OHDel _ _ => "HDEL"
  | OHExists _ _ => "HEXISTS" | OHLen _ => "HLEN" | OPush true _ _ => "LPUSH" | OPush false _ _ => "RPUSH"
  | OPop true _ => "LPOP" | OPop false _ => "RPOP" | OLIndex _ _ => "LINDEX" | OLLen _ => "LLEN" | OSAdd _ _ => "SADD"
  | OSRem _ _ => "SREM" | OSIsMember _ _ => "SISMEMBER" | OSCard _ => "SCARD" | OZAdd _ _ _ => "ZADD"
  | OZRem _ _ => "ZREM" | OZScore _ _ => "ZSCORE" | OZCard _ => "ZCARD" | OSetBit _ _ _ => "SETBIT"
  | OGetBit _ _ => "GETBIT"
  end.

Definition op_args (o : op) : list bytes :=
  match o with
  | OGet k | OIncr k | ODecr k | OHLen k | OPop _ k | OLLen k | OSCard k | OZCard k => [k]
  | OSet k v | OAppend k v => [k; v]
  | ODel ks | OExists ks => ks
  | OHSet k l => k :: flatten l
  | OHGet k f | OHExists k f => [k; f]
  | OHDel k xs | OPush _ k xs | OSAdd k xs | OSRem k xs | OZRem k xs => k :: xs
  | OLIndex k i => [k; show_Z i]
  | OSIsMember k x | OZScore k x => [k; x]
  | OZAdd k score x => [k; score; x]
  | OSetBit k o v => [k; show_Z o; bit_arg v]
  | OGetBit k o => [k; show_Z o]
  end.

(** ** The values as the types of commands see them: an absent key is empty *)

Definition as_string (o : option value) : option (option bytes) :=
  match o with None => Some None | Some (VString p) => Some (Some p) | _ => None end.
Definition as_hash (o : option value) : option (gmap bytes bytes) :=
  match o with None => Some ∅ | Some (VHash m) => Some m | _ => None end.
Definition as_list (o : option value) : option (list bytes) :=
  match o with None => Some [] | Some (VList l) => Some l | _ => None end.
Definition as_set (o : option value) : option (gset bytes) :=
  match o with None => Some ∅ | Some (VSet X) => Some X | _ => None end.
Definition as_zset (o : option value) : option (gmap bytes f64) :=
  match o with None => Some ∅ | Some (VZSet m) => Some m | _ => None end.
Definition as_bitmap (o : option value) : option (Z * Z) :=
  match o with None => Some (0, 0) | Some (VBitmap n B) => Some (n, B) | _ => None end.

(** ** What a request does *)

Section Step.
Variable S : store.

(** Replies from the value of a key and stores a new one, or refuses a value
    of another type. *)
Definition on_key {A} (view : option value -> option A) (k : bytes) (f : A -> RespValue * option value)
  : RespValue * store :=
  match view (S !! k) with
  | None => (RError WRONGTYPE, S)
  | Some a => let '(r, w) := f a in (r, match w with Some v => <[k:=v]> S | None => S end)
  end.

(** A change of a value that does not create a key. *)
Definition if_present (k : bytes) (v : value) : option value :=
  match S !! k with Some _ => Some v | None => None end.

(** INCR and DECR. *)
Definition counted (delta : Z) (o : option bytes) : RespValue * option value :=
  match (match o with Some p => parse_text parse_i64 p | None => Some 0 end) with
  | None => (RError (format_error NotInteger), None)
  | Some z =>
      if is_i64 (z + delta) then (Integer (z + delta), Some (VString (show_Z (z + delta))))
      else (RError (format_error OutOfRange), None)
  end.

(** ZADD of one member without options: an equal score is left as it is. *)
Definition scored_with (m : gmap bytes f64) (x : bytes) (s : f64) : gmap bytes f64 :=
  match m !! x with
  | Some o => if f64_eqb o s then m else <[x:=s]> m
  | None => <[x:=s]> m
  end.

Definition op_step (o : op) : RespValue * store :=
  match o with
  | OGet k => on_key as_string k (fun p => (BulkString p, None))
  | OSet k v => (OK, <[k:=VString v]> S)
  | ODel ks =>
      (Integer (Z.of_nat (size (filter (fun k => is_Some (S !! k)) (list_to_set ks : gset bytes)))),
       filter (fun kv => kv.1 ∉ ks) S)
  | OExists ks => (Integer (Z.of_nat (length (filter (fun k => is_Some (S !! k)) ks))), S)
  | OIncr k => on_key as_string k (counted 1)
  | ODecr k => on_key as_string k (counted (-1))
  | OAppend k v => on_key as_string k (fun p =>
      let p := default [] p ++ v in (Integer (wrap_i64 (blen p)), Some (VString p)))
  | OHSet k l => on_key as_hash k (fun m => (Integer (count_new m l), Some (VHash (assign_all m l))))
  | OHGet k f => on_key as_hash k (fun m => (BulkString (m !! f), None))
  | OHDel k fs => on_key as_hash k (fun m =>
      (Integer (count_present m fs), if_present k (VHash (remove_all m fs))))
  | OHExists k f => on_key as_hash k (fun m => (Integer (if decide (is_Some (m !! f)) then 1 else 0), None))
  | OHLen k => on_key as_hash k (fun m => (Integer (Z.of_nat (size m)), None))
  | OPush lr k xs => on_key as_list k (fun l =>
      let l := push_all lr l xs in (Integer (Z.of_nat (length l)), Some (VList l)))
  | OPop lr k => on_key as_list k (fun l =>
      (BulkString (head (side lr l)), if_present k (VList (rest_list lr l 1))))
  | OLIndex k i => on_key as_list k (fun l => (BulkString (list_index l i), None))
  | OLLen k => on_key as_list k (fun l => (Integer (Z.of_nat (length l)), None))
  | OSAdd k xs => on_key as_set k (fun X =>
      (Integer (Z.of_nat (size ((list_to_set xs : gset bytes) ∖ X))), Some (VSet (X ∪ list_to_set xs))))
  | OSRem k xs => on_key as_set k (fun X =>
      (Integer (Z.of_nat (size ((list_to_set xs : gset bytes) ∩ X))), if_present k (VSet (X ∖ list_to_set xs))))
  | OSIsMember k x => on_key as_set k (fun X => (Integer (if decide (x ∈ X) then 1 else 0), None))
  | OSCard k => on_key as_set k (fun X => (Integer (Z.of_nat (size X)), None))
  | OZAdd k score x => on_key as_zset k (fun m =>
      match parse_score score with
      | Ok s => (Integer (if decide (is_Some (m !! x)) then 0 else 1), Some (VZSet (scored_with m x s)))
      | _ => (nil_reply, None)
      end)
  | OZRem k xs => on_key as_zset k (fun m =>
      (Integer (Z.of_nat (size m - size (without m xs))), if_present k (VZSet (without m xs))))
  | OZScore k x => on_key as_zset k (fun m => (BulkString (format_score <$> m !! x), None))
  | OZCard k => on_key as_zset k (fun m => (Integer (Z.of_nat (size m)), None))
  | OSetBit k o v => on_key as_bitmap k (fun nB =>
      (Integer (Z.b2z (Z.testbit nB.2 o)),
       Some (VBitmap (Z.max nB.1 (o / 8 + 1)) (if v then Z.setbit nB.2 o else Z.clearbit nB.2 o))))
  | OGetBit k o => on_key as_bitmap k (fun nB => (Integer (Z.b2z (Z.testbit nB.2 o)), None))
  end.

End Step.

(** The requests of a session, one after the other. *)
Fixpoint op_steps (ops : list op) (S : store) : list RespValue * store :=
  match ops with
  | [] => ([], S)
  | o :: ops =>
      let '(r, S1) := op_step S o in
      let '(rs, S2) := op_steps ops S1 in
      (r :: rs, S2)
  end.

(** ** Well-formed requests *)

(** The keys of a request. *)
Definition op_keys (o : op) : list bytes :=
  match o with
  | ODel ks | OExists ks => ks
  | OGet k | OSet k _ | OIncr k | ODecr k | OAppend k _ | OHSet k _ | OHGet k _ | OHDel k _ | OHExists k _ | OHLen k
  | OPush _ k _ | OPop _ k | OLIndex k _ | OLLen k | OSAdd k _ | OSRem k _ | OSIsMember k _ | OSCard k | OZAdd k _ _
  | OZRem k _ | OZScore k _ | OZCard k | OSetBit k _ _ | OGetBit k _ => [k]
  end.

(** Arguments a client sends: at least one key, element or pair, fields and
    removed members given once, scores and numbers that are such. *)
Definition op_args_ok (o : op) : Prop :=
  match o with
  | ODel ks | OExists ks => ks <> [] /\ Z.of_nat (length ks) <= i64_max
  | OHSet k l => l <> [] /\ NoDup l.*1
  | OHDel k fs => fs <> [] /\ NoDup fs /\ Z.of_nat (length fs) <= i64_max
  | OPush _ k xs | OSAdd k xs => xs <> []
  | OSRem k xs => xs <> [] /\ Z.of_nat (length xs) <= i64_max
  | OZRem k xs => xs <> [] /\ NoDup xs /\ Z.of_nat (length xs) <= i64_max
  | OLIndex k i => is_i64 i = true
  | OZAdd k score x =>
      parse_zadd_flags [score; x] = Ok (no_flags, 0%nat) /\ exists s, parse_score score = Ok s /\ number s
  | OSetBit k o _ | OGetBit k o => is_u64 o = true
  | _ => True
  end.

Definition op_ok (o : op) : Prop := Forall (fun k => blen k < 2 ^ 24) (op_keys o) /\ op_args_ok o.

(** How much larger a request can make a value. *)
Definition op_cost (o : op) : Z :=
  match o with
  | OHSet _ l => Z.of_nat (length l)
  | OPush _ _ xs | OSAdd _ xs => Z.of_nat (length xs)
  | OZAdd _ _ _ => 1
  | _ => 0
  end.

(** ** An example *)

Example steps_example :
  (op_steps [OSet (bs "a") (bs "4"); OIncr (bs "a"); OHSet (bs "h") [(bs "f", bs "1"); (bs "g", bs "2")];
             OHDel (bs "h") [bs "f"; bs "x"]; OHLen (bs "h"); OIncr (bs "h"); OPush true (bs "l") [bs "x"; bs "y"];
             OPop false (bs "l"); OLLen (bs "l"); ODel [bs "a"; bs "l"; bs "a"]; OExists [bs "a"; bs "h"; bs "h"]] ∅).1
  = [OK; Integer 5; Integer 2; Integer 1; Integer 1; RError WRONGTYPE; Integer 2; bulk (bs "x"); Integer 1;
     Integer 2; Integer 2].
Proof. vm_compute. reflexivity. Qed.
