(* ===== verification/Store.v ===== *)
(** * The command table refines the abstract store

    A database represents a store ([StoreSpec]) when the metadata and subkeys
    of every key are those of its value. Every request, run by the command
    table on such a database, replies what the abstract step replies and
    leaves a database that represents the abstract result; so do sessions. The
    versions drawn for new keys are assumed to be different, as their comment
    in the code promises. *)

From S2P Require Import Prelude Bytes Text Error Types Encoding Backend Storage Float Protocol Context Keyspace StringCmd HashCmd ListCmd SetCmd BitmapCmd Score ZSetCmd ZSetIndex ZSetProps ZSetWrites PubSub Cluster Config Admin Lua Dispatch WrongType StoreSpec.

Local Open Scope Z_scope.

(** ** Representation *)

Section Repr.
Context {DB : Type} {RDB : RocksDB DB}.
Implicit Types (d : DB) (ctx : CommandContext) (k : bytes) (S : store) (U : gset Z) (v : value).

(** A context without a namespace; the representation depends on nothing else
    of a context. *)
Definition base : CommandContext := mkContext [] 0 0 false 0.

(** The key holds the metadata [meta] of a value that does not expire and is
    not larger than [N]. *)
Definition composite_value (N : Z) d ctx k (meta : Metadata) v : Prop :=
  match v with
  | VString _ => False
  | VHash m => hash_at 0 d ctx k meta m /\ Z.of_nat (size m) <= N
  | VList l => list_at N 0 d ctx k meta l
  | VSet X => set_at 0 d ctx k meta X /\ Z.of_nat (size X) <= N
  | VZSet m => zset_at 0 d ctx k meta m /\ Z.of_nat (size m) <= N
  | VBitmap n B => sized n B /\ bitmap_at 0 d ctx k meta n B
  end.

(** The key represents a value, or nothing; versions come from [U]. *)
Definition key_repr U (N : Z) d ctx k (o : option value) : Prop :=
  match o with
  | None => meta_at d ctx k = None
  | Some (VString p) => meta_at d ctx k = Some (encode_string STRING_FLAGS 0 p)
  | Some v => exists meta, composite_value N d ctx k meta v /\ md_version meta ∈ U
  end.

(** The database represents the store. Subkeys without an owner may remain,
    but only under versions that were drawn before. *)
Record store_repr U (N : Z) d S : Prop := {
  sr_wf : wf_db d;
  sr_bound : 0 <= N;
  sr_keys k : short base k -> key_repr U N d base k (S !! k);
  sr_used k w f cf : short base k -> is_u64 w = true -> cf <> CF_METADATA ->
    db_get d cf (sub_key base k w f) <> None -> w ∈ U }.

Definition type_of v : DataType :=
  match v with
  | VString _ => DString | VHash _ => DHash | VList _ => DList | VSet _ => DSet | VZSet _ => DZSet
  | VBitmap _ _ => DBitmap
  end.

Lemma unexpired_0 ctx : unexpired 0 ctx.
Proof. done. Qed.

(** ** Frame *)

Lemma composite_frame N N' d d' ctx ctx' k meta v :
  N <= N' -> meta_at d' ctx' k = meta_at d ctx k ->
  (forall f cf, cf <> CF_METADATA ->
     db_get d' cf (sub_key ctx' k (md_version meta) f) = db_get d cf (sub_key ctx k (md_version meta) f)) ->
  composite_value N d ctx k meta v -> composite_value N' d' ctx' k meta v.
Proof.
  intros HN Hm Hs. assert (forall t, composite_at d ctx k t meta -> composite_at d' ctx' k t meta) as Hc.
  { intros t (x & Hx & Hd). exists x. by rewrite Hm. }
  destruct v as [p|m|l|X|m|n B]; cbn [composite_value]; [done|..].
  - intros ((H1 & _ & H2 & H3) & Hn). split; [|lia]. split; [by apply Hc|]. split; [done|]. split; [done|].
    intros f. by rewrite Hs.
  - intros (H1 & _ & (G & Ee & Es & Et & Hh & Ht) & E1 & E2). split; [by apply Hc|]. split; [done|].
    split; [split; [exact G|lia]|]. split; intros *; rewrite Hs by done; [apply E1|apply E2].
  - intros ((H1 & _ & H2 & H3) & Hn). split; [|lia]. split; [by apply Hc|]. split; [done|]. split; [done|].
    intros x. by rewrite Hs.
  - intros ((H1 & _ & H2 & I1 & I2 & I3) & Hn). split; [|lia]. split; [by apply Hc|]. split; [done|]. split; [done|].
    split; [intros x; by rewrite Hs|]. split; [intros x; by rewrite Hs|done].
  - intros (Hsz & H1 & _ & H2 & H3). split; [done|]. split; [by apply Hc|]. split; [done|]. split; [done|].
    intros o Ho. rewrite <- H3 by done. unfold bit_at, fragment. by rewrite Hs.
Qed.

Lemma composite_good_version N d ctx k meta v :
  composite_value N d ctx k meta v -> is_u64 (md_version meta) = true.
Proof.
  intros H. assert (exists t, composite_at d ctx k t meta) as [t Hc].
  { destruct v; cbn in H; [done|..]; unfold hash_at, list_at, set_at, zset_at, bitmap_at in H; destruct_and? H; eauto. }
  by eapply good_meta_version, composite_good.
Qed.

Lemma key_repr_frame U U' N N' d d' ctx ctx' k o :
  U ⊆ U' -> N <= N' -> meta_at d' ctx' k = meta_at d ctx k ->
  (forall w f cf, is_u64 w = true -> cf <> CF_METADATA ->
     db_get d' cf (sub_key ctx' k w f) = db_get d cf (sub_key ctx k w f)) ->
  key_repr U N d ctx k o -> key_repr U' N' d' ctx' k o.
Proof.
  intros HU HN Hm Hs. destruct o as [v|]; [|cbn; by rewrite Hm].
  assert ((exists meta, composite_value N d ctx k meta v /\ md_version meta ∈ U) ->
    exists meta, composite_value N' d' ctx' k meta v /\ md_version meta ∈ U') as Hc.
  { intros (meta & Hv & Hu). exists meta. split; [|by apply HU].
    apply (composite_frame N N' d d' ctx); [done|done| |done]. intros f cf Hcf. apply Hs; [|done].
    by eapply composite_good_version. }
  destruct v; [cbn; by rewrite Hm|exact Hc..].
Qed.

(** Nothing changed. *)
Lemma store_keep U U' N N' d S : U ⊆ U' -> N <= N' -> store_repr U N d S -> store_repr U' N' d S.
Proof.
  intros HU HN [H1 H2 H3 H4]. split; [done|lia| |].
  - intros k Hk. by apply (key_repr_frame U U' N N' d d base base), H3.
  - intros k w f cf Hk Hw Hcf Hg. apply HU. by eapply H4.
Qed.

(** One key got a new value. *)
Lemma store_update U U' N N' d d' S ctx k w v :
  namespace ctx = [] -> store_repr U N d S -> short base k -> only_version d d' ctx k w ->
  w ∈ U' -> U ⊆ U' -> N <= N' -> key_repr U' N' d' base k (Some v) -> store_repr U' N' d' (<[k:=v]> S).
Proof.
  intros Hns [H1 H2 H3 H4] Hk [[Hwf Ho] Hv] Hw HU HN Hr. destruct ctx as [ns c r ch rs]. simpl in Hns. subst ns.
  split; [done|lia| |].
  - intros k' Hk'. destruct (decide (k' = k)) as [->|Hne]; [by rewrite lookup_insert_eq|].
    rewrite lookup_insert_ne by done. destruct (Ho k' Hk Hk' Hne) as [Om Os].
    apply (key_repr_frame U U' N N' d d' base base); [done|done|exact Om|exact Os|by apply H3].
  - intros k' w' f cf Hk' Hw' Hcf Hg. destruct (decide (k' = k)) as [->|Hne].
    + destruct (decide (w' = w)) as [->|Hnw]; [done|]. apply HU, (H4 k w' f cf); [done..|]. intros E.
      apply Hg. etransitivity; [exact (Hv w' f cf Hk Hw' Hnw Hcf)|exact E].
    + apply HU, (H4 k' w' f cf); [done..|]. intros E. apply Hg.
      etransitivity; [exact (proj2 (Ho k' Hk Hk' Hne) w' f cf Hw' Hcf)|exact E].
Qed.

(** ** Reading a store *)

Section Reading.
Context {U : gset Z} {N : Z} {d : DB} {S : store} {ctx : CommandContext}.
Hypothesis Hrepr : store_repr U N d S.
Hypothesis Hns : namespace ctx = [].
Hypothesis Hfresh : new_version ctx ∉ U.

Lemma key_in_ctx k : short base k -> key_repr U N d ctx k (S !! k).
Proof.
  intros Hk. destruct ctx as [ns c r ch rs]. simpl in Hns. subst ns.
  by apply (key_repr_frame U U N N d d base), (sr_keys _ _ _ _ Hrepr).
Qed.

(** No subkeys under the version a new key would get. *)
Lemma fresh_subkeys k f cf : short base k -> cf <> CF_METADATA -> db_get d cf (sub_key ctx k (new_version ctx) f) = None.
Proof.
  intros Hk Hcf. destruct (db_get d cf (sub_key ctx k (new_version ctx) f)) as [x|] eqn:E; [|done]. exfalso.
  apply Hfresh, (sr_used _ _ _ _ Hrepr k _ f cf); [done|apply new_version_u64|done|].
  replace (sub_key base k (new_version ctx) f) with (sub_key ctx k (new_version ctx) f); [by rewrite E|].
  unfold sub_key. by rewrite Hns.
Qed.

Lemma view_string k p : short base k -> as_string (S !! k) = Some p -> string_value ctx (meta_at d ctx k) = Ok p.
Proof.
  intros Hk. pose proof (key_in_ctx k Hk) as Hr. destruct (S !! k) as [[q| | | | |]|]; intros [= <-]; cbn in Hr; rewrite Hr;
    [by apply string_value_encode|done].
Qed.

Lemma view_hash k m : short base k -> as_hash (S !! k) = Some m -> hash_repr 0 d ctx k m /\ Z.of_nat (size m) <= N.
Proof.
  intros Hk. pose proof (key_in_ctx k Hk) as Hr. pose proof (sr_bound _ _ _ _ Hrepr) as HN.
  destruct (S !! k) as [[|m'| | | |]|]; intros [= <-]; cbn in Hr.
  - destruct Hr as (meta & (Ha & Hn) & _). split; [right; by eexists|done].
  - split; [|done]. left. do 3 (split; [done|]). intros f. rewrite fresh_subkeys by done. by rewrite lookup_empty.
Qed.

Lemma view_list k l : short base k -> as_list (S !! k) = Some l -> list_repr N 0 d ctx k l.
Proof.
  intros Hk. pose proof (key_in_ctx k Hk) as Hr. pose proof (sr_bound _ _ _ _ Hrepr) as HN.
  destruct (S !! k) as [[| |l'| | |]|]; intros [= <-]; cbn in Hr; (split; [done|]).
  - destruct Hr as (meta & Ha & _). right. by eexists.
  - left. split; [done|]. split; [done|]. split; [|by left]. split; [done|]. intros sub x.
    by rewrite fresh_subkeys.
Qed.

Lemma view_set k X : short base k -> as_set (S !! k) = Some X -> set_repr 0 d ctx k X /\ Z.of_nat (size X) <= N.
Proof.
  intros Hk. pose proof (key_in_ctx k Hk) as Hr. pose proof (sr_bound _ _ _ _ Hrepr) as HN.
  destruct (S !! k) as [[| | |X'| |]|]; intros [= <-]; cbn in Hr.
  - destruct Hr as (meta & (Ha & Hn) & _). split; [right; by eexists|done].
  - split; [|by rewrite size_empty]. left. split; [done|]. split; [done|]. split; [|by left]. intros x.
    rewrite fresh_subkeys by done. split; [by intros []|set_solver].
Qed.

Lemma view_zset k m : short base k -> as_zset (S !! k) = Some m -> zset_repr 0 d ctx k m /\ Z.of_nat (size m) <= N.
Proof.
  intros Hk. pose proof (key_in_ctx k Hk) as Hr. pose proof (sr_bound _ _ _ _ Hrepr) as HN.
  destruct (S !! k) as [[| | | |m'|]|]; intros [= <-]; cbn in Hr.
  - destruct Hr as (meta & (Ha & Hn) & _). split; [right; by eexists|done].
  - split; [|done]. left. split; [done|]. split; [done|]. split; [|by left].
    split; [intros x; by rewrite fresh_subkeys|]. split; [|done]. intros sub. rewrite fresh_subkeys by done.
    split; [by intros []|]. intros (x & s & E & _). by rewrite lookup_empty in E.
Qed.

Lemma view_bitmap k nB : short base k -> as_bitmap (S !! k) = Some nB -> bitmap_repr 0 d ctx k nB.1 nB.2.
Proof.
  intros Hk. pose proof (key_in_ctx k Hk) as Hr.
  destruct (S !! k) as [[| | | | |n B]|]; intros [= <-]; cbn in Hr |- *.
  - destruct Hr as (meta & (Hs & Ha) & _). split; [done|]. right. by eexists.
  - split; [split; simpl; lia|]. left. split; [done|]. split; [done|]. split; [|by left]. intros o Ho.
    unfold bit_at, fragment. rewrite fresh_subkeys by done. rewrite Z.bits_0. apply frag_bit_nil.
Qed.

(** A value of another type, as the checks of the handlers see it. *)
Lemma holds_value k v : short base k -> S !! k = Some v -> holds_type d ctx k (type_of v).
Proof.
  intros Hk E. pose proof (key_in_ctx k Hk) as Hr. rewrite E in Hr. split; [apply Hrepr|].
  assert (forall t meta, composite_at d ctx k t meta -> md_expire meta = 0 -> t <> DString ->
    exists x, meta_at d ctx k = Some x /\ stores ctx x t) as Hc.
  { intros t meta (x & Hx & Hd & Ht) He Hne. exists x. split; [done|]. unfold stores. rewrite decide_False by done.
    exists meta. split; [done|]. split; [done|]. by rewrite (unexpired_meta meta 0). }
  destruct v; cbn in Hr |- *.
  - exists (encode_string STRING_FLAGS 0 p). split; [done|]. unfold stores. rewrite decide_True by done. eauto.
  - destruct Hr as (meta & ((Hm & _ & (_ & He & _) & _) & _) & _). by eapply Hc.
  - destruct Hr as (meta & (Hm & _ & (_ & He & _) & _) & _). by eapply Hc.
  - destruct Hr as (meta & ((Hm & _ & (_ & He & _) & _) & _) & _). by eapply Hc.
  - destruct Hr as (meta & ((Hm & _ & (_ & He & _) & _) & _) & _). by eapply Hc.
  - destruct Hr as (meta & (_ & Hm & _ & (_ & He & _) & _) & _). by eapply Hc.
Qed.

End Reading.
End Repr.

(** ** One request *)

(** The handler the table runs for a request. *)
Definition op_handler {DB} `{RocksDB DB} (score_order : list (bytes * f64) -> list (bytes * f64)) (o : op)
  : CommandContext -> list bytes -> M DB RespValue :=
  match o with
  | OGet _ => StringCmd.get | OSet _ _ => StringCmd.set | ODel _ => del | OExists _ => exists_ | OIncr _ => StringCmd.incr
  | ODecr _ => decr | OAppend _ _ => append
  | OHSet _ _ => hset | OHGet _ _ => hget | OHDel _ _ => hdel | OHExists _ _ => hexists | OHLen _ => hlen
  | OPush true _ _ => lpush | OPush false _ _ => rpush | OPop true _ => lpop | OPop false _ => rpop
  | OLIndex _ _ => lindex | OLLen _ => llen
  | OSAdd _ _ => sadd | OSRem _ _ => srem | OSIsMember _ _ => sismember | OSCard _ => scard
  | OZAdd _ _ _ => fun ctx => zadd ctx score_order | OZRem _ _ => zrem | OZScore _ _ => zscore | OZCard _ => zcard
  | OSetBit _ _ _ => setbit | OGetBit _ _ => getbit
  end.

(** Errors as the table replies them. *)
Definition as_reply (r : outcome RespValue) : outcome RespValue :=
  match r with Err e => Ok (RError (format_error e)) | r => r end.

Section Steps.
Context {DB : Type} {RDB : RocksDB DB} {U : gset Z} {N : Z} {d : DB} {S : store} {ctx : CommandContext}.
Variable score_order : list (bytes * f64) -> list (bytes * f64).
Hypothesis Hrepr : store_repr U N d S.
Hypothesis Hns : namespace ctx = [].
Hypothesis Hfresh : new_version ctx ∉ U.
Hypothesis Horder : forall u, score_order u ≡ₚ u.

Let U' : gset Z := {[new_version ctx]} ∪ U.
Let Hwf : wf_db d := sr_wf _ _ _ _ Hrepr.

(** The computation replies [x.1] and leaves a database of the store [x.2]. *)
Definition steps_to (N' : Z) (m : M DB RespValue) (x : RespValue * store) : Prop :=
  exists r d', m d = (r, d') /\ as_reply r = Ok x.1 /\ store_repr U' N' d' x.2.

Lemma step_keeps N' : N <= N' -> store_repr U' N' d S.
Proof. intros HN. eapply store_keep; [|exact HN|exact Hrepr]. unfold U'. set_solver. Qed.

Lemma step_read N' m r : N <= N' -> m d = (Ok r, d) -> steps_to N' m (r, S).
Proof. intros HN H. exists (Ok r), d. split; [done|]. split; [done|by apply step_keeps]. Qed.

Lemma step_err N' m e : N <= N' -> m d = (Err e, d) -> steps_to N' m (RError (format_error e), S).
Proof. intros HN H. exists (Err e), d. split; [done|]. split; [done|by apply step_keeps]. Qed.

Lemma step_wrong N' m : N <= N' -> m d = (Err wrong_type_error, d) -> steps_to N' m (RError WRONGTYPE, S).
Proof. intros HN H. exact (step_err N' m wrong_type_error HN H). Qed.

Lemma step_write N' m r d' k w v :
  N <= N' -> m d = (Ok r, d') -> short base k -> only_version d d' ctx k w -> w ∈ U' ->
  key_repr U' N' d' base k (Some v) -> steps_to N' m (r, <[k:=v]> S).
Proof.
  intros HN H Hk Ho Hw Hr. exists (Ok r), d'. split; [done|]. split; [done|].
  eapply store_update; [exact Hns|exact Hrepr|done..| |done|done]. unfold U'. set_solver.
Qed.

(** A write of a string. *)
Lemma step_string N' m r k p :
  N <= N' -> short base k ->
  m d = (Ok r, db_write d [PutCf CF_METADATA (meta_key ctx k) (encode_string STRING_FLAGS 0 p)]) ->
  steps_to N' m (r, <[k:=VString p]> S).
Proof.
  intros HN Hk H. eapply (step_write N' m r _ k (new_version ctx)); [done|exact H|done| |unfold U'; set_solver|].
  - apply only_version_write; [done|apply new_version_u64|]. constructor; [by left|done].
  - cbn. rewrite <- (meta_at_namespace _ base ctx) by done. apply meta_at_put_same.
Qed.

(** A write of another value. *)
Lemma step_composite N' m r d' k meta v :
  N <= N' -> m d = (Ok r, d') -> short base k -> only_version d d' ctx k (md_version meta) ->
  md_version meta ∈ U' -> composite_value N' d' base k meta v -> steps_to N' m (r, <[k:=v]> S).
Proof.
  intros HN H Hk Ho Hw Hv. eapply step_write; [done..|]. destruct v; [done|by exists meta..].
Qed.

(** *** Where the writers start *)

Lemma version_kept (w : Z) : w ∈ U -> w ∈ U'.
Proof. unfold U'. set_solver. Qed.

Lemma version_new : new_version ctx ∈ U'.
Proof. unfold U'. set_solver. Qed.

Lemma start_hash k m :
  short base k -> as_hash (S !! k) = Some m ->
  exists meta, ensure_hash_meta ctx k d = (Ok meta, d) /\ hash_meta 0 meta m
    /\ fields d ctx k (md_version meta) m /\ md_version meta ∈ U'
    /\ (is_Some (S !! k) -> read_hash_meta ctx k d = (Ok (Some meta), d) /\ composite_at d ctx k DHash meta).
Proof.
  intros Hk Hv. destruct (view_hash Hrepr Hns Hfresh k m Hk Hv) as [Hr _].
  pose proof (key_in_ctx Hrepr Hns Hfresh k Hk) as Hkey. destruct (read_hash_meta_run 0 d ctx k m Hwf Hr) as (o & Ho & Hs).
  assert (forall meta, composite_at d ctx k DHash meta -> read_hash_meta ctx k d = (Ok (Some meta), d)) as Hc.
  { intros meta (x & Hx & Hd & Ht). unfold read_hash_meta. rewrite (bind_Ok _ _ _ _ _ (get_meta_run _ _ _ Hwf)), Hx.
    unfold lift. by rewrite (decode_and_check_ok x meta). }
  unfold ensure_hash_meta. destruct (S !! k) as [[|m'| | | |]|] eqn:E; cbn in Hv, Hkey; simplify_eq.
  - destruct Hkey as (meta & ((Hm & _ & Hsz & Hf) & _) & Hw). exists meta.
    rewrite (bind_Ok _ _ _ _ _ (Hc meta Hm)).
    split_and!; [done|done|done|by apply version_kept|by auto].
  - destruct o as [meta|].
    { destruct Hs as (_ & _ & x & Hx & _). congruence. }
    eexists. rewrite (bind_Ok _ _ _ _ _ Ho). split; [done|]. split; [by split; [apply good_meta_new|]|].
    split; [intros f; by rewrite (fresh_subkeys Hrepr Hns Hfresh)|].
    split; [apply version_new|by intros []].
Qed.

(** The metadata of a present value, as the readers of four types load it. *)
Lemma load_present k t invalid meta :
  t <> DString -> composite_at d ctx k t meta -> md_expire meta = 0 ->
  (m ← get_meta ctx k; match m with None => mret None | Some v => lift (check_typed_meta t invalid ctx v) end) d
  = (Ok (Some meta), d).
Proof.
  intros Ht Hc He. destruct (load_typed d ctx k t invalid Hwf Ht) as [_ Hs]. by apply (Hs meta 0).
Qed.

Lemma load_absent k t invalid :
  t <> DString -> meta_at d ctx k = None ->
  (m ← get_meta ctx k; match m with None => mret None | Some v => lift (check_typed_meta t invalid ctx v) end) d
  = (Ok None, d).
Proof. intros Ht Hn. apply (load_typed d ctx k t invalid Hwf Ht). by left. Qed.

Lemma start_list k l :
  short base k -> as_list (S !! k) = Some l ->
  exists o meta, load_list_meta ctx k d = (Ok o, d)
    /\ meta = match o with Some m => m | None => metadata_new DList (new_version ctx) end
    /\ list_meta N 0 meta l /\ elements d ctx k (md_version meta) (md_head meta) l /\ md_version meta ∈ U'
    /\ match S !! k with Some _ => o = Some meta | None => o = None end.
Proof.
  intros Hk Hv. pose proof (key_in_ctx Hrepr Hns Hfresh k Hk) as Hkey.
  destruct (S !! k) as [[| |l'| | |]|]; cbn in Hv, Hkey; simplify_eq.
  - destruct Hkey as (meta & (Hc & _ & Hm & He) & Hw). exists (Some meta), meta.
    split; [apply load_present; [done|done|apply Hm]|]. split; [done|]. split; [done|]. split; [done|].
    split; [by apply version_kept|done].
  - exists None. eexists. split; [by apply load_absent|]. split; [done|].
    split; [apply list_meta_new, (sr_bound _ _ _ _ Hrepr)|]. split; [|split; [apply version_new|done]].
    split; [done|]. intros sub x. by rewrite (fresh_subkeys Hrepr Hns Hfresh).
Qed.

Lemma start_set k X :
  short base k -> as_set (S !! k) = Some X ->
  exists o, let p := match o with
                     | Some m => (m, false) | None => (metadata_new DSet (new_version ctx), true) end in
    read_set_metadata ctx k d = (Ok o, d) /\ set_meta 0 p.1 X /\ members d ctx k (md_version p.1) X
    /\ (p.2 = false -> composite_at d ctx k DSet p.1) /\ md_version p.1 ∈ U'
    /\ match S !! k with Some _ => o = Some p.1 | None => o = None end.
Proof.
  intros Hk Hv. pose proof (key_in_ctx Hrepr Hns Hfresh k Hk) as Hkey.
  destruct (S !! k) as [[| | |X'| |]|]; cbn in Hv, Hkey; simplify_eq.
  - destruct Hkey as (meta & ((Hc & _ & Hm & He) & _) & Hw). exists (Some meta). cbv zeta. cbn [fst snd].
    split; [apply load_present; [done|done|apply Hm]|]. split; [done|]. split; [done|]. split; [done|].
    split; [by apply version_kept|done].
  - exists None. cbv zeta. cbn [fst snd]. split; [by apply load_absent|]. split; [split; [apply good_meta_new|done]|].
    split; [|split; [done|split; [apply version_new|done]]]. intros x. rewrite (fresh_subkeys Hrepr Hns Hfresh) by done.
    split; [by intros []|set_solver].
Qed.

Lemma start_zset k m :
  short base k -> as_zset (S !! k) = Some m ->
  exists meta, ensure_zset_meta ctx k d = (Ok meta, d) /\ zset_meta 0 meta m /\ indexed d ctx k (md_version meta) m
    /\ md_version meta ∈ U'
    /\ match S !! k with
       | Some _ => read_zset_meta ctx k d = (Ok (Some meta), d) /\ composite_at d ctx k DZSet meta
       | None => read_zset_meta ctx k d = (Ok None, d)
       end.
Proof.
  intros Hk Hv. pose proof (key_in_ctx Hrepr Hns Hfresh k Hk) as Hkey.
  destruct (view_zset Hrepr Hns Hfresh k m Hk Hv) as [Hr _].
  assert (forall meta, composite_at d ctx k DZSet meta -> md_expire meta = 0 ->
    load_meta ctx k d = (Ok (Some meta), d)) as Hl.
  { intros meta (x & Hx & Hd & Ht) He. unfold load_meta. rewrite (bind_Ok _ _ _ _ _ (get_meta_run _ _ _ Hwf)), Hx.
    unfold lift. rewrite (check_meta_run ctx x meta) by done. by rewrite (unexpired_meta meta 0). }
  unfold ensure_zset_meta, read_zset_meta. destruct (S !! k) as [[| | | |m'|]|] eqn:E; cbn in Hv, Hkey; simplify_eq.
  - destruct Hkey as (meta & ((Hc & _ & Hm & Hi) & _) & Hw). exists meta. pose proof Hm as ((Ht & _) & He & _).
    rewrite !(bind_Ok _ _ _ _ _ (Hl meta Hc He)). rewrite bool_decide_true by done.
    split; [done|]. split; [done|]. split; [done|]. split; [by apply version_kept|done].
  - destruct (load_meta_run 0 d ctx k ∅ Hwf Hr) as ([meta|] & Ho & Hs).
    { destruct Hs as ((x & Hx & _) & _). congruence. }
    rewrite !(bind_Ok _ _ _ _ _ Ho). eexists. split; [done|]. split; [split; [apply good_meta_new|done]|].
    split; [by apply Hs|]. split; [apply version_new|done].
Qed.

Lemma start_bitmap k nB :
  short base k -> as_bitmap (S !! k) = Some nB ->
  exists meta, get_or_create_metadata ctx k d = (Ok meta, d) /\ bitmap_meta 0 meta nB.1
    /\ bits d ctx k (md_version meta) nB.2 /\ md_version meta ∈ U'.
Proof.
  intros Hk Hv. pose proof (key_in_ctx Hrepr Hns Hfresh k Hk) as Hkey.
  destruct (view_bitmap Hrepr Hns Hfresh k nB Hk Hv) as [_ Hr].
  unfold get_or_create_metadata. destruct (S !! k) as [[| | | | |n B]|]; cbn in Hv, Hkey; simplify_eq; cbn [fst snd] in *.
  - destruct Hkey as (meta & (_ & Hc & _ & Hm & Hb) & Hw). exists meta.
    rewrite (bind_Ok _ _ _ _ _ (load_present k DBitmap "invalid bitmap metadata" meta ltac:(done) Hc (proj1 (proj2 Hm)))).
    split; [done|]. split; [done|]. split; [done|by apply version_kept].
  - rewrite (bind_Ok _ _ _ _ _ (load_absent k DBitmap "invalid bitmap metadata" ltac:(done) Hkey)).
    eexists. split; [done|]. split; [split; [apply good_meta_new|done]|]. split; [|apply version_new].
    destruct Hr as [(_ & _ & Hb & _)|(meta & (x & Hx & _) & _)]; [done|congruence].
Qed.

(** *** Values of another type *)

Lemma other_type {A} (view : option value -> option A) t k :
  short base k -> view None <> None -> (forall v, view (Some v) = None -> type_of v <> t) -> view (S !! k) = None ->
  exists t', holds_type d ctx k t' /\ t' <> t.
Proof.
  intros Hk Hn Hv E. destruct (S !! k) as [v|] eqn:Ek; [|done]. exists (type_of v).
  split; [by apply (holds_value Hrepr Hns Hfresh)|by apply Hv].
Qed.

(** Turns an abstract request on one key into its two cases. *)
Ltac on_value view t k :=
  unfold op_step, on_key; destruct (view (S !! k)) as [x|] eqn:Ev;
  [|destruct (other_type view t k ltac:(done) ltac:(done) ltac:(intros []; done) Ev) as (t' & Ht & Ht');
    apply step_wrong; [simpl; lia|]].

(** *** Strings *)

Lemma get_step k : short base k -> steps_to (N + 0) (StringCmd.get ctx [k]) (op_step S (OGet k)).
Proof.
  intros Hk. on_value as_string DString k.
  - apply step_read; [lia|]. by apply get_reply, (view_string Hrepr Hns Hfresh).
  - unfold StringCmd.get. do 2 mrun. apply bind_Err. by apply (read_string_other ctx k t').
Qed.

Lemma set_step k v : short base k -> steps_to (N + 0) (StringCmd.set ctx [k; v]) (op_step S (OSet k v)).
Proof.
  intros Hk. apply step_string; [lia|done|].
  rewrite (set_run d ctx k v [] (mkSetOptions 0 false false)) by done. done.
Qed.

Lemma incr_by_step name delta k :
  short base k -> steps_to (N + 0) (incr_by ctx name delta [k]) (on_key S as_string k (counted delta)).
Proof.
  intros Hk. pose proof (incr_by_run d ctx name delta k Hwf) as Hr. on_value as_string DString k.
  - unfold counter_at in Hr. rewrite (view_string Hrepr Hns Hfresh k x Hk Ev) in Hr. unfold counted.
    destruct x as [p|]; [destruct (parse_text parse_i64 p) as [z|]; [|by apply step_err; [lia|]]|]; cbn [ok_or] in Hr;
      (destruct (is_i64 _) eqn:Ei; [apply step_string; [lia|done|done]|by apply step_err; [lia|]]).
  - unfold incr_by. do 2 mrun. apply bind_Err. by apply (read_string_other ctx k t').
Qed.

Lemma append_step k v : short base k -> steps_to (N + 0) (append ctx [k; v]) (op_step S (OAppend k v)).
Proof.
  intros Hk. on_value as_string DString k.
  - apply step_string; [lia|done|]. by apply append_run, (view_string Hrepr Hns Hfresh).
  - unfold append. do 2 mrun. apply bind_Err. by apply (read_string_other ctx k t').
Qed.

(** *** Hashes *)

Lemma hset_step k l :
  short base k -> l <> [] -> NoDup l.*1 -> N + Z.of_nat (length l) < 2 ^ 61 ->
  steps_to (N + Z.of_nat (length l)) (hset ctx (k :: flatten l)) (op_step S (OHSet k l)).
Proof.
  intros Hk Hne Hnd Hmax. on_value as_hash DHash k.
  - destruct (view_hash Hrepr Hns Hfresh k x Hk Ev) as [_ Hn].
    destruct (start_hash k x Hk Ev) as (meta & He & Hg & Hf & Hw & _).
    destruct (hset_run 0 d ctx base k x l meta) as (d' & R & Ha & Hv); [done..|unfold i64_max; lia|done|done|].
    eapply (step_composite _ _ _ d' k (set_size _ meta)); [lia|exact R|done|exact Hv|done|]. cbn. split; [exact Ha|].
    rewrite size_assign_all by done. pose proof (count_new_bounds x l). lia.
  - unfold hset. pose proof (length_flatten l) as Hl.
    erewrite bind_Ok by (apply expect_min_arg_count_ok; cbn [length]; rewrite Hl; destruct l; [done|simpl; lia]).
    replace (length (k :: flatten l) mod 2 =? 0)%nat with false.
    2:{ cbn [length]. rewrite Hl, <- Nat.add_1_l, Nat.mul_comm, Nat.Div0.mod_add. done. }
    mrun. apply bind_Err. by apply (ensure_hash_other ctx k t').
Qed.

Lemma hdel_step k l :
  short base k -> l <> [] -> NoDup l -> Z.of_nat (length l) <= i64_max ->
  steps_to (N + 0) (hdel ctx (k :: l)) (op_step S (OHDel k l)).
Proof.
  intros Hk Hne Hnd Hmax. on_value as_hash DHash k.
  - destruct (view_hash Hrepr Hns Hfresh k x Hk Ev) as [Hr Hn].
    destruct (start_hash k x Hk Ev) as (meta & _ & Hg & Hf & Hw & Hc).
    unfold if_present. destruct (S !! k) as [v|] eqn:Ek.
    + destruct (Hc ltac:(eauto)) as [Ho Hcomp].
      destruct (hdel_present 0 d ctx base k x meta l) as (d' & R & Ha & Hv); [done..|].
      eapply (step_composite _ _ _ d' k (set_size _ meta)); [lia| |done|exact Hv|done|].
      * rewrite hdel_start by done. unfold hdel_body. rewrite (bind_Ok _ _ _ _ _ Ho). exact R.
      * cbn. split; [exact Ha|]. pose proof (size_remove_all x l Hnd). pose proof (count_present_bounds x l).
        lia.
    + cbn in Ev. injection Ev as <-. apply step_read; [lia|]. rewrite hdel_start, count_present_empty by done. unfold hdel_body.
      destruct (read_hash_meta_run 0 d ctx k ∅ Hwf Hr) as ([m|] & Ho & Hsm); rewrite (bind_Ok _ _ _ _ _ Ho); [|done].
      destruct Hsm as (_ & _ & y & Hy & _). pose proof (key_in_ctx Hrepr Hns Hfresh k Hk) as Hkey. rewrite Ek in Hkey.
      cbn in Hkey. congruence.
  - rewrite hdel_start by done. apply bind_Err. by apply (read_hash_other ctx k t').
Qed.

Lemma hash_read_steps k f :
  short base k -> N < 2 ^ 61 ->
  steps_to (N + 0) (hget ctx [k; f]) (op_step S (OHGet k f))
  /\ steps_to (N + 0) (hexists ctx [k; f]) (op_step S (OHExists k f))
  /\ steps_to (N + 0) (hlen ctx [k]) (op_step S (OHLen k)).
Proof.
  intros Hk HN. split_and!; on_value as_hash DHash k;
    try (destruct (view_hash Hrepr Hns Hfresh k x Hk Ev) as [Hr Hn]; apply step_read; [lia|]).
  - by eapply hget_run.
  - unfold hget. do 3 mrun. apply bind_Err. by apply (read_hash_other ctx k t').
  - by eapply hexists_run.
  - unfold hexists. do 3 mrun. apply bind_Err. by apply (read_hash_other ctx k t').
  - eapply hlen_run; [done|done|unfold i64_max; lia].
  - unfold hlen. do 2 mrun. apply bind_Err. by apply (read_hash_other ctx k t').
Qed.

(** *** Lists *)

Lemma push_step lr k xs :
  short base k -> xs <> [] -> N + Z.of_nat (length xs) < 2 ^ 61 ->
  steps_to (N + Z.of_nat (length xs)) (push ctx (k :: xs) lr) (op_step S (OPush lr k xs)).
Proof.
  intros Hk Hne Hmax. pose proof (sr_bound _ _ _ _ Hrepr) as HN. on_value as_list DList k.
  - destruct (start_list k x Hk Ev) as (o & meta & Ho & Em & Hm & He & Hw & _).
    destruct (push_run N 0 d ctx base k x lr xs o meta) as (d' & meta' & R & Ha & Hver & Hv); [done..|lia|done|done|].
    rewrite <- Hver in *. eapply (step_composite _ _ _ d' k meta'); [lia|exact R|done|exact Hv|done|exact Ha].
  - unfold push. erewrite bind_Ok by (apply expect_min_arg_count_ok; destruct xs; [done|simpl; lia]).
    mrun. apply bind_Err. by apply (load_list_other ctx k t').
Qed.

(** A list that is empty, as the readers of its metadata see it. *)
Lemma empty_size k o meta :
  load_list_meta ctx k d = (Ok o, d) -> meta = match o with Some m => m | None => metadata_new DList (new_version ctx) end ->
  list_meta N 0 meta [] -> match o with Some meta => md_size meta = 0 | None => True end.
Proof. intros _ -> (_ & _ & Hs & _). by destruct o. Qed.

Lemma pop_step lr k : short base k -> N < 2 ^ 61 -> steps_to (N + 0) (pop ctx [k] lr) (op_step S (OPop lr k)).
Proof.
  intros Hk Hmax. pose proof (sr_bound _ _ _ _ Hrepr) as HN.
  assert (forall m, pop_one ctx k lr d = m -> pop ctx [k] lr d = m) as Hpop by (intros m <-; reflexivity).
  on_value as_list DList k; [|apply Hpop; unfold pop_one; apply bind_Err; by apply (load_list_other ctx k t')].
  destruct (start_list k x Hk Ev) as (o & meta & Ho & Em & Hm & He & Hw & Hp). unfold if_present.
  destruct (decide (x = [])) as [->|Hne].
  - assert (match match S !! k with Some _ => Some (VList (rest_list lr [] 1)) | None => None end with
            | Some v => <[k:=v]> S | None => S end = S) as ->.
    { destruct (S !! k) as [v|] eqn:Ek; [|done]. apply insert_id. rewrite Ek. destruct v; simplify_eq/=. by destruct lr. }
    replace (head (side lr [])) with (@None bytes) by by destruct lr.
    apply step_read; [lia|]. apply Hpop. unfold pop_one. rewrite (bind_Ok _ _ _ _ _ Ho).
    pose proof (empty_size k o meta Ho Em Hm) as Hz. unfold nonempty_meta. destruct o as [m|]; [by rewrite Hz|done].
  - destruct (S !! k) as [v|] eqn:Ek; [|cbn in Ev; congruence]. subst o.
    destruct (after_pop_at N 0 d ctx base k lr meta x 1) as [Ha Hv];
      [done|lia|done..|destruct x; [done|simpl; lia]|].
    eapply (step_composite _ _ _ _ k (reset_ends (popped lr 1 meta))); [lia|apply Hpop; by eapply (pop_one_run N 0); (done || lia)|done|..].
    + rewrite reset_version, popped_version. exact Hv.
    + by rewrite reset_version, popped_version.
    + cbn. by rewrite Z.add_0_r.
Qed.

Lemma list_read_steps k i :
  short base k -> N < 2 ^ 61 -> is_i64 i = true ->
  steps_to (N + 0) (lindex ctx [k; show_Z i]) (op_step S (OLIndex k i))
  /\ steps_to (N + 0) (llen ctx [k]) (op_step S (OLLen k)).
Proof.
  intros Hk Hmax Hi. pose proof (sr_bound _ _ _ _ Hrepr) as HN. split; on_value as_list DList k.
  - destruct (start_list k x Hk Ev) as (o & meta & Ho & Em & Hm & He & Hw & Hp). apply step_read; [lia|].
    destruct (decide (x = [])) as [->|Hne].
    + destruct (empty_reads d ctx k o 0 0 i) as (_ & -> & _); [done|by eapply empty_size|done..|].
      unfold list_index. cbv zeta. rewrite lookup_nil. by repeat case_match.
    + destruct (S !! k) as [v|] eqn:Ek; [|cbn in Ev; congruence]. subst o. eapply (lindex_run N 0); (done || lia).
  - unfold lindex. do 3 mrun. erewrite bind_Ok by (unfold arg_i64; by rewrite parse_text_show_i64).
    apply bind_Err. by apply (load_list_other ctx k t').
  - destruct (start_list k x Hk Ev) as (o & meta & Ho & Em & Hm & He & Hw & Hp). apply step_read; [lia|].
    unfold llen. do 2 mrun. rewrite (bind_Ok _ _ _ _ _ Ho). destruct Hm as (_ & _ & Hs & Ht & Hh & Htl).
    assert (match o with Some meta => md_size meta | None => 0 end = Z.of_nat (length x)) as ->
      by (destruct o; [by subst meta|subst meta; exact Hs]).
    by rewrite wrap_i64_id by (apply is_i64_spec; lia).
  - unfold llen. do 2 mrun. apply bind_Err. by apply (load_list_other ctx k t').
Qed.

(** *** Sets *)

Lemma sadd_step k xs :
  short base k -> xs <> [] -> N + Z.of_nat (length xs) < 2 ^ 61 ->
  steps_to (N + Z.of_nat (length xs)) (sadd ctx (k :: xs)) (op_step S (OSAdd k xs)).
Proof.
  intros Hk Hne Hmax. on_value as_set DSet k.
  - destruct (view_set Hrepr Hns Hfresh k x Hk Ev) as [_ Hn].
    destruct (start_set k x Hk Ev) as (o & Ho & Hm & Hf & Hc & Hw & _).
    destruct (sadd_run 0 d ctx base k x xs o) as (d' & n & R & Ha & Hv); [done..|unfold i64_max; lia|done|done|].
    eapply (step_composite _ _ _ d' k (set_size n _)); [lia|exact R|done|exact Hv|done|]. split; [exact Ha|].
    pose proof (added_of_bounds x xs) as Hb. rewrite length_added_of in Hb. rewrite size_union_alt. lia.
  - unfold sadd. erewrite bind_Ok by (apply expect_min_arg_count_ok; destruct xs; [done|simpl; lia]).
    mrun. apply bind_Err. by apply (read_set_other ctx k t').
Qed.

Lemma srem_step k xs :
  short base k -> xs <> [] -> Z.of_nat (length xs) <= i64_max ->
  steps_to (N + 0) (srem ctx (k :: xs)) (op_step S (OSRem k xs)).
Proof.
  intros Hk Hne Hmax. on_value as_set DSet k.
  - destruct (view_set Hrepr Hns Hfresh k x Hk Ev) as [_ Hn].
    destruct (start_set k x Hk Ev) as (o & Ho & Hm & Hf & Hc & Hw & Hp). unfold if_present.
    destruct (S !! k) as [v|] eqn:Ek.
    + destruct o as [meta|]; [|done]. cbn [fst snd] in *.
      destruct (srem_run 0 d ctx base k x xs meta) as (d' & n & R & Ha & Hv); [(done || by apply Hc)..|].
      eapply (step_composite _ _ _ d' k (set_size n meta)); [lia|exact R|done|exact Hv|done|]. split; [exact Ha|].
      assert (size (x ∖ list_to_set xs) <= size x)%nat by (apply subseteq_size; set_solver). lia.
    + subst o. cbn in Ev. injection Ev as <-. apply step_read; [lia|].
      unfold srem. erewrite bind_Ok by (apply expect_min_arg_count_ok; destruct xs; [done|simpl; lia]).
      mrun. rewrite (bind_Ok _ _ _ _ _ Ho), intersection_empty_r_L, size_empty. done.
  - unfold srem. erewrite bind_Ok by (apply expect_min_arg_count_ok; destruct xs; [done|simpl; lia]).
    mrun. apply bind_Err. by apply (read_set_other ctx k t').
Qed.

Lemma set_read_steps k y :
  short base k -> N < 2 ^ 61 ->
  steps_to (N + 0) (sismember ctx [k; y]) (op_step S (OSIsMember k y))
  /\ steps_to (N + 0) (scard ctx [k]) (op_step S (OSCard k)).
Proof.
  intros Hk HN. split; on_value as_set DSet k;
    try (destruct (view_set Hrepr Hns Hfresh k x Hk Ev) as [Hr Hn]; apply step_read; [lia|]).
  - by eapply sismember_run.
  - unfold sismember. do 2 mrun. apply bind_Err. by apply (read_set_other ctx k t').
  - eapply scard_run; [done|done|unfold i64_max; lia].
  - unfold scard. do 2 mrun. apply bind_Err. by apply (read_set_other ctx k t').
Qed.

(** *** Sorted sets *)

Lemma stored_one (m : gmap bytes f64) y t :
  stored no_flags m (given [(t, y)]) ∪ m = scored_with m y t
  /\ size (stored no_flags m (given [(t, y)]) ∖ m) = if decide (is_Some (m !! y)) then 0%nat else 1%nat.
Proof.
  unfold stored, given, scored_with. cbn [foldl fst snd]. rewrite insert_empty.
  destruct (m !! y) as [o|] eqn:Ey.
  - rewrite decide_True by eauto. destruct (f64_eqb o t) eqn:Eq.
    + rewrite map_filter_singleton_False by (cbn; rewrite Ey; cbn; by rewrite Eq).
      rewrite (left_id_L ∅ (∪)). split; [done|]. apply map_size_empty_iff, map_eq. intros z.
      rewrite lookup_difference, lookup_empty. by destruct (m !! z).
    + rewrite map_filter_singleton_True by (cbn; rewrite Ey; cbn; by rewrite Eq).
      split; [by rewrite insert_union_singleton_l|]. apply map_size_empty_iff. apply map_eq. intros z.
      rewrite lookup_difference, lookup_empty. destruct (m !! z) eqn:Ez; [done|].
      rewrite lookup_singleton_ne; [done|]. intros ->. congruence.
  - rewrite decide_False by (by intros []). rewrite map_filter_singleton_True by (cbn; by rewrite Ey).
    split; [by rewrite insert_union_singleton_l|].
    assert ({[y := t]} ∖ m = {[y := t]}) as ->; [|apply map_size_singleton]. apply map_eq. intros z.
    rewrite lookup_difference. destruct (decide (z = y)) as [->|Hz]; [by rewrite Ey|].
    rewrite lookup_singleton_ne by done. by destruct (m !! z).
Qed.

Lemma scored_with_size (m : gmap bytes f64) y t : (size (scored_with m y t) <= size m + 1)%nat.
Proof.
  unfold scored_with. destruct (m !! y) as [o|] eqn:E; [destruct (f64_eqb o t); [lia|]|]; rewrite map_size_insert, E;
    unfold id; lia.
Qed.

Lemma zadd_step k score y t :
  short base k -> N + 1 < 2 ^ 61 -> parse_zadd_flags [score; y] = Ok (no_flags, 0%nat) ->
  parse_score score = Ok t -> number t ->
  steps_to (N + 1) (zadd ctx score_order [k; score; y]) (op_step S (OZAdd k score y)).
Proof.
  intros Hk Hmax Hfl Hsc Hnum. on_value as_zset DZSet k.
  - rewrite Hsc. destruct (view_zset Hrepr Hns Hfresh k x Hk Ev) as [_ Hn].
    destruct (start_zset k x Hk Ev) as (meta & Ho & Hm & Hi & Hw & _).
    destruct (zadd_run 0 d ctx base k x score_order [] no_flags [(score, y)] [(t, y)] meta) as (d' & R & Ha & Hv);
      [done|done|done|done|done|done|done|done|done|apply Forall2_cons; split; [done|apply Forall2_nil_2]|apply Forall_singleton, Hnum|done|unfold i64_max; simpl; lia|].
    destruct (stored_one x y t) as [E1 E2]. cbn [ch no_flags] in R. rewrite E1 in Ha. rewrite E2 in R.
    replace (Integer (Z.of_nat (if decide (is_Some (x !! y)) then 0%nat else 1%nat)))
      with (Integer (if decide (is_Some (x !! y)) then 0 else 1)) in R by by case_decide.
    eapply (step_composite _ _ _ d' k (set_size _ meta)); [lia|exact R|done|exact Hv|done|]. split; [exact Ha|].
    pose proof (scored_with_size x y t). lia.
  - unfold zadd. mrun. mrun. change (drop 1 [k; score; y]) with [score; y]. rewrite Hfl.
    erewrite bind_Ok by reflexivity. cbv beta iota zeta. cbn -[ensure_zset_meta mbind M_bind].
    apply bind_Err. by apply (ensure_zset_other ctx k t').
Qed.

Lemma zrem_step k xs :
  short base k -> xs <> [] -> NoDup xs -> Z.of_nat (length xs) <= i64_max ->
  steps_to (N + 0) (zrem ctx (k :: xs)) (op_step S (OZRem k xs)).
Proof.
  intros Hk Hne Hnd Hmax. on_value as_zset DZSet k.
  - destruct (view_zset Hrepr Hns Hfresh k x Hk Ev) as [_ Hn].
    destruct (start_zset k x Hk Ev) as (meta & _ & Hm & Hi & Hw & Hp). unfold if_present.
    destruct (S !! k) as [v|] eqn:Ek.
    + destruct Hp as [Ho Hc].
      destruct (zrem_run 0 d ctx base k x xs meta) as (d' & R & Ha & Hv); [done..|].
      eapply (step_composite _ _ _ d' k (set_size _ meta)); [lia|exact R|done|exact Hv|done|]. split; [exact Ha|].
      pose proof (without_size x xs). lia.
    + cbn in Ev. injection Ev as <-. apply step_read; [lia|].
      unfold zrem. erewrite bind_Ok by (apply expect_min_arg_count_ok; destruct xs; [done|simpl; lia]).
      mrun. rewrite (bind_Ok _ _ _ _ _ Hp), map_size_empty. done.
  - unfold zrem. erewrite bind_Ok by (apply expect_min_arg_count_ok; destruct xs; [done|simpl; lia]).
    mrun. apply bind_Err. by apply (read_zset_other ctx k t').
Qed.

Lemma zset_read_steps k y :
  short base k -> N < 2 ^ 61 ->
  steps_to (N + 0) (zscore ctx [k; y]) (op_step S (OZScore k y))
  /\ steps_to (N + 0) (zcard ctx [k]) (op_step S (OZCard k)).
Proof.
  intros Hk HN. split; on_value as_zset DZSet k;
    try (destruct (view_zset Hrepr Hns Hfresh k x Hk Ev) as [Hr Hn]; apply step_read; [lia|]).
  - by eapply zscore_run.
  - unfold zscore. do 2 mrun. apply bind_Err. by apply (read_zset_other ctx k t').
  - eapply zcard_run; [done|done|unfold i64_max; lia].
  - unfold zcard. do 2 mrun. apply bind_Err. by apply (read_zset_other ctx k t').
Qed.

(** *** Bitmaps *)

Lemma setbit_step k o v :
  short base k -> is_u64 o = true ->
  steps_to (N + 0) (setbit ctx [k; show_Z o; bit_arg v]) (op_step S (OSetBit k o v)).
Proof.
  intros Hk Ho. on_value as_bitmap DBitmap k.
  - destruct (start_bitmap k x Hk Ev) as (meta & Hg & Hm & Hb & Hw).
    destruct (setbit_at 0 d ctx base k x.1 x.2 o v meta) as (d' & R & Hs & Ha & Hv);
      [done|apply (view_bitmap Hrepr Hns Hfresh k x Hk Ev)|done..|].
    eapply (step_composite _ _ _ d' k (set_size _ meta)); [lia|exact R|done|exact Hv|done|]. by split.
  - unfold setbit. do 3 mrun. erewrite bind_Ok by (by apply parse_offset_run). mrun.
    erewrite bind_Ok by apply parse_bit_run. apply bind_Err. by apply (create_bitmap_other ctx k t').
Qed.

Lemma getbit_step k o :
  short base k -> is_u64 o = true -> steps_to (N + 0) (getbit ctx [k; show_Z o]) (op_step S (OGetBit k o)).
Proof.
  intros Hk Ho. on_value as_bitmap DBitmap k.
  - apply step_read; [lia|]. eapply getbit_run; [done|by apply (view_bitmap Hrepr Hns Hfresh k x Hk Ev)|done].
  - unfold getbit. do 3 mrun. erewrite bind_Ok by (by apply parse_offset_run). apply bind_Err.
    by apply (read_bitmap_other ctx k t').
Qed.

(** *** Keys of any type *)

Lemma present_iff k : short base k -> is_Some (meta_at d ctx k) <-> is_Some (S !! k).
Proof.
  intros Hk. pose proof (key_in_ctx Hrepr Hns Hfresh k Hk) as Hkey. destruct (S !! k) as [v|] eqn:E.
  - destruct (holds_value Hrepr Hns Hfresh k v Hk E) as (_ & x & -> & _). by split.
  - cbn in Hkey. rewrite Hkey. done.
Qed.

(** DEL leaves the store without the keys; the other keys keep their values. *)
Lemma removed_store N' keys d' :
  N <= N' -> removed ctx keys d d' -> store_repr U' N' d' (filter (fun kv => kv.1 ∉ keys) S).
Proof.
  intros HN [Hwf' Hm _ Hom Hos Hsh]. pose proof (step_keeps N' HN) as [_ Hb Hkeys Hused].
  assert (forall k, short base k -> short ctx k) as Hsc by (intros k []; split; rewrite ?Hns; done).
  split; [done|done| |].
  - intros k Hk. destruct (decide (k ∈ keys)) as [Hin|Hin].
    + rewrite map_lookup_filter_None_2 by (right; cbn; auto). cbn.
      rewrite <- (meta_at_namespace _ base ctx) by done. by apply Hm.
    + replace (filter (fun kv => kv.1 ∉ keys) S !! k) with (S !! k).
      2:{ destruct (S !! k) as [v|] eqn:E; symmetry; [by apply map_lookup_filter_Some|].
          apply map_lookup_filter_None. by left. }
      apply (key_repr_frame U' U' N' N' d d' base base); [done|done| | |by apply Hkeys].
      * rewrite <- !(meta_at_namespace _ base ctx) by done. by apply Hom; [apply Hsc|].
      * intros w f cf Hw Hcf. replace (sub_key base k w f) with (sub_key ctx k w f) by (unfold sub_key; by rewrite Hns).
        apply Hos; [by apply Hsc|done..].
  - intros k w f cf Hk Hw Hcf Hg. apply (Hused k w f cf); [done..|]. intros E. by apply Hg, Hsh.
Qed.

Lemma del_step keys :
  Forall (short base) keys -> keys <> [] -> Z.of_nat (length keys) <= i64_max ->
  steps_to (N + 0) (del ctx keys) (op_step S (ODel keys)).
Proof.
  intros Hk Hne Hl. destruct (del_all d ctx keys 0) as (d' & R & D); [done|done| |lia|lia|].
  { apply (Forall_impl _ _ _ Hk). intros k []; split; rewrite ?Hns; done. }
  assert (filter (fun k => is_Some (meta_at d ctx k)) (list_to_set keys : gset bytes)
          = filter (fun k => is_Some (S !! k)) (list_to_set keys)) as E.
  { apply set_eq. intros k. rewrite !elem_of_filter, elem_of_list_to_set. rewrite Forall_forall in Hk.
    split; intros [H Hin]; (split; [|done]); by apply (present_iff k (Hk k Hin)). }
  exists (Ok (op_step S (ODel keys)).1), d'. split; [|split; [reflexivity|apply removed_store; [lia|exact D]]].
  unfold del. erewrite bind_Ok by (apply expect_min_arg_count_ok; destruct keys; [done|simpl; lia]).
  erewrite bind_Ok by exact R. by rewrite E.
Qed.

Lemma exists_step keys :
  Forall (short base) keys -> keys <> [] -> Z.of_nat (length keys) <= i64_max ->
  steps_to (N + 0) (exists_ ctx keys) (op_step S (OExists keys)).
Proof.
  intros Hk Hne Hl. apply step_read; [lia|].
  unfold exists_. erewrite bind_Ok by (apply expect_min_arg_count_ok; destruct keys; [done|simpl; lia]).
  match goal with |- (mfold ?f 0 keys ≫= _) d = _ =>
    assert (forall c, 0 <= c -> c + Z.of_nat (length keys) <= i64_max ->
      mfold f c keys d = (Ok (c + Z.of_nat (length (filter (fun k => is_Some (S !! k)) keys))), d)) as Hf end.
  { clear Hne Hl. induction Hk as [|k keys Hk _ IH]; intros c Hc Hl; [cbn; by rewrite Z.add_0_r|].
    cbn [mfold length] in *. pose proof (present_iff k Hk) as Hp.
    destruct (meta_at d ctx k) as [x|] eqn:Ex.
    - erewrite bind_Ok by (rewrite (bind_Ok _ _ _ _ _ (get_meta_run _ _ _ Hwf)), Ex; apply arith_i64_ok;
        unfold is_i64, i64_min, i64_max in *; lia).
      rewrite filter_cons_True by (apply Hp; eauto). cbn [length]. rewrite IH by lia. do 2 f_equal. lia.
    - erewrite bind_Ok by (rewrite (bind_Ok _ _ _ _ _ (get_meta_run _ _ _ Hwf)), Ex; reflexivity).
      rewrite filter_cons_False by (rewrite <- Hp; by intros []). by rewrite IH by lia. }
  by erewrite bind_Ok by (apply Hf; lia).
Qed.

(** Every request refines its abstract step. *)
Lemma op_refines o :
  op_ok o -> N + op_cost o < 2 ^ 61 ->
  steps_to (N + op_cost o) (op_handler score_order o ctx (op_args o)) (op_step S o).
Proof.
  intros [Hks Ho] HN. pose proof (sr_bound _ _ _ _ Hrepr) as H0.
  assert (Forall (short base) (op_keys o)) as Hs.
  { apply (Forall_impl _ _ _ Hks). intros k Hk. by split. }
  destruct o; cbn [op_keys op_args_ok op_handler op_args op_cost] in *;
    try (destruct Ho as (Ho1 & Ho2)); rewrite ?Forall_singleton in Hs.
  - by apply get_step.
  - by apply set_step.
  - by apply del_step.
  - by apply exists_step.
  - by apply incr_by_step.
  - by apply incr_by_step.
  - by apply append_step.
  - by apply hset_step.
  - exact (proj1 (hash_read_steps k f Hs ltac:(lia))).
  - by destruct Ho2; apply hdel_step.
  - exact (proj1 (proj2 (hash_read_steps k f Hs ltac:(lia)))).
  - exact (proj2 (proj2 (hash_read_steps k [] Hs ltac:(lia)))).
  - destruct left; by apply push_step.
  - destruct left; apply pop_step; (done || lia).
  - exact (proj1 (list_read_steps k i Hs ltac:(lia) Ho)).
  - exact (proj2 (list_read_steps k 0 Hs ltac:(lia) eq_refl)).
  - by apply sadd_step.
  - by apply srem_step.
  - exact (proj1 (set_read_steps k x Hs ltac:(lia))).
  - exact (proj2 (set_read_steps k [] Hs ltac:(lia))).
  - destruct Ho2 as (t & Ht & Hn). by apply (zadd_step k score x t).
  - destruct Ho2. by apply zrem_step.
  - exact (proj1 (zset_read_steps k x Hs ltac:(lia))).
  - exact (proj2 (zset_read_steps k [] Hs ltac:(lia))).
  - by apply setbit_step.
  - by apply getbit_step.
Qed.

End Steps.

(** ** Sessions *)

(** A request of a client, with the name as it was typed and the clock and the
    random number its handler reads. *)
Record request := mkRequest {
  rq_client : Client; rq_word : bytes; rq_op : op; rq_clock : Z; rq_random : Z }.

Section Sessions.
Context {DB : Type} {RDB : RocksDB DB} {L : Type} {VM : LuaVM L} {LT : LuaTables} {X : Externals}.
Abbreviation world := (Shared DB L).
Implicit Types (s : world) (o : op).

Definition request_ok (rq : request) : Prop :=
  client_namespace (rq_client rq) = [] /\ op_ok (rq_op rq)
  /\ to_ascii_uppercase (from_utf8_lossy (rq_word rq)) = bs (op_name (rq_op rq)).

Definition rq_version (rq : request) : Z := generate_version (rq_clock rq) (rq_random rq).

Definition at_time (clock random : Z) s : world :=
  mkShared (sh_storage s) (sh_pubsub s) (sh_replication s) (sh_cluster s) (sh_config s) (sh_lua s) (sh_scripts s)
    clock random.

Definition serve (fuel : nat) (rq : request) s : outcome RespValue * world :=
  dispatch (1 + fuel) (rq_client rq) (rq_word rq) (op_args (rq_op rq)) (at_time (rq_clock rq) (rq_random rq) s).

(** The requests of any number of clients, in the order they are executed. *)
Fixpoint serve_all (fuel : nat) (l : list request) s : list (outcome RespValue) * world :=
  match l with
  | [] => ([], s)
  | rq :: l =>
      let '(r, s1) := serve fuel rq s in
      let '(rs, s2) := serve_all fuel l s1 in
      (r :: rs, s2)
  end.

Definition total_cost (l : list request) : Z := foldr (fun rq n => op_cost (rq_op rq) + n) 0 l.

Lemma op_cost_nonneg o : 0 <= op_cost o.
Proof. destruct o; simpl; lia. Qed.

Lemma total_cost_nonneg l : 0 <= total_cost l.
Proof. induction l as [|rq l IH]; simpl; [done|]. pose proof (op_cost_nonneg (rq_op rq)). lia. Qed.

Lemma op_registered o e1 e2 : (op_name o, on_storage (L:=L) (op_handler score_order o)) ∈ all_commands e1 e2.
Proof.
  unfold all_commands, string_commands, admin_commands, hash_commands, list_commands, set_commands, zset_commands,
    stream_commands, bitmap_commands, pubsub_commands, lua_commands, cluster_commands. simpl app.
  destruct o as [| | | | | | | | | | | |[]|[]| | | | | | | | | | | |]; cbn [op_name op_handler];
    repeat first [apply list_elem_of_here|apply list_elem_of_further].
Qed.

Lemma serve_refines fuel U N S s (rq : request) :
  (forall u, score_order u ≡ₚ u) -> store_repr U N (sh_storage s) S -> request_ok rq -> rq_version rq ∉ U ->
  N + op_cost (rq_op rq) < 2 ^ 61 ->
  exists d', serve fuel rq s
             = (Ok (op_step S (rq_op rq)).1, set_storage d' (at_time (rq_clock rq) (rq_random rq) s))
    /\ store_repr ({[rq_version rq]} ∪ U) (N + op_cost (rq_op rq)) d' (op_step S (rq_op rq)).2.
Proof.
  intros Hord Hr (Hns & Hok & Hw) Hf HN. unfold serve. set (s1 := at_time _ _ s).
  destruct (op_refines (ctx:=command_context (rq_client rq) s1) score_order Hr Hns Hf Hord (rq_op rq) Hok HN)
    as (r & d' & R & E & Hr').
  exists d'. split; [|exact Hr'].
  rewrite (dispatch_registered _ _ _ (op_name (rq_op rq)) _ _ _ (op_registered (rq_op rq)) Hw).
  unfold reply_of, on_storage, on_part. change (sh_storage s1) with (sh_storage s). rewrite R.
  destruct r; cbn in E |- *; congruence.
Qed.

(** C1: the command table refines an abstract store of six types of values.
    Whatever GET, SET, DEL, EXISTS, INCR, DECR, APPEND and the main commands on
    hashes, lists, sets, sorted sets and bitmaps a number of clients send, in
    any order and with the names in any case, each gets the reply of the
    abstract store, errors included, the database represents the abstract
    result at the end, and nothing else of the shared state changes but the
    time. The versions the requests draw must be different from each other and
    from those drawn before, the keys shorter than 16 MiB, and no value grows
    beyond [2^61] elements. *)
Theorem store_refines fuel (l : list request) U N S s :
  (forall u, score_order u ≡ₚ u) -> store_repr U N (sh_storage s) S ->
  Forall request_ok l -> NoDup (map rq_version l) -> Forall (fun rq => rq_version rq ∉ U) l ->
  N + total_cost l < 2 ^ 61 ->
  exists d' c r,
    serve_all fuel l s = (map Ok (op_steps (map rq_op l) S).1, set_storage d' (at_time c r s))
    /\ store_repr (list_to_set (map rq_version l) ∪ U) (N + total_cost l) d' (op_steps (map rq_op l) S).2.
Proof.
  intros Hord. revert U N S s. induction l as [|rq l IH]; intros U N S s Hr Hok Hnd Hfr HN.
  - exists (sh_storage s), (sh_clock s), (sh_random s). split; [by destruct s|].
    apply (store_keep U _ N); [set_solver|unfold total_cost; simpl; lia|exact Hr].
  - cbn [map foldr total_cost] in *. apply Forall_cons in Hok as [Hok1 Hok]. apply Forall_cons in Hfr as [Hf1 Hfr].
    apply NoDup_cons in Hnd as [Hn1 Hnd]. fold (total_cost l) in *. pose proof (total_cost_nonneg l) as Hc.
    destruct (serve_refines fuel U N S s rq Hord Hr Hok1 Hf1 ltac:(lia)) as (d1 & R1 & Hr1).
    destruct (IH _ _ _ (set_storage d1 (at_time (rq_clock rq) (rq_random rq) s)) Hr1 Hok Hnd) as (d' & c & r & R & Hr').
    { apply Forall_forall. intros rq' Hin. rewrite Forall_forall in Hfr. apply not_elem_of_union.
      split; [|by apply Hfr]. rewrite elem_of_singleton. intros E. apply Hn1. rewrite <- E.
      by apply (list_elem_of_fmap_2 rq_version). }
    { lia. }
    exists d', c, r. cbn [serve_all op_steps map]. rewrite R1, R. clear R R1 Hr1.
    destruct (op_step S (rq_op rq)) as [r1 S1]. cbn [fst snd] in *. destruct (op_steps _ S1) as [rs S2].
    split; [done|]. eapply store_keep; [| |exact Hr']; [set_solver|lia].
Qed.

End Sessions.

(** ** A database without entries *)

Lemma empty_store {DB} `{RocksDB DB} U (d : DB) :
  wf_db d -> (forall cf key, db_get d cf key = None) -> store_repr U 0 d ∅.
Proof.
  intros Hwf Hd. split; [done|done| |].
  - intros k _. rewrite lookup_empty. cbn. unfold meta_at. by rewrite Hd.
  - intros k w f cf _ _ _ Hg. by rewrite Hd in Hg.
Qed.

Lemma store0 : store_repr ∅ 0 (sh_storage shared0) ∅.
Proof. apply empty_store; [apply mem_wf|done]. Qed.

(** ** Two clients *)

Definition client_b : Client := mkClient 1 [].

Definition requests : list request :=
  [mkRequest client0 (bs "set") (OSet (bs "a") (bs "41")) 1000 1;
   mkRequest client_b (bs "incr") (OIncr (bs "a")) 1000 2;
   mkRequest client0 (bs "HSet") (OHSet (bs "h") [(bs "f", bs "1"); (bs "g", bs "2")]) 1001 1;
   mkRequest client_b (bs "LPUSH") (OPush true (bs "h") [bs "x"]) 1001 2;
   mkRequest client_b (bs "ZADD") (OZAdd (bs "z") (bs "2.5") (bs "m")) 1001 3;
   mkRequest client0 (bs "zscore") (OZScore (bs "z") (bs "m")) 1002 1;
   mkRequest client0 (bs "DEL") (ODel [bs "h"; bs "a"; bs "h"]) 1003 1;
   mkRequest client_b (bs "sadd") (OSAdd (bs "h") [bs "x"; bs "x"]) 1003 2;
   mkRequest client0 (bs "EXISTS") (OExists [bs "h"; bs "a"; bs "z"; bs "h"]) 1004 1].

Lemma request_ok_intro rq :
  client_namespace (rq_client rq) = [] -> forallb (fun k => blen k <? 2 ^ 24) (op_keys (rq_op rq)) = true ->
  to_ascii_uppercase (from_utf8_lossy (rq_word rq)) = bs (op_name (rq_op rq)) -> op_args_ok (rq_op rq) ->
  request_ok rq.
Proof.
  intros Hn Hk Hw Ho. split; [done|]. split; [|done]. split; [|done]. apply Forall_forall. intros k Hin.
  rewrite forallb_forall in Hk. apply Z.ltb_lt, Hk. by apply list_elem_of_In.
Qed.

Lemma requests_ok : Forall request_ok requests.
Proof.
  unfold requests.
  repeat (apply Forall_cons; split;
    [apply request_ok_intro; [reflexivity|vm_compute; reflexivity|vm_compute; reflexivity|cbn [rq_op op_args_ok]]|]);
    [exact I|exact I| |discriminate| |exact I| |discriminate| |apply Forall_nil_2].
  - split; [discriminate|]. apply (bool_decide_unpack _). vm_compute. exact I.
  - split; [vm_compute; reflexivity|]. eexists. split; [vm_compute; reflexivity|]. split; vm_compute; reflexivity.
  - split; [discriminate|]. by vm_compute.
  - split; [discriminate|]. by vm_compute.
Qed.

Lemma store_refines_witness :
  exists d' c r,
    serve_all 0 requests shared0
    = ([Ok OK; Ok (Integer 42); Ok (Integer 2); Ok (RError WRONGTYPE); Ok (Integer 1); Ok (bulk (bs "2.5"));
        Ok (Integer 2); Ok (Integer 1); Ok (Integer 3)], set_storage d' (at_time c r shared0))
    /\ store_repr (list_to_set (map rq_version requests) ∪ ∅) (0 + total_cost requests) d'
         (op_steps (map rq_op requests) ∅).2.
Proof.
  destruct (store_refines 0 requests ∅ 0 ∅ shared0) as (d' & c & r & R & Hr);
    [done|exact store0|exact requests_ok| | |vm_compute; reflexivity|].
  - apply (bool_decide_unpack _). vm_compute. exact I.
  - repeat (constructor; [set_solver|]); constructor.
  - exists d', c, r. split; [|exact Hr]. rewrite R. f_equal; vm_compute; reflexivity.
Defined.

(** ** SET over another type of value

    SET replaces the metadata of a hash with a string and leaves its fields in
    the database; DEL of the string does not remove them either. *)
Example set_leaves_subkeys :
  let s := world_of [[bs "HSET"; bs "k"; bs "f"; bs "v"]; [bs "SET"; bs "k"; bs "x"]; [bs "DEL"; bs "k"]] in
  (dispatch 1 client0 (bs "EXISTS") [bs "k"] s).1 = Ok (Integer 0)
  /\ map (fun e => e.1.1) (map_to_list (mem_data (sh_storage s))) = [CF_SUBKEY].
Proof. vm_compute. split; reflexivity. Qed.
