(* ===== verification/Benchmark.v ===== *)
(** * The load generator (src/benchmark.rs)

    The commands it builds, the two ways it sends them (straight into the
    command table, or over a connection), its worker threads as a step
    relation in which every call may fail, take any time or panic, and the
    report: totals and latency percentiles. *)

From Stdlib Require Import SpecFloat.
From S2P Require Import Prelude Bytes Text Error Types Encoding Backend Storage Float Rounding Protocol Context Keyspace Dispatch Lua PubSub Cluster Config Admin.

Local Open Scope Z_scope.

Inductive BenchmarkMode := Embedded | Tcp.

Definition mode_from_str (s : bytes) : bytes + BenchmarkMode :=
  let lower := to_ascii_lowercase s in
  if bool_decide (lower = bs "embedded") then inr Embedded
  else if bool_decide (lower = bs "tcp") then inr Tcp
  else inl (bs "unknown benchmark mode: " ++ s).

Inductive BenchmarkCommand := BSet | BGet | BHSet | BHGet | BLPush | BLRange | BZAdd | BZRange.

(** The name a command is chosen and sent by. *)
Definition command_name (c : BenchmarkCommand) : string :=
  match c with
  | BSet => "SET" | BGet => "GET" | BHSet => "HSET" | BHGet => "HGET"
  | BLPush => "LPUSH" | BLRange => "LRANGE" | BZAdd => "ZADD" | BZRange => "ZRANGE"
  end.

Definition command_from_str (s : bytes) : bytes + BenchmarkCommand :=
  let upper := to_ascii_uppercase s in
  if bool_decide (upper = bs "SET") then inr BSet
  else if bool_decide (upper = bs "GET") then inr BGet
  else if bool_decide (upper = bs "HSET") then inr BHSet
  else if bool_decide (upper = bs "HGET") then inr BHGet
  else if bool_decide (upper = bs "LPUSH") then inr BLPush
  else if bool_decide (upper = bs "LRANGE") then inr BLRange
  else if bool_decide (upper = bs "ZADD") then inr BZAdd
  else if bool_decide (upper = bs "ZRANGE") then inr BZRange
  else inl (bs "unknown benchmark command: " ++ s).

Record BenchmarkConfig := mkBenchConfig {
  bc_mode : BenchmarkMode; bc_host : bytes; bc_port : Z; bc_db_path : bytes;
  bc_commands : list BenchmarkCommand; bc_clients : Z; bc_requests : Z;
  bc_key_size : Z; bc_value_size : Z; bc_warmup : Z }.

Definition bench_default : BenchmarkConfig :=
  mkBenchConfig Embedded (bs "127.0.0.1") 6379 (bs "./benchmark_data") [BSet; BGet] 8 100000 16 128 1000.

Record BenchmarkResult := mkResult {
  total_ops : Z; elapsed : Z * Z; qps : spec_float; p50_us : Z; p99_us : Z; p999_us : Z; br_errors : Z }.

(** ** Building a command *)

Definition pad (key_size : Z) (s : bytes) : bytes :=
  s ++ replicate (Z.to_nat (key_size - blen s)) Byte.x78.

Definition build_key (client_id op_index key_size : Z) : bytes :=
  let s := bs "key" ++ show_Z client_id ++ bs ":" ++ show_Z op_index in
  if blen s <? key_size then pad key_size s else s.

(** [random] is the [u64] drawn for the suffix. *)
Definition build_value (size random : Z) : bytes :=
  let v := replicate (Z.to_nat size) Byte.x76 in
  if 8 <=? size then take (Z.to_nat (size - 8)) v ++ rev (be_bytes 8 random) else v.

(** [draw] is the index [gen_range(0..len)] returns; it panics on an empty
    range. *)
Definition pick_command (config : BenchmarkConfig) (draw : nat) : outcome BenchmarkCommand :=
  match bc_commands config with
  | [] => Panic
  | [c] => Ok c
  | cs => match cs !! draw with Some c => Ok c | None => Panic end
  end.

Definition build_command (cmd : BenchmarkCommand) (client_id op_index random : Z) (config : BenchmarkConfig)
  : bytes * list bytes :=
  let key := build_key client_id op_index (bc_key_size config) in
  let value := build_value (bc_value_size config) random in
  (bs (command_name cmd),
   match cmd with
   | BSet => [key; value]
   | BGet => [key]
   | BHSet => [key; bs "field"; value]
   | BHGet => [key; bs "field"]
   | BLPush => [key; value]
   | BLRange => [key; bs "0"; bs "100"]
   | BZAdd => [key; bs "1.0"; value]
   | BZRange => [key; bs "0"; bs "100"]
   end).

(** ** Sending a command *)

(** The engine [run_embedded] sets up: the default configuration on the
    database of the run, and the shared parts as a server starts with them. *)
Definition embedded_start {DB L} (config : BenchmarkConfig) (storage : DB) (lua : L) (clock random : Z) :
    Shared DB L :=
  let s := storage_default in
  let cfg := mkConfig server_default
    (mkStorageConfig (bc_db_path config) (wal_dir s) (max_open_files s) (write_buffer_size s)
       (max_write_buffer_number s) (min_write_buffer_number_to_merge s) (target_file_size_base s)
       (max_bytes_for_level_base s) (level_compaction_dynamic_level_bytes s) (compression_type s)
       (bottommost_compression_type s) (block_cache_size s) (cache_index_and_filter_blocks s)
       (wal_bytes_limit s) (max_background_jobs s) (max_subcompactions s) (enable_pipelined_write s)
       (use_fsync s)) (log_level config_default) (dynamic_config config_default) None in
  server_bind cfg storage lua clock random.

(** The closure of [run_embedded]. *)
Definition embedded_call {DB L} `{RocksDB DB, LuaVM L, LuaTables, Externals} (fuel : nat)
    (config : BenchmarkConfig) (draw : nat) (random client_id op_index : Z) : M (Shared DB L) unit :=
  cmd ← lift (pick_command config draw);
  let '(name, args) := build_command cmd client_id op_index random config in
  reply ← dispatch fuel (mkClient client_id []) name args;
  match reply with RError e => throw (Command e) | _ => mret tt end.

(** The bytes [send_tcp_command] writes. *)
Definition tcp_request (config : BenchmarkConfig) (draw : nat) (random op_index : Z) : outcome bytes :=
  cmd ← pick_command config draw;
  let '(name, args) := build_command cmd 0 op_index random config in
  Ok (serialize (Array (BulkString (Some name) :: map (fun a => BulkString (Some a)) args))).

Definition READ_BUFFER : nat := 4096.

(** [exchange] is the connection: what the first [read] returns after the
    request was sent, or an I/O error. *)
Definition send_tcp_command (resp_size : Z) (exchange : bytes -> outcome bytes) (config : BenchmarkConfig)
    (draw : nat) (random op_index : Z) : outcome unit :=
  request ← tcp_request config draw random op_index;
  received ← exchange request;
  v ← parse_one resp_size (take READ_BUFFER received);
  match v with Some (RError e, _) => Err (Command e) | _ => Ok tt end.

(** ** The report *)

(** [x.round() as usize]: half away from zero, then saturating. *)
Definition round_usize (x : spec_float) : Z :=
  match x with
  | S754_finite false m e =>
      Z.min u64_max (if 0 <=? e then Zpos m * 2 ^ e else (2 * Zpos m + 2 ^ (- e)) / (2 * 2 ^ (- e)))
  | S754_infinity false => u64_max
  | _ => 0
  end.

(** A float literal. *)
Definition literal (s : string) : spec_float := f64_decode (default f64_nan (parse_f64 (bs s))).

(** [((len as f64 - 1.0) * p).round() as usize]. *)
Definition rank (len : Z) (p : spec_float) : Z :=
  round_usize (SFmul F_PREC F_EMAX (SFsub F_PREC F_EMAX (f64_of_int len) (literal "1.0")) p).

Definition percentile (sorted : list Z) (p : spec_float) : outcome Z :=
  let len := Z.of_nat (length sorted) in
  if bool_decide (sorted = []) then Ok 0
  else match sorted !! Z.to_nat (Z.min (rank len p) (len - 1)) with
       | Some v => Ok v
       | None => Panic
       end.

(** [Duration::as_secs_f64] of seconds and nanoseconds. *)
Definition as_secs_f64 (t : Z * Z) : spec_float :=
  SFadd F_PREC F_EMAX (f64_of_int t.1) (SFdiv F_PREC F_EMAX (f64_of_int t.2) (f64_of_int 1000000000)).

(** ** Worker threads *)

(** A worker between two calls, with its local latencies and errors; between
    the two shared updates at its end; ended; or panicked inside a call, with
    the locals that are lost. *)
Inductive bench_worker :=
  | Calling (op_index : nat) (local_latencies : list Z) (local_errors : nat)
  | Publishing (local_errors : nat)
  | Ended
  | Aborted (local_latencies : list Z) (local_errors : nat).

(** One call of the worker function: whether it failed, and its time. *)
Record sample := mkSample { s_client : nat; s_op : nat; s_failed : bool; s_micros : Z }.

Record bench := mkBench { b_workers : list bench_worker; b_latencies : list Z; b_errors : nat }.

Definition bench_start (clients : nat) : bench := mkBench (replicate clients (Calling 0 [] 0)) [] 0.

Section Workers.
Variable requests : nat.

Inductive bench_step (b : bench) : list sample -> bench -> Prop :=
  | bench_call i op lats errs failed micros :
      b_workers b !! i = Some (Calling op lats errs) -> (op < requests)%nat ->
      bench_step b [mkSample i op failed micros]
        (mkBench (<[i := Calling (S op) (lats ++ [micros]) (errs + Nat.b2n failed)]> (b_workers b))
           (b_latencies b) (b_errors b))
  | bench_panic i op lats errs :
      b_workers b !! i = Some (Calling op lats errs) -> (op < requests)%nat ->
      bench_step b [] (mkBench (<[i := Aborted lats errs]> (b_workers b)) (b_latencies b) (b_errors b))
  | bench_extend i lats errs :
      b_workers b !! i = Some (Calling requests lats errs) ->
      bench_step b [] (mkBench (<[i := Publishing errs]> (b_workers b)) (b_latencies b ++ lats) (b_errors b))
  | bench_add i errs :
      b_workers b !! i = Some (Publishing errs) ->
      bench_step b [] (mkBench (<[i := Ended]> (b_workers b)) (b_latencies b) (b_errors b + errs)).

Inductive bench_run (b : bench) : list sample -> bench -> Prop :=
  | bench_refl : bench_run b [] b
  | bench_then t1 b1 t2 b2 : bench_run b t1 b1 -> bench_step b1 t2 b2 -> bench_run b (t1 ++ t2) b2.

End Workers.

Definition ended (w : bench_worker) : Prop := w = Ended.

Definition is_aborted (w : bench_worker) : bool := match w with Aborted _ _ => true | _ => false end.

(** [config.clients * config.requests]. *)
Definition all_calls (checks : bool) (config : BenchmarkConfig) : outcome Z :=
  let product := bc_clients config * bc_requests config in
  if is_u64 product then Ok product else if checks then Panic else Ok (wrap_u64 product).

(** The start of [run_workers]: room for all latencies, of eight bytes each, is
    reserved; the calls of the warm-up leave no trace in this state. *)
Definition start_workers (checks : bool) (config : BenchmarkConfig) : outcome bench :=
  total ← all_calls checks config;
  if capacity_overflow 8 total then Panic else Ok (bench_start (Z.to_nat (bc_clients config))).

(** The end of [run_workers], once the threads have been joined. *)
Definition report (checks : bool) (config : BenchmarkConfig) (time : Z * Z) (b : bench) : outcome BenchmarkResult :=
  if existsb is_aborted (b_workers b) then Err (Command (bs "worker thread panicked"))
  else
    let sorted := merge_sort Z.le (b_latencies b) in
    total ← all_calls checks config;
    let secs := as_secs_f64 time in
    let rate := if SFltb (S754_zero false) secs then SFdiv F_PREC F_EMAX (f64_of_int total) secs else S754_zero false in
    p50 ← percentile sorted (literal "0.50");
    p99 ← percentile sorted (literal "0.99");
    p999 ← percentile sorted (literal "0.999");
    Ok (mkResult total time rate p50 p99 p999 (Z.of_nat (b_errors b))).

(** ** Ranks *)

Lemma literals :
  literal "1.0" = f64_of_int 1
  /\ literal "0.50" = S754_finite false 4503599627370496 (-53)
  /\ literal "0.99" = S754_finite false 8917127262193582 (-53)
  /\ literal "0.999" = S754_finite false 8998192055486251 (-53).
Proof. vm_compute. repeat split. Qed.

(** The rank as a rounded quotient of integers. *)
Lemma rank_quotient len mp :
  1 < len < 2 ^ 52 -> 2 ^ 52 <= Zpos mp < 2 ^ 53 ->
  exists q, rank len (S754_finite false mp (-53)) = (2 * q + 2 ^ 53) / 2 ^ 54
            /\ Z.abs (q - (len - 1) * Zpos mp) <= len - 1.
Proof.
  intros Hl Hp. unfold rank. rewrite (proj1 literals).
  pose proof (sub_one _ _ len (of_int_integer len ltac:(lia)) (of_int_integer 1 ltac:(lia)) ltac:(lia)) as Hs.
  destruct (mul_integer _ _ mp Hs ltac:(lia) Hp) as (m & e & -> & He & Hq).
  exists (Zpos m * 2 ^ (e + 53)). split; [|done]. unfold round_usize.
  assert ((if 0 <=? e then Zpos m * 2 ^ e else (2 * Zpos m + 2 ^ (- e)) / (2 * 2 ^ (- e)))
    = (2 * (Zpos m * 2 ^ (e + 53)) + 2 ^ 53) / 2 ^ 54) as ->.
  { destruct (0 <=? e) eqn:E; zbool.
    - assert (e = 0) as -> by lia. rewrite Z.mul_1_r. change (2 ^ (0 + 53)) with (2 ^ 53).
      apply (Z.div_unique _ _ _ (2 ^ 53)); lia.
    - assert (0 < 2 ^ (e + 53)) as H0 by (apply Z.pow_pos_nonneg; lia).
      assert (2 ^ 53 = 2 ^ (- e) * 2 ^ (e + 53)) as E53 by (rewrite <- Z.pow_add_r by lia; f_equal; lia).
      assert (0 < 2 ^ (- e)) as H1 by (apply Z.pow_pos_nonneg; lia).
      replace (2 ^ 54) with (2 * 2 ^ (- e) * 2 ^ (e + 53)) by (rewrite <- Z.mul_assoc, <- E53; reflexivity).
      rewrite E53. replace (2 * (Zpos m * 2 ^ (e + 53)) + 2 ^ (- e) * 2 ^ (e + 53))
        with ((2 * Zpos m + 2 ^ (- e)) * 2 ^ (e + 53)) by lia.
      rewrite Z.div_mul_cancel_r; lia. }
  set (q := Zpos m * 2 ^ (e + 53)) in *. apply Z.min_r. unfold u64_max.
  assert ((2 * q + 2 ^ 53) / 2 ^ 54 < 2 ^ 53); [|lia]. apply Z.div_lt_upper_bound; [lia|]. nia.
Qed.

Lemma rank_one mp : rank 1 (S754_finite false mp (-53)) = 0.
Proof.
  unfold rank. rewrite (proj1 literals).
  change (SFsub F_PREC F_EMAX (f64_of_int 1) (f64_of_int 1)) with (S754_zero false). reflexivity.
Qed.

(** A larger quantile has no smaller rank. *)
Lemma rank_mono len mp mp' :
  0 < len < 2 ^ 52 -> 2 ^ 52 <= Zpos mp -> Zpos mp + 2 <= Zpos mp' -> Zpos mp' < 2 ^ 53 ->
  rank len (S754_finite false mp (-53)) <= rank len (S754_finite false mp' (-53)).
Proof.
  intros Hl Hp Hpp Hp'. destruct (decide (len = 1)) as [->|Hne]; [by rewrite !rank_one|].
  destruct (rank_quotient len mp ltac:(lia) ltac:(lia)) as (q & -> & Hq).
  destruct (rank_quotient len mp' ltac:(lia) ltac:(lia)) as (q' & -> & Hq').
  apply Z.div_le_mono; [lia|]. nia.
Qed.

(** The rank of the quantile [a / b], given the float nearest to it, is an
    integer nearest to [(len - 1) * a / b]. *)
Lemma rank_nearest len mp a b :
  0 < len < 2 ^ 41 -> 2 ^ 52 <= Zpos mp < 2 ^ 53 -> 0 < a < b -> b <= 1000 ->
  Z.abs (b * Zpos mp - a * 2 ^ 53) <= b ->
  let r := rank len (S754_finite false mp (-53)) in
  0 <= r <= len - 1 /\ 2 * Z.abs (b * r - a * (len - 1)) <= b.
Proof.
  intros Hl Hp Hab Hb Hm. cbv zeta. destruct (decide (len = 1)) as [->|Hne]; [rewrite rank_one; lia|].
  destruct (rank_quotient len mp ltac:(lia) Hp) as (q & -> & Hq). set (x := len - 1) in *.
  set (r := (2 * q + 2 ^ 53) / 2 ^ 54).
  assert (2 ^ 54 * r <= 2 * q + 2 ^ 53 < 2 ^ 54 * r + 2 ^ 54) as Hr.
  { pose proof (Z.div_mod (2 * q + 2 ^ 53) (2 ^ 54) ltac:(lia)) as E.
    pose proof (Z.mod_pos_bound (2 * q + 2 ^ 53) (2 ^ 54) ltac:(lia)). fold r in E. lia. }
  assert (0 <= r <= x) as Hrx.
  { split; [apply Z.div_pos; nia|]. unfold r. assert ((2 * q + 2 ^ 53) / 2 ^ 54 < x + 1); [|lia].
    apply Z.div_lt_upper_bound; [lia|]. nia. }
  split; [lia|].
  assert (Z.abs (b * q - a * x * 2 ^ 53) <= 2 * b * x) as Hbq by nia.
  assert (4 * b * x <= 4 * 1000 * 2 ^ 41) as Hsmall by nia.
  assert (Z.abs (2 ^ 54 * (b * r) - 2 * (b * q)) <= b * 2 ^ 53) as Hbr by nia.
  set (u := b * r) in *. set (v := b * q) in *. set (w := a * x) in *. clearbody u v w. lia.
Qed.

(** ** What the workers add up to *)

Section WorkersFacts.
Variable requests : nat.

Definition calls_made (w : bench_worker) : nat :=
  match w with
  | Calling op _ _ => op
  | Publishing _ | Ended => requests
  | Aborted lats _ => length lats
  end.

Definition unpublished_latencies (w : bench_worker) : list Z :=
  match w with Calling _ lats _ | Aborted lats _ => lats | _ => [] end.

Definition unpublished_errors (w : bench_worker) : nat :=
  match w with Calling _ _ errs | Publishing errs | Aborted _ errs => errs | Ended => 0%nat end.

Definition failures (tr : list sample) : nat := sum_list_with (fun s => Nat.b2n (s_failed s)) tr.

Definition of_client (i : nat) (tr : list sample) : list sample := filter (fun s => s_client s = i) tr.

Record bench_inv (clients : nat) (tr : list sample) (b : bench) : Prop := {
  binv_clients : length (b_workers b) = clients;
  binv_latencies : b_latencies b ++ concat (map unpublished_latencies (b_workers b)) ≡ₚ map s_micros tr;
  binv_errors : (b_errors b + sum_list_with unpublished_errors (b_workers b) = failures tr)%nat;
  binv_total : sum_list_with calls_made (b_workers b) = length tr;
  binv_ops i w : b_workers b !! i = Some w ->
    map s_op (of_client i tr) = seq 0 (calls_made w)
    /\ match w with Calling op lats _ => op = length lats | _ => True end }.

Lemma split_insert {A} (l : list A) i w w' :
  l !! i = Some w -> exists l1 l2, l = l1 ++ w :: l2 /\ <[i := w']> l = l1 ++ w' :: l2.
Proof.
  intros H. exists (take i l), (drop (S i) l). split; [by rewrite take_drop_middle|].
  apply insert_take_drop. by eapply lookup_lt_Some.
Qed.

Lemma failures_app tr1 tr2 : failures (tr1 ++ tr2) = (failures tr1 + failures tr2)%nat.
Proof. apply sum_list_with_app. Qed.

Lemma start_inv clients : bench_inv clients [] (bench_start clients).
Proof.
  assert (forall n, concat (map unpublished_latencies (replicate n (Calling 0 [] 0))) = []) as H1
    by (induction n; simpl; auto).
  assert (forall n, sum_list_with unpublished_errors (replicate n (Calling 0 [] 0)) = 0%nat) as H2
    by (induction n; simpl; auto).
  assert (forall n, sum_list_with calls_made (replicate n (Calling 0 [] 0)) = 0%nat) as H3
    by (induction n; simpl; auto).
  split; simpl; [apply length_replicate|by rewrite H1|by rewrite H2|by rewrite H3|].
  intros i w [-> _]%lookup_replicate. done.
Qed.

(** Worker [i] moves from [w] to [w'] with the calls [new]. *)
Lemma worker_moves clients tr b i w w' new lats errs :
  bench_inv clients tr b -> b_workers b !! i = Some w ->
  lats ++ unpublished_latencies w' ≡ₚ unpublished_latencies w ++ map s_micros new ->
  (errs + unpublished_errors w' = unpublished_errors w + failures new)%nat ->
  calls_made w' = (calls_made w + length new)%nat ->
  Forall (fun s => s_client s = i) new -> map s_op new = seq (calls_made w) (length new) ->
  match w' with Calling op lats _ => op = length lats | _ => True end ->
  bench_inv clients (tr ++ new) (mkBench (<[i := w']> (b_workers b)) (b_latencies b ++ lats) (b_errors b + errs)).
Proof.
  intros [Hc Hl He Ht Ho] Hi Elat Eerr Ecalls Hnew Eops Hw.
  destruct (split_insert _ _ w w' Hi) as (l1 & l2 & E1 & E2).
  split; simpl.
  - by rewrite length_insert.
  - rewrite map_app, <- Hl, E2, E1, !map_app, !concat_app. cbn [map concat].
    transitivity (b_latencies b ++ concat (map unpublished_latencies l1)
      ++ (lats ++ unpublished_latencies w') ++ concat (map unpublished_latencies l2)); [solve_Permutation|].
    rewrite Elat. solve_Permutation.
  - rewrite failures_app, <- He, E2, E1, !sum_list_with_app. cbn [sum_list_with]. lia.
  - rewrite length_app, <- Ht, E2, E1, !sum_list_with_app. cbn [sum_list_with]. lia.
  - unfold of_client. intros j wj Hj. rewrite filter_app, map_app.
    destruct (decide (j = i)) as [->|Hne].
    + rewrite list_lookup_insert_eq in Hj by (by eapply lookup_lt_Some). injection Hj as <-.
      split; [|done]. destruct (Ho _ _ Hi) as [Eo _]. unfold of_client in Eo.
      rewrite Eo, (filter_all _ new), Eops, Ecalls, seq_app; [done|].
      intros x Hx. by eapply Forall_forall in Hnew.
    + rewrite list_lookup_insert_ne in Hj by done. rewrite (filter_none _ new); [rewrite app_nil_r; by apply Ho|].
      intros x Hx. eapply Forall_forall in Hnew; [|done]. congruence.
Qed.

Lemma step_bench_inv clients tr b new b' :
  bench_inv clients tr b -> bench_step requests b new b' -> bench_inv clients (tr ++ new) b'.
Proof.
  intros Hinv Hs. destruct Hs as [i op lats errs failed micros Hi Hop|i op lats errs Hi Hop|i lats errs Hi|i errs Hi];
    destruct (binv_ops _ _ _ Hinv _ _ Hi) as [_ Hlen].
  - pose proof (worker_moves clients tr b i _ (Calling (S op) (lats ++ [micros]) (errs + Nat.b2n failed))
      [mkSample i op failed micros] [] 0 Hinv Hi) as H. rewrite (app_nil_r (b_latencies b)), (Nat.add_0_r (b_errors b)) in H. apply H; simpl;
      [done|lia|lia|by repeat constructor|done|rewrite length_app; simpl; lia].
  - pose proof (worker_moves clients tr b i _ (Aborted lats errs) [] [] 0 Hinv Hi) as H.
    rewrite (app_nil_r (b_latencies b)), (Nat.add_0_r (b_errors b)) in H. apply H; simpl; [by rewrite app_nil_r|lia|lia|done|done|done].
  - pose proof (worker_moves clients tr b i _ (Publishing errs) [] lats 0 Hinv Hi) as H.
    rewrite (Nat.add_0_r (b_errors b)) in H. apply H; simpl; [by rewrite ?app_nil_r|lia|lia|done|done|done].
  - pose proof (worker_moves clients tr b i _ Ended [] [] errs Hinv Hi) as H.
    rewrite (app_nil_r (b_latencies b)) in H. apply H; simpl; [by rewrite ?app_nil_r|lia|lia|done|done|done].
Qed.

Lemma run_bench_inv clients tr b : bench_run requests (bench_start clients) tr b -> bench_inv clients tr b.
Proof.
  intros Hr. induction Hr as [|t1 b1 t2 b2 _ IH Hs]; [apply start_inv|]. by eapply step_bench_inv.
Qed.

(** When every worker has ended, everything is published. *)
Lemma ended_totals clients tr b :
  bench_run requests (bench_start clients) tr b -> Forall ended (b_workers b) ->
  b_latencies b ≡ₚ map s_micros tr /\ b_errors b = failures tr /\ length tr = (clients * requests)%nat
  /\ forall i, (i < clients)%nat -> map s_op (of_client i tr) = seq 0 requests.
Proof.
  intros Hr He. destruct (run_bench_inv _ _ _ Hr) as [Hc Hl Herr Ht Ho].
  assert (b_workers b = replicate clients Ended) as E.
  { symmetry. apply replicate_as_Forall. split; [done|]. by apply (Forall_impl _ _ _ He). }
  rewrite E in *. clear E.
  assert (concat (map unpublished_latencies (replicate clients Ended)) = []) as E1
    by (clear; induction clients; simpl; auto).
  assert (sum_list_with unpublished_errors (replicate clients Ended) = 0%nat) as E2
    by (clear; induction clients; simpl; auto).
  assert (sum_list_with calls_made (replicate clients Ended) = (clients * requests)%nat) as E3
    by (clear; induction clients; simpl; auto).
  rewrite E1, app_nil_r in Hl. split; [done|]. split; [lia|]. split; [lia|].
  intros i Hi. destruct (Ho i Ended) as [Hops _]; [by apply lookup_replicate|done].
Qed.

End WorkersFacts.

(** ** Percentiles *)

Lemma sorted_lookup_le l i j x y :
  StronglySorted Z.le l -> l !! i = Some x -> l !! j = Some y -> (i <= j)%nat -> x <= y.
Proof.
  intros Hs. revert i j. induction Hs as [|z l Hs IH Hz]; intros [|i] [|j] Hx Hy Hij; simplify_eq/=; try lia.
  - eapply Forall_lookup in Hz; [|done]. done.
  - eapply (IH i j); [done|done|lia].
Qed.

(** The float of mantissa [mp] is nearest to the fraction [a / b]. *)
Definition quantile (mp : positive) (a b : Z) : Prop :=
  2 ^ 52 <= Zpos mp < 2 ^ 53 /\ 0 < a < b /\ b <= 1000 /\ Z.abs (b * Zpos mp - a * 2 ^ 53) <= b.

(** [v] is at a position of [l] nearest to the fraction [a / b] of the last. *)
Definition nearest_rank (l : list Z) (a b : Z) (v : Z) : Prop :=
  exists i, l !! i = Some v /\ 2 * Z.abs (b * Z.of_nat i - a * (Z.of_nat (length l) - 1)) <= b.

Lemma percentile_rank l mp a b :
  l <> [] -> Z.of_nat (length l) < 2 ^ 41 -> quantile mp a b ->
  exists v, percentile l (S754_finite false mp (-53)) = Ok v /\ nearest_rank l a b v
    /\ l !! Z.to_nat (rank (Z.of_nat (length l)) (S754_finite false mp (-53))) = Some v.
Proof.
  intros Hne Hl (Hmp & Hab & Hb & Hq). set (n := Z.of_nat (length l)) in *.
  assert (0 < n) as Hn by (destruct l; [done|simpl in n; lia]).
  destruct (rank_nearest n mp a b) as [Br Nr]; [lia..|]. set (r := rank n _) in *.
  assert (exists v, l !! Z.to_nat r = Some v) as [v Ev] by (apply lookup_lt_is_Some; lia).
  exists v. split; [|split; [|done]].
  - unfold percentile. rewrite bool_decide_false by done. cbv zeta. fold n r. rewrite Z.min_l by lia. by rewrite Ev.
  - exists (Z.to_nat r). split; [done|]. by rewrite Z2Nat.id by lia.
Qed.

Lemma percentiles_ordered l mp mp' v v' :
  l <> [] -> Z.of_nat (length l) < 2 ^ 41 -> StronglySorted Z.le l ->
  2 ^ 52 <= Zpos mp -> Zpos mp + 2 <= Zpos mp' -> Zpos mp' < 2 ^ 53 ->
  l !! Z.to_nat (rank (Z.of_nat (length l)) (S754_finite false mp (-53))) = Some v ->
  l !! Z.to_nat (rank (Z.of_nat (length l)) (S754_finite false mp' (-53))) = Some v' -> v <= v'.
Proof.
  intros Hne Hl Hs H1 H2 H3 Hv Hv'. eapply sorted_lookup_le; [done|exact Hv|exact Hv'|].
  assert (0 < Z.of_nat (length l)) by (destruct l; [done|simpl; lia]).
  pose proof (rank_mono (Z.of_nat (length l)) mp mp' ltac:(lia) H1 H2 H3). lia.
Qed.

(** ** Properties *)

(** C40: the report of a run. However the worker threads interleave and however
    long the calls take, once every worker has ended without a panic each
    client has made its requests in order, the report counts the calls and the
    failed calls, and the three percentiles are latencies of the run at the
    ranks nearest to 1/2, 99/100 and 999/1000 of the sorted latencies, in
    increasing order (or 0 when there was no call). *)
Theorem bench_report checks config time clients requests b0 tr b :
  bc_clients config = Z.of_nat clients -> bc_requests config = Z.of_nat requests ->
  Z.of_nat (clients * requests) < 2 ^ 41 -> start_workers checks config = Ok b0 ->
  bench_run requests b0 tr b -> Forall ended (b_workers b) ->
  (forall i, (i < clients)%nat -> map s_op (of_client i tr) = seq 0 requests)
  /\ exists r, report checks config time b = Ok r
     /\ total_ops r = Z.of_nat (length tr) /\ br_errors r = Z.of_nat (failures tr)
     /\ (tr = [] -> p50_us r = 0 /\ p99_us r = 0 /\ p999_us r = 0)
     /\ (tr <> [] -> exists l, l ≡ₚ map s_micros tr /\ StronglySorted Z.le l
          /\ nearest_rank l 1 2 (p50_us r) /\ nearest_rank l 99 100 (p99_us r)
          /\ nearest_rank l 999 1000 (p999_us r) /\ p50_us r <= p99_us r <= p999_us r).
Proof.
  intros Hc Hq Hsmall Hstart Hr He.
  assert (all_calls checks config = Ok (Z.of_nat (clients * requests))) as Hall.
  { unfold all_calls. rewrite Hc, Hq, <- Nat2Z.inj_mul. cbv zeta. by rewrite (proj2 (is_u64_spec _)) by lia. }
  unfold start_workers in Hstart. rewrite Hall in Hstart. cbn [mbind outcome_bind] in Hstart.
  destruct (capacity_overflow 8 _); [done|]. injection Hstart as <-. rewrite Hc, Nat2Z.id in Hr.
  destruct (ended_totals _ _ _ _ Hr He) as (Hl & Herr & Hn & Hops).
  split; [done|]. unfold report.
  assert (existsb is_aborted (b_workers b) = false) as ->.
  { clear -He. induction He as [|w ws -> _ IH]; [done|]. exact IH. }
  rewrite Hall, <- Hn. rewrite <- Hn in Hsmall. cbn [mbind outcome_bind]. cbv zeta.
  set (l := merge_sort Z.le (b_latencies b)).
  assert (l ≡ₚ map s_micros tr) as Hp by (unfold l; by rewrite merge_sort_Permutation).
  assert (StronglySorted Z.le l) as Hs by (apply StronglySorted_merge_sort; [apply _|intros x y; lia]).
  assert (length l = length tr) as El by (by rewrite Hp, length_map).
  destruct literals as (_ & -> & -> & ->).
  destruct (decide (tr = [])) as [->|Hne].
  { apply nil_length_inv in El. rewrite El. eexists. split; [done|]. by rewrite Herr. }
  assert (l <> []) as Hlne by (intros E; rewrite E in El; destruct tr; done).
  rewrite <- El in Hsmall.
  destruct (percentile_rank l 4503599627370496 1 2 Hlne Hsmall ltac:(unfold quantile; lia)) as (v50 & -> & R50 & E50).
  destruct (percentile_rank l 8917127262193582 99 100 Hlne Hsmall ltac:(unfold quantile; lia)) as (v99 & -> & R99 & E99).
  destruct (percentile_rank l 8998192055486251 999 1000 Hlne Hsmall ltac:(unfold quantile; lia)) as (v999 & -> & R999 & E999).
  eexists. split; [reflexivity|]. cbn [total_ops br_errors p50_us p99_us p999_us].
  split; [done|]. split; [by rewrite Herr|]. split; [done|]. intros _. exists l.
  split; [done|]. split; [done|]. split; [done|]. split; [done|]. split; [done|].
  split; [eapply (percentiles_ordered l 4503599627370496 8917127262193582)
         |eapply (percentiles_ordered l 8917127262193582 8998192055486251)]; done || lia.
Qed.

(** ** Keys and requests *)

(** A list that does not start with a digit. *)
Definition no_digit_first (l : bytes) : Prop := match l with b :: _ => is_digit b = false | [] => True end.

Lemma digits_app_inj ds ds' r r' :
  forallb is_digit ds = true -> forallb is_digit ds' = true -> no_digit_first r -> no_digit_first r' ->
  ds ++ r = ds' ++ r' -> ds = ds' /\ r = r'.
Proof.
  intros Hd Hd' Hr Hr'. revert ds' Hd'. induction ds as [|b ds IH]; intros [|b' ds'] Hd' E; simpl in *; zbool.
  - done.
  - subst r. simpl in Hr. congruence.
  - subst r'. simpl in Hr'. congruence.
  - injection E as -> E. destruct (IH ltac:(done) ds' ltac:(done) E) as [-> ->]. done.
Qed.

Lemma show_Z_inj z z' : is_u64 z = true -> is_u64 z' = true -> show_Z z = show_Z z' -> z = z'.
Proof. intros H H' E. apply parse_u64_show in H, H'. rewrite E in H. congruence. Qed.

Lemma show_Z_digits_only z : is_u64 z = true -> forallb is_digit (show_Z z) = true.
Proof.
  intros H. apply is_u64_spec in H. unfold show_Z. rewrite (proj2 (Z.ltb_ge _ _)) by lia. apply show_nonneg_digits. lia.
Qed.

Lemma build_key_shape c i n :
  exists m, build_key c i n = bs "key" ++ show_Z c ++ bs ":" ++ show_Z i ++ replicate m Byte.x78.
Proof.
  unfold build_key, pad. cbv zeta. set (s := bs "key" ++ _). destruct (blen s <? n).
  - eexists. unfold s. by rewrite <- !app_assoc.
  - exists 0%nat. unfold s. by rewrite app_nil_r.
Qed.

(** Every client and operation has a key of its own, padded or not. *)
Theorem build_key_inj c i c' i' n n' :
  is_u64 c = true -> is_u64 i = true -> is_u64 c' = true -> is_u64 i' = true ->
  build_key c i n = build_key c' i' n' -> c = c' /\ i = i'.
Proof.
  intros Hc Hi Hc' Hi'. destruct (build_key_shape c i n) as [m ->], (build_key_shape c' i' n') as [m' ->].
  intros E%(app_inv_head (bs "key")).
  apply digits_app_inj in E as [E1 E2]; [|by apply show_Z_digits_only..|done|done].
  apply (app_inv_head (bs ":")) in E2.
  apply digits_app_inj in E2 as [E2 _]; [|by apply show_Z_digits_only..|by destruct m|by destruct m'].
  split; by apply show_Z_inj.
Qed.

(** What a TCP client sends is parsed by the server as the command the embedded
    mode dispatches for client 0. *)
Theorem tcp_request_parsed rs config draw random op request rest :
  1 <= rs -> tcp_request config draw random op = Ok request ->
  exists cmd, pick_command config draw = Ok cmd
    /\ let '(name, args) := build_command cmd 0 op random config in
       (wf_value rs (encode_command (name :: args)) = true ->
        parse_cmd rs (request ++ rest) = Ok (Some (name :: args, length request))).
Proof.
  intros Hrs. unfold tcp_request. destruct (pick_command config draw) as [cmd| | |]; [|done..].
  cbn [mbind outcome_bind]. destruct (build_command cmd 0 op random config) as [name args] eqn:E.
  intros [= <-]. exists cmd. split; [done|]. rewrite E. intros Hwf.
  change (Array (BulkString (Some name) :: map (fun a => BulkString (Some a)) args)) with (encode_command (name :: args)).
  by apply parse_cmd_encoded.
Qed.

(** ** Concrete runs *)

Definition small_config : BenchmarkConfig :=
  mkBenchConfig Tcp (bs "127.0.0.1") 6379 (bs "d") [BSet; BGet] 2 1 12 10 0.

(** The mode and command texts are read as their names, in either case. *)
Example from_str_examples :
  map (fun t => command_from_str (bs t)) ["set"; "ZRange"; "del"]%string
  = [inr BSet; inr BZRange; inl (bs "unknown benchmark command: del")]
  /\ map (fun t => mode_from_str (bs t)) ["TCP"; "embedded"; ""]%string
     = [inr Tcp; inr Embedded; inl (bs "unknown benchmark mode: ")].
Proof. vm_compute. split; reflexivity. Qed.

(** In the embedded mode each client has its own keys; the requests over TCP
    name client 0 whichever thread sends them. *)
Example tcp_clients_share_keys :
  build_command BGet 1 7 0 small_config = (bs "GET", [bs "key1:7xxxxxx"])
  /\ (tcp_request small_config 1 0 7)
     = Ok (serialize (encode_command [bs "GET"; bs "key0:7xxxxxx"])).
Proof. vm_compute. split; reflexivity. Qed.

(** The commands of the embedded mode on an empty database succeed, also the
    reads; a later command of another type on the same key is an error. *)
Example embedded_session :
  let config cs := mkBenchConfig Embedded [] 0 (bs "d") cs 1 1 16 16 0 in
  let start := embedded_start (config []) db0 [] 1000 7 in
  let call cs op := embedded_call (DB:=MemDB) (L:=list frame) 1 (config cs) 0 5 3 op in
  (mapM (fun c => call [c] 0) [BGet; BSet; BGet] start).1 = Ok [tt; tt; tt]
  /\ (mapM (fun ci => call [ci.1] ci.2) [(BHSet, 0); (BHGet, 0); (BLPush, 1); (BLRange, 1); (BZAdd, 2); (BZRange, 2)] start).1
     = Ok [tt; tt; tt; tt; tt; tt]
  /\ (mapM (fun c => call [c] 0) [BSet; BHSet] start).1 = Err (Command WRONGTYPE).
Proof. vm_compute. repeat split. Qed.

Definition two_samples : list sample := [mkSample 1 0 true 70; mkSample 0 0 false 30].

Definition two_ended : bench := mkBench [Ended; Ended] [30; 70] 1.

Lemma two_run : bench_run 1 (bench_start 2) two_samples two_ended.
Proof.
  change two_samples with (((((([] ++ [mkSample 1 0 true 70]) ++ [mkSample 0 0 false 30]) ++ []) ++ []) ++ []) ++ []).
  eapply bench_then; [|apply (bench_add 1 (mkBench [Ended; Publishing 1] [30; 70] 0) 1 1%nat); reflexivity].
  eapply bench_then; [|apply (bench_add 1 (mkBench [Publishing 0; Publishing 1] [30; 70] 0) 0 0%nat); reflexivity].
  eapply bench_then; [|apply (bench_extend 1 (mkBench [Publishing 0; Calling 1 [70] 1] [30] 0) 1); reflexivity].
  eapply bench_then; [|apply (bench_extend 1 (mkBench [Calling 1 [30] 0; Calling 1 [70] 1] [] 0) 0); reflexivity].
  eapply bench_then; [|apply (bench_call 1 (mkBench [Calling 0 [] 0; Calling 1 [70] 1] [] 0) 0 0 [] 0 false 30); [reflexivity|lia]].
  eapply bench_then; [apply bench_refl|]. apply (bench_call 1 (bench_start 2) 1 0 [] 0 true 70); [reflexivity|lia].
Qed.

Lemma bench_report_witness :
  exists r, report true small_config (0, 1000) two_ended = Ok r
    /\ total_ops r = 2 /\ br_errors r = 1 /\ p50_us r <= p99_us r <= p999_us r.
Proof.
  destruct (bench_report true small_config (0, 1000) 2 1 (bench_start 2) two_samples two_ended)
    as (_ & r & Hr & Ht & He & _ & Hp); [reflexivity|reflexivity|reflexivity|reflexivity|exact two_run|repeat constructor|].
  exists r. split; [exact Hr|]. split; [exact Ht|]. split; [exact He|].
  destruct Hp as (l & _ & _ & _ & _ & _ & H); [discriminate|exact H].
Defined.
