(* ===== verification/Startup.v ===== *)
(** * The entry points (src/cli.rs, src/bin/benchmark.rs)

    What happens between the parsed command line and the first request: the
    server loads its configuration, opens the database, and binds; the load
    generator reads its mode and its list of commands. The parsing of arguments
    (clap), the network and RocksDB are parameters. *)

From S2P Require Import Prelude Bytes Text Error Types Backend Storage Protocol Context Lua PubSub Cluster Config Admin Dispatch Benchmark.

Local Open Scope Z_scope.

(** ** The server *)

Inductive Commands := ServerCommand (config : option bytes) | EmbeddedCommand.

Section Run.
Context {DB : Type} {RDB : RocksDB DB} {L : Type}.
Variable ov : bool.
Variable total_memory : Z.
Variable read_to_string : bytes -> outcome bytes.
Variable toml : bytes -> option Config.
Variable yaml : bytes -> bytes + Config.
(** [DB::list_cf] and [DB::open_cf_descriptors]. *)
Variable list_cf : Options -> bytes -> option (list cf_name).
Variable open_cf_descriptors : bytes -> list (cf_name * Options) -> outcome DB.
(** [TcpListener::bind]. *)
Variable listen : bytes -> outcome unit.
(** [LuaEngine::new]. *)
Variable lua_new : outcome L.
Variables clock random : Z.
(** Which branch of [select!] gets to bind first. *)
Variable http_first : bool.

(** [StorageEngine::open]. *)
Definition engine_open (path : bytes) (config : Config) : outcome DB :=
  open_cf_descriptors path (open_descriptors config (list_cf (open_options config) path)).

Definition bind_tcp (config : Config) (storage : DB) : outcome (Shared DB L) :=
  _ ← listen (bind (server config));
  lua ← lua_new;
  Ok (server_bind config storage lua clock random).

(** [cli::run] up to the point where both listeners wait. *)
Definition run (command : Commands) : outcome (option (Shared DB L)) :=
  match command with
  | ServerCommand path =>
      config ← load ov total_memory read_to_string toml yaml path;
      storage ← engine_open (db_path (storage config)) config;
      if http_first then
        _ ← listen (http_bind (server config));
        s ← bind_tcp config storage;
        Ok (Some s)
      else
        s ← bind_tcp config storage;
        _ ← listen (http_bind (server config));
        Ok (Some s)
  | EmbeddedCommand => Ok None
  end.

End Run.

(** ** The load generator *)

(** The encodings of the characters with the property White_Space. *)
Definition white_space : list bytes :=
  [[Byte.x20]; [Byte.x09]; [Byte.x0a]; [Byte.x0b]; [Byte.x0c]; [Byte.x0d]; [Byte.xc2; Byte.x85]; [Byte.xc2; Byte.xa0];
   [Byte.xe1; Byte.x9a; Byte.x80]; [Byte.xe2; Byte.x80; Byte.x80]; [Byte.xe2; Byte.x80; Byte.x81];
   [Byte.xe2; Byte.x80; Byte.x82]; [Byte.xe2; Byte.x80; Byte.x83]; [Byte.xe2; Byte.x80; Byte.x84];
   [Byte.xe2; Byte.x80; Byte.x85]; [Byte.xe2; Byte.x80; Byte.x86]; [Byte.xe2; Byte.x80; Byte.x87];
   [Byte.xe2; Byte.x80; Byte.x88]; [Byte.xe2; Byte.x80; Byte.x89]; [Byte.xe2; Byte.x80; Byte.x8a];
   [Byte.xe2; Byte.x80; Byte.xa8]; [Byte.xe2; Byte.x80; Byte.xa9]; [Byte.xe2; Byte.x80; Byte.xaf];
   [Byte.xe2; Byte.x81; Byte.x9f]; [Byte.xe3; Byte.x80; Byte.x80]].

(** Drops leading occurrences of the patterns. *)
Fixpoint strip (patterns : list bytes) (fuel : nat) (l : bytes) : bytes :=
  match fuel with
  | O => l
  | S fuel =>
      match list_find (fun p => starts_with p l = true) patterns with
      | Some (_, p) => strip patterns fuel (drop (length p) l)
      | None => l
      end
  end.

(** [str::trim]: white space off the front and, read backwards, off the end. *)
Definition trim (l : bytes) : bytes :=
  let l := strip white_space (length l) l in
  rev (strip (map (@rev _) white_space) (length l) (rev l)).

(** [cli.commands.split(',').map(..).collect()]: the first error wins. *)
Fixpoint collect_commands (l : list bytes) : bytes + list BenchmarkCommand :=
  match l with
  | [] => inr []
  | s :: rest =>
      match command_from_str (trim s) with
      | inl e => inl e
      | inr c => match collect_commands rest with inl e => inl e | inr cs => inr (c :: cs) end
      end
  end.

Definition parse_commands (s : bytes) : bytes + list BenchmarkCommand :=
  collect_commands (split_on Byte.x2c [] s).

Record Cli := mkCli {
  cli_mode : bytes; cli_host : bytes; cli_port : Z; cli_db_path : bytes; cli_commands : bytes;
  cli_clients : Z; cli_requests : Z; cli_key_size : Z; cli_value_size : Z; cli_warmup : Z }.

(** [main] of the load generator up to [run]: texts it does not know panic. *)
Definition main_config (cli : Cli) : outcome BenchmarkConfig :=
  match mode_from_str (cli_mode cli) with
  | inl _ => Panic
  | inr mode =>
      match parse_commands (cli_commands cli) with
      | inl _ => Panic
      | inr commands =>
          Ok (mkBenchConfig mode (cli_host cli) (cli_port cli) (cli_db_path cli) commands (cli_clients cli)
                (cli_requests cli) (cli_key_size cli) (cli_value_size cli) (cli_warmup cli))
      end
  end.

(** The values of an empty command line. *)
Definition cli_default : Cli :=
  mkCli (bs "embedded") (bs "127.0.0.1") 6379 (bs "./benchmark_data") (bs "SET,GET") 8 100000 16 128 1000.

(** ** The server is ready *)

(** A start that succeeds on a new database, or on one that has all families,
    gives a server whose configuration is in order, whose storage satisfies
    what the commands rely on, and whose hub, scripts and cluster are empty.
    The hypothesis on RocksDB: an opened database has the families asked
    for. *)
Theorem server_ready {DB L} `{RocksDB DB} mem read toml yaml list_cf open_cf listen lua clock random http_first
    path (s : Shared DB L) :
  (forall path ds d cf, open_cf path ds = Ok d -> cf ∈ ds.*1 -> db_has_cf d cf = true) ->
  (forall opts path cfs, list_cf opts path = Some cfs -> ALL_CFS ⊆ cfs) ->
  is_u64 (mem * 1024) = true ->
  run true mem read toml yaml list_cf open_cf listen lua clock random http_first (ServerCommand path) = Ok (Some s) ->
  config_ok mem (sh_config s) /\ wf_db (sh_storage s)
  /\ sh_pubsub s = hub_start /\ sh_scripts s = ∅ /\ sh_cluster s = cluster_new
  /\ is_master (sh_replication s) = true.
Proof.
  intros Hopen Hlist Hmem. unfold run.
  destruct (load true mem read toml yaml path) as [c|e| |] eqn:El; try done. cbn [mbind outcome_bind].
  destruct (engine_open list_cf open_cf (db_path (storage c)) c) as [d|e| |] eqn:Eo; try done. cbn [mbind outcome_bind].
  intros Hs. assert (exists l, s = server_bind c d l clock random) as [l ->].
  { unfold bind_tcp in Hs. destruct http_first, (listen (http_bind (server c))), (listen (bind (server c))), lua;
      cbn [mbind outcome_bind] in Hs; simplify_eq; eauto. }
  split; [by eapply load_ok; auto|]. split; [|done].
  intros cf Hcf. eapply Hopen; [exact Eo|]. unfold open_descriptors. rewrite <- list_fmap_compose.
  rewrite (list_fmap_ext _ id), list_fmap_id by done.
  unfold open_cfs. destruct (list_cf _ _) as [cfs|] eqn:E; [|done]. by apply (Hlist _ _ _ E).
Qed.

(** ** The commands of the load generator *)

(** White space of one byte. *)
Definition blank (b : byte) : Prop := b ∈ [Byte.x20; Byte.x09; Byte.x0a; Byte.x0b; Byte.x0c; Byte.x0d].

Lemma strip_blanks P l x :
  P = white_space \/ P = map (@rev _) white_space -> Forall blank l ->
  strip P (length (l ++ x)) (l ++ x) = strip P (length x) x.
Proof.
  intros HP Hl. induction Hl as [|b l Hb _ IH]; [done|]. rewrite <- IH.
  unfold blank in Hb. rewrite !elem_of_cons in Hb.
  destruct Hb as [->|[->|[->|[->|[->|[->|Hb]]]]]]; [..|by apply not_elem_of_nil in Hb]; by destruct HP as [->| ->].
Qed.

Lemma strip_name c r : strip white_space (length (bs (command_name c) ++ r)) (bs (command_name c) ++ r) = bs (command_name c) ++ r.
Proof. by destruct c. Qed.

Lemma strip_name_rev c :
  strip (map (@rev _) white_space) (length (rev (bs (command_name c)))) (rev (bs (command_name c)))
  = rev (bs (command_name c)).
Proof. by destruct c. Qed.

Lemma trim_name l r c : Forall blank l -> Forall blank r -> trim (l ++ bs (command_name c) ++ r) = bs (command_name c).
Proof.
  intros Hl Hr. unfold trim. rewrite (strip_blanks _ l) by auto. rewrite strip_name. cbv zeta.
  rewrite rev_app_distr, <- (length_rev (bs _ ++ r)), rev_app_distr.
  rewrite strip_blanks, strip_name_rev, rev_involutive; [done|by right|]. by apply Forall_rev.
Qed.

Lemma from_str_name c : command_from_str (bs (command_name c)) = inr c.
Proof. by destruct c. Qed.

Lemma split_on_field sep cur a rest : sep ∉ a -> split_on sep cur (a ++ sep :: rest) = (cur ++ a) :: split_on sep [] rest.
Proof.
  revert cur. induction a as [|b a IH]; intros cur Ha; simpl.
  - rewrite decide_True by done. by rewrite app_nil_r.
  - apply not_elem_of_cons in Ha as [Hb Ha]. rewrite decide_False by done. by rewrite IH, <- app_assoc.
Qed.

Lemma split_on_last sep cur a : sep ∉ a -> split_on sep cur a = [cur ++ a].
Proof.
  revert cur. induction a as [|b a IH]; intros cur Ha; simpl; [by rewrite app_nil_r|].
  apply not_elem_of_cons in Ha as [Hb Ha]. rewrite decide_False by done. by rewrite IH, <- app_assoc.
Qed.

(** A command with white space around it. *)
Definition padded : Type := bytes * BenchmarkCommand * bytes.
Definition padded_ok (f : padded) : Prop := Forall blank f.1.1 /\ Forall blank f.2.
Definition show_padded (f : padded) : bytes := f.1.1 ++ bs (command_name f.1.2) ++ f.2.

Fixpoint show_list (f : padded) (fs : list padded) : bytes :=
  match fs with [] => show_padded f | g :: fs => show_padded f ++ Byte.x2c :: show_list g fs end.

Lemma no_comma f : padded_ok f -> Byte.x2c ∉ show_padded f.
Proof.
  intros [Hl Hr]. unfold show_padded. rewrite !elem_of_app.
  assert (forall l, Forall blank l -> Byte.x2c ∉ l) as Hn.
  { intros l Hf Hin. eapply Forall_forall in Hf; [|done]. unfold blank in Hf.
    apply (bool_decide_pack _) in Hf. by vm_compute in Hf. }
  intros [H|[H|H]]; [by apply (Hn _ Hl)| |by apply (Hn _ Hr)].
  by destruct f as [[? []] ?]; apply (bool_decide_pack _) in H; vm_compute in H.
Qed.

Lemma read_padded f : padded_ok f -> command_from_str (trim (show_padded f)) = inr f.1.2.
Proof. intros [Hl Hr]. unfold show_padded. rewrite trim_name by done. apply from_str_name. Qed.

(** Any list of commands, with any white space around the names, is read back
    from its text. *)
Theorem commands_roundtrip f fs :
  Forall padded_ok (f :: fs) -> parse_commands (show_list f fs) = inr (map (fun p => p.1.2) (f :: fs)).
Proof.
  unfold parse_commands. revert f. induction fs as [|g fs IH]; intros f Hf; apply Forall_cons in Hf as [Hf Hfs]; cbn [show_list].
  - rewrite split_on_last by by apply no_comma. cbn [app collect_commands]. by rewrite read_padded.
  - rewrite split_on_field by by apply no_comma. cbn [app collect_commands]. by rewrite read_padded, IH.
Qed.

Lemma split_on_nonempty sep cur l : split_on sep cur l <> [].
Proof. revert cur. induction l as [|b l IH]; intros cur; simpl; [done|]. case_decide; [done|apply IH]. Qed.

(** The program never hands an empty list of commands on, and so the choice of
    a command never panics. *)
Theorem main_config_draws cli config draw :
  main_config cli = Ok config ->
  bc_commands config <> []
  /\ ((draw < length (bc_commands config))%nat -> exists c, pick_command config draw = Ok c).
Proof.
  intros Hm. assert (bc_commands config <> []) as Hne.
  { unfold main_config in Hm. destruct (mode_from_str _); [done|].
    destruct (parse_commands _) as [|cs] eqn:E; [done|]. injection Hm as <-. simpl. unfold parse_commands in E.
    destruct (split_on _ _ _) as [|f fs] eqn:Es; [by apply split_on_nonempty in Es|]. simpl in E.
    destruct (command_from_str _); [done|]. destruct (collect_commands fs); [done|]. by injection E as <-. }
  split; [done|]. intros Hd. unfold pick_command. destruct (bc_commands config) as [|c [|c' cs]]; [done|by eexists|].
  destruct (lookup_lt_is_Some_2 _ _ Hd) as [x ->]. by eexists.
Qed.

(** An empty command line gives the default configuration of the library. *)
Example main_config_default : main_config cli_default = Ok bench_default.
Proof. vm_compute. reflexivity. Qed.

(** An empty text, or a comma at its end, is a command without a name. *)
Example empty_commands_refused :
  parse_commands [] = inl (bs "unknown benchmark command: ")
  /\ parse_commands (bs "SET, get ,") = inl (bs "unknown benchmark command: ")
  /\ parse_commands (bs "SET, get ") = inr [BSet; BGet].
Proof. vm_compute. repeat split. Qed.
