(* ===== verification/Server.v ===== *)
(** * The server (src/server.rs)

    A connection reads bytes, parses commands, keeps the state of its
    transaction and hands the work to the thread pool as jobs. The file is
    written against an interface of what the command table promises
    ([CommandService]); the last part discharges it with the real table. A job
    runs as one step: the pool of src/thread_pool.rs runs the jobs of all
    connections one at a time, which [pool_serves] makes precise. *)

From S2P Require Import Prelude Bytes Text Error Types Encoding Backend Storage Protocol Context Keyspace StringCmd PubSub Cluster Config Admin ThreadPool Lua Dispatch.

Local Open Scope Z_scope.

Class CommandService (S : Type) := {
  (** [table.dispatch(&ctx, &cmd, &args)] *)
  run_command : Client -> bytes -> list bytes -> M S RespValue;
  (** [ctx.get_meta(&key)] *)
  read_meta : Client -> bytes -> M S (option bytes);
  (** [pubsub_rx.recv()] *)
  take_message : Client -> S -> option (PublishEvent * S);
  (** [alloc_client_id], a new mailbox and the namespace of the configuration *)
  open_client : S -> Client * S;
  (** [pubsub_rx] is dropped *)
  close_client : Client -> S -> S;
  run_command_replies cl cmd args s e : (run_command cl cmd args s).1 <> Err e;
  read_meta_reads cl k : readonly (read_meta cl k) }.

Abbreviation command := (bytes * list bytes)%type.
Abbreviation snapshot := (list (bytes * option bytes)).

Record TransactionState := mkTx { in_multi : bool; queued : list command; watched : snapshot }.

Definition tx_default : TransactionState := mkTx false [] [].

Definition reset (tx : TransactionState) : TransactionState := mkTx false [] [].

Definition set_multi (tx : TransactionState) : TransactionState := mkTx true (queued tx) (watched tx).
Definition set_watched (w : snapshot) (tx : TransactionState) : TransactionState := mkTx (in_multi tx) (queued tx) w.
Definition push_queued (c : command) (tx : TransactionState) : TransactionState :=
  mkTx (in_multi tx) (queued tx ++ [c]) (watched tx).

Definition error_reply (msg : string) : RespValue := RError (bs msg).
Definition aborted_reply : RespValue := error_reply "ERR command aborted".

Section Server.
Context {W : Type} {CS : CommandService W}.

(** What a connection does with one command: write the reply and go on, end
    the connection, or wait for a job of the pool. [aborted] is what follows
    when the job panics; messages may be pushed during the wait for a plain
    command. *)
Inductive task :=
  | Write (reply : RespValue) (tx : TransactionState)
  | Close
  | Job (job : W -> outcome task * W) (aborted : task).

(** [watch_keys]. *)
Fixpoint watch_keys (cl : Client) (keys : list bytes) : M W snapshot :=
  match keys with
  | [] => mret []
  | key :: keys =>
      value ← read_meta cl key;
      rest ← watch_keys cl keys;
      mret ((key, value) :: rest)
  end.

(** [watched_keys_changed]. *)
Fixpoint watched_keys_changed (cl : Client) (watched : snapshot) : M W bool :=
  match watched with
  | [] => mret false
  | (key, snapshot) :: watched =>
      current ← read_meta cl key;
      if bool_decide (current = snapshot) then watched_keys_changed cl watched else mret true
  end.

(** [tx_pool.spawn(move || table.dispatch(&ctx, &cmd, &args))] and its reply. *)
Definition dispatch_job (cl : Client) (cmd : bytes) (args : list bytes) (k : RespValue -> task) : task :=
  Job (fun s => match run_command cl cmd args s with
                | (Ok reply, s) => (Ok (k reply), s)
                | (Err e, s) => (Err e, s)
                | (Panic, s) => (Panic, s)
                | (OutOfFuel, s) => (OutOfFuel, s)
                end)
      (k aborted_reply).

(** [execute_queue]: one job per command. *)
Fixpoint execute_queue (cl : Client) (queued : list command) (replies : list RespValue)
    (k : list RespValue -> task) : task :=
  match queued with
  | [] => k replies
  | (cmd, args) :: queued =>
      dispatch_job cl cmd args (fun reply => execute_queue cl queued (replies ++ [reply]) k)
  end.

(** A job whose error ends the connection ([?]). *)
Definition job_or_close {A} (m : M W A) (k : A -> task) : task :=
  Job (fun s => match m s with
                | (Ok a, s) => (Ok (k a), s)
                | (Err e, s) => (Ok Close, s)
                | (Panic, s) => (Panic, s)
                | (OutOfFuel, s) => (OutOfFuel, s)
                end) Close.

Definition exec_now (cl : Client) (tx : TransactionState) : task :=
  execute_queue cl (queued tx) [] (fun replies => Write (Array replies) (reset tx)).

Definition exec (cl : Client) (tx : TransactionState) : task :=
  if bool_decide (watched tx = []) then exec_now cl tx
  else job_or_close (watched_keys_changed cl (watched tx)) (fun changed : bool =>
         if changed then Write Null (reset tx) else exec_now cl tx).

(** The body of the loop for a parsed command. *)
Definition handle_command (cl : Client) (tx : TransactionState) (args : list bytes) : task :=
  match args with
  | [] => Write (error_reply "ERR empty command") tx
  | cmd :: args =>
      let cmd_upper := to_ascii_uppercase (from_utf8_lossy cmd) in
      if bool_decide (cmd_upper = bs "MULTI") then
        if in_multi tx then Write (error_reply "ERR MULTI calls can not be nested") tx
        else Write OK (set_multi tx)
      else if bool_decide (cmd_upper = bs "DISCARD") then
        if negb (in_multi tx) then Write (error_reply "ERR DISCARD without MULTI") tx
        else Write OK (reset tx)
      else if bool_decide (cmd_upper = bs "WATCH") then
        if in_multi tx then Write (error_reply "ERR WATCH inside MULTI is not allowed") tx
        else job_or_close (watch_keys cl args) (fun w => Write OK (set_watched w tx))
      else if bool_decide (cmd_upper = bs "EXEC") then
        if negb (in_multi tx) then Write (error_reply "ERR EXEC without MULTI") tx
        else exec cl tx
      else if in_multi tx then Write (SimpleString (bs "QUEUED")) (push_queued (cmd, args) tx)
      else dispatch_job cl cmd args (fun reply => Write reply tx)
  end.

(** The commands the connection handles itself. *)
Definition is_control (cmd : bytes) : bool :=
  let cmd_upper := to_ascii_uppercase (from_utf8_lossy cmd) in
  existsb (fun n => bool_decide (cmd_upper = bs n)) ["MULTI"; "DISCARD"; "WATCH"; "EXEC"]%string.

Definition pubsub_message (ev : PublishEvent) : RespValue :=
  Array [bulk (bs "message"); bulk (ev_channel ev); bulk (ev_message ev)].

(** ** One connection with the pool to itself *)

(** Runs the jobs of a task one after the other. [Err] is the end of the
    connection; a panic of a job is reported as such, since the pool does not
    survive it. *)
Fixpoint run_task (t : task) (s : W) : outcome (RespValue * TransactionState) * W :=
  match t with
  | Write reply tx => (Ok (reply, tx), s)
  | Close => (Err (Io []), s)
  | Job job _ =>
      match job s with
      | (Ok t, s) => run_task t s
      | (Err e, s) => (Err e, s)
      | (Panic, s) => (Panic, s)
      | (OutOfFuel, s) => (OutOfFuel, s)
      end
  end.

(** Where a connection stands: it waits for input with the bytes not yet
    parsed, it has ended, a job has panicked, or a job never ends. [out] are
    the replies written so far. *)
Inductive progress :=
  | Reading (buf : bytes) (tx : TransactionState) (s : W) (out : list RespValue)
  | Ended (s : W) (out : list RespValue)
  | Crashed (s : W) (out : list RespValue)
  | Looping.

Definition after_task (r : outcome (RespValue * TransactionState) * W) (out : list RespValue)
    (k : TransactionState -> W -> list RespValue -> progress) : progress :=
  match r with
  | (Ok (reply, tx), s) => k tx s (out ++ [reply])
  | (Err _, s) => Ended s out
  | (Panic, s) => Crashed s out
  | (OutOfFuel, _) => Looping
  end.

(** The size the compiler gives a [RespValue], for the parser. *)
Variable rs : Z.

(** The commands that are complete in the buffer, each of which takes a byte
    at least. *)
Fixpoint drain (fuel : nat) (cl : Client) (buf : bytes) (tx : TransactionState) (s : W) (out : list RespValue)
  : progress :=
  match fuel with
  | O => Looping
  | Datatypes.S fuel =>
      match parse_cmd rs buf with
      | Ok (Some (args, consumed)) =>
          after_task (run_task (handle_command cl tx args) s) out (fun tx s out =>
            drain fuel cl (drop consumed buf) tx s out)
      | Ok None => Reading buf tx s out
      | Err _ | Panic => Ended s out
      | OutOfFuel => Looping
      end
  end.

(** [read_buf] followed by the loop. *)
Definition feed (cl : Client) (p : progress) (chunk : bytes) : progress :=
  match p with
  | Reading buf tx s out => drain (Datatypes.S (length (buf ++ chunk))) cl (buf ++ chunk) tx s out
  | p => p
  end.

(** The connection as a conversation in commands instead of bytes. *)
Fixpoint converse (cl : Client) (cmds : list (list bytes)) (tx : TransactionState) (s : W) (out : list RespValue)
  : progress :=
  match cmds with
  | [] => Reading [] tx s out
  | args :: cmds => after_task (run_task (handle_command cl tx args) s) out (converse cl cmds)
  end.

Definition encode (args : list bytes) : bytes := serialize (encode_command args).

(** ** Pipelining *)

Lemma after_task_ext r out k k' :
  (forall tx s out, k tx s out = k' tx s out) -> after_task r out k = after_task r out k'.
Proof. intros H. destruct r as [[[reply tx]|e| |] s]; simpl; auto. Qed.

Lemma parse_cmd_more b args n more : parse_cmd rs b = Ok (Some (args, n)) ->
  parse_cmd rs (b ++ more) = Ok (Some (args, n)) /\ (0 < n <= length b)%nat.
Proof.
  unfold parse_cmd. destruct (parse_one rs b) as [[[v m]|]|e| |] eqn:E; simpl; intros H; try done.
  rewrite (parse_one_more rs b _ more E). simpl. split; [done|].
  assert (m = n) as <- by (unfold some in H; destruct v as [| | |[]| | | | | |]; congruence).
  by eapply parse_fuel_consumes.
Qed.

Lemma parse_cmd_panics b more : parse_cmd rs b = Panic -> parse_cmd rs (b ++ more) = Panic.
Proof.
  unfold parse_cmd. destruct (parse_one rs b) as [[[v m]|]|e| |] eqn:E; simpl; intros H; try done.
  - by destruct v as [| | |[]| | | | | |].
  - by rewrite parse_one_panics.
Qed.

Lemma parse_cmd_total b : parse_cmd rs b <> OutOfFuel /\ forall e, parse_cmd rs b <> Err e.
Proof.
  unfold parse_cmd. pose proof (parse_fuel_enough rs) as Hf. pose proof (parse_fuel_no_err rs) as He.
  unfold parse_one. specialize (Hf (Datatypes.S (length b)) b ltac:(lia)).
  destruct (parse_fuel _ _ _) as [[[v m]|]|e| |] eqn:E; simpl; try done.
  - by destruct v as [| | |[]| | | | | |].
  - by apply He in E.
Qed.

Lemma drain_fuel f f' cl b tx s out : (length b < f)%nat -> (length b < f')%nat ->
  drain f cl b tx s out = drain f' cl b tx s out.
Proof.
  revert f' b tx s out. induction f as [|f IH]; intros f' b tx s out Hf Hf'; [lia|].
  destruct f' as [|f']; [lia|]. simpl.
  destruct (parse_cmd rs b) as [[[args n]|]|e| |] eqn:E; try done.
  apply (parse_cmd_more _ _ _ []) in E as [_ E]. apply after_task_ext. intros tx' s' out'.
  apply IH; rewrite length_drop; lia.
Qed.

(** The loop goes on where it stopped when more bytes arrive. *)
Lemma drain_more f f' cl b more tx s out : (length b < f)%nat -> (length (b ++ more) < f')%nat ->
  drain f' cl (b ++ more) tx s out = feed cl (drain f cl b tx s out) more.
Proof.
  revert f' b tx s out. induction f as [|f IH]; intros f' b tx s out Hf Hf'; [lia|].
  destruct f' as [|f']; [lia|].
  destruct (parse_cmd rs b) as [[[args n]|]|e| |] eqn:E.
  - destruct (parse_cmd_more _ _ _ more E) as [E' Hn]. cbn [drain]. rewrite E, E'.
    destruct (run_task _ s) as [[[reply tx']|e| |] s']; simpl; try done.
    rewrite drop_app_le by lia. rewrite length_app in Hf'. apply IH; rewrite ?length_app, length_drop; lia.
  - assert (drain (Datatypes.S f) cl b tx s out = Reading b tx s out) as -> by (cbn [drain]; by rewrite E).
    cbn [feed]. apply drain_fuel; lia.
  - by apply parse_cmd_total in E.
  - cbn [drain]. rewrite E, (parse_cmd_panics _ _ E). done.
  - by apply parse_cmd_total in E.
Qed.

Lemma feed_app cl p c1 c2 : feed cl (feed cl p c1) c2 = feed cl p (c1 ++ c2).
Proof.
  destruct p as [buf tx s out| | |]; try done. cbn [feed]. rewrite app_assoc. symmetry. apply drain_more; lia.
Qed.

Lemma drain_commands f cl cmds tx s out :
  1 <= rs -> Forall (fun args => wf_value rs (encode_command args) = true) cmds ->
  (length (concat (map encode cmds)) < f)%nat ->
  drain f cl (concat (map encode cmds)) tx s out = converse cl cmds tx s out.
Proof.
  intros Hrs. revert f tx s out. induction cmds as [|args cmds IH]; intros f tx s out Hwf Hf;
    (destruct f as [|f]; [lia|]); [done|].
  apply Forall_cons in Hwf as [Hw Hwf]. cbn [map concat] in *. cbn [drain converse].
  unfold encode at 1. rewrite parse_cmd_encoded by done. fold (encode args).
  apply after_task_ext. intros tx' s' out'. rewrite drop_app_length. apply IH; [done|].
  rewrite length_app in Hf. assert (0 < length (encode args))%nat; [|lia].
  pose proof (parse_cmd_encoded rs args [] Hrs Hw) as E. rewrite app_nil_r in E.
  apply (parse_cmd_more _ _ _ []) in E. unfold encode. lia.
Qed.

(** ** Transactions *)

(** The commands run one after the other. *)
Fixpoint run_commands (cl : Client) (l : list command) : M W (list RespValue) :=
  match l with
  | [] => mret []
  | (cmd, args) :: l =>
      r ← run_command cl cmd args;
      replies ← run_commands cl l;
      mret (r :: replies)
  end.

Definition words (c : command) : list bytes := c.1 :: c.2.
Definition plain (c : command) : Prop := is_control c.1 = false.
Definition QUEUED : RespValue := SimpleString (bs "QUEUED").

Lemma converse_app cl l1 l2 tx s out :
  converse cl (l1 ++ l2) tx s out
  = match converse cl l1 tx s out with Reading _ tx s out => converse cl l2 tx s out | p => p end.
Proof.
  revert tx s out. induction l1 as [|args l1 IH]; intros tx s out; [done|]. cbn [app converse].
  destruct (run_task _ s) as [[[reply tx']|e| |] s']; simpl; [apply IH|done..].
Qed.

Lemma handle_plain cl tx c : plain c ->
  handle_command cl tx (words c)
  = if in_multi tx then Write QUEUED (push_queued c tx)
    else dispatch_job cl c.1 c.2 (fun reply => Write reply tx).
Proof.
  destruct c as [cmd args]. unfold plain, is_control, words. cbn [fst snd existsb handle_command]. cbv zeta.
  generalize (to_ascii_uppercase (from_utf8_lossy cmd)). intros name.
  rewrite !orb_false_iff. intros (E1 & E2 & E3 & E4 & _). rewrite E1, E2, E3, E4. done.
Qed.

Lemma execute_queue_run cl q replies k s rs' s' :
  run_commands cl q s = (Ok rs', s') -> run_task (execute_queue cl q replies k) s = run_task (k (replies ++ rs')) s'.
Proof.
  revert replies s rs' s'. induction q as [|[cmd args] q IH]; intros replies s rs' s' H; simpl in H |- *.
  { injection H as <- <-. by rewrite app_nil_r. }
  apply bind_inv in H as (r & s1 & Hr & H). apply bind_inv in H as (rest & s2 & Hq & H). injection H as <- <-.
  rewrite Hr. by rewrite (IH _ _ _ _ Hq), <- app_assoc.
Qed.

Lemma converse_plain cl l tx s out rs' s' :
  Forall plain l -> in_multi tx = false -> run_commands cl l s = (Ok rs', s') ->
  converse cl (map words l) tx s out = Reading [] tx s' (out ++ rs').
Proof.
  intros Hp Hm. revert s out rs'. induction Hp as [|c l Hc _ IH]; intros s out rs' H; cbn [map converse].
  { injection H as <- <-. by rewrite app_nil_r. }
  rewrite handle_plain, Hm by done. destruct c as [cmd args]. cbn [run_commands fst snd] in *.
  apply bind_inv in H as (r & s1 & Hr & H). apply bind_inv in H as (rest & s2 & Hq & H). injection H as <- ->. simpl. rewrite Hr. simpl. rewrite (IH _ _ _ Hq).
  by rewrite <- app_assoc.
Qed.

Lemma converse_queue cl l tx s out :
  Forall plain l -> in_multi tx = true ->
  converse cl (map words l) tx s out
  = Reading [] (mkTx true (queued tx ++ l) (watched tx)) s (out ++ replicate (length l) QUEUED).
Proof.
  intros Hp Hm. revert tx Hm out. induction Hp as [|c l Hc _ IH]; intros tx Hm out; cbn [map converse].
  { destruct tx as [m q w]. simpl in *. subst m. by rewrite !app_nil_r. }
  rewrite handle_plain, Hm by done. simpl. rewrite IH by done. simpl. rewrite <- !app_assoc. done.
Qed.

Lemma converse_multi cl l w s :
  Forall plain l ->
  converse cl ([bs "MULTI"] :: map words l) (mkTx false [] w) s []
  = Reading [] (mkTx true l w) s (OK :: replicate (length l) QUEUED).
Proof.
  intros Hp. cbn [converse].
  change (handle_command cl (mkTx false [] w) [bs "MULTI"]) with (Write OK (mkTx true [] w)).
  simpl. by rewrite converse_queue.
Qed.

Lemma handle_exec cl tx : in_multi tx = true -> handle_command cl tx [bs "EXEC"] = exec cl tx.
Proof.
  intros Hm. unfold handle_command. change (to_ascii_uppercase (from_utf8_lossy (bs "EXEC"))) with (bs "EXEC").
  cbv zeta. rewrite !bool_decide_eq_false_2 by (by apply name_neq). rewrite bool_decide_eq_true_2 by done.
  by rewrite Hm.
Qed.

Lemma watched_unchanged cl w s :
  Forall (fun kv => (read_meta cl kv.1 s).1 = Ok kv.2) w -> watched_keys_changed cl w s = (Ok false, s).
Proof.
  induction 1 as [|[k v] w Hv _ IH]; [done|]. simpl in *. pose proof (read_meta_reads cl k s) as Hr.
  destruct (read_meta cl k s) as [r s1] eqn:E. simpl in *. subst r s1. erewrite bind_Ok by exact E.
  by rewrite bool_decide_eq_true_2.
Qed.

Lemma watched_changed cl w s :
  Forall (fun kv => exists v, (read_meta cl kv.1 s).1 = Ok v) w ->
  Exists (fun kv => (read_meta cl kv.1 s).1 <> Ok kv.2) w -> watched_keys_changed cl w s = (Ok true, s).
Proof.
  induction 1 as [|[k v] w [v' Hv] _ IH]; intros Hx; [by apply Exists_nil in Hx|]. simpl in *.
  pose proof (read_meta_reads cl k s) as Hr.
  destruct (read_meta cl k s) as [r s1] eqn:E. simpl in *. subst r s1. erewrite bind_Ok by exact E.
  case_bool_decide as Hd; [|done]. apply IH. apply Exists_cons in Hx as [Hx|Hx]; [|done].
  simpl in Hx. rewrite E in Hx. simpl in Hx. congruence.
Qed.

Lemma watch_keys_run cl keys s :
  Forall (fun k => exists v, (read_meta cl k s).1 = Ok v) keys ->
  exists w, watch_keys cl keys s = (Ok w, s) /\ w.*1 = keys /\ Forall (fun kv => (read_meta cl kv.1 s).1 = Ok kv.2) w.
Proof.
  induction 1 as [|k keys [v Hv] _ IH]; [by exists []|]. destruct IH as (w & Hw & Hk & Hf). simpl.
  pose proof (read_meta_reads cl k s) as Hr. destruct (read_meta cl k s) as [r s1] eqn:E. simpl in *. subst r s1.
  exists ((k, v) :: w). erewrite bind_Ok by exact E. erewrite bind_Ok by exact Hw.
  split; [done|]. split; [by rewrite fmap_cons, Hk|]. constructor; [|done]. simpl. by rewrite E.
Qed.

(** C13: a transaction. Between MULTI and EXEC commands are queued and the
    shared state is not touched; EXEC then replies the array of the replies
    the same commands give when sent one after the other, leaves the state
    they leave and ends the transaction; DISCARD drops the queue. *)
Theorem exec_sequential cl l s rs' s' :
  Forall plain l -> run_commands cl l s = (Ok rs', s') ->
  converse cl (map words l) tx_default s [] = Reading [] tx_default s' rs'
  /\ converse cl ([bs "MULTI"] :: map words l) tx_default s []
     = Reading [] (mkTx true l []) s (OK :: replicate (length l) QUEUED)
  /\ converse cl (([bs "MULTI"] :: map words l) ++ [[bs "EXEC"]]) tx_default s []
     = Reading [] tx_default s' ((OK :: replicate (length l) QUEUED) ++ [Array rs'])
  /\ converse cl (([bs "MULTI"] :: map words l) ++ [[bs "DISCARD"]]) tx_default s []
     = Reading [] tx_default s ((OK :: replicate (length l) QUEUED) ++ [OK]).
Proof.
  intros Hp Hr. pose proof (converse_multi cl l [] s Hp) as Hq. fold tx_default in Hq. split_and!.
  - exact (converse_plain cl l tx_default s [] rs' s' Hp eq_refl Hr).
  - exact Hq.
  - rewrite converse_app, Hq. cbn [converse]. rewrite handle_exec by done.
    unfold exec, exec_now. simpl watched. rewrite bool_decide_eq_true_2 by done.
    by rewrite (execute_queue_run _ _ _ _ _ _ _ Hr).
  - rewrite converse_app, Hq. reflexivity.
Qed.

(** The snapshot WATCH takes makes a later EXEC run the queue when the metadata
    of every watched key is what it was, and otherwise reply null, run nothing
    and leave the state as it is; both end the transaction and the watch. *)
Lemma watch_metadata cl keys s0 s1 l rs' s' :
  Forall (fun k => exists v, (read_meta cl k s0).1 = Ok v) keys ->
  Forall (fun k => exists v, (read_meta cl k s1).1 = Ok v) keys ->
  Forall plain l -> run_commands cl l s1 = (Ok rs', s') ->
  exists w, run_task (handle_command cl tx_default (bs "WATCH" :: keys)) s0 = (Ok (OK, mkTx false [] w), s0)
    /\ let p := converse cl (([bs "MULTI"] :: map words l) ++ [[bs "EXEC"]]) (mkTx false [] w) s1 [] in
       (Forall (fun k => (read_meta cl k s1).1 = (read_meta cl k s0).1) keys ->
          p = Reading [] tx_default s' ((OK :: replicate (length l) QUEUED) ++ [Array rs']))
       /\ (Exists (fun k => (read_meta cl k s1).1 <> (read_meta cl k s0).1) keys ->
          p = Reading [] tx_default s1 ((OK :: replicate (length l) QUEUED) ++ [Null])).
Proof.
  intros H0 H1 Hp Hr. destruct (watch_keys_run cl keys s0 H0) as (w & Hw & Hk & Hf). exists w. split.
  { unfold handle_command. change (to_ascii_uppercase (from_utf8_lossy (bs "WATCH"))) with (bs "WATCH"). cbv zeta.
    rewrite !bool_decide_eq_false_2 by (by apply name_neq). rewrite bool_decide_eq_true_2 by done. simpl.
    by rewrite Hw. }
  subst keys. cbv zeta. rewrite converse_app, converse_multi by done. cbn [converse]. rewrite handle_exec by done.
  unfold exec. simpl watched. split.
  - intros Hsame. assert (Forall (fun kv => (read_meta cl kv.1 s1).1 = Ok kv.2) w) as Hs.
    { apply Forall_lookup. intros i kv Hi. pose proof (proj1 (Forall_lookup _ _) Hf i kv Hi) as E.
      rewrite <- E. apply (proj1 (Forall_lookup _ _) Hsame i). by rewrite list_lookup_fmap, Hi. }
    case_bool_decide; [|simpl; rewrite (watched_unchanged cl w s1 Hs)]; unfold exec_now;
      by rewrite (execute_queue_run _ _ _ _ _ _ _ Hr).
  - intros Hx. rewrite bool_decide_eq_false_2 by (intros ->; by apply Exists_nil in Hx). simpl.
    rewrite (watched_changed cl w s1); [done|exact (proj1 (Forall_fmap _ _ _) H1)|].
    apply Exists_exists in Hx as (k & Hin & Hne).
    apply list_elem_of_fmap in Hin as (kv & -> & Hin).
    apply Exists_exists. exists kv. split; [done|].
    apply list_elem_of_lookup in Hin as [i Hi]. by rewrite (proj1 (Forall_lookup _ _) Hf i kv Hi) in Hne.
Qed.

(** C15: pipelining. However the bytes of a sequence of commands are cut into
    chunks, the connection writes the replies, and reaches the state, of the
    conversation that handles the commands one after the other. *)
Theorem pipelining cl chunks cmds tx s :
  1 <= rs -> Forall (fun args => wf_value rs (encode_command args) = true) cmds ->
  concat chunks = concat (map encode cmds) ->
  foldl (feed cl) (Reading [] tx s []) chunks = converse cl cmds tx s [].
Proof.
  intros Hrs Hwf Hc. assert (forall p, foldl (feed cl) p chunks = feed cl p (concat chunks) \/ chunks = []) as Hfold.
  { clear. induction chunks as [|c chunks IH]; intros p; [by right|]. left. simpl.
    destruct (IH (feed cl p c)) as [E|E]; [by rewrite E, feed_app|]. subst chunks. simpl. by rewrite app_nil_r. }
  destruct (Hfold (Reading [] tx s [])) as [->| ->].
  - rewrite Hc. apply drain_commands; [done..|]. simpl. lia.
  - simpl in Hc |- *. rewrite <- (drain_commands 1 cl cmds tx s []); [by rewrite <- Hc|done..|].
    rewrite <- Hc. simpl. lia.
Qed.

(** ** The jobs on the pool *)

(** The dispatch of a command as a job of the thread pool. *)
Definition job_of (cl : Client) (c : command) : job W RespValue :=
  Act (fun s => (run_command cl c.1 c.2 s).2)
      (fun s => match (run_command cl c.1 c.2 s).1 with Ok r => Return r | _ => Crash end).

Lemma run_all_commands cl l s rs' s' :
  run_commands cl l s = (Ok rs', s') -> run_all (map (job_of cl) l) s = (rs', s').
Proof.
  revert s rs'. induction l as [|[cmd args] l IH]; intros s rs' H; cbn [run_commands map run_all] in *.
  { by injection H as <- <-. }
  apply bind_inv in H as (r & s1 & Hr & H). apply bind_inv in H as (rest & s2 & Hq & H). injection H as <- ->.
  cbn [run_job job_of fst snd]. rewrite Hr. cbn [fst snd run_job]. by rewrite (IH _ _ Hq).
Qed.

(** Commands handed to a pool of any number of threads are answered as if they
    were run one after the other: when the workers have nothing left to do,
    the waiting tasks hold the replies of the sequential run. *)
Theorem pool_serves n cl l s p p' rs' s' :
  rtc step (new n s) p -> spawned p = map (job_of cl) l -> run_commands cl l s = (Ok rs', s') ->
  rtc worker_step p p' -> blocked p' ->
  forall t, (t < length l)%nat -> await p' t = Resolved (rs' !! t).
Proof.
  intros Hr Hl Hrun Hs Hb t Ht. rewrite (pool_resolves n s p p' t Hr Hs Hb) by (by rewrite Hl, length_map).
  by rewrite Hl, (run_all_commands _ _ _ _ _ Hrun).
Qed.

(** ** Many connections *)

Inductive output := Replied (r : RespValue) | Pushed (ev : PublishEvent).

(** A connection waits for input, works on a command (while it waits for a
    plain command it [listens] to its mailbox), or is gone. *)
Inductive conn_state := Idle (tx : TransactionState) | Busy (listens : bool) (t : task) | Gone.

(** [parsed] records the commands read so far. *)
Record connection := mkConn {
  c_client : Client; c_buf : bytes; c_state : conn_state; parsed : list (list bytes); c_out : list output }.

(** [pool] tells whether the thread pool still takes jobs. *)
Record server := mkServer { world : W; pool : bool; conns : gmap Z connection }.

Definition accept (cl : Client) : connection := mkConn cl [] (Idle tx_default) [] [].

Definition set_state (st : conn_state) (c : connection) : connection :=
  mkConn (c_client c) (c_buf c) st (parsed c) (c_out c).

Definition listens_for (tx : TransactionState) (args : list bytes) : bool :=
  match args with cmd :: _ => negb (in_multi tx) && negb (is_control cmd) | [] => false end.

(** The end of [handle_connection]. *)
Definition ended (c : connection) (s : W) : connection * W := (set_state Gone c, close_client (c_client c) s).

(** The next step of a connection: parse a command, run a job, write a reply,
    or end. [None] when it waits for input or for a job that never ends. *)
Definition advance (c : connection) (s : W) : option (connection * W * bool) :=
  match c_state c with
  | Idle tx =>
      match parse_cmd rs (c_buf c) with
      | Ok (Some (args, n)) =>
          Some (mkConn (c_client c) (drop n (c_buf c)) (Busy (listens_for tx args) (handle_command (c_client c) tx args))
                  (parsed c ++ [args]) (c_out c), s, true)
      | Ok None => None
      | _ => Some (ended c s, true)
      end
  | Busy l (Write reply tx) =>
      Some (mkConn (c_client c) (c_buf c) (Idle tx) (parsed c) (c_out c ++ [Replied reply]), s, true)
  | Busy l Close => Some (ended c s, true)
  | Busy l (Job job aborted) =>
      match job s with
      | (Ok t, s) => Some (set_state (Busy l t) c, s, true)
      | (Err _, s) => Some (ended c s, true)
      | (Panic, s) => Some (set_state (Busy l aborted) c, s, false)
      | (OutOfFuel, _) => None
      end
  | Gone => None
  end.

(** What else may change the shared state: the clock, the management
    interface. *)
Variable environment : W -> W -> Prop.

Definition waits (c : connection) : Prop := exists tx, c_state c = Idle tx /\ parse_cmd rs (c_buf c) = Ok None.

Definition listening (c : connection) : Prop := waits c \/ exists t, c_state c = Busy true t.

Inductive server_step (sv : server) : server -> Prop :=
  | step_accept i cl s : conns sv !! i = None -> open_client (world sv) = (cl, s) ->
      server_step sv (mkServer s (pool sv) (<[i:=accept cl]> (conns sv)))
  | step_input i c chunk : conns sv !! i = Some c -> waits c -> chunk <> [] ->
      server_step sv (mkServer (world sv) (pool sv)
        (<[i:=mkConn (c_client c) (c_buf c ++ chunk) (c_state c) (parsed c) (c_out c)]> (conns sv)))
  (** [read_buf] returns 0 or an error *)
  | step_eof i c : conns sv !! i = Some c -> waits c ->
      server_step sv (mkServer (ended c (world sv)).2 (pool sv) (<[i:=(ended c (world sv)).1]> (conns sv)))
  | step_push i c ev s : conns sv !! i = Some c -> listening c -> take_message (c_client c) (world sv) = Some (ev, s) ->
      server_step sv (mkServer s (pool sv)
        (<[i:=mkConn (c_client c) (c_buf c) (c_state c) (parsed c) (c_out c ++ [Pushed ev])]> (conns sv)))
  (** an error of [write_all] or [flush], for a reply and for a message *)
  | step_write_failed i c l reply tx : conns sv !! i = Some c -> c_state c = Busy l (Write reply tx) ->
      server_step sv (mkServer (ended c (world sv)).2 (pool sv) (<[i:=(ended c (world sv)).1]> (conns sv)))
  | step_push_failed i c ev s : conns sv !! i = Some c -> listening c ->
      take_message (c_client c) (world sv) = Some (ev, s) ->
      server_step sv (mkServer (ended c s).2 (pool sv) (<[i:=(ended c s).1]> (conns sv)))
  | step_advance i c c' s p : conns sv !! i = Some c -> pool sv = true -> advance c (world sv) = Some (c', s, p) ->
      server_step sv (mkServer s p (<[i:=c']> (conns sv)))
  (** without a pool a job is dropped, or refused with a panic of the task *)
  | step_no_pool i c l job aborted : conns sv !! i = Some c -> pool sv = false -> c_state c = Busy l (Job job aborted) ->
      server_step sv (mkServer (world sv) false (<[i:=set_state (Busy l aborted) c]> (conns sv)))
  | step_refused i c l job aborted : conns sv !! i = Some c -> pool sv = false -> c_state c = Busy l (Job job aborted) ->
      server_step sv (mkServer (ended c (world sv)).2 false (<[i:=(ended c (world sv)).1]> (conns sv)))
  | step_no_job i c c' s p : conns sv !! i = Some c -> pool sv = false ->
      (forall l job aborted, c_state c <> Busy l (Job job aborted)) -> advance c (world sv) = Some (c', s, p) ->
      server_step sv (mkServer s false (<[i:=c']> (conns sv)))
  | step_environment s : environment (world sv) s -> server_step sv (mkServer s (pool sv) (conns sv)).

(** Nothing is queued outside MULTI, and no control command ever. *)
Definition tx_ok (tx : TransactionState) : Prop :=
  (in_multi tx = false -> queued tx = []) /\ Forall plain (queued tx).

Inductive task_ok : task -> Prop :=
  | ok_write r tx : tx_ok tx -> task_ok (Write r tx)
  | ok_close : task_ok Close
  | ok_job job aborted : (forall s t s', job s = (Ok t, s') -> task_ok t) -> task_ok aborted -> task_ok (Job job aborted).

Definition replies (out : list output) : list RespValue :=
  omap (fun o => match o with Replied r => Some r | Pushed _ => None end) out.

(** The transaction is well formed, and every command read has its one reply,
    the last one excepted while it is in progress. *)
Definition conn_ok (c : connection) : Prop :=
  match c_state c with
  | Idle tx => tx_ok tx /\ length (replies (c_out c)) = length (parsed c)
  | Busy _ t => task_ok t /\ Datatypes.S (length (replies (c_out c))) = length (parsed c)
  | Gone => (length (replies (c_out c)) <= length (parsed c))%nat
  end.

Lemma dispatch_job_ok cl cmd args k : (forall r, task_ok (k r)) -> task_ok (dispatch_job cl cmd args k).
Proof.
  intros Hk. constructor; [|apply Hk]. intros s t s'.
  destruct (run_command cl cmd args s) as [[r|e| |] s1]; intros [= <- _]. apply Hk.
Qed.

Lemma execute_queue_ok cl q acc k : (forall l, task_ok (k l)) -> task_ok (execute_queue cl q acc k).
Proof.
  intros Hk. revert acc. induction q as [|[cmd args] q IH]; intros acc; simpl; [apply Hk|].
  apply dispatch_job_ok. intros r. apply IH.
Qed.

Lemma job_or_close_ok {A} (m : M W A) k : (forall a, task_ok (k a)) -> task_ok (job_or_close m k).
Proof.
  intros Hk. constructor; [|constructor]. intros s t s'. destruct (m s) as [[a|e| |] s1]; intros [= <- _];
    [apply Hk|constructor].
Qed.

Lemma reset_ok tx : tx_ok (reset tx).
Proof. split; [done|constructor]. Qed.

Lemma handle_command_ok cl tx args : tx_ok tx -> task_ok (handle_command cl tx args).
Proof.
  intros [Hq Hp]. destruct args as [|cmd args]; [by constructor|].
  assert (forall l, task_ok (Write (Array l) (reset tx))) as Hexec by (intros; constructor; apply reset_ok).
  unfold handle_command. cbv zeta. set (name := to_ascii_uppercase (from_utf8_lossy cmd)).
  destruct (bool_decide (name = bs "MULTI")) eqn:E1.
  { destruct (in_multi tx) eqn:E; constructor; split; simpl; try done. by rewrite E. }
  destruct (bool_decide (name = bs "DISCARD")) eqn:E2.
  { destruct (in_multi tx) eqn:E; constructor; [apply reset_ok|]. split; by rewrite ?E. }
  destruct (bool_decide (name = bs "WATCH")) eqn:E3.
  { destruct (in_multi tx) eqn:E; [constructor; split; by rewrite ?E|].
    apply job_or_close_ok. intros w. constructor. split; simpl; [by rewrite E|done]. }
  destruct (bool_decide (name = bs "EXEC")) eqn:E4.
  { destruct (in_multi tx) eqn:E; [|constructor; split; by rewrite ?E].
    simpl. unfold exec, exec_now. destruct (bool_decide (watched tx = [])); [by apply execute_queue_ok|].
    apply job_or_close_ok. intros [|]; [constructor; apply reset_ok|by apply execute_queue_ok]. }
  destruct (in_multi tx) eqn:E.
  - constructor. split; simpl; [by rewrite E|]. apply Forall_app. split; [done|]. constructor; [|constructor].
    unfold plain, is_control. cbn [fst existsb]. fold name. by rewrite E1, E2, E3, E4.
  - apply dispatch_job_ok. intros r. constructor. split; by rewrite ?E.
Qed.

Lemma replies_reply out r : replies (out ++ [Replied r]) = replies out ++ [r].
Proof. unfold replies. by rewrite omap_app. Qed.
Lemma replies_push out ev : replies (out ++ [Pushed ev]) = replies out.
Proof. unfold replies. rewrite omap_app. simpl. by rewrite app_nil_r. Qed.

Lemma advance_ok c s c' s' p : conn_ok c -> advance c s = Some (c', s', p) -> conn_ok c'.
Proof.
  unfold advance, conn_ok. destruct (c_state c) as [tx|l t|] eqn:Ec; intros H E; [| |done].
  - destruct H as [Ht Hl]. destruct (parse_cmd rs (c_buf c)) as [[[args n]|]|e| |]; try done; injection E as <- <- <-;
      simpl; [split; [by apply handle_command_ok|rewrite length_app; simpl; lia]|lia..].
  - destruct H as [Ht Hl]. destruct t as [r tx| |job aborted].
    + injection E as <- <- <-. simpl. inversion_clear Ht. split; [done|]. rewrite replies_reply, length_app. simpl. lia.
    + injection E as <- <- <-. simpl. lia.
    + inversion_clear Ht as [| |? ? Hj Ha]. destruct (job s) as [[t|e| |] s1] eqn:Ej; try done; injection E as <- <- <-; simpl;
        [split; [by eapply Hj|done]|lia|done].
Qed.

(** C16: in every state the server reaches, under any interleaving of its
    connections, their jobs, pushed messages, panics and changes of the
    environment: a connection outside MULTI has an empty queue, no queue holds
    a control command, and every command a connection has read was answered
    exactly once, in order, but for the one in progress. *)
Theorem server_invariant s0 sv :
  rtc server_step (mkServer s0 true ∅) sv -> map_Forall (fun _ => conn_ok) (conns sv).
Proof.
  intros Hr. assert (map_Forall (fun _ => conn_ok) (conns (mkServer s0 true ∅))) as H0 by apply map_Forall_empty.
  induction Hr as [|sv1 sv2 sv3 Hs _ IH]; [exact H0|]. apply IH. clear IH.
  destruct Hs as [i cl s Hi Ho|i c chunk Hi Hw|i c Hi Hw|i c ev s Hi Hl Ht|i c l r tx Hi Hb|i c ev s Hi Hl Ht|i c c' s p Hi Hp Ha
                 |i c l job ab Hi Hp Hb|i c l job ab Hi Hp Hb|i c c' s p Hi Hp Hb Ha|s He]; simpl; [..|exact H0];
    apply map_Forall_insert_2; try exact H0; try pose proof (map_Forall_lookup_1 _ _ _ _ H0 Hi) as Hc.
  - split; [apply (reset_ok tx_default)|done].
  - destruct Hw as (tx & E & _). unfold conn_ok in *. simpl. by rewrite E in *.
  - destruct Hw as (tx & E & _). unfold conn_ok in *. rewrite E in Hc. simpl. lia.
  - unfold conn_ok in *. simpl. by rewrite replies_push.
  - unfold conn_ok in *. rewrite Hb in Hc. simpl. lia.
  - unfold conn_ok in *. simpl. destruct (c_state c); simpl in *; lia.
  - by eapply advance_ok.
  - unfold conn_ok in *. rewrite Hb in Hc. simpl. destruct Hc as [Ht Hl]. by inversion_clear Ht.
  - unfold conn_ok in *. rewrite Hb in Hc. simpl. lia.
  - by eapply advance_ok.
Qed.

End Server.

Arguments task : clear implicits.
Arguments connection : clear implicits.
Arguments server : clear implicits.

(** ** The real command table *)

Section Mailboxes.
Context {DB L : Type}.
Implicit Types s : Shared DB L.

Definition next_message (cl : Client) s : option (PublishEvent * Shared DB L) :=
  match ps_boxes (sh_pubsub s) !! client_id cl with
  | Some (ev :: q) =>
      Some (ev, set_pubsub (mkPubSub (ps_hub (sh_pubsub s)) (<[client_id cl := q]> (ps_boxes (sh_pubsub s)))) s)
  | _ => None
  end.

(** What [Server::run] makes for a connection. *)
Definition new_client s : Client * Shared DB L :=
  let '(id, h) := alloc_client_id (ps_hub (sh_pubsub s)) in
  (mkClient id (cfg_namespace (Config.server (sh_config s))),
   set_pubsub (mkPubSub h (<[id:=[]]> (ps_boxes (sh_pubsub s)))) s).

Definition drop_client (cl : Client) s : Shared DB L :=
  set_pubsub (mkPubSub (ps_hub (sh_pubsub s)) (base.delete (client_id cl) (ps_boxes (sh_pubsub s)))) s.

End Mailboxes.

(** The promises of [CommandService] kept by the table of [Dispatch], for any
    fuel. *)
#[export] Instance dispatch_service {DB} `{RocksDB DB} {L} `{LuaVM L} `{LuaTables} `{Externals} (fuel : nat)
  : CommandService (Shared DB L).
Proof.
  refine {|
    run_command cl cmd args := dispatch (1 + fuel) cl cmd args;
    read_meta cl k := fun s => on_part sh_storage set_storage (get_meta (command_context cl s) k) s;
    take_message := next_message;
    open_client := new_client;
    close_client := drop_client |}.
  - intros cl cmd args s e. pose proof (dispatch_cases fuel cl cmd args s) as Hd.
    destruct (dispatch (1 + fuel) cl cmd args s) as [r s']. destruct Hd as (_ & Hd & _). apply Hd.
  - intros cl k s. apply on_part_readonly; [apply ro_get_meta|apply set_storage_same].
Defined.

(** ** WATCH on the store *)

Section Watch.
Context {DB : Type} {RDB : RocksDB DB} {L : Type} {VM : LuaVM L} {LT : LuaTables} {X : Externals}.
Variable fuel : nat.
#[local] Instance table_service : CommandService (Shared DB L) := dispatch_service fuel.
Implicit Types (s : Shared DB L) (k : bytes).

(** What a client finds stored as the metadata of a key. *)
Definition stored_meta (cl : Client) s k : option bytes := meta_at (sh_storage s) (command_context cl s) k.

(** Nothing that is stored for the key differs. *)
Definition same_entries (cl : Client) s0 s1 k : Prop :=
  stored_meta cl s1 k = stored_meta cl s0 k
  /\ forall cf w f, db_get (sh_storage s1) cf (sub_key (command_context cl s1) k w f)
                    = db_get (sh_storage s0) cf (sub_key (command_context cl s0) k w f).

(** The key is absent, or holds a string with an expiry time. *)
Definition string_at (cl : Client) s k (o : option (Z * bytes)) : Prop :=
  match o with
  | None => stored_meta cl s k = None
  | Some (e, p) => is_i64 e = true /\ stored_meta cl s k = Some (encode_string STRING_FLAGS e p)
  end.

Lemma read_meta_stored cl s k : wf_db (sh_storage s) -> (read_meta cl k s).1 = Ok (stored_meta cl s k).
Proof.
  intros H. unfold read_meta, table_service, dispatch_service, on_part. by rewrite get_meta_run.
Qed.

Lemma string_at_inj cl s0 s1 k o0 o1 :
  string_at cl s0 k o0 -> string_at cl s1 k o1 -> stored_meta cl s1 k = stored_meta cl s0 k <-> o1 = o0.
Proof.
  intros H0 H1. destruct o0 as [[e0 p0]|], o1 as [[e1 p1]|]; cbn in H0, H1.
  - destruct H0 as [Hi0 ->], H1 as [Hi1 ->]. split; [|by intros [= -> ->]].
    intros Ed%(f_equal (fun o => o ≫= decode_string)). cbn [mbind option_bind] in Ed.
    rewrite !decode_encode_string in Ed by done. congruence.
  - destruct H0 as [_ ->]. by rewrite H1.
  - destruct H1 as [_ ->]. by rewrite H0.
  - by rewrite H0, H1.
Qed.

Lemma strings_differ cl s0 s1 keys vs0 vs1 :
  Forall2 (string_at cl s0) keys vs0 -> Forall2 (string_at cl s1) keys vs1 ->
  (vs1 = vs0 -> Forall (fun k => stored_meta cl s1 k = stored_meta cl s0 k) keys)
  /\ (vs1 <> vs0 -> Exists (fun k => stored_meta cl s1 k <> stored_meta cl s0 k) keys).
Proof.
  intros H0. revert vs1. induction H0 as [|k o0 keys vs0 Hk0 _ IH]; intros vs1 H1; inversion H1 as [|? o1 ? vs1' Hk1 H1']; subst.
  { by split. }
  destruct (IH vs1' H1') as [E N]. pose proof (string_at_inj _ _ _ _ _ _ Hk0 Hk1) as Hi. split.
  - intros [= -> ->]. constructor; [by apply Hi|by apply E].
  - intros Hne. destruct (decide (o1 = o0)) as [->|Ho]; [|left; by rewrite Hi].
    right. apply N. by intros ->.
Qed.

(** C14: WATCH. EXEC runs the queue when nothing stored for the watched keys
    has changed since WATCH, and it replies null, runs nothing and leaves the
    state as it is when the metadata of one of them (its type, expiry, version,
    size, and for a string its value) has; both end the transaction and the
    watch. For watched keys that are absent or hold strings this is exact: the
    queue runs if and only if every key has the value and the expiry it had. *)
Theorem watch_guards cl keys s0 s1 l rs' s' :
  wf_db (sh_storage s0) -> wf_db (sh_storage s1) ->
  Forall plain l -> run_commands cl l s1 = (Ok rs', s') ->
  exists w, run_task (handle_command cl tx_default (bs "WATCH" :: keys)) s0 = (Ok (OK, mkTx false [] w), s0)
    /\ let p := converse cl (([bs "MULTI"] :: map words l) ++ [[bs "EXEC"]]) (mkTx false [] w) s1 [] in
       let runs := p = Reading [] tx_default s' ((OK :: replicate (length l) QUEUED) ++ [Array rs']) in
       let aborts := p = Reading [] tx_default s1 ((OK :: replicate (length l) QUEUED) ++ [Null]) in
       (Forall (same_entries cl s0 s1) keys -> runs)
       /\ (Exists (fun k => stored_meta cl s1 k <> stored_meta cl s0 k) keys -> aborts)
       /\ forall vs0 vs1, Forall2 (string_at cl s0) keys vs0 -> Forall2 (string_at cl s1) keys vs1 ->
          (vs1 = vs0 -> runs) /\ (vs1 <> vs0 -> aborts).
Proof.
  intros H0 H1 Hp Hr. destruct (watch_metadata cl keys s0 s1 l rs' s') as (w & Hw & Hsame & Hdiff);
    [apply Forall_forall; intros k _; eexists; by apply read_meta_stored..|done|done|].
  exists w. split; [exact Hw|]. cbv zeta in *.
  assert (forall k, (read_meta cl k s1).1 = (read_meta cl k s0).1 <-> stored_meta cl s1 k = stored_meta cl s0 k) as He.
  { intros k. rewrite !read_meta_stored by done. split; [by intros [= ->]|by intros ->]. }
  assert (Forall (fun k => stored_meta cl s1 k = stored_meta cl s0 k) keys -> _) as Ha
    by (intros Hf; apply Hsame; apply (Forall_impl _ _ _ Hf); intros k; apply He).
  assert (Exists (fun k => stored_meta cl s1 k <> stored_meta cl s0 k) keys -> _) as Hb
    by (intros Hx; apply Hdiff; apply (Exists_impl _ _ _ Hx); intros k Hn E; apply Hn, He, E).
  split; [intros Hf; apply Ha, (Forall_impl _ _ _ Hf); by intros k []|]. split; [exact Hb|].
  intros vs0 vs1 V0 V1. destruct (strings_differ cl s0 s1 keys vs0 vs1 V0 V1) as [D1 D2].
  split; intros E; [by apply Ha, D1|by apply Hb, D2].
Qed.

End Watch.

Abbreviation World := (Shared MemDB (list frame)).

#[local] Existing Instance toy_vm.
#[local] Instance service : CommandService World := dispatch_service 0.

Definition set_get : list command := [(bs "SET", [bs "k"; bs "v"]); (bs "get", [bs "k"])].

Lemma set_get_plain : Forall plain set_get.
Proof. repeat constructor. Qed.

(** SET and GET in a transaction. *)
Lemma exec_sequential_witness : exists s',
  converse client0 (([bs "MULTI"] :: map words set_get) ++ [[bs "EXEC"]]) tx_default shared0 []
  = Reading [] tx_default s' [OK; QUEUED; QUEUED; Array [OK; bulk (bs "v")]].
Proof.
  eexists. refine (proj1 (proj2 (proj2 (exec_sequential client0 set_get shared0 [OK; bulk (bs "v")] _ set_get_plain _)))).
  vm_compute. reflexivity.
Defined.

(** Of two watched keys one is written by another client before EXEC. *)
Lemma watch_guards_witness :
  let s1 := (run_command (mkClient 1 []) (bs "SET") [bs "k"; bs "other"] shared0).2 in
  exists w, run_task (handle_command client0 tx_default [bs "WATCH"; bs "j"; bs "k"]) shared0
            = (Ok (OK, mkTx false [] w), shared0)
    /\ converse client0 (([bs "MULTI"] :: map words set_get) ++ [[bs "EXEC"]]) (mkTx false [] w) s1 []
       = Reading [] tx_default s1 [OK; QUEUED; QUEUED; Null].
Proof.
  intros s1.
  assert (exists rs' s', run_commands client0 set_get s1 = (Ok rs', s')) as (rs' & s' & Hr).
  { eexists _, _. vm_compute. reflexivity. }
  assert (wf_db (sh_storage s1)) as H1 by (intros cf Hcf; by apply (mem_wf ∅ cf Hcf)).
  destruct (watch_guards 0 client0 [bs "j"; bs "k"] shared0 s1 set_get rs' s' (mem_wf _) H1 set_get_plain Hr)
    as (w & Hw & _ & _ & Hp).
  exists w. split; [exact Hw|]. refine (proj2 (Hp [None; None] [None; Some (0, bs "other")] _ _) _).
  - repeat constructor; vm_compute; reflexivity.
  - repeat constructor; vm_compute; reflexivity.
  - discriminate.
Defined.

Definition ping_echo : list (list bytes) := [[bs "PING"]; [bs "ECHO"; bs "hi"]].

(** Two commands that arrive in three pieces. *)
Lemma pipelining_witness :
  let input := concat (map encode ping_echo) in
  foldl (feed 40 client0) (Reading [] tx_default shared0 []) [take 3 input; take 20 (drop 3 input); drop 23 input]
  = Reading [] tx_default shared0 [SimpleString (bs "PONG"); bulk (bs "hi")].
Proof.
  intros input. rewrite (pipelining 40 client0 _ ping_echo tx_default shared0).
  - vm_compute. reflexivity.
  - lia.
  - repeat constructor.
  - reflexivity.
Defined.

(** ** Traces *)

Inductive act := Connect (i : Z) | Input (i : Z) (chunk : bytes) | Move (i : Z).

Section Traces.
Context {W : Type} {CS : CommandService W}.

Definition play (sv : server W) (a : act) : option (server W) :=
  match a with
  | Connect i =>
      match conns sv !! i with
      | None => let '(cl, s) := open_client (world sv) in Some (mkServer s (pool sv) (<[i:=accept cl]> (conns sv)))
      | Some _ => None
      end
  | Input i chunk =>
      c ← conns sv !! i;
      match c_state c, parse_cmd 40 (c_buf c), chunk with
      | Idle tx, Ok None, _ :: _ =>
          Some (mkServer (world sv) (pool sv)
            (<[i:=mkConn (c_client c) (c_buf c ++ chunk) (c_state c) (parsed c) (c_out c)]> (conns sv)))
      | _, _, _ => None
      end
  | Move i =>
      c ← conns sv !! i;
      if pool sv then
        '(c', s, p) ← advance 40 c (world sv);
        Some (mkServer s p (<[i:=c']> (conns sv)))
      else None
  end.

Fixpoint play_all (sv : server W) (l : list act) : option (server W) :=
  match l with
  | [] => Some sv
  | a :: l => sv ← play sv a; play_all sv l
  end.

Lemma play_step env sv a sv' : play sv a = Some sv' -> server_step 40 env sv sv'.
Proof.
  destruct a as [i|i chunk|i]; simpl.
  - destruct (conns sv !! i) eqn:E; [done|]. destruct (open_client (world sv)) as [cl s] eqn:Eo.
    intros [= <-]. by eapply step_accept.
  - destruct (conns sv !! i) as [c|] eqn:E; [|done]. simpl. destruct (c_state c) as [tx| |] eqn:Es; try done.
    destruct (parse_cmd 40 (c_buf c)) as [[|]| | |] eqn:Ep; try done. destruct chunk as [|b chunk]; [done|].
    intros [= <-]. rewrite <- Es. apply step_input; [done|by exists tx|done].
  - destruct (conns sv !! i) as [c|] eqn:E; [|done]. simpl. destruct (pool sv) eqn:Ep; [|done].
    destruct (advance 40 c (world sv)) as [[[c' s] p]|] eqn:Ea; [|done]. intros [= <-]. by eapply step_advance.
Qed.

Lemma play_steps env sv l sv' : play_all sv l = Some sv' -> rtc (server_step 40 env) sv sv'.
Proof.
  revert sv. induction l as [|a l IH]; intros sv H; simpl in H; [by injection H as <-|].
  destruct (play sv a) as [sv1|] eqn:E; [|done]. eapply rtc_l; [by eapply play_step|by apply IH].
Qed.

End Traces.

Definition client1 : Client := mkClient 1 [].
Definition start : server World := mkServer shared0 true ∅.

(** Client 0 reads a key twice in a transaction; client 1 writes the key
    between the two reads. *)
Definition interleaving : list act :=
  [Connect 0; Connect 1;
   Input 0 (concat (map encode [[bs "MULTI"]; [bs "GET"; bs "k"]; [bs "GET"; bs "k"]; [bs "EXEC"]]));
   Move 0; Move 0; Move 0; Move 0; Move 0; Move 0; (* MULTI and the two GETs are queued *)
   Move 0; Move 0; (* EXEC runs the first GET *)
   Input 1 (encode [bs "SET"; bs "k"; bs "v"]); Move 1; Move 1; Move 1;
   Move 0; Move 0].

Definition after_interleaving : server World := default start (play_all start interleaving).

Lemma server_invariant_witness :
  conns after_interleaving !! 0 <> None /\ map_Forall (fun _ => conn_ok) (conns after_interleaving).
Proof.
  split; [vm_compute; discriminate|].
  apply (server_invariant 40 (fun _ _ => False) shared0 after_interleaving).
  apply (play_steps _ start interleaving). vm_compute. reflexivity.
Defined.

(** EXEC hands every queued command to the pool as a job of its own, so the
    write of the other client falls between the two reads of the transaction. *)
Example exec_not_isolated :
  c_out <$> conns after_interleaving !! 0
  = Some [Replied OK; Replied QUEUED; Replied QUEUED; Replied (Array [nil_reply; bulk (bs "v")])].
Proof. vm_compute. reflexivity. Qed.

(** WATCH sees the metadata of a key only: overwriting a field of a hash
    changes what HGET replies and not what WATCH compares. *)
Example watch_misses_field_update :
  let hset v s := (run_command client1 (bs "HSET") [bs "h"; bs "f"; v] s).2 in
  let s0 := hset (bs "1") shared0 in
  let s1 := hset (bs "2") s0 in
  (read_meta client0 (bs "h") s1).1 = (read_meta client0 (bs "h") s0).1
  /\ (run_command client0 (bs "HGET") [bs "h"; bs "f"] s0).1 = Ok (bulk (bs "1"))
  /\ (run_command client0 (bs "HGET") [bs "h"; bs "f"] s1).1 = Ok (bulk (bs "2")).
Proof. split_and!; vm_compute; reflexivity. Qed.
