(* ===== verification/Linear.v ===== *)
(** * The server is linearizable

    The connections of a server send requests on keys ([StoreSpec]); their jobs
    run on the shared state in some order, with messages, disconnects and
    failed writes in between. The replies every connection gets, and the
    database that remains, are those of the abstract store for one history:
    the requests in the order their jobs ran. *)

From S2P Require Import Prelude Bytes Text Error Types Encoding Backend Storage Float Protocol Context Keyspace PubSub Cluster Config Admin Lua Dispatch ThreadPool Server StoreSpec Store.

Local Open Scope Z_scope.

(** ** Histories *)

(** One executed request: the connection, the words it sent, what they ask and
    the reply. *)
Record event := mkEvent { he_conn : Z; he_words : list bytes; he_op : op; he_reply : RespValue }.

Definition of_conn (i : Z) (h : list event) : list event := filter (fun e => he_conn e = i) h.

(** The words ask the operation, which makes no value larger by more than [C]. *)
Definition asks (C : Z) (args : list bytes) (o : op) : Prop :=
  op_ok o /\ op_cost o <= C
  /\ exists cmd, args = cmd :: op_args o /\ to_ascii_uppercase (from_utf8_lossy cmd) = bs (op_name o).

(** The history is what the abstract store does from [S] on. *)
Definition sequential (S : store) (h : list event) : Prop :=
  map he_reply h = (op_steps (map he_op h) S).1.

Lemma of_conn_app i h1 h2 : of_conn i (h1 ++ h2) = of_conn i h1 ++ of_conn i h2.
Proof. apply filter_app. Qed.

Lemma of_conn_one i e : of_conn i [e] = if decide (he_conn e = i) then [e] else [].
Proof. reflexivity. Qed.

Lemma op_steps_snoc l o S :
  op_steps (l ++ [o]) S
  = ((op_steps l S).1 ++ [(op_step (op_steps l S).2 o).1], (op_step (op_steps l S).2 o).2).
Proof.
  revert S. induction l as [|o' l IH]; intros S; cbn [app op_steps fst snd]; [by destruct (op_step S o)|].
  destruct (op_step S o') as [r S1]. rewrite IH. by destruct (op_steps l S1).
Qed.

(** No request is one of the commands a connection handles itself. *)
Lemma request_plain C cmd args o : asks C (cmd :: args) o -> plain (cmd, args).
Proof.
  intros (_ & _ & cmd' & [= <- _] & E). unfold plain, is_control. cbn [fst]. rewrite E.
  destruct o as [| | | | | | | | | | | |[]|[]| | | | | | | | | | | |]; vm_compute; reflexivity.
Qed.

Lemma Job_inj {W} (j j' : W -> outcome (task W) * W) (a a' : task W) : Job j a = Job j' a' -> j = j' /\ a = a'.
Proof. by intros [= -> ->]. Qed.

Section Linear.
Context {DB : Type} {RDB : RocksDB DB} {L : Type} {VM : LuaVM L} {LT : LuaTables} {X : Externals}.
Variable fuel : nat.
(** The clock and the random number that the commands read, in the order they
    run. *)
Variable draws : nat -> Z * Z.

(** The shared state, with the number of commands that have run. *)
Abbreviation timed := (nat * Shared DB L)%type.
Implicit Types (w : timed) (cl : Client).

Definition on_world {A} (m : M (Shared DB L) A) : M timed A := fun w => let '(r, s) := m w.2 in (r, (w.1, s)).

Definition run_timed cl (cmd : bytes) (args : list bytes) : M timed RespValue := fun w =>
  let '(r, s) := dispatch (1 + fuel) cl cmd args (at_time (draws w.1).1 (draws w.1).2 w.2) in (r, (S w.1, s)).

Lemma run_timed_count cl cmd args w : (run_timed cl cmd args w).2.1 = S w.1.
Proof. unfold run_timed. by destruct (dispatch _ _ _ _ _). Qed.

Lemma on_world_readonly {A} (m : M (Shared DB L) A) : readonly m -> readonly (on_world m).
Proof.
  intros Hr [n s]. unfold on_world. cbn [fst snd]. specialize (Hr s). destruct (m s) as [r s']. cbn in *. congruence.
Qed.

#[export] Instance timed_service : CommandService timed.
Proof.
  refine {|
    run_command := run_timed;
    read_meta cl k := on_world (fun s => on_part sh_storage set_storage (get_meta (command_context cl s) k) s);
    take_message cl w := '(ev, s) ← next_message cl w.2; Some (ev, (w.1, s));
    open_client w := let '(cl, s) := new_client w.2 in (cl, (w.1, s));
    close_client cl w := (w.1, drop_client cl w.2) |}.
  - intros cl cmd args w e. unfold run_timed. set (s := at_time _ _ _). pose proof (dispatch_cases fuel cl cmd args s) as Hd.
    destruct (dispatch (1 + fuel) cl cmd args s) as [r s']. destruct Hd as (_ & Hd & _). apply Hd.
  - intros cl k. apply on_world_readonly. intros s. apply on_part_readonly; [apply ro_get_meta|apply set_storage_same].
Defined.

(** ** The invariant *)

Variable rs : Z.
Abbreviation sv_step := (server_step rs (fun _ _ : timed => False)).
Implicit Types (sv : server timed) (c : connection timed) (h : list event) (i : Z).

Variables (s0 : Shared DB L) (S0 : store) (U0 : gset Z) (N C : Z).

Definition version (n : nat) : Z := generate_version (draws n).1 (draws n).2.
Definition drawn (n : nat) : gset Z := list_to_set (map version (seq 0 n)) ∪ U0.

(** What a connection has read and written of its part of a history: it waits,
    a reply is not written yet, a request has not run yet, or it is gone. *)
Definition follows h i c : Prop :=
  let mine := of_conn i h in
  match c_state c with
  | Idle tx => in_multi tx = false /\ parsed c = map he_words mine /\ replies (c_out c) = map he_reply mine
  | Busy _ (Write r tx) =>
      in_multi tx = false /\ parsed c = map he_words mine /\ replies (c_out c) ++ [r] = map he_reply mine
  | Busy _ t => exists cmd args tx,
      in_multi tx = false /\ t = dispatch_job (c_client c) cmd args (fun r => Write r tx)
      /\ parsed c = map he_words mine ++ [cmd :: args] /\ replies (c_out c) = map he_reply mine
  | Gone => exists waiting unsent,
      parsed c = map he_words mine ++ waiting /\ map he_reply mine = replies (c_out c) ++ unsent
      /\ (length waiting + length unsent <= 1)%nat
  end.

Record linear h sv : Prop := {
  li_pool : pool sv = true;
  li_config : sh_config (world sv).2 = sh_config s0;
  li_count : length h = (world sv).1;
  li_asked : Forall (fun e => asks C (he_words e) (he_op e)) h;
  li_sequential : sequential S0 h;
  li_store : store_repr (drawn (length h)) (N + Z.of_nat (length h) * C) (sh_storage (world sv).2)
               (op_steps (map he_op h) S0).2;
  li_known : Forall (fun e => is_Some (conns sv !! he_conn e)) h;
  li_conns : map_Forall (fun i c => client_namespace (c_client c) = [] /\ follows h i c) (conns sv) }.

(** The requests of all connections. *)
Definition all_ask sv : Prop :=
  map_Forall (fun _ c => Forall (fun args => exists o, asks C args o) (parsed c)) (conns sv).

Lemma of_conn_unknown h sv i :
  Forall (fun e => is_Some (conns sv !! he_conn e)) h -> conns sv !! i = None -> of_conn i h = [].
Proof.
  intros Hk Hi. unfold of_conn. induction Hk as [|e h [c He] _ IH]; [done|].
  rewrite filter_cons_False; [done|]. intros E. congruence.
Qed.

Lemma follows_other h e i c : he_conn e <> i -> follows h i c -> follows (h ++ [e]) i c.
Proof.
  intros Hne. unfold follows. rewrite of_conn_app, of_conn_one, decide_False by done. by rewrite app_nil_r.
Qed.

(** A step that leaves the database and the history alone. *)
Lemma linear_quiet h sv s i c :
  linear h sv -> sh_config s = sh_config s0 -> sh_storage s = sh_storage (world sv).2 ->
  client_namespace (c_client c) = [] -> follows h i c ->
  linear h (mkServer ((world sv).1, s) true (<[i:=c]> (conns sv))).
Proof.
  intros [H1 H2 H3 H4 H5 H6 H7 H8] Hc Hd Hn Hf. split; cbn [pool world conns fst snd]; try done.
  - by rewrite Hd.
  - apply (Forall_impl _ _ _ H7). intros e [c' He]. destruct (decide (he_conn e = i)) as [->|Hne];
      [rewrite lookup_insert_eq; eauto|rewrite lookup_insert_ne by done; eauto].
  - by apply map_Forall_insert_2.
Qed.

(** A job runs and is appended to the history. *)
Lemma linear_ran h sv s i c e :
  linear h sv -> sh_config s = sh_config s0 -> asks C (he_words e) (he_op e) -> he_conn e = i ->
  he_reply e = (op_step (op_steps (map he_op h) S0).2 (he_op e)).1 ->
  store_repr (drawn (length (h ++ [e]))) (N + Z.of_nat (length (h ++ [e])) * C) (sh_storage s)
    (op_step (op_steps (map he_op h) S0).2 (he_op e)).2 ->
  client_namespace (c_client c) = [] -> follows (h ++ [e]) i c ->
  linear (h ++ [e]) (mkServer (Datatypes.S (world sv).1, s) true (<[i:=c]> (conns sv))).
Proof.
  intros [H1 H2 H3 H4 H5 H6 H7 H8] Hc Ha Hi Hr Hd Hn Hf. split; cbn [pool world conns fst snd]; try done.
  - rewrite length_app. simpl. lia.
  - apply Forall_app. auto.
  - unfold sequential in *. rewrite !map_app. cbn [map]. rewrite op_steps_snoc. cbn [fst]. by rewrite H5, Hr.
  - rewrite map_app. cbn [map]. by rewrite op_steps_snoc.
  - apply Forall_app. split.
    + apply (Forall_impl _ _ _ H7). intros e' [c' He]. destruct (decide (he_conn e' = i)) as [->|Hne];
        [rewrite lookup_insert_eq; eauto|rewrite lookup_insert_ne by done; eauto].
    + apply Forall_singleton. rewrite Hi, lookup_insert_eq. eauto.
  - intros j c' [[<- <-]|[Hne Hj]]%lookup_insert_Some; [done|]. destruct (H8 j c' Hj). split; [done|].
    apply follows_other; congruence.
Qed.

(** *** Requests *)

(** A request that was parsed runs as one job. *)
Lemma request_task C' cl tx args o :
  asks C' args o -> in_multi tx = false ->
  exists cmd rest, args = cmd :: rest /\ handle_command cl tx args = dispatch_job cl cmd rest (fun r => Write r tx).
Proof.
  intros Ha Hm. destruct Ha as (H1 & H2 & cmd & -> & E). exists cmd, (op_args o). split; [done|].
  pose proof (handle_plain cl tx (cmd, op_args o)) as Hp. cbn [words fst snd] in Hp. rewrite Hm in Hp. apply Hp.
  eapply (request_plain C' cmd (op_args o) o). split; [done|]. split; [done|]. by exists cmd.
Qed.

Hypothesis Horder : forall u, score_order u ≡ₚ u.
Hypothesis HC : 0 <= C.

(** The versions of the first [n] commands are different and new. *)
Definition fresh_draws (n : nat) : Prop :=
  NoDup (map version (seq 0 n)) /\ Forall (fun v => v ∉ U0) (map version (seq 0 n)).

Lemma fresh_next n m : (n < m)%nat -> fresh_draws m -> version n ∉ drawn n.
Proof.
  intros Hn [Hd Hu]. unfold drawn. rewrite elem_of_union, elem_of_list_to_set.
  replace m with (n + Datatypes.S (m - n - 1))%nat in Hd, Hu by lia.
  rewrite seq_app, map_app in Hd, Hu. cbn [seq map] in Hd, Hu. rewrite Nat.add_0_l in Hd, Hu.
  apply NoDup_app in Hd as (_ & Hd & _). apply Forall_app in Hu as [_ Hu]. apply Forall_cons in Hu as [Hu _].
  intros [Hin|Hin]; [|done]. apply (Hd _ Hin). by left.
Qed.

Lemma drawn_next n : {[version n]} ∪ drawn n ⊆ drawn (Datatypes.S n).
Proof.
  unfold drawn. rewrite seq_S, map_app, list_to_set_app_L. cbn [map list_to_set]. rewrite Nat.add_0_l. set_solver.
Qed.

(** The job of a request on a database that represents a store. *)
Lemma request_runs h n s cl cmd rest o m :
  store_repr (drawn n) (N + Z.of_nat n * C) (sh_storage s) (op_steps (map he_op h) S0).2 ->
  asks C (cmd :: rest) o -> client_namespace cl = [] -> (n < m)%nat -> fresh_draws m -> N + Z.of_nat m * C < 2 ^ 61 ->
  let x := op_step (op_steps (map he_op h) S0).2 o in
  exists s', run_timed cl cmd rest (n, s) = (Ok x.1, (Datatypes.S n, s')) /\ sh_config s' = sh_config s
    /\ store_repr (drawn (Datatypes.S n)) (N + Z.of_nat (Datatypes.S n) * C) (sh_storage s') x.2.
Proof.
  intros Hr (Hok & Hcost & cmd' & [= <- ->] & E) Hns Hn Hf Hmax x.
  destruct (serve_refines fuel _ _ _ s (mkRequest cl cmd o (draws n).1 (draws n).2) Horder Hr) as (d' & R & Hr').
  - by split_and!.
  - by eapply fresh_next.
  - cbn [rq_op]. nia.
  - unfold serve in R. cbn [rq_client rq_word rq_op rq_clock rq_random] in R, Hr'.
    eexists. unfold run_timed. cbn [fst snd]. rewrite R. split; [done|]. split; [done|].
    eapply store_keep; [apply drawn_next| |exact Hr']. nia.
Qed.

(** ** Steps *)

Hypothesis Hnamespace : cfg_namespace (Config.server (sh_config s0)) = [].

Lemma follows_gone h i c : follows h i c -> follows h i (set_state Gone c).
Proof.
  unfold follows. cbn [c_state set_state parsed c_out]. destruct (c_state c) as [tx|l t|]; [| |done].
  - intros (_ & -> & ->). exists [], []. rewrite !app_nil_r. split_and!; [done|done|simpl; lia].
  - destruct t as [r tx| |job ab].
    + intros (_ & -> & <-). exists [], [r]. rewrite app_nil_r. split_and!; [done|done|simpl; lia].
    + by intros (cmd & args & tx & _ & E & _).
    + intros (cmd & args & tx & _ & _ & -> & ->). exists [cmd :: args], []. rewrite app_nil_r. split_and!; [done|done|simpl; lia].
Qed.

Lemma follows_out h i c out :
  replies out = replies (c_out c) -> follows h i c -> follows h i (mkConn (c_client c) (c_buf c) (c_state c) (parsed c) out).
Proof. intros E. unfold follows. cbn [c_state parsed c_out c_client]. by rewrite E. Qed.

(** A connection ends. *)
Lemma linear_ended h sv n s i c :
  world sv = (n, s) -> linear h sv -> conns sv !! i = Some c ->
  linear h (mkServer (ended c (n, s)).2 true (<[i:=(ended c (n, s)).1]> (conns sv))).
Proof.
  intros Ew Hl Hi. destruct (li_conns _ _ Hl i c Hi) as [Hn Hf]. pose proof (li_config _ _ Hl) as Hc.
  pose proof (linear_quiet h sv (drop_client (c_client c) s) i (set_state Gone c) Hl) as Hq. rewrite Ew in *.
  apply Hq; [exact Hc|done|exact Hn|by apply follows_gone].
Qed.

Lemma linear_advance h sv i c c' w p m :
  linear h sv -> conns sv !! i = Some c -> advance rs c (world sv) = Some (c', w, p) ->
  all_ask (mkServer w p (<[i:=c']> (conns sv))) -> fresh_draws m -> (w.1 <= m)%nat -> N + Z.of_nat m * C < 2 ^ 61 ->
  exists h', linear (h ++ h') (mkServer w p (<[i:=c']> (conns sv))).
Proof.
  intros Hl Hi Ha Hask Hfr Hm HN. destruct (li_conns _ _ Hl i c Hi) as [Hns Hf].
  destruct (world sv) as [n s] eqn:Ew. pose proof (li_config _ _ Hl) as Hcfg. rewrite Ew in Hcfg. cbn [snd] in Hcfg.
  assert (forall c1, client_namespace (c_client c1) = [] -> follows h i c1 ->
    exists h', linear (h ++ h') (mkServer (n, s) true (<[i:=c1]> (conns sv)))) as Hquiet.
  { intros c1 Hn1 Hf1. exists []. rewrite app_nil_r. pose proof (linear_quiet h sv s i c1 Hl) as Hq. rewrite Ew in Hq.
    by apply Hq. }
  assert (exists h', linear (h ++ h') (mkServer (ended c (n, s)).2 true (<[i:=(ended c (n, s)).1]> (conns sv)))) as Hend.
  { exists []. rewrite app_nil_r. by apply linear_ended. }
  unfold advance in Ha. pose proof Hf as Hf0. unfold follows in Hf. destruct (c_state c) as [tx|l t|] eqn:Es; [| |done].
  - destruct Hf as (Htx & Hp & Ho).
    destruct (parse_cmd rs (c_buf c)) as [[[args k]|]|e| |]; try done; injection Ha as <- <- <-; try exact Hend.
    apply Hquiet; [done|]. assert (exists o, asks C args o) as [o Hargs].
    { specialize (Hask i _ (lookup_insert_eq _ _ _)). cbn [parsed] in Hask. apply Forall_app in Hask as [_ Hask].
      exact (proj1 (Forall_singleton _ _) Hask). }
    destruct (request_task C (c_client c) tx args o Hargs Htx) as (cmd & rest & -> & Et).
    unfold follows. cbn [c_state parsed c_out c_client]. rewrite Et. exists cmd, rest, tx. by rewrite Hp.
  - destruct t as [r tx| |job ab].
    + destruct Hf as (Htx & Hp & Ho). injection Ha as <- <- <-. apply Hquiet; [done|].
      unfold follows. cbn [c_state parsed c_out]. by rewrite replies_reply.
    + destruct Hf as (cmd & args & tx & _ & E & _). discriminate E.
    + destruct Hf as (cmd & args & tx & Htx & E & Hp & Ho).
      assert (exists o, asks C (cmd :: args) o) as [o Hargs].
      { assert (parsed c' = parsed c) as Epc.
        { unfold ended in Ha. destruct (job (n, s)) as [[t1|e1| |] w1];
            (discriminate || by injection Ha as <- <- <-). }
        specialize (Hask i _ (lookup_insert_eq _ _ _)). cbv beta in Hask.
        rewrite Epc, Hp in Hask. apply Forall_app in Hask as [_ Hask].
        exact (proj1 (Forall_singleton _ _) Hask). }
      pose proof (li_store _ _ Hl) as Hst. pose proof (li_count _ _ Hl) as Hct. rewrite Ew in Hst, Hct. cbn [fst snd] in Hst, Hct.
      unfold dispatch_job in E. apply Job_inj in E as [-> ->]. rewrite Hct in Hst.
      destruct (request_runs h n s (c_client c) cmd args o m Hst Hargs Hns) as (s' & R & Hcfg' & Hst');
        [|done|done|].
      { pose proof (run_timed_count (c_client c) cmd args (n, s)) as Hw. cbn [run_command timed_service] in Ha.
        destruct (run_timed (c_client c) cmd args (n, s)) as [[r|e| |] w1];
          (discriminate || (injection Ha as <- <- <-; cbn in *; lia)). }
      cbn [run_command timed_service] in Ha. rewrite R in Ha. injection Ha as <- <- <-.
      set (e := mkEvent i (cmd :: args) o (op_step (op_steps (map he_op h) S0).2 o).1).
      exists [e]. pose proof (linear_ran h sv s' i) as Hran. rewrite Ew in Hran. cbn [fst] in Hran.
      apply Hran; [done|congruence|done|done|done| |done|].
      * replace (length (h ++ [e])) with (Datatypes.S n) by (rewrite length_app; simpl; lia). exact Hst'.
      * unfold follows. cbn [c_state set_state parsed c_out]. rewrite of_conn_app, of_conn_one, decide_True by done.
        rewrite !map_app. cbn [map he_words he_reply e]. by rewrite Hp, Ho.
Qed.

Lemma linear_step h sv sv' m :
  linear h sv -> sv_step sv sv' -> all_ask sv' -> fresh_draws m -> ((world sv').1 <= m)%nat ->
  N + Z.of_nat m * C < 2 ^ 61 -> exists h', linear (h ++ h') sv'.
Proof.
  intros Hl Hs Hask Hfr Hm HN. pose proof (li_pool _ _ Hl) as Hpool. pose proof (li_config _ _ Hl) as Hcfg.
  assert (forall i c s, sh_config s = sh_config s0 -> sh_storage s = sh_storage (world sv).2 ->
    client_namespace (c_client c) = [] -> follows h i c ->
    exists h', linear (h ++ h') (mkServer ((world sv).1, s) true (<[i:=c]> (conns sv)))) as Hquiet.
  { intros i c s H1 H2 H3 H4. exists []. rewrite app_nil_r. by apply linear_quiet. }
  assert (forall i c s, sh_config s = sh_config s0 -> sh_storage s = sh_storage (world sv).2 ->
    conns sv !! i = Some c -> exists h', linear (h ++ h')
      (mkServer (ended c ((world sv).1, s)).2 true (<[i:=(ended c ((world sv).1, s)).1]> (conns sv)))) as Hend.
  { intros i c s H1 H2 H3. destruct (li_conns _ _ Hl i c H3) as [Hn Hf]. apply Hquiet; [done|done|done|].
    by apply follows_gone. }
  assert (world sv = ((world sv).1, (world sv).2)) as Ew by by destruct (world sv).
  destruct Hs as [i cl w Hi Ho|i c chunk Hi Hw|i c Hi Hw|i c ev w Hi Hli Ht|i c l r tx Hi Hb|i c ev w Hi Hli Ht
                 |i c c' w p Hi Hp Ha|i c l job ab Hi Hp Hb|i c l job ab Hi Hp Hb|i c c' w p Hi Hp Hb Ha|w He];
    rewrite ?Hpool in *; try done; try (pose proof (li_conns _ _ Hl i c Hi) as [Hn Hf]).
  - cbn in Ho. injection Ho as <- <-. apply Hquiet; [done|done|cbn [c_client accept client_namespace]; by rewrite Hcfg|].
    unfold follows. cbn. by rewrite (of_conn_unknown h sv i (li_known _ _ Hl) Hi).
  - rewrite Ew. apply Hquiet; done.
  - rewrite Ew. by apply Hend.
  - cbn in Ht. unfold next_message in Ht. destruct (ps_boxes _ !! _) as [[|e q]|]; try done. injection Ht as <- <-.
    apply Hquiet; [done|done|done|]. by apply follows_out; [apply replies_push|].
  - rewrite Ew. by apply Hend.
  - cbn in Ht. unfold next_message in Ht. destruct (ps_boxes _ !! _) as [[|e q]|]; try done. injection Ht as <- <-.
    by apply Hend.
  - by eapply (linear_advance h sv i c).
Qed.

(** ** Runs *)

(** A step of a run in which at most [m] commands are executed. *)
Definition run_step (m : nat) sv sv' : Prop := sv_step sv sv' /\ ((world sv').1 <= m)%nat.

Lemma advance_parsed c w c' w' p : advance rs c w = Some (c', w', p) -> parsed c `prefix_of` parsed c'.
Proof.
  unfold advance, ended. intros H. destruct (c_state c) as [tx|l [r tx| |job ab]|]; [..|done].
  - destruct (parse_cmd rs (c_buf c)) as [[[args n]|]|e| |]; simplify_eq/=; (done || by eexists).
  - by simplify_eq/=.
  - by simplify_eq/=.
  - destruct (job w) as [[t|e| |] w1]; by simplify_eq/=.
Qed.

Lemma step_parsed sv sv' i c :
  sv_step sv sv' -> conns sv !! i = Some c -> exists c', conns sv' !! i = Some c' /\ parsed c `prefix_of` parsed c'.
Proof.
  intros Hs Hi.
  assert (forall j c1 c2, conns sv !! j = Some c1 -> parsed c1 `prefix_of` parsed c2 ->
    exists c', <[j:=c2]> (conns sv) !! i = Some c' /\ parsed c `prefix_of` parsed c') as Hins.
  { intros j c1 c2 Hj Hp. destruct (decide (j = i)) as [->|Hne];
      [rewrite lookup_insert_eq|rewrite lookup_insert_ne by done]; eexists; split; try done. by simplify_eq. }
  destruct Hs as [j cl w Hj Ho|j c1 chunk Hj Hw|j c1 Hj Hw|j c1 ev w Hj Hli Ht|j c1 l r tx Hj Hb|j c1 ev w Hj Hli Ht
                 |j c1 c2 w p Hj Hp Ha|j c1 l job ab Hj Hp Hb|j c1 l job ab Hj Hp Hb|j c1 c2 w p Hj Hp Hb Ha|w He];
    cbn [conns]; try (apply (Hins j c1); [done|]; try done; by eapply advance_parsed).
  - exists c. rewrite lookup_insert_ne by congruence. done.
  - by exists c.
Qed.

Lemma steps_ask m sv sv' : rtc (run_step m) sv sv' -> all_ask sv' -> all_ask sv.
Proof.
  induction 1 as [|sv sv1 sv2 [Hs _] _ IH]; [done|]. intros Hask i c Hi.
  destruct (step_parsed sv sv1 i c Hs Hi) as (c' & Hi' & Hp). specialize (IH Hask i c' Hi').
  cbv beta in IH |- *. destruct Hp as [l E]. rewrite E in IH. by apply Forall_app in IH as [IH _].
Qed.

Lemma linear_run m h sv sv' :
  fresh_draws m -> N + Z.of_nat m * C < 2 ^ 61 -> linear h sv -> rtc (run_step m) sv sv' -> all_ask sv' ->
  exists h', linear (h ++ h') sv'.
Proof.
  intros Hfr HN Hl Hr Hask. revert h Hl. induction Hr as [sv|sv sv1 sv2 [Hs Hm] Hr IH]; intros h Hl.
  - exists []. by rewrite app_nil_r.
  - destruct (linear_step h sv sv1 m Hl Hs (steps_ask m _ _ Hr Hask) Hfr Hm HN) as [h1 Hl1].
    destruct (IH Hask _ Hl1) as [h2 Hl2]. exists (h1 ++ h2). by rewrite app_assoc.
Qed.

(** What is seen of a history from outside. A connection has read its requests
    of the history, in their order, and at most one more that has not run; it
    has written the replies but at most one; one that waits for input has
    nothing pending. *)
Definition observed h i c : Prop :=
  let mine := of_conn i h in
  exists waiting unsent,
    parsed c = map he_words mine ++ waiting /\ map he_reply mine = replies (c_out c) ++ unsent
    /\ (length waiting + length unsent <= 1)%nat
    /\ forall tx, c_state c = Idle tx -> waiting = [] /\ unsent = [].

Record explains h sv : Prop := {
  ex_asked : Forall (fun e => asks C (he_words e) (he_op e)) h;
  ex_sequential : sequential S0 h;
  ex_store : store_repr (drawn (length h)) (N + Z.of_nat (length h) * C) (sh_storage (world sv).2)
               (op_steps (map he_op h) S0).2;
  ex_observed : map_Forall (observed h) (conns sv);
  ex_pool : pool sv = true }.

Lemma follows_observed h i c : follows h i c -> observed h i c.
Proof.
  unfold follows, observed. destruct (c_state c) as [tx|l [r tx| |job ab]|].
  - intros (_ & -> & ->). exists [], []. rewrite !app_nil_r. split_and!; [done|done|simpl; lia|done].
  - intros (_ & -> & <-). exists [], [r]. rewrite app_nil_r. split_and!; [done|done|simpl; lia|done].
  - intros (cmd & args & tx & _ & E & _). discriminate E.
  - intros (cmd & args & tx & _ & _ & -> & ->). exists [cmd :: args], []. rewrite app_nil_r.
    split_and!; [done|done|simpl; lia|done].
  - intros (waiting & unsent & H1 & H2 & H3). exists waiting, unsent. by split_and!.
Qed.

Lemma linear_explains h sv : linear h sv -> explains h sv.
Proof.
  intros [H1 H2 H3 H4 H5 H6 H7 H8]. split; try done. intros i c Hi. apply follows_observed. by apply H8.
Qed.

Lemma linear_start : store_repr U0 N (sh_storage s0) S0 -> linear [] (mkServer (0%nat, s0) true ∅).
Proof.
  intros Hr. split; try done; cbn [length map op_steps snd fst world].
  - eapply store_keep; [| |exact Hr]; [unfold drawn; set_solver|lia].
Qed.

(** C2: the server is linearizable. In a run of the server, with any number of
    connections, in any interleaving of their requests, jobs, messages, ends and
    failed writes, there is one history of requests such that each reply is
    that of the abstract store after the requests before it; every connection
    has read and been answered its part of the history, in order; and the
    database represents the store the history leaves. The history of a later
    state extends that of an earlier one, so a request that was answered comes
    before one that was sent afterwards. No command panics. *)
Theorem server_linearizable m sv1 sv2 :
  store_repr U0 N (sh_storage s0) S0 -> fresh_draws m -> N + Z.of_nat m * C < 2 ^ 61 ->
  rtc (run_step m) (mkServer (0%nat, s0) true ∅) sv1 -> rtc (run_step m) sv1 sv2 -> all_ask sv2 ->
  exists h1 h2, explains h1 sv1 /\ explains (h1 ++ h2) sv2.
Proof.
  intros Hr Hfr HN R1 R2 Hask. pose proof (steps_ask m _ _ R2 Hask) as Hask1.
  destruct (linear_run m [] _ _ Hfr HN (linear_start Hr) R1 Hask1) as [h1 H1]. cbn [app] in H1.
  destruct (linear_run m h1 _ _ Hfr HN H1 R2 Hask) as [h2 H2].
  exists h1, h2. split; by apply linear_explains.
Qed.

End Linear.

(** ** Two clients over the wire *)

Definition draws0 (n : nat) : Z * Z := (1000 + Z.of_nat n, 7).

#[local] Instance service0 : CommandService (nat * Shared MemDB (list frame)) := timed_service 0 draws0.

(** The moves of a run that executes at most [m] commands. *)
Fixpoint play_run (m : nat) (sv : server (nat * Shared MemDB (list frame))) (l : list act)
  : option (server (nat * Shared MemDB (list frame))) :=
  match l with
  | [] => Some sv
  | a :: l => sv ← play sv a; if ((world sv).1 <=? m)%nat then play_run m sv l else None
  end.

Lemma play_runs m sv l sv' : play_run m sv l = Some sv' -> rtc (run_step 0 draws0 40 m) sv sv'.
Proof.
  revert sv. induction l as [|a l IH]; intros sv H; simpl in H; [by injection H as <-|].
  destruct (play sv a) as [sv1|] eqn:E; [|done]. simpl in H. destruct (_ <=? m)%nat eqn:Em; [|done].
  eapply rtc_l; [|by apply IH]. split; [by apply (play_step _ sv a sv1 E)|by apply Nat.leb_le].
Qed.

Definition start0 : server (nat * Shared MemDB (list frame)) := mkServer (0%nat, shared0) true ∅.

(** Client 0 writes a key and reads it; client 1 increments it in between, and
    has sent one more request that is not executed yet. *)
Definition moves1 : list act :=
  [Connect 0; Connect 1; Input 0 (encode [bs "set"; bs "k"; bs "41"] ++ encode [bs "GET"; bs "k"]);
   Input 1 (encode [bs "INCR"; bs "k"]); Move 0; Move 1; Move 0; Move 0].
Definition moves2 : list act := [Move 1; Move 1; Move 0; Move 0; Move 0; Input 1 (encode [bs "del"; bs "k"]); Move 1].

Definition state1 := default start0 (play_run 3 start0 moves1).
Definition state2 := default start0 (play_run 3 state1 moves2).

Lemma played {A} (d : A) (o : option A) : match o with Some _ => true | None => false end = true -> o = Some (default d o).
Proof. by destruct o. Qed.

Example state2_output :
  (c_out <$> conns state2 !! 0, c_out <$> conns state2 !! 1)
  = (Some [Replied OK; Replied (bulk (bs "42"))], Some [Replied (Integer 42)]).
Proof. vm_compute. reflexivity. Qed.

Lemma all_ask_list {DB L} C (sv : server (nat * Shared DB L)) :
  Forall (Forall (fun args => exists o, asks C args o)) (map (fun p => parsed p.2) (map_to_list (conns sv))) ->
  all_ask C sv.
Proof. intros H. apply map_Forall_to_list. rewrite Forall_map in H. apply (Forall_impl _ _ _ H). by intros [i c]. Qed.

Lemma asks_intro C cmd o :
  forallb (fun k => blen k <? 2 ^ 24) (op_keys o) = true -> op_args_ok o -> op_cost o <= C ->
  to_ascii_uppercase (from_utf8_lossy cmd) = bs (op_name o) -> exists o', asks C (cmd :: op_args o) o'.
Proof.
  intros Hk Ho Hc Hn. exists o.
  destruct (request_ok_intro (mkRequest client0 cmd o 0 0) eq_refl Hk Hn Ho) as (_ & Hok & _).
  split; [exact Hok|]. split; [exact Hc|]. by exists cmd.
Qed.

Lemma state2_asks : all_ask 0 state2.
Proof.
  apply all_ask_list.
  assert (map (fun p => parsed p.2) (map_to_list (conns state2))
    = [[bs "INCR" :: op_args (OIncr (bs "k")); bs "del" :: op_args (ODel [bs "k"])];
       [bs "set" :: op_args (OSet (bs "k") (bs "41")); bs "GET" :: op_args (OGet (bs "k"))]]) as ->
    by (vm_compute; reflexivity).
  repeat (apply Forall_cons; split); try apply Forall_nil_2;
    (apply asks_intro; [vm_compute; reflexivity| |cbn; lia|vm_compute; reflexivity]); try exact I.
  split; [discriminate|by vm_compute].
Qed.

Lemma server_linearizable_witness :
  exists h1 h2, explains draws0 ∅ ∅ 0 0 h1 state1 /\ explains draws0 ∅ ∅ 0 0 (h1 ++ h2) state2.
Proof.
  apply (server_linearizable 0 draws0 40 shared0 ∅ ∅ 0 0 ltac:(done) ltac:(lia) eq_refl 3 state1 state2).
  - exact store0.
  - split; apply (bool_decide_unpack _); vm_compute; exact I.
  - lia.
  - apply (play_runs 3 start0 moves1), played. vm_compute. reflexivity.
  - apply (play_runs 3 state1 moves2), played. vm_compute. reflexivity.
  - exact state2_asks.
Defined.
